(* ===== verification/_CoqProject ===== *)
-Q . S2P
Prelude.v
Params.v
State.v
Spinlock.v
Printk.v
Sched.v
Sleeplock.v
CString.v
Kalloc.v
Vm.v
Usercopy.v
Bio.v
Cache.v
Log.v
Commit.v
Crash.v
Ide.v
Txn.v
Fs.v
Blocks.v
Inodes.v
Files.v
Dirs.v
Mkfs.v
Mount.v
Pipe.v
File.v
Proc.v
Sysargs.v
Exec.v
Sysfile.v
Console.v
Tty.v
Trap.v
Mp.v
Bootmain.v
Ulib.v
Umalloc.v
Uproc.v
Progs.v
Grep.v
Sh.v
Shrun.v
Cthreads.v
Ucthreads.v
Semaphore.v
Paging.v
