(* ===== verification/Prelude.v ===== *)
(** * xv6-kthreads: a verification library

    xv6-kthreads is the teaching kernel xv6 with kernel threads ([clone],
    [join], [park], [unpark]) and a user-level thread library on top of them.
    This library models the kernel, the programs that come with it, the
    program that builds its disk image and its boot loader, and proves that
    they do what they are for.

    ** The parts and how they interact

    The boot loader (bootmain.c) loads the kernel, which finds the processors
    (mp.c), sets up its interrupt controllers, page allocator and page tables,
    and runs processes.  A process enters the kernel through a trap (trap.c),
    which dispatches interrupts to the drivers and system calls (syscall.c) to
    sysproc.c and sysfile.c.  These work on the process table (proc.c), on
    address spaces (vm.c, kalloc.c, exec.c) and on open files (file.c), which
    are pipes (pipe.c), devices (console.c) or inodes (fs.c).  The file system
    changes the disk in transactions of a write-ahead log (log.c), through a
    cache of blocks (bio.c) that a driver (ide.c, memide.c) moves.  mkfs.c
    makes the image the kernel starts from.  In user space there are a library
    (ulib.c, printf.c, umalloc.c, ucthreads.c), the shell and small programs.

    ** How code is translated

    - Kernel code is a computation of the monad [M] of this file, with the
      kernel's globals as state ([State.v]: [sync] for locks and CPUs, [data]
      for the rest); [K A] is its type.  An outcome is a value, a panic, a
      wild access ([Fault]), a thread that sleeps for ever ([Blocked]), a
      thread that ends ([Exited]) or a bound that was hit ([NoFuel]).
    - Integers are [Z], wrapped by [u8], [u16], [u32], [i16], [i32] where the
      C type is that narrow.  Memory is a function from addresses to bytes;
      blocks and buffers are lists of bytes.
    - What other CPUs and threads do is data of a run: [noise] lists what
      happens while this thread waits for a spinlock, [wake] what happens
      between each switch away from it and the switch back.  [runs] and
      [panics] ([Spinlock.v]) specify code that does not sleep, [execs] and
      [blocks] ([Sched.v]) code that does, for every script in which the
      others keep to what they promise.
    - Programs outside the kernel that run alone (mkfs, malloc, the boot
      loader, device set-up) use the same monad with their own state and are
      specified by [does].  Threads of the thread library are interleaved step
      by step by an inductive relation.  Programs that are mostly system calls
      are trees of calls ([Uproc.v]).
    - Structs are records with the update notation of this file; pointers into
      static arrays are indices; null is [None] or 0.

    ** The files

    Foundations.  [Prelude]: record update, machine integers, the monad,
    sequential programs.  [Params]: param.h, memlayout.h, mmu.h, fs.h and other
    constants.  [State]: the structs and globals.  [Spinlock]: spinlock.c,
    mycpu and myproc.  [Sched]: sched, yield, sleep, wakeup and kill of proc.c,
    and the rule for loops that sleep.  [Sleeplock]: sleeplock.c.  [CString]:
    string.c and words in memory.  [Printk]: cprintf, the CGA screen, uartputc.

    Memory.  [Kalloc]: kalloc.c.  [Vm]: vm.c.  [Paging]: what walkpgdir and
    mappages do to an address space.  [Usercopy]: the copies between user and
    kernel memory at the end of proc.c.

    Disk and file system.  [Bio]: bio.c and memide.c, with the driver as a class
    [BlockDev]; [Cache]: the cache is coherent.  [Ide]: ide.c, with the
    controller as a class [IdePorts].  [Log]: log.c; [Commit] and [Crash]:
    commit and recovery as sequences of block writes, cut by a crash; [Txn]:
    whole transactions.  [Fs]: fs.c; [Blocks]: balloc and bfree; [Inodes]:
    iupdate and ilock; [Files]: readi and writei; [Dirs]: iget and dirlookup.
    [Mkfs]: mkfs.c.  [Mount]: a kernel on an image of mkfs.

    Processes and files.  [Pipe]: pipe.c.  [File]: file.c.  [Proc]: the rest of
    proc.c.  [Sysargs]: syscall.c and sysproc.c.  [Exec]: exec.c.  [Sysfile]:
    sysfile.c.  [Console]: console input, kbd.c, uart.c, procdump.  [Tty]: the
    console as a line editor.  [Trap]: trap.c and the dispatch of system calls.

    Start.  [Mp]: mp.c, ioapic.c, lapic.c, picirq.c.  [Bootmain]: bootmain.c.

    User space.  [Ulib]: ulib.c, printf.c.  [Umalloc]: umalloc.c.  [Uproc]:
    programs as trees, processes with descriptor tables.  [Progs]: cat.c,
    echo.c, init.c, kill.c, ln.c, ls.c, mkdir.c, rm.c, wc.c, zombie.c.  [Grep]:
    grep.c.  [Sh]: the parser of sh.c; [Shrun]: runcmd, getcmd and main.
    [Cthreads]: cthread_create and cthread_join; [Ucthreads]: the queue and the
    ticket lock; [Semaphore]: spinlocks and semaphores of ucthreads.c, on the
    kernel's park and unpark.

    ** What the theorems show

    - Crash safety: a crash between any two block writes of [commit] or of
      recovery leaves all of a transaction or nothing ([Crash]); a transaction
      runs to completion and its updates, and only they, reach the disk
      ([Txn]).
    - File system: allocation of blocks, reading and writing of inodes and
      file contents, lookup of names, each with what it leaves alone and when
      it panics ([Blocks], [Inodes], [Files], [Dirs]); mkfs terminates and
      builds a well-formed image whose files the kernel's code reads back
      ([Mkfs], [Mount]).
    - Concurrency: pipes are first-in-first-out among concurrent readers and
      writers ([Pipe]); as long as no thread is killed inside, semaphores lose
      no wake-up and their counter accounts for every permit; spinlocks used in
      any nesting exclude, the ticket lock is fair, the queue is a queue
      ([Semaphore], [Ucthreads]).
    - Memory: the page allocator hands out disjoint pages and loses none
      ([Kalloc]); so does malloc, which also returns, for requests below
      2^31 - 16 bytes ([Umalloc]); mappages maps exactly its range, or panics
      on a page of it that is mapped ([Paging]).
    - Processes, traps, devices: allocproc on every path, with the trap frame
      and the context it places on the new kernel stack ([Proc]), the gates
      of the interrupt table ([Trap]), the console refines a line editor
      ([Tty]), the keyboard driver decodes scan codes as an abstract keyboard
      does ([Console]); the boot loader places every segment of a kernel whose
      segments keep their distance ([Bootmain]); the tables of the firmware,
      the interrupt controllers and the clock are read and set as intended
      ([Mp]).
    - User programs: the shell's parser ends, inverts printing and terminates
      every word ([Sh]), and its commands run with the right descriptors
      ([Shrun], where every fork succeeds); grep decides the meaning of its patterns and prints the
      matching lines ([Grep]); cat, wc and echo print what they should
      ([Progs]).
    - Where the code does not do what it means to, a theorem says what it does
      instead: the log takes more operations than it has room for
      ([Txn.log_overcommit]), a process can be born killed
      ([Proc.born_killed]), malloc wraps ([Umalloc.malloc_wraps]), grep forgets
      the beginning of a line ([Grep.grep_forgets]), mpinit hangs
      ([Mp.mpinit_hangs]), a second join frees a stack twice
      ([Cthreads.cthread_join_twice]), a thread cut while it waits takes a
      wake-up with it ([Semaphore.sem_kill_loses]), malloc hands out memory
      beyond the heap ([Umalloc.malloc_beyond]), a read to user address 0
      fails after it has copied ([Pipe.piperead_fifo]).

    ** Bounds

    A loop over data has the size of the data as its bound, written at the
    loop: pages of a range, blocks of a read, entries of a directory,
    characters of a path; one or two rounds more make room for a partial first
    or last piece.  A loop that sleeps goes round at most once per entry of the
    [wake] script, so that its bound is never hit ([Sched], section
    SleepLoop).  The parser's fuel is computed from the line and shown to be
    enough ([Sh.parsecmd_ends]); malloc's bound is the number of headers the
    heap can hold, twice ([Umalloc.malloc_returns]).  Loops that wait for
    hardware or for other programs take their fuel as an argument, and the
    theorems about them ask for enough of it ([Bootmain], [Mp], [Grep],
    [Progs]).  The specifications say that a value is returned; [NoFuel] is
    not one.

    ** Not modelled

    - Assembly (bootasm.S, entry.S, entryother.S, initcode.S, swtch.S,
      trapasm.S, usys.S, the generated vectors.S): the switch is an entry of
      the script, the trap entry is the trap frame that [trap] is given, the
      address of each vector is a parameter.
    - main.c: a fixed sequence of calls of the initialisations that are
      modelled with their components, with assembly around it.
    - usertests.c, clonetest.c, forktest.c, stressfs.c: programs that test the
      system and print whether it behaved; what they test is what the theorems
      state.
    - The scheduler's endless loop is modelled by its pass over the table
      ([Proc.scheduler_pass]); time, the TLB and the caches of the CPU are not.
    - The output that [panic] prints before it stops the machine, uartinit's
      setting of the line speed, idtinit's one instruction, and wrappers of
      single instructions (x86.h), which appear as their effect.
*)

From stdpp Require Export gmap strings list fin_maps.
From Stdlib Require Export ZArith Lia.

#[global] Open Scope Z_scope.

(** * Record update

    The C code assigns single struct fields; [r <|f := v|>] is the record [r]
    with field [f] replaced.  A record type opts in by declaring its eta
    expansion. *)

Class Eta (R : Type) := eta : R -> R.
Class Setter {R E : Type} (proj : R -> E) := upd : (E -> E) -> R -> R.
Arguments upd {R E} proj {_} f r : simpl never.

Ltac build_setter :=
  match goal with
  | |- @Setter ?R ?E ?proj =>
      let i := constr:(_ : Eta R) in
      let e := eval hnf in i in
      match eval pattern proj in e with
      | ?g _ =>
          let s := eval cbv beta in
            (fun (f : E -> E) => g (fun r => f (proj r))) in
          exact s
      end
  end.
#[global] Hint Extern 1 (Setter _) => build_setter : typeclass_instances.

Declare Scope record_scope.
Delimit Scope record_scope with rec.
#[global] Open Scope record_scope.
Notation "r <| p := v |>" := (upd p (fun _ => v) r)
  (at level 1, left associativity, format "r  <| p  :=  v |>") : record_scope.
Notation "r <| p ::= f |>" := (upd p f r)
  (at level 1, left associativity, format "r  <| p  ::=  f |>") : record_scope.

(** [getset] reads fields through updates: the goal's [p (r <|q := v|>)]
    becomes [v] or [p r]. *)
Ltac getset_step :=
  match goal with
  | |- context [ ?p (@upd ?R ?E ?q ?s ?f ?r) ] =>
      first [ change (p (@upd R E q s f r)) with (f (p r)); cbv beta
            | change (p (@upd R E q s f r)) with (p r) ]
  end.
Ltac getset := repeat getset_step.
Ltac getset_in_step H :=
  match type of H with
  | context [ ?p (@upd ?R ?E ?q ?s ?f ?r) ] =>
      first [ change (p (@upd R E q s f r)) with (f (p r)) in H; cbv beta in H
            | change (p (@upd R E q s f r)) with (p r) in H ]
  end.
Ltac getset_in H := repeat getset_in_step H.

(** * Machine integers

    [uint] and [int] are 32 bits wide.  Values are kept in [Z]; [u32] and
    [i32] are the conversions that the C operators apply to their results. *)

Definition two32 : Z := 4294967296.
Definition two31 : Z := 2147483648.
Definition u32 (z : Z) : Z := z mod two32.
Definition i32 (z : Z) : Z := (z + two31) mod two32 - two31.
Definition u8 (z : Z) : Z := z mod 256.
Definition u16 (z : Z) : Z := z mod 65536.

Lemma u32_small z : 0 <= z < two32 -> u32 z = z.
Proof. apply Z.mod_small. Qed.

Lemma u32_range z : 0 <= u32 z < two32.
Proof. apply Z.mod_pos_bound. reflexivity. Qed.

Lemma u8_range z : 0 <= u8 z < 256.
Proof. apply Z.mod_pos_bound. reflexivity. Qed.

Lemma i32_small z : - two31 <= z < two31 -> i32 z = z.
Proof. unfold i32, two31, two32. intros. rewrite Z.mod_small; lia. Qed.

Lemma i32_range z : - two31 <= i32 z < two31.
Proof.
  unfold i32. pose proof (Z.mod_pos_bound (z + two31) two32 eq_refl).
  unfold two31, two32 in *. lia.
Qed.

Create HintDb cint.
#[export] Hint Rewrite u32_small i32_small using (unfold two31, two32 in *; lia) : cint.

(** * Outcomes and the kernel monad

    Kernel code runs on one CPU, in one thread, against a state [S].  It can
    return, call [panic], dereference a null or out-of-range pointer
    ([Fault]), wait for something that never happens ([Blocked]) or give up
    the CPU for good ([Exited]).  [NoFuel] marks a loop whose bound was too
    small; the termination theorems show that it does not occur.

    The other CPUs and the other threads are a script given from outside:
    [noise] lists what they do to the state just before each attempt of this
    thread to take a spinlock, [wake] lists what happens between each switch
    away from this thread and the switch back.  An empty [noise] is a run in
    which nobody interferes; when [wake] is empty, a switch never returns. *)

Inductive outcome (A : Type) : Type :=
| Ret (a : A)
| Panic (msg : string)
| Fault
| Blocked
| Exited
| NoFuel.
Arguments Ret {A} a.
Arguments Panic {A} msg.
Arguments Fault {A}.
Arguments Blocked {A}.
Arguments Exited {A}.
Arguments NoFuel {A}.

Record world (S : Type) := World {
  now : S;
  noise : list (S -> S);
  wake : list (S -> S)
}.
Arguments World {S} now noise wake.
Arguments now {S} w.
Arguments noise {S} w.
Arguments wake {S} w.

Definition M (S A : Type) : Type := world S -> outcome A * world S.

Section Monad.
Context {S : Type}.

Definition ret {A} (a : A) : M S A := fun w => (Ret a, w).

Definition bind {A B} (m : M S A) (f : A -> M S B) : M S B := fun w =>
  match m w with
  | (Ret a, w') => f a w'
  | (Panic s, w') => (Panic s, w')
  | (Fault, w') => (Fault, w')
  | (Blocked, w') => (Blocked, w')
  | (Exited, w') => (Exited, w')
  | (NoFuel, w') => (NoFuel, w')
  end.

Definition stop {A} (o : outcome A) : M S A := fun w => (o, w).
Definition panic {A} (msg : string) : M S A := stop (Panic msg).
Definition fault {A} : M S A := stop Fault.

Definition gets {A} (f : S -> A) : M S A :=
  fun w => (Ret (f (now w)), w).
Definition modify (f : S -> S) : M S unit :=
  fun w => (Ret tt, World (f (now w)) (noise w) (wake w)).

(** An optional value that the code dereferences without a test. *)
Definition deref {A} (o : option A) : M S A :=
  match o with Some a => ret a | None => fault end.

(** How many switches back to this thread the script still holds: the bound
    of the loops that sleep. *)
Definition wakeups : M S nat := fun w => (Ret (length (wake w)), w).

Definition when (b : bool) (m : M S unit) : M S unit :=
  if b then m else ret tt.

(** A loop with its variables in [X]: [inl x] goes round again, [inr b]
    leaves the loop. *)
Fixpoint loop {X B} (fuel : nat) (body : X -> M S (X + B)) (x : X) : M S B :=
  match fuel with
  | O => stop NoFuel
  | Datatypes.S n =>
      bind (body x) (fun r =>
        match r with
        | inl x' => loop n body x'
        | inr b => ret b
        end)
  end.

(** A loop that sleeps in every round but the last: it can go round at most
    once per wake-up. *)
Definition retry {B} (body : unit -> M S (unit + B)) : M S B :=
  bind wakeups (fun n => loop (Datatypes.S n) body tt).

(** [for] over a fixed range: [Some b] breaks out with [b]. *)
Fixpoint foreach {A B} (l : list A) (body : A -> M S (option B)) : M S (option B) :=
  match l with
  | [] => ret None
  | a :: l =>
      bind (body a) (fun r =>
        match r with
        | Some b => ret (Some b)
        | None => foreach l body
        end)
  end.

Fixpoint iter {A} (l : list A) (body : A -> M S unit) : M S unit :=
  match l with
  | [] => ret tt
  | a :: l => bind (body a) (fun _ => iter l body)
  end.
End Monad.

Declare Scope kernel_scope.
Delimit Scope kernel_scope with kernel.
#[global] Open Scope kernel_scope.
Notation "x <- m ;; k" := (bind m (fun x => k))
  (at level 100, m at next level, right associativity) : kernel_scope.
Notation "' p <- m ;; k" := (bind m (fun x => match x with p => k end))
  (at level 100, p pattern, m at next level, right associativity) : kernel_scope.
Notation "m ;; k" := (bind m (fun _ => k))
  (at level 100, right associativity) : kernel_scope.

Section MonadLemmas.
Context {S : Type}.
Implicit Types w : world S.

Lemma bind_Ret {A B} (m : M S A) (f : A -> M S B) w a w' :
  m w = (Ret a, w') -> bind m f w = f a w'.
Proof. unfold bind. by intros ->. Qed.

Lemma bind_ret_l {A B} (a : A) (f : A -> M S B) w : bind (ret a) f w = f a w.
Proof. reflexivity. Qed.

Lemma bind_gets {A B} (g : S -> A) (f : A -> M S B) w :
  bind (gets g) f w = f (g (now w)) w.
Proof. reflexivity. Qed.

Lemma bind_modify {B} (g : S -> S) (f : unit -> M S B) w :
  bind (modify g) f w = f tt (World (g (now w)) (noise w) (wake w)).
Proof. reflexivity. Qed.

Lemma bind_bind {A B C} (m : M S A) (f : A -> M S B) (g : B -> M S C) w :
  bind (bind m f) g w = bind m (fun a => bind (f a) g) w.
Proof. unfold bind. by destruct (m w) as [[] ?]. Qed.

Lemma bind_inv {A B} (m : M S A) (f : A -> M S B) w b w2 :
  bind m f w = (Ret b, w2) ->
  exists a w1, m w = (Ret a, w1) /\ f a w1 = (Ret b, w2).
Proof.
  unfold bind. destruct (m w) as [[] w1] eqn:E; intros; try discriminate.
  eauto.
Qed.

Lemma loop_unfold {X B} n (body : X -> M S (X + B)) x :
  loop (Datatypes.S n) body x =
  bind (body x) (fun r => match r with inl x' => loop n body x' | inr b => ret b end).
Proof. reflexivity. Qed.
End MonadLemmas.

(** ** Sequential programs

    Programs outside the kernel run alone: [m] returns [a] and leaves [s']. *)
Section Does.
Context {S : Type}.

Definition does {A} (m : M S A) (s : S) (a : A) (s' : S) : Prop :=
  forall ns wk, m (World s ns wk) = (Ret a, World s' ns wk).

Lemma does_ret {A} (a : A) s : does (ret a) s a s.
Proof. done. Qed.
Lemma does_gets {A} (f : S -> A) s : does (gets f) s (f s) s.
Proof. done. Qed.
Lemma does_modify f s : does (modify f) s tt (f s).
Proof. done. Qed.
Lemma does_bind {A B} (m : M S A) (f : A -> M S B) s1 s2 s3 a b :
  does m s1 a s2 -> does (f a) s2 b s3 -> does (bind m f) s1 b s3.
Proof. intros H1 H2 ns wk. unfold bind. by rewrite H1, H2. Qed.
Lemma does_fun {A} (m : M S A) s a s1 b s2 : does m s a s1 -> does m s b s2 -> s1 = s2.
Proof. intros H1 H2. specialize (H1 [] []). specialize (H2 [] []). congruence. Qed.
Lemma does_seq {A} (m n : M S unit) (k : M S A) s1 s2 s3 a :
  does (m;; n) s1 tt s2 -> does k s2 a s3 -> does (m;; n;; k) s1 a s3.
Proof.
  intros H1 H2 ns wk. specialize (H1 ns wk). unfold bind in *.
  destruct (m (World s1 ns wk)) as [[] w]; try done.
  destruct (n w) as [[] w']; try done. injection H1 as -> ->. apply H2.
Qed.
Lemma does_loop_more {X B} n (body : X -> M S (X + B)) x x' s1 s2 s3 b :
  does (body x) s1 (inl x') s2 -> does (loop n body x') s2 b s3 ->
  does (loop (Datatypes.S n) body x) s1 b s3.
Proof. intros H1 H2. cbn [loop]. eapply does_bind; [exact H1|exact H2]. Qed.
Lemma does_loop_stop {X B} n (body : X -> M S (X + B)) x s1 s2 b :
  does (body x) s1 (inr b) s2 -> does (loop (Datatypes.S n) body x) s1 b s2.
Proof. intros H1. cbn [loop]. eapply does_bind; [exact H1|done]. Qed.

End Does.

Create HintDb does.
#[export] Hint Resolve does_ret does_gets does_modify : does.

(** [dstep] runs the first statement of a sequence. *)
Ltac dstep := eapply does_bind; [solve [autounfold with does; auto with does]|]; cbv beta.

(** A decidable fact about the numbers of a range, by computation *)
Lemma forallb_range (f : Z -> bool) a n x : forallb f (seqZ a n) = true -> a <= x < a + n -> f x = true.
Proof. rewrite forallb_forall. intros H Hx. apply H, list_elem_of_In, elem_of_seqZ. lia. Qed.

(** A bounded search succeeds at a least index or fails everywhere. *)
Lemma least_index (P : nat -> Prop) `{forall i, Decision (P i)} n :
  (forall i, (i < n)%nat -> ~ P i) \/
  exists i, (i < n)%nat /\ P i /\ forall j, (j < i)%nat -> ~ P j.
Proof.
  induction n as [|n [IH|(i & Hi & Hp & Hj)]]; [left; lia| |right; exists i; split; [lia|done]].
  destruct (decide (P n)) as [Hn|Hn]; [right; by exists n; split; [lia|]|].
  left. intros i Hi. destruct (decide (i = n)) as [->|]; [done|]. apply IH. lia.
Qed.
