(* ===== verification/State.v ===== *)
(** * The kernel state

    The structs of the C headers as records ([proc.h], [spinlock.h],
    [sleeplock.h], [file.h], [fs.h], [buf.h], [x86.h]) and the kernel's
    globals collected in two records: [sync], what the locking primitives
    touch (the executing CPU, [cpus], every spinlock), and [data], all the
    rest.  Kernel code has type [K A].

    A pointer into a static array is the array index; a pointer that may be
    null is an [option].  A spinlock lives inside the struct it protects; its
    address is a [lockid], and the locks are one map from these.  The value of
    a channel is the address it stands for: a [chan]. *)

From S2P Require Import Prelude Params.

(** ** Addresses *)

(** Sleep-locks: one per cached inode, one per disk buffer. *)
Inductive slid : Set := SInode (i : nat) | SBuf (b : nat).

(** Spinlocks. [LSleep s] is the spinlock inside sleep-lock [s]; a pipe lives
    in a page of its own and is named by the page's address. *)
Inductive lockid : Set :=
| LPtable | LVlock (i : nat) | LCwd (i : nat) | LKmem | LFtable | LIcache
| LBcache | LLog | LCons | LIde | LTicks | LSleep (s : slid) | LPipe (p : Z).

(** Values of [void *chan].  [CAddr] is a plain number, as passed to
    [park]; [CAddr 0] is the null pointer. *)
Inductive chan : Set :=
| CAddr (a : Z) | CProc (i : nat) | CSleep (s : slid) | CBuf (b : nat)
| CLog | CTicks | CPipeR (p : Z) | CPipeW (p : Z) | CInput.

Definition null : chan := CAddr 0.

#[global] Instance slid_eq_dec : EqDecision slid.
Proof. solve_decision. Defined.
#[global] Instance lockid_eq_dec : EqDecision lockid.
Proof. solve_decision. Defined.
#[global] Instance chan_eq_dec : EqDecision chan.
Proof. solve_decision. Defined.

#[global] Instance slid_countable : Countable slid.
Proof.
  refine (inj_countable'
    (fun s => match s with SInode i => (0%nat, i) | SBuf b => (1%nat, b) end)
    (fun p => match p.1 with O => SInode p.2 | _ => SBuf p.2 end) _).
  by intros [].
Defined.

#[global] Instance lockid_countable : Countable lockid.
Proof.
  refine (inj_countable'
    (fun l => match l with
      | LPtable => inl (inl 0%nat) | LKmem => inl (inl 1%nat)
      | LFtable => inl (inl 2%nat) | LIcache => inl (inl 3%nat)
      | LBcache => inl (inl 4%nat) | LLog => inl (inl 5%nat)
      | LCons => inl (inl 6%nat) | LIde => inl (inl 7%nat)
      | LTicks => inl (inl 8%nat)
      | LVlock i => inl (inr (0%nat, i)) | LCwd i => inl (inr (1%nat, i))
      | LSleep s => inr (inl s) | LPipe p => inr (inr p)
      end)
    (fun c => match c with
      | inl (inl 0%nat) => LPtable | inl (inl 1%nat) => LKmem
      | inl (inl 2%nat) => LFtable | inl (inl 3%nat) => LIcache
      | inl (inl 4%nat) => LBcache | inl (inl 5%nat) => LLog
      | inl (inl 6%nat) => LCons | inl (inl 7%nat) => LIde
      | inl (inl _) => LTicks
      | inl (inr (0%nat, i)) => LVlock i | inl (inr (_, i)) => LCwd i
      | inr (inl s) => LSleep s | inr (inr p) => LPipe p
      end) _).
  by intros [].
Defined.

(** ** Processes: proc.h, x86.h *)

Inductive procstate : Set := UNUSED | EMBRYO | SLEEPING | RUNNABLE | RUNNING | ZOMBIE.
#[global] Instance procstate_eq_dec : EqDecision procstate.
Proof. solve_decision. Defined.

(** The trap frame; the padding words are left out. *)
Record trapframe := TF {
  tf_edi : Z; tf_esi : Z; tf_ebp : Z; tf_oesp : Z;
  tf_ebx : Z; tf_edx : Z; tf_ecx : Z; tf_eax : Z;
  tf_gs : Z; tf_fs : Z; tf_es : Z; tf_ds : Z; tf_trapno : Z;
  tf_err : Z; tf_eip : Z; tf_cs : Z; tf_eflags : Z; tf_esp : Z; tf_ss : Z
}.
#[global] Instance eta_trapframe : Eta trapframe := fun t =>
  TF (tf_edi t) (tf_esi t) (tf_ebp t) (tf_oesp t) (tf_ebx t) (tf_edx t)
     (tf_ecx t) (tf_eax t) (tf_gs t) (tf_fs t) (tf_es t) (tf_ds t)
     (tf_trapno t) (tf_err t) (tf_eip t) (tf_cs t) (tf_eflags t)
     (tf_esp t) (tf_ss t).

(** The trap frame that [memset] to zero leaves. *)
Definition zero_tf : trapframe := TF 0 0 0 0 0 0 0 0 0 0 0 0 0 0 0 0 0 0 0.

(** Kernel code addresses that are stored in data. *)
Inductive code : Set := Ccode (a : Z) | Cforkret | Ctrapret.

(** [struct context]; [ctx_ret] is the word above it, where [allocproc] leaves
    the return address of [forkret]. *)
Record context := Ctx {
  ctx_edi : Z; ctx_esi : Z; ctx_ebx : Z; ctx_ebp : Z; ctx_eip : code; ctx_ret : code
}.

(** [tfp] is the pointer [p->tf] and [tf] the frame it points at; [pcontext] is
    what [p->context] points at. *)
Record proc := Proc {
  sz : Z;
  threadcount : Z;
  pgdir : Z;
  kstack : Z;
  state : procstate;
  pid : Z;
  tgid : Z;
  process : option nat;
  parent : option nat;
  tfp : Z;
  tf : trapframe;
  pcontext : option context;
  pchan : chan;
  killed : Z;
  ofile : list (option nat);
  cwd : option nat;
  name : list Z;
  lostwakeup : chan
}.
#[global] Instance eta_proc : Eta proc := fun p =>
  Proc (sz p) (threadcount p) (pgdir p) (kstack p) (state p) (pid p) (tgid p)
       (process p) (parent p) (tfp p) (tf p) (pcontext p) (pchan p) (killed p)
       (ofile p) (cwd p) (name p) (lostwakeup p).

(** A slot of the zero-initialised process table. *)
Definition proc0 : proc :=
  Proc 0 0 0 0 UNUSED 0 0 None None 0 zero_tf None null 0
       (replicate NOFILE None) None (replicate 16 0) null.
#[global] Instance proc_inhabited : Inhabited proc := populate proc0.

(** ** Locks and CPUs: spinlock.h, sleeplock.h, proc.h *)

Record spinlock := Spinlock { locked : Z; lk_name : string; lk_cpu : option nat }.
#[global] Instance spinlock_inhabited : Inhabited spinlock :=
  populate (Spinlock 0 "" None).

Record sleeplock := Sleeplock { s_locked : Z; s_name : string; s_pid : Z }.
#[global] Instance eta_sleeplock : Eta sleeplock := fun s =>
  Sleeplock (s_locked s) (s_name s) (s_pid s).
#[global] Instance sleeplock_inhabited : Inhabited sleeplock :=
  populate (Sleeplock 0 "" 0).

(** Segment descriptors (mmu.h), field by field. *)
Record segdesc := SegDesc {
  sd_lim_15_0 : Z; sd_base_15_0 : Z; sd_base_23_16 : Z; sd_type : Z; sd_s : Z;
  sd_dpl : Z; sd_p : Z; sd_lim_19_16 : Z; sd_avl : Z; sd_rsv1 : Z; sd_db : Z;
  sd_g : Z; sd_base_31_24 : Z
}.
#[global] Instance eta_segdesc : Eta segdesc := fun s =>
  SegDesc (sd_lim_15_0 s) (sd_base_15_0 s) (sd_base_23_16 s) (sd_type s) (sd_s s)
    (sd_dpl s) (sd_p s) (sd_lim_19_16 s) (sd_avl s) (sd_rsv1 s) (sd_db s) (sd_g s)
    (sd_base_31_24 s).
Definition segdesc0 : segdesc := SegDesc 0 0 0 0 0 0 0 0 0 0 0 0 0.
#[global] Instance segdesc_inhabited : Inhabited segdesc := populate segdesc0.

(** [struct cpu], with the fields of its task state that the code writes;
    [ts_addr] is the address of that task state. *)
Record cpu := Cpu {
  apicid : Z;
  ncli : Z;
  intena : Z;
  c_proc : option nat;
  ts_ss0 : Z; ts_esp0 : Z; ts_iomb : Z;
  ts_addr : Z;
  gdt : list segdesc
}.
#[global] Instance eta_cpu : Eta cpu := fun c =>
  Cpu (apicid c) (ncli c) (intena c) (c_proc c) (ts_ss0 c) (ts_esp0 c) (ts_iomb c)
      (ts_addr c) (gdt c).
#[global] Instance cpu_inhabited : Inhabited cpu :=
  populate (Cpu 0 0 0 None 0 0 0 0 (replicate 6 segdesc0)).

(** The executing CPU (its local APIC id, its interrupt flag), the [cpus]
    array and every spinlock. *)
Record sync := Sync {
  hw_apicid : Z;
  hw_if : bool;
  cpus : list cpu;
  ncpu : nat;
  locks : gmap lockid spinlock
}.
#[global] Instance eta_sync : Eta sync := fun s =>
  Sync (hw_apicid s) (hw_if s) (cpus s) (ncpu s) (locks s).

(** ** Files, inodes, pipes: file.h, fs.h, pipe.c, stat.h *)

Inductive fdtype : Set := FD_NONE | FD_PIPE | FD_INODE.
#[global] Instance fdtype_eq_dec : EqDecision fdtype.
Proof. solve_decision. Defined.

Record file := File {
  ftype : fdtype; fref : Z; readable : Z; writable : Z;
  fpipe : Z; fip : option nat; foff : Z
}.
#[global] Instance eta_file : Eta file := fun f =>
  File (ftype f) (fref f) (readable f) (writable f) (fpipe f) (fip f) (foff f).
#[global] Instance file_inhabited : Inhabited file := populate (File FD_NONE 0 0 0 0 None 0).

Record pipe := Pipe {
  pdata : list Z; nread : Z; nwrite : Z; readopen : Z; writeopen : Z
}.
#[global] Instance eta_pipe : Eta pipe := fun p =>
  Pipe (pdata p) (nread p) (nwrite p) (readopen p) (writeopen p).
#[global] Instance pipe_inhabited : Inhabited pipe := populate (Pipe [] 0 0 0 0).

Record inode := Inode {
  idev : Z; inum : Z; iref : Z; ivalid : Z;
  itype : Z; imajor : Z; iminor : Z; inlink : Z; isize : Z; iaddrs : list Z
}.
#[global] Instance eta_inode : Eta inode := fun i =>
  Inode (idev i) (inum i) (iref i) (ivalid i) (itype i) (imajor i) (iminor i)
        (inlink i) (isize i) (iaddrs i).
#[global] Instance inode_inhabited : Inhabited inode :=
  populate (Inode 0 0 0 0 0 0 0 0 0 (replicate 13 0)).

Record superblock := Superblock {
  sb_size : Z; sb_nblocks : Z; sb_ninodes : Z; sb_nlog : Z;
  sb_logstart : Z; sb_inodestart : Z; sb_bmapstart : Z
}.

(** ** Disk buffers and the log: buf.h, log.c *)

Abbreviation block := (list Z).

(** [b_next] and [b_prev] are indices into [bcache]; index [NBUF] is
    [bcache.head]. *)
Record buf := Buf {
  b_flags : Z; b_dev : Z; b_blockno : Z; b_refcnt : Z;
  b_prev : nat; b_next : nat; b_qnext : option nat; b_data : block
}.
#[global] Instance eta_buf : Eta buf := fun b =>
  Buf (b_flags b) (b_dev b) (b_blockno b) (b_refcnt b) (b_prev b) (b_next b)
      (b_qnext b) (b_data b).
#[global] Instance buf_inhabited : Inhabited buf := populate (Buf 0 0 0 0 0 0 None []).

Record logstate := LogState {
  l_start : Z; l_size : Z; l_outstanding : Z; l_committing : Z; l_dev : Z;
  lh_n : Z; lh_block : list Z
}.
#[global] Instance eta_logstate : Eta logstate := fun l =>
  LogState (l_start l) (l_size l) (l_outstanding l) (l_committing l) (l_dev l)
           (lh_n l) (lh_block l).

(** ** Console: console.c *)

Record input := Input { in_buf : list Z; in_r : Z; in_w : Z; in_e : Z }.
#[global] Instance eta_input : Eta input := fun i =>
  Input (in_buf i) (in_r i) (in_w i) (in_e i).

(** ** Gate descriptors (mmu.h), field by field *)

Record gatedesc := GateDesc {
  gd_off_15_0 : Z; gd_cs : Z; gd_args : Z; gd_rsv1 : Z; gd_type : Z; gd_s : Z;
  gd_dpl : Z; gd_p : Z; gd_off_31_16 : Z
}.
#[global] Instance gatedesc_inhabited : Inhabited gatedesc :=
  populate (GateDesc 0 0 0 0 0 0 0 0 0).

(** ** The globals *)

Record data := Data {
  (** proc.c.  [past_pid] is the word that the scan loops read as [p->pid]
      when they run off the end of the table, [first] the static variable of
      [forkret]. *)
  ptable : list proc;
  past_pid : Z;
  nextpid : Z;
  initproc : option nat;
  first : Z;
  (** kalloc.c: physical memory by byte, the free list, [end] *)
  mem : Z -> Z;
  freelist : Z;
  use_lock : Z;
  kend : Z;
  (** vm.c: page-table base register, kernel page table, end of kernel text;
      where the linker put the kernel's code *)
  cr3 : Z;
  kpgdir : Z;
  kdata : Z;
  code_addr : code -> Z;
  (** what an uninitialised buffer on the kernel stack holds *)
  junk : list Z;
  (** file.c, pipe.c, fs.c *)
  ftable : list file;
  pipes : gmap Z pipe;
  icache : list inode;
  sb : superblock;
  (** bio.c, log.c, sleeplock.c *)
  bcache : list buf;
  log : logstate;
  sleeplocks : gmap slid sleeplock;
  (** memide.c: the disk, and every write it received, oldest first *)
  disk : gmap Z block;
  disksize : Z;
  dtrace : list (Z * block);
  (** ide.c: the request queue, is there a second disk, and the last byte
      written to each register of the controller *)
  idequeue : option nat;
  havedisk1 : Z;
  ideregs : gmap Z Z;
  (** trap.c, the register with the address of a page fault; console.c *)
  idt : list gatedesc;
  cr2 : Z;
  ticks : Z;
  inp : input;
  cons_locking : Z;
  panicked : Z;
  (** uart.c: is there a serial port, the bytes sent to it and the bytes it
      has received *)
  uart : Z;
  serial : list Z;
  serial_in : list Z;
  (** kbd.c: the modifier keys, and the scan codes the keyboard controller
      holds *)
  kbd_shift : Z;
  kbd_in : list Z;
  (** the CGA screen and its cursor register *)
  crt : list Z;
  crt_pos : Z
}.
#[global] Instance eta_data : Eta data := fun d =>
  Data (ptable d) (past_pid d) (nextpid d) (initproc d) (first d) (mem d) (freelist d)
       (use_lock d) (kend d) (cr3 d) (kpgdir d) (kdata d) (code_addr d) (junk d) (ftable d) (pipes d)
       (icache d) (sb d) (bcache d) (log d) (sleeplocks d) (disk d) (disksize d)
       (dtrace d) (idequeue d) (havedisk1 d) (ideregs d) (idt d) (cr2 d) (ticks d) (inp d)
       (cons_locking d) (panicked d) (uart d) (serial d) (serial_in d) (kbd_shift d)
       (kbd_in d) (crt d) (crt_pos d).

Record kernel := Kernel { sy : sync; da : data }.
#[global] Instance eta_kernel : Eta kernel := fun k => Kernel (sy k) (da k).

Abbreviation K := (M kernel).

(** ** Reading and writing the globals *)

Definition getd {A} (f : data -> A) : K A := gets (fun k => f (da k)).
Definition setd (f : data -> data) : K unit :=
  modify (fun k => Kernel (sy k) (f (da k))).
Definition gety {A} (f : sync -> A) : K A := gets (fun k => f (sy k)).
Definition sety (f : sync -> sync) : K unit :=
  modify (fun k => Kernel (f (sy k)) (da k)).

(** [ptable.proc[i]] *)
Definition procs (d : data) (i : nat) : proc := ptable d !!! i.
Definition get_proc (i : nat) : K proc := getd (fun d => procs d i).
Definition upd_procs (i : nat) (f : proc -> proc) (d : data) : data :=
  d <|ptable ::= alter f i|>.
Definition set_proc (i : nat) (f : proc -> proc) : K unit := setd (upd_procs i f).

(** The globals when [main] starts: zero, but for the initialised ones, the
    addresses [endk] and [kdat] that the linker chose, and the disk. *)
Definition data0 (endk kdat dsz : Z) (dsk : gmap Z block) : data :=
  Data (replicate NPROC proc0) 0 1 None 1
    (fun _ => 0) 0 0 endk 0 0 kdat (fun k => match k with Ccode a => a | _ => KERNLINK end) []
    (replicate NFILE inhabitant) ∅ (replicate NINODE inhabitant) (Superblock 0 0 0 0 0 0 0)
    (replicate (S NBUF) inhabitant)
    (LogState 0 0 0 0 0 0 (replicate (Z.to_nat LOGSIZE) 0)) ∅
    dsk dsz [] None 0 ∅ (replicate 256 inhabitant) 0 0 (Input (replicate 128 0) 0 0 0)
    0 0 0 [] [] 0 [] (replicate 2000 0) 0.
