(* ===== verification/Spinlock.v ===== *)
(** * Spinlocks (spinlock.c) and the current CPU (proc.c: mycpu, myproc)

    [acquire] and [release] with their nesting count of disabled interrupts.
    [quiet s c me L] says that the code runs on CPU [c] in thread [me], that
    this CPU holds exactly the locks [L] and that no other lock is taken;
    [runs] is the big-step specification of code in such a state, the form in
    which the components state what their operations compute. *)

From S2P Require Import Prelude Params State.

(** ** proc.c: mycpu, cpuid *)

Definition mycpu : K nat :=
  fl <- gety hw_if;;
  if (fl : bool) then panic "mycpu called with interrupts enabled" else
  id <- gety hw_apicid;;
  cs <- gety cpus;;
  n <- gety ncpu;;
  r <- foreach (seq 0 n) (fun i =>
         if apicid (cs !!! i) =? id then ret (Some i) else ret None);;
  match r with
  | Some i => ret i
  | None => panic "unknown apicid"
  end.

Definition cpuid : K nat := mycpu.

Definition get_cpu (c : nat) : K cpu := gety (fun s => cpus s !!! c).
Definition set_cpu (c : nat) (f : cpu -> cpu) : K unit :=
  sety (fun s => s <|cpus ::= alter f c|>).

Definition get_lock (l : lockid) : K spinlock := gety (fun s => locks s !!! l).
Definition set_lock (l : lockid) (v : spinlock) : K unit :=
  sety (fun s => s <|locks ::= <[l := v]>|>).

(** ** Interrupts *)

Definition cli : K unit := sety (fun s => s <|hw_if := false|>).
Definition sti : K unit := sety (fun s => s <|hw_if := true|>).
Definition readeflags : K Z := gety (fun s => if hw_if s then FL_IF else 0).

Definition pushcli : K unit :=
  eflags <- readeflags;;
  cli;;
  c <- mycpu;; cpu <- get_cpu c;;
  when (ncli cpu =? 0)
    (c <- mycpu;; set_cpu c (fun cpu => cpu <|intena := Z.land eflags FL_IF|>));;
  c <- mycpu;;
  set_cpu c (fun cpu => cpu <|ncli ::= fun n => n + 1|>).

Definition popcli : K unit :=
  eflags <- readeflags;;
  if negb (Z.land eflags FL_IF =? 0) then panic "popcli - interruptible" else
  c <- mycpu;;
  set_cpu c (fun cpu => cpu <|ncli ::= fun n => n - 1|>);;
  cpu <- get_cpu c;;
  if ncli cpu <? 0 then panic "popcli" else
  c <- mycpu;; cpu <- get_cpu c;;
  when ((ncli cpu =? 0) && negb (intena cpu =? 0)) sti.

(** ** spinlock.c *)

Definition initlock (l : lockid) (nm : string) : K unit :=
  set_lock l (Spinlock 0 nm None).

Definition holding (l : lockid) : K bool :=
  pushcli;;
  lk <- get_lock l;;
  r <- (if locked lk =? 0 then ret false
        else c <- mycpu;; ret (bool_decide (lk_cpu lk = Some c)));;
  popcli;;
  ret r.

Definition set_locked (l : lockid) (v : Z) (s : sync) : sync :=
  let lk := locks s !!! l in
  s <|locks ::= <[l := Spinlock v (lk_name lk) (lk_cpu lk)]>|>.
Definition set_holder (l : lockid) (c : option nat) (s : sync) : sync :=
  let lk := locks s !!! l in
  s <|locks ::= <[l := Spinlock (locked lk) (lk_name lk) c]>|>.

(** [while(xchg(&lk->locked, 1) != 0) ;] -- each round is one atomic exchange,
    preceded by what the other CPUs do. *)
Fixpoint spin (l : lockid) (ns : list (kernel -> kernel)) (k : kernel)
    (wk : list (kernel -> kernel)) : outcome unit * world kernel :=
  let taken k ns := (Ret tt, World (Kernel (set_locked l 1 (sy k)) (da k)) ns wk) in
  match ns with
  | [] =>
      if locked (locks (sy k) !!! l) =? 0 then taken k []
      else (Blocked, World k [] wk)
  | f :: ns =>
      if locked (locks (sy (f k)) !!! l) =? 0 then taken (f k) ns
      else spin l ns (f k) wk
  end.

(** The call-stack record [lk->pcs] is for debugging and is left out, and so
    is the line [acquire] prints before it panics. *)
Definition acquire (l : lockid) : K unit :=
  pushcli;;
  h <- holding l;;
  if (h : bool) then panic "acquire" else
  (fun w => spin l (noise w) (now w) (wake w));;
  c <- mycpu;;
  sety (set_holder l (Some c)).

Definition release (l : lockid) : K unit :=
  h <- holding l;;
  if negb h then panic "release" else
  sety (set_holder l None);;
  sety (set_locked l 0);;
  popcli.

(** ** proc.c: myproc *)

Definition myproc : K (option nat) :=
  pushcli;;
  c <- mycpu;;
  cpu <- get_cpu c;;
  popcli;;
  ret (c_proc cpu).

(** [struct proc *curproc = myproc();] followed by a dereference *)
Definition curproc : K nat := p <- myproc;; deref p.

(** ** Which CPU is this? *)

Record on_cpu (s : sync) (c : nat) : Prop := {
  oc_lt : (c < ncpu s)%nat;
  oc_len : (ncpu s <= length (cpus s))%nat;
  oc_id : apicid (cpus s !!! c) = hw_apicid s;
  oc_first : forall j, (j < c)%nat -> apicid (cpus s !!! j) <> hw_apicid s
}.

Lemma foreach_first {S A} (p : A -> bool) (l1 l2 : list A) a (w : world S) :
  Forall (fun x => p x = false) l1 -> p a = true ->
  foreach (l1 ++ a :: l2) (fun x => if p x then ret (Some x) else ret None) w
  = (Ret (Some a), w).
Proof.
  intros H Ha. induction H as [|x l1 Hx _ IH]; simpl.
  - by rewrite Ha.
  - by rewrite Hx.
Qed.

Lemma foreach_none {S A} (p : A -> bool) (l : list A) (w : world S) :
  Forall (fun x => p x = false) l ->
  foreach (B := A) l (fun x => if p x then ret (Some x) else ret None) w = (Ret None, w).
Proof. intros H. induction H as [|x l Hx _ IH]; simpl; [done|]. by rewrite Hx. Qed.

Lemma mycpu_eq s c d ns wk :
  on_cpu s c -> hw_if s = false ->
  mycpu (World (Kernel s d) ns wk) = (Ret c, World (Kernel s d) ns wk).
Proof.
  intros [Hlt Hlen Hid Hfirst] Hif.
  unfold mycpu, gety. rewrite !bind_gets; simpl. rewrite Hif.
  rewrite !bind_gets; simpl.
  replace (ncpu s) with (c + Datatypes.S (ncpu s - c - 1))%nat by lia.
  rewrite seq_app, <- cons_seq. simpl.
  erewrite bind_Ret; [| apply foreach_first].
  - reflexivity.
  - apply Forall_forall. intros j Hj%elem_of_seq. apply Z.eqb_neq, Hfirst. lia.
  - by apply Z.eqb_eq.
Qed.

(** [on_cpu] looks only at the APIC ids. *)
Lemma on_cpu_set_cpu s c f i :
  (forall x, apicid (f x) = apicid x) ->
  on_cpu s c -> on_cpu (s <|cpus ::= alter f i|>) c.
Proof.
  intros Hf [H1 H2 H3 H4].
  assert (forall j, apicid ((alter f i (cpus s)) !!! j) = apicid (cpus s !!! j)) as E.
  { intros j. rewrite !list_lookup_total_alt.
    destruct (decide (i = j)) as [->|Hne].
    - rewrite list_lookup_alter_eq. by destruct (cpus s !! j); simpl; rewrite ?Hf.
    - by rewrite list_lookup_alter_ne. }
  split; getset; rewrite ?length_alter; try done.
  - by rewrite E.
  - intros j Hj. rewrite E. by apply H4.
Qed.

Lemma on_cpu_locks s c f : on_cpu s c -> on_cpu (s <|locks ::= f|>) c.
Proof. intros [? ? ? ?]; split; getset; auto. Qed.
Lemma on_cpu_if s c b : on_cpu s c -> on_cpu (s <|hw_if := b|>) c.
Proof. intros [? ? ? ?]; split; getset; auto. Qed.

Lemma cpu_alter_eq s c f :
  on_cpu s c -> alter f c (cpus s) !!! c = f (cpus s !!! c).
Proof.
  intros [? ? _ _]. rewrite !list_lookup_total_alt, list_lookup_alter_eq.
  destruct (lookup_lt_is_Some_2 (cpus s) c) as [x ->]; [lia|done].
Qed.

(** ** Quiet states *)

Record quietn (s : sync) (c : nat) (me : option nat) (L : list lockid) (n : nat) : Prop := {
  q_cpu : on_cpu s c;
  q_proc : c_proc (cpus s !!! c) = me;
  q_ncli : ncli (cpus s !!! c) = Z.of_nat n;
  q_if : n <> 0%nat -> hw_if s = false;
  q_held : forall l, l ∈ L -> locked (locks s !!! l) = 1 /\ lk_cpu (locks s !!! l) = Some c;
  q_free : forall l, l ∉ L -> locked (locks s !!! l) = 0;
  q_nodup : NoDup L
}.

Definition quiet s c me L : Prop := quietn s c me L (length L).

(** What [pushcli] and [popcli] do, once the CPU is known. *)
Definition push_cpu (fl : bool) (x : cpu) : cpu :=
  (if ncli x =? 0 then x <|intena := Z.land (if fl then FL_IF else 0) FL_IF|> else x)
  <|ncli ::= fun n => n + 1|>.

Lemma pushcli_eq s c d ns wk :
  on_cpu s c ->
  exists s', pushcli (World (Kernel s d) ns wk) = (Ret tt, World (Kernel s' d) ns wk)
    /\ on_cpu s' c /\ hw_if s' = false /\ locks s' = locks s
    /\ cpus s' !!! c = push_cpu (hw_if s) (cpus s !!! c).
Proof.
  intros Hc. unfold pushcli, readeflags, cli, sety, gety.
  rewrite bind_gets, bind_modify. cbn [now noise wake sy da].
  set (s1 := s <|hw_if := false|>).
  assert (on_cpu s1 c) as Hc1 by by apply on_cpu_if.
  rewrite (bind_Ret _ _ _ _ _ (mycpu_eq s1 c d ns wk Hc1 eq_refl)).
  unfold get_cpu, gety. rewrite bind_gets. cbn [now sy].
  change (cpus s1) with (cpus s). unfold push_cpu.
  destruct (ncli (cpus s !!! c) =? 0); cbn [when].
  - rewrite bind_bind, (bind_Ret _ _ _ _ _ (mycpu_eq s1 c d ns wk Hc1 eq_refl)).
    unfold set_cpu, sety. rewrite bind_modify. cbn [now noise wake sy da].
    set (s2 := s1 <|cpus ::= _|>).
    assert (on_cpu s2 c) as Hc2 by by apply on_cpu_set_cpu.
    rewrite (bind_Ret _ _ _ _ _ (mycpu_eq s2 c d ns wk Hc2 eq_refl)).
    eexists. split; [reflexivity|]. split; [by apply on_cpu_set_cpu|].
    split; [done|]. split; [done|]. getset.
    rewrite (cpu_alter_eq s2) by done. subst s2. getset.
    by rewrite (cpu_alter_eq s1).
  - rewrite bind_ret_l, (bind_Ret _ _ _ _ _ (mycpu_eq s1 c d ns wk Hc1 eq_refl)).
    eexists. split; [reflexivity|]. split; [by apply on_cpu_set_cpu|].
    split; [done|]. split; [done|]. getset. by rewrite (cpu_alter_eq s1).
Qed.

Lemma push_cpu_proc fl x : c_proc (push_cpu fl x) = c_proc x.
Proof. unfold push_cpu. by destruct (ncli x =? 0). Qed.
Lemma push_cpu_ncli fl x : ncli (push_cpu fl x) = ncli x + 1.
Proof. unfold push_cpu. by destruct (ncli x =? 0). Qed.

Lemma pushcli_quiet s c me L n d ns wk :
  quietn s c me L n ->
  exists s', pushcli (World (Kernel s d) ns wk) = (Ret tt, World (Kernel s' d) ns wk)
    /\ quietn s' c me L (Datatypes.S n) /\ locks s' = locks s.
Proof.
  intros [Hc Hp Hn Hif Hh Hf Hnd].
  destruct (pushcli_eq s c d ns wk Hc) as (s' & E & Hc' & Hif' & Hl & Hcpu).
  exists s'. split; [done|]. split; [|done]. split; try done.
  - by rewrite Hcpu, push_cpu_proc.
  - rewrite Hcpu, push_cpu_ncli. lia.
  - by rewrite Hl.
  - by rewrite Hl.
Qed.

Lemma popcli_quiet s c me L n d ns wk :
  quietn s c me L (Datatypes.S n) ->
  exists s', popcli (World (Kernel s d) ns wk) = (Ret tt, World (Kernel s' d) ns wk)
    /\ quietn s' c me L n /\ locks s' = locks s.
Proof.
  intros [Hc Hp Hn Hif Hh Hf Hnd]. specialize (Hif ltac:(lia)).
  unfold popcli, readeflags, gety. rewrite bind_gets. cbn [now sy]. rewrite Hif.
  change (negb (Z.land 0 FL_IF =? 0)) with false. cbv iota.
  rewrite (bind_Ret _ _ _ _ _ (mycpu_eq s c d ns wk Hc Hif)).
  unfold set_cpu, sety. rewrite bind_modify. cbn [now noise wake sy da].
  set (s1 := s <|cpus ::= _|>).
  assert (on_cpu s1 c) as Hc1 by by apply on_cpu_set_cpu.
  assert (cpus s1 !!! c = (cpus s !!! c) <|ncli ::= fun n => n - 1|>) as Hx.
  { subst s1. getset. by rewrite cpu_alter_eq. }
  unfold get_cpu, gety. rewrite bind_gets. cbn [now sy]. rewrite Hx. getset.
  rewrite Hn. destruct (Z.ltb_spec (Z.of_nat (Datatypes.S n) - 1) 0); [lia|].
  rewrite (bind_Ret _ _ _ _ _ (mycpu_eq s1 c d ns wk Hc1 Hif)).
  rewrite bind_gets. cbn [now sy]. rewrite Hx. getset. rewrite Hn.
  assert (quietn s1 c me L n) as Hq.
  { split; try done; rewrite ?Hx; getset; auto; lia. }
  destruct (Z.eqb_spec (Z.of_nat (Datatypes.S n) - 1) 0); simpl andb; cbv iota.
  - destruct (negb (intena (cpus s !!! c) =? 0)); cbn [when].
    + eexists. split; [reflexivity|]. split; [|done]. destruct Hq.
      split; try done. by apply on_cpu_if. lia.
    + by exists s1.
  - by exists s1.
Qed.

Lemma holding_quiet s c me L n l d ns wk :
  quietn s c me L n ->
  exists s', holding l (World (Kernel s d) ns wk)
      = (Ret (bool_decide (l ∈ L)), World (Kernel s' d) ns wk)
    /\ quietn s' c me L n /\ locks s' = locks s.
Proof.
  intros Hq. unfold holding.
  destruct (pushcli_quiet s c me L n d ns wk Hq) as (s1 & E1 & Hq1 & Hl1).
  rewrite (bind_Ret _ _ _ _ _ E1). unfold get_lock, gety. rewrite bind_gets. cbn [now sy].
  destruct (popcli_quiet s1 c me L n d ns wk Hq1) as (s2 & E2 & Hq2 & Hl2).
  assert ((if locked (locks s1 !!! l) =? 0 then ret false
           else c0 <- mycpu;; ret (bool_decide (lk_cpu (locks s1 !!! l) = Some c0)))
          (World (Kernel s1 d) ns wk)
         = (Ret (bool_decide (l ∈ L)), World (Kernel s1 d) ns wk)) as E3.
  { destruct (decide (l ∈ L)) as [Hin|Hin].
    - destruct (q_held _ _ _ _ _ Hq1 l Hin) as [-> ->].
      change (1 =? 0) with false. cbv iota.
      rewrite (bind_Ret _ _ _ _ _ (mycpu_eq s1 c d ns wk (q_cpu _ _ _ _ _ Hq1)
        (q_if _ _ _ _ _ Hq1 ltac:(lia)))).
      by rewrite !bool_decide_true.
    - rewrite (q_free _ _ _ _ _ Hq1 l Hin). by rewrite bool_decide_false. }
  rewrite (bind_Ret _ _ _ _ _ E3), (bind_Ret _ _ _ _ _ E2).
  exists s2. split; [done|]. split; [done|]. congruence.
Qed.

Lemma lookup_total_set_holder l c s : 
  locks (set_holder l c s) !!! l
  = Spinlock (locked (locks s !!! l)) (lk_name (locks s !!! l)) c.
Proof. unfold set_holder. getset. by rewrite lookup_total_insert_eq. Qed.

Lemma acquire_quiet s c me L l d wk :
  quiet s c me L -> l ∉ L ->
  exists s', acquire l (World (Kernel s d) [] wk) = (Ret tt, World (Kernel s' d) [] wk)
    /\ quiet s' c me (l :: L).
Proof.
  intros Hq Hl. unfold acquire.
  destruct (pushcli_quiet s c me L _ d [] wk Hq) as (s1 & E1 & Hq1 & _).
  rewrite (bind_Ret _ _ _ _ _ E1).
  destruct (holding_quiet s1 c me L _ l d [] wk Hq1) as (s2 & E2 & Hq2 & _).
  rewrite (bind_Ret _ _ _ _ _ E2), bool_decide_false by done. cbv iota.
  destruct Hq2 as [Hc Hp Hn Hif Hh Hf Hnd].
  erewrite bind_Ret; cycle 1.
  { cbn [noise now wake spin sy da]. rewrite (Hf l Hl). reflexivity. }
  erewrite bind_Ret; [|apply mycpu_eq; [by apply on_cpu_locks|by apply Hif]].
  eexists. split; [reflexivity|]. cbn [now sy da].
  unfold set_locked, set_holder. getset.
  split; getset; try done.
  - by apply on_cpu_locks, on_cpu_locks.
  - intros l' [->|Hin]%elem_of_cons.
    + rewrite !lookup_total_insert_eq. by split.
    + rewrite !lookup_total_insert_ne by (intros ->; done). by apply Hh.
  - intros l' [Hne Hin]%not_elem_of_cons.
    rewrite !lookup_total_insert_ne by done. by apply Hf.
  - by constructor.
Qed.

Lemma release_quiet s c me L L' l d ns wk :
  quiet s c me L -> L ≡ₚ l :: L' ->
  exists s', release l (World (Kernel s d) ns wk) = (Ret tt, World (Kernel s' d) ns wk)
    /\ quiet s' c me L'.
Proof.
  intros Hq HL. assert (NoDup (l :: L')) as [Hl Hnd']%NoDup_cons.
  { rewrite <- HL. apply Hq. }
  unfold release.
  destruct (holding_quiet s c me L _ l d ns wk Hq) as (s1 & E1 & Hq1 & _).
  rewrite (bind_Ret _ _ _ _ _ E1), bool_decide_true by (rewrite HL; constructor).
  change (negb true) with false. cbv iota.
  unfold sety. rewrite !bind_modify. cbn [now noise wake sy da].
  set (s2 := set_locked l 0 _).
  assert (quietn s2 c me L' (length L)) as Hq2.
  { destruct Hq1 as [Hc Hp Hn Hif Hh Hf Hnd]. unfold set_locked, set_holder in s2.
    subst s2. split; getset; try done.
    - by apply on_cpu_locks, on_cpu_locks.
    - intros l' Hin. rewrite !lookup_total_insert_ne by (intros ->; done).
      apply Hh. rewrite HL. by right.
    - intros l' Hin. destruct (decide (l = l')) as [->|Hne].
      + by rewrite !lookup_total_insert_eq.
      + rewrite !lookup_total_insert_ne by done. apply Hf. rewrite HL.
        apply not_elem_of_cons. done. }
  rewrite HL in Hq2. simpl length in Hq2.
  destruct (popcli_quiet s2 c me L' _ d ns wk Hq2) as (s3 & E3 & Hq3 & _).
  exists s3. done.
Qed.

Lemma myproc_quiet s c me L d ns wk :
  quiet s c me L ->
  exists s', myproc (World (Kernel s d) ns wk) = (Ret me, World (Kernel s' d) ns wk)
    /\ quiet s' c me L.
Proof.
  intros Hq. unfold myproc.
  destruct (pushcli_quiet s c me L _ d ns wk Hq) as (s1 & E1 & Hq1 & _).
  rewrite (bind_Ret _ _ _ _ _ E1).
  erewrite bind_Ret; [|apply mycpu_eq; [apply Hq1|apply Hq1; lia]].
  unfold get_cpu, gety. rewrite bind_gets. cbn [now sy].
  destruct (popcli_quiet s1 c me L _ d ns wk Hq1) as (s2 & E2 & Hq2 & _).
  rewrite (bind_Ret _ _ _ _ _ E2), (q_proc _ _ _ _ _ Hq1). exists s2. done.
Qed.

(** ** Big-step specifications

    [runs c me L m d a d' L']: on CPU [c] in thread [me], holding the locks [L],
    with data [d] and no interference, [m] returns [a], leaves the data [d'] and
    holds the locks [L'] -- whatever the state of the locking primitives. *)

Definition runs {A} (c : nat) (me : option nat) (L : list lockid) (m : K A)
    (d : data) (a : A) (d' : data) (L' : list lockid) : Prop :=
  forall s wk, quiet s c me L ->
  exists s', m (World (Kernel s d) [] wk) = (Ret a, World (Kernel s' d') [] wk)
    /\ quiet s' c me L'.

(** [panics c me L m d msg]: in the same situation [m] ends in [panic(msg)]. *)
Definition panics {A} (c : nat) (me : option nat) (L : list lockid) (m : K A)
    (d : data) (msg : string) : Prop :=
  forall s wk, quiet s c me L ->
  exists w', m (World (Kernel s d) [] wk) = (Panic msg, w').

Section Runs.
Context (c : nat) (me : option nat).
Implicit Types (L : list lockid) (d : data).

Lemma runs_ret {A} L (a : A) d : runs c me L (ret a) d a d L.
Proof. intros s wk Hq. by exists s. Qed.

Lemma runs_bind {A B} L1 L2 L3 (m : K A) (f : A -> K B) d1 d2 d3 a b :
  runs c me L1 m d1 a d2 L2 -> runs c me L2 (f a) d2 b d3 L3 ->
  runs c me L1 (bind m f) d1 b d3 L3.
Proof.
  intros H1 H2 s wk Hq. destruct (H1 s wk Hq) as (s1 & E1 & Hq1).
  destruct (H2 s1 wk Hq1) as (s2 & E2 & Hq2).
  exists s2. by rewrite (bind_Ret _ _ _ _ _ E1).
Qed.

Lemma runs_eq {A} L L' (m : K A) d a d1 d2 :
  runs c me L m d a d1 L' -> d1 = d2 -> runs c me L m d a d2 L'.
Proof. by intros ? <-. Qed.

Lemma panics_bind {A B} L1 (m : K A) (f : A -> K B) d1 msg :
  panics c me L1 m d1 msg -> panics c me L1 (bind m f) d1 msg.
Proof.
  intros H s wk Hq. destruct (H s wk Hq) as (w & E). exists w. unfold bind. by rewrite E.
Qed.

Lemma runs_panics {A B} L1 L2 (m : K A) (f : A -> K B) d1 d2 a msg :
  runs c me L1 m d1 a d2 L2 -> panics c me L2 (f a) d2 msg ->
  panics c me L1 (bind m f) d1 msg.
Proof.
  intros H1 H2 s wk Hq. destruct (H1 s wk Hq) as (s1 & E1 & Hq1).
  destruct (H2 s1 wk Hq1) as (w & E2). exists w. by rewrite (bind_Ret _ _ _ _ _ E1).
Qed.

Lemma panics_panic {A} L d msg : panics c me L (panic (A := A) msg) d msg.
Proof. intros s wk Hq. eexists. reflexivity. Qed.

Lemma runs_getd {A} L (f : data -> A) d : runs c me L (getd f) d (f d) d L.
Proof. intros s wk Hq. by exists s. Qed.

Lemma runs_setd L (f : data -> data) d : runs c me L (setd f) d tt (f d) L.
Proof. intros s wk Hq. by exists s. Qed.

Lemma runs_get_proc L i d : runs c me L (get_proc i) d (procs d i) d L.
Proof. exact (runs_getd L (fun d => procs d i) d). Qed.

Lemma runs_set_proc L i f d : runs c me L (set_proc i f) d tt (upd_procs i f d) L.
Proof. exact (runs_setd L (upd_procs i f) d). Qed.

Lemma runs_deref {A} L (a : A) d : runs c me L (deref (Some a)) d a d L.
Proof. apply runs_ret. Qed.

Lemma runs_acquire L l d : l ∉ L -> runs c me L (acquire l) d tt d (l :: L).
Proof. intros Hl s wk Hq. by apply acquire_quiet. Qed.

Lemma runs_release L l d : runs c me (l :: L) (release l) d tt d L.
Proof. intros s wk Hq. by eapply release_quiet. Qed.

(** Releasing out of order: [release(a)] below [b]. *)
Lemma runs_release2 L l l' d : runs c me (l' :: l :: L) (release l) d tt d (l' :: L).
Proof. intros s wk Hq. eapply release_quiet; [done|]. apply Permutation_swap. Qed.

Lemma runs_myproc L d : runs c me L myproc d me d L.
Proof. intros s wk Hq. by apply myproc_quiet. Qed.

Lemma runs_initlock L l nm d : l ∉ L -> runs c me L (initlock l nm) d tt d L.
Proof.
  intros Hl s wk [Hc Hp Hn Hif Hh Hf Hnd]. eexists. split; [reflexivity|].
  cbn [sy da now]. split; getset; try done.
  - by apply on_cpu_locks.
  - intros l' Hin. rewrite lookup_total_insert_ne by (intros ->; done). by apply Hh.
  - intros l' Hin. destruct (decide (l = l')) as [->|].
    + by rewrite lookup_total_insert_eq.
    + rewrite lookup_total_insert_ne by done. by apply Hf.
Qed.

(** Loops over an array that leave the data alone until they break out. *)
Lemma runs_foreach_none {A B} L (l : list A) (body : A -> K (option B)) d :
  (forall a, a ∈ l -> runs c me L (body a) d None d L) ->
  runs c me L (foreach l body) d None d L.
Proof.
  induction l as [|a l IH]; intros H; simpl; [apply runs_ret|].
  eapply runs_bind; [apply H; constructor|]. apply IH.
  intros x Hx. apply H. by constructor.
Qed.

Lemma runs_foreach_some {A B} L L' (l1 l2 : list A) a (body : A -> K (option B)) d d' b :
  (forall a, a ∈ l1 -> runs c me L (body a) d None d L) ->
  runs c me L (body a) d (Some b) d' L' ->
  runs c me L (foreach (l1 ++ a :: l2) body) d (Some b) d' L'.
Proof.
  induction l1 as [|x l1 IH]; intros H Ha; simpl.
  - eapply runs_bind; [apply Ha|]. apply runs_ret.
  - eapply runs_bind; [apply H; constructor|]. apply IH; [|done].
    intros y Hy. apply H. by constructor.
Qed.

Lemma runs_scan_none {B} L n (body : nat -> K (option B)) d :
  (forall i, (i < n)%nat -> runs c me L (body i) d None d L) ->
  runs c me L (foreach (seq 0 n) body) d None d L.
Proof. intros H. apply runs_foreach_none. intros i Hi%elem_of_seq. apply H. lia. Qed.

Lemma runs_scan_some {B} L L' n i (body : nat -> K (option B)) d d' b :
  (i < n)%nat ->
  (forall j, (j < i)%nat -> runs c me L (body j) d None d L) ->
  runs c me L (body i) d (Some b) d' L' ->
  runs c me L (foreach (seq 0 n) body) d (Some b) d' L'.
Proof.
  intros Hi Hj Hb. replace n with (i + Datatypes.S (n - i - 1))%nat by lia.
  rewrite seq_app, <- cons_seq. apply runs_foreach_some; [|done].
  intros j Hj'%elem_of_seq. apply Hj. lia.
Qed.

Lemma runs_retry_exit {B} L L' (body : unit -> K (unit + B)) d d' b :
  runs c me L (body tt) d (inr b) d' L' -> runs c me L (retry body) d b d' L'.
Proof.
  intros H s wk Hq. destruct (H s wk Hq) as (s' & E & Hq'). exists s'. split; [|done].
  unfold retry. erewrite bind_Ret; [|reflexivity]. rewrite loop_unfold.
  by rewrite (bind_Ret _ _ _ _ _ E).
Qed.

Lemma runs_when_true L m d d' L' :
  runs c me L m d tt d' L' -> runs c me L (when true m) d tt d' L'.
Proof. done. Qed.
Lemma runs_when_false L m d : runs c me L (when false m) d tt d L.
Proof. apply runs_ret. Qed.
End Runs.

Lemma runs_curproc c i L d : runs c (Some i) L curproc d i d L.
Proof.
  eapply runs_bind; [apply runs_myproc|]. apply runs_ret.
Qed.

(** The result of a [runs] is the result of the code: the specification is
    functional. *)
Lemma runs_det {A} c me L (m : K A) d a1 d1 L1 a2 d2 L2 s :
  quiet s c me L ->
  runs c me L m d a1 d1 L1 -> runs c me L m d a2 d2 L2 -> a1 = a2 /\ d1 = d2.
Proof.
  intros Hq H1 H2. destruct (H1 s [] Hq) as (s1 & E1 & _).
  destruct (H2 s [] Hq) as (s2 & E2 & _). rewrite E1 in E2. by simplify_eq.
Qed.

(** [for] loops with an invariant data function. *)
(** Statements already known to run, followed by more of them *)
Lemma runs_assoc {A B C} c me L1 L2 (m : K A) (f : A -> K B) (g : B -> K C) d1 d2 b :
  runs c me L1 (bind (bind m f) g) d1 b d2 L2 -> runs c me L1 (bind m (fun a => bind (f a) g)) d1 b d2 L2.
Proof. intros H s wk Hq. rewrite <- bind_bind. by apply H. Qed.
Lemma runs_then {B} c me L1 L2 L3 (m n p : K unit) (q : K B) d1 d2 d3 b :
  runs c me L1 (m;; n;; p) d1 tt d2 L2 -> runs c me L2 q d2 b d3 L3 ->
  runs c me L1 (m;; n;; p;; q) d1 b d3 L3.
Proof.
  intros H1 H2 s wk Hq. destruct (runs_bind c me _ _ _ _ (fun _ => q) _ _ _ _ _ H1 H2 s wk Hq) as (s' & E & Hq').
  exists s'. split; [|done]. rewrite <- E, bind_bind. unfold bind at 1 4.
  destruct (m _) as [[] w]; try done. by rewrite bind_bind.
Qed.

(** A scan whose rounds change the state but keep [I], up to round [i] *)
Lemma runs_scan_inv {B} c me L n i (body : nat -> K (option B)) (I Q : data -> Prop) d b :
  (i < n)%nat -> I d ->
  (forall j e, (j < i)%nat -> I e -> exists e', runs c me L (body j) e None e' L /\ I e') ->
  (forall e, I e -> exists e', runs c me L (body i) e (Some b) e' L /\ Q e') ->
  exists d', runs c me L (foreach (seq 0 n) body) d (Some b) d' L /\ Q d'.
Proof.
  intros Hi Hd Hj Hb. replace n with (i + S (n - i - 1))%nat by lia. rewrite seq_app, <- cons_seq.
  assert (forall l e, (forall j, j ∈ l -> (j < i)%nat) -> I e ->
    exists d', runs c me L (foreach (l ++ i :: seq (S i) (n - i - 1)) body) e (Some b) d' L /\ Q d') as H.
  { induction l as [|j l IH]; intros e Hl He; simpl.
    - destruct (Hb e He) as (e' & Hr & Hq). exists e'. split; [|done].
      eapply runs_bind; [exact Hr|apply runs_ret].
    - destruct (Hj j e (Hl j ltac:(left)) He) as (e1 & Hr & He1).
      destruct (IH e1) as (e2 & Hr2 & Hq); [|done|].
      { intros k Hk. apply Hl. by right. }
      exists e2. split; [by eapply runs_bind|done]. }
  apply (H (seq 0 i) d); [|done]. intros j Hj'%elem_of_seq. lia.
Qed.
Lemma runs_scan_inv_none {B} c me L n (body : nat -> K (option B)) (I : data -> Prop) d :
  I d -> (forall j e, (j < n)%nat -> I e -> exists e', runs c me L (body j) e None e' L /\ I e') ->
  exists d', runs c me L (foreach (seq 0 n) body) d None d' L /\ I d'.
Proof.
  intros Hd Hj.
  assert (forall l e, (forall j, j ∈ l -> (j < n)%nat) -> I e ->
    exists d', runs c me L (foreach l body) e None d' L /\ I d') as H.
  { induction l as [|j l IH]; intros e Hl He; simpl; [exists e; by split; [apply runs_ret|]|].
    destruct (Hj j e (Hl j ltac:(left)) He) as (e1 & Hr & He1).
    destruct (IH e1) as (e2 & Hr2 & Hq); [intros k Hk; apply Hl; by right|done|].
    exists e2. split; [by eapply runs_bind|done]. }
  apply (H (seq 0 n) d); [|done]. intros j Hj'%elem_of_seq. lia.
Qed.

Lemma runs_loop_more {X B} c me L1 L2 L3 n (body : X -> K (X + B)) x x' d1 d2 d3 b :
  runs c me L1 (body x) d1 (inl x') d2 L2 -> runs c me L2 (loop n body x') d2 b d3 L3 ->
  runs c me L1 (loop (S n) body x) d1 b d3 L3.
Proof. intros H1 H2. by eapply runs_bind. Qed.
Lemma runs_loop_stop {X B} c me L1 L2 n (body : X -> K (X + B)) x d1 d2 b :
  runs c me L1 (body x) d1 (inr b) d2 L2 -> runs c me L1 (loop (S n) body x) d1 b d2 L2.
Proof. intros H1. eapply runs_bind; [exact H1|apply runs_ret]. Qed.

Lemma runs_iter {A} c me L (l : list A) (body : A -> K unit) (f : A -> data -> data) d :
  (forall a d, a ∈ l -> runs c me L (body a) d tt (f a d) L) ->
  runs c me L (iter l body) d tt (foldl (fun d a => f a d) d l) L.
Proof.
  revert d. induction l as [|a l IH]; intros d H; simpl; [apply runs_ret|].
  eapply runs_bind; [apply H; constructor|]. apply IH.
  intros x d' Hx. apply H. by constructor.
Qed.

Lemma runs_iter_seq c me L n (body : nat -> K unit) (I : nat -> data -> Prop) d :
  I 0%nat d ->
  (forall k d, (k < n)%nat -> I k d ->
     exists d', runs c me L (body k) d tt d' L /\ I (Datatypes.S k) d') ->
  exists d', runs c me L (iter (seq 0 n) body) d tt d' L /\ I n d'.
Proof.
  intros H0 Hs. enough (forall m k d, (k + m = n)%nat -> I k d ->
    exists d', runs c me L (iter (seq k m) body) d tt d' L /\ I n d') as H by (by apply (H n 0%nat)).
  induction m as [|m IH]; intros k d' Hk HI; simpl.
  - exists d'. split; [apply runs_ret|]. by replace n with k by lia.
  - destruct (Hs k d') as (d1 & Hr & HI1); [lia|done|].
    destruct (IH (Datatypes.S k) d1) as (d2 & Hr2 & HI2); [lia|done|].
    exists d2. split; [|done]. by eapply runs_bind.
Qed.

(** ** Automation

    [rstep] runs the first command of a sequence with the lemmas of the
    database [runs], [rlast] the only one left; components add the
    specifications of their operations. *)
Create HintDb runs.
#[export] Hint Resolve runs_ret runs_acquire runs_release runs_release2 runs_myproc
  runs_curproc runs_get_proc runs_set_proc runs_deref runs_initlock runs_when_false : runs.
#[export] Hint Extern 2 (runs _ _ _ (getd ?f) ?d _ _ _) =>
  exact (runs_getd _ _ _ f d) : runs.
#[export] Hint Extern 2 (runs _ _ _ (setd ?f) ?d _ _ _) =>
  exact (runs_setd _ _ _ f d) : runs.
#[export] Hint Extern 1 (_ ∉ _) => set_solver : runs.

Ltac rlast := solve [eauto 4 with runs].
Ltac rstep := eapply runs_bind; [rlast|cbv beta].
Ltac pstep := eapply runs_panics; [rlast|cbv beta].

(** ** A state of the locking primitives that exists: one CPU, in thread [me],
    with no lock held. *)
Definition sync1 (me : option nat) : sync :=
  Sync 0 true [Cpu 0 0 0 me 0 0 0 0 (replicate 6 segdesc0)] 1 ∅.

Lemma quiet_sync1 me : quiet (sync1 me) 0 me [].
Proof.
  split; try done.
  - split; [simpl; lia|simpl; lia|done|]. intros j Hj. lia.
  - intros l Hl. by apply not_elem_of_nil in Hl.
  - constructor.
Qed.
