(* ===== verification/Printk.v ===== *)
(** * Console output (console.c: printint, cprintf, cgaputc, consputc; uart.c: uartputc)

    The serial port is the list of bytes it was sent; the delay loop of
    [uartputc] has no effect on it.  The screen is an array of character cells
    with the cursor register of the controller. *)

From S2P Require Import Prelude Params State Spinlock.

(** A C string literal, without its terminator. *)
Fixpoint lit (s : string) : list Z :=
  match s with
  | EmptyString => []
  | String a s => Z.of_N (Ascii.N_of_ascii a) :: lit s
  end.

Definition BACKSPACE : Z := 0x100.
Definition NEWLINE : Z := 10.

Definition uartputc (c : Z) : K unit :=
  u <- getd uart;;
  when (negb (u =? 0)) (setd (fun d => d <|serial ::= fun l => l ++ [u8 c]|>)).

(** The cell contents of [cgaputc]: character [c] at cursor [pos]. *)
Definition cell (c : Z) : Z := Z.lor (Z.land c 0xff) 0x0700.

(** [memmove(crt, crt+80, ...); memset(crt+pos, 0, ...)] with [pos] already
    moved up one line. *)
Definition scroll (t : list Z) (pos : Z) : list Z :=
  let t := take (23 * 80) (drop 80 t) ++ drop (23 * 80) t in
  take (Z.to_nat pos) t ++ replicate (24 * 80 - Z.to_nat pos) 0 ++ drop (24 * 80) t.

Definition cgaputc (c : Z) : K unit :=
  pos <- getd crt_pos;;
  pos <- (if c =? NEWLINE then ret (pos + (80 - pos mod 80))
          else if c =? BACKSPACE then ret (if 0 <? pos then pos - 1 else pos)
          else setd (fun d => d <|crt ::= <[Z.to_nat pos := cell c]>|>);; ret (pos + 1));;
  if (pos <? 0) || (25 * 80 <? pos) then panic "pos under/overflow" else
  pos <- (if 24 <=? pos / 80 then
            let pos := pos - 80 in
            setd (fun d => d <|crt ::= fun t => scroll t pos|>);; ret pos
          else ret pos);;
  setd (fun d => d <|crt_pos := pos|>);;
  setd (fun d => d <|crt ::= <[Z.to_nat pos := Z.lor 32 0x0700]>|>).

(** After a panic on another CPU, [consputc] spins with interrupts off. *)
Definition consputc (c : Z) : K unit :=
  p <- getd panicked;;
  if negb (p =? 0) then cli;; stop Blocked else
  (if c =? BACKSPACE then uartputc 8;; uartputc 32;; uartputc 8 else uartputc c);;
  cgaputc c.

Definition digit (z : Z) : Z := lit "0123456789abcdef" !!! Z.to_nat z.

(** [do buf[i++] = digits[x % base]; while((x /= base) != 0);]  A 32-bit
    number has at most 32 digits in any base. *)
Fixpoint digits_of (fuel : nat) (x base : Z) : list Z :=
  match fuel with
  | O => []
  | S f => digit (x mod base) :: (if x / base =? 0 then [] else digits_of f (x / base) base)
  end.

Definition printint_chars (xx base sign : Z) : list Z :=
  let neg := negb (sign =? 0) && (xx <? 0) in
  let x := if neg then u32 (- xx) else u32 xx in
  reverse (digits_of 32 x base ++ (if neg then [45] else [])).

Definition printint (xx base sign : Z) : K unit := iter (printint_chars xx base sign) consputc.

(** Arguments of [cprintf]: a word, or a pointer to a string (maybe null). *)
Inductive parg := AInt (z : Z) | AStr (s : option (list Z)).

Definition PERCENT : Z := 37.

(** The scan of the format string.  Taking an argument that is not there, or
    using a number as a pointer, is a wild read. *)
Fixpoint cprintf_loop (fmt : list Z) (argp : list parg) : K unit :=
  match fmt with
  | [] => ret tt
  | c :: fmt =>
      if negb (c =? PERCENT) then consputc c;; cprintf_loop fmt argp else
      match fmt with
      | [] => ret tt
      | c :: fmt =>
          if c =? 100 (* d *) then
            match argp with
            | AInt z :: argp => printint (i32 z) 10 1;; cprintf_loop fmt argp
            | _ => fault
            end
          else if (c =? 120) || (c =? 112) (* x, p *) then
            match argp with
            | AInt z :: argp => printint (i32 z) 16 0;; cprintf_loop fmt argp
            | _ => fault
            end
          else if c =? 115 (* s *) then
            match argp with
            | AStr s :: argp =>
                iter (default (lit "(null)") s) consputc;; cprintf_loop fmt argp
            | _ => fault
            end
          else if c =? PERCENT then consputc PERCENT;; cprintf_loop fmt argp
          else consputc PERCENT;; consputc c;; cprintf_loop fmt argp
      end
  end.

Definition cprintf (fmt : list Z) (args : list parg) : K unit :=
  locking <- getd cons_locking;;
  when (negb (locking =? 0)) (acquire LCons);;
  cprintf_loop fmt args;;
  when (negb (locking =? 0)) (release LCons).

(** [cprintf("...\n")] *)
Definition printk (s : string) : K unit := cprintf (lit s ++ [NEWLINE]) [].

(** ** Output never fails *)

(** What output changes: the serial port, the screen and the cursor. *)
Definition out (s t : list Z) (p : Z) (d : data) : data :=
  d <|serial := s|> <|crt := t|> <|crt_pos := p|>.

(** The cursor is on one of the 24 lines that are not scrolled away. *)
Definition screen (d : data) : Prop := panicked d = 0 /\ 0 <= crt_pos d < 24 * 80.

Lemma out_out s t p s' t' p' d : out s' t' p' (out s t p d) = out s' t' p' d.
Proof. by destruct d. Qed.
Lemma out_id d : out (serial d) (crt d) (crt_pos d) d = d.
Proof. by destruct d. Qed.

Section Output.
Context (c : nat) (me : option nat) (L : list lockid).

Lemma runs_uartputc x d :
  runs c me L (uartputc x) d tt
    (d <|serial := if uart d =? 0 then serial d else serial d ++ [u8 x]|>) L.
Proof.
  unfold uartputc. rstep. destruct (uart d =? 0); cbn [negb].
  - eapply runs_eq; [apply runs_when_false|by destruct d].
  - apply runs_when_true. eapply runs_eq; [apply runs_setd|done].
Qed.

(** The position after the character, before scrolling *)
Definition cga_pos (x pos : Z) : Z :=
  if x =? NEWLINE then pos + (80 - pos mod 80)
  else if x =? BACKSPACE then (if 0 <? pos then pos - 1 else pos) else pos + 1.

Lemma cga_pos_range x pos : 0 <= pos < 24 * 80 -> 0 <= cga_pos x pos <= 24 * 80.
Proof.
  intros H. unfold cga_pos. destruct (x =? NEWLINE); [Z.div_mod_to_equations; lia|].
  destruct (x =? BACKSPACE); [|lia]. destruct (Z.ltb_spec 0 pos); lia.
Qed.

Lemma runs_cgaputc x d : screen d ->
  exists t p, runs c me L (cgaputc x) d tt (out (serial d) t p d) L /\ 0 <= p < 24 * 80.
Proof.
  intros [_ Hp]. unfold cgaputc. set (pos := cga_pos x (crt_pos d)).
  pose proof (cga_pos_range x _ Hp) as Hr. fold pos in Hr.
  assert (exists t1, runs c me L
    (if x =? NEWLINE then ret (crt_pos d + (80 - crt_pos d mod 80))
     else if x =? BACKSPACE then ret (if 0 <? crt_pos d then crt_pos d - 1 else crt_pos d)
     else setd (fun d0 => d0 <|crt ::= <[Z.to_nat (crt_pos d) := cell x]>|>);; ret (crt_pos d + 1))
    d pos (d <|crt := t1|>) L) as (t1 & H1).
  { unfold pos, cga_pos. destruct (x =? NEWLINE); [|destruct (x =? BACKSPACE)].
    1,2: exists (crt d); eapply runs_eq; [apply runs_ret|by destruct d].
    eexists. eapply runs_bind; [apply runs_setd|]. apply runs_ret. }
  assert (exists t2 p, 0 <= p < 24 * 80 /\ runs c me L
    (if 24 <=? pos / 80 then setd (fun d => d <|crt ::= fun t => scroll t (pos - 80)|>);; ret (pos - 80)
     else ret pos) (d <|crt := t1|>) p (d <|crt := t2|>) L) as (t2 & p & Hp2 & H2).
  { destruct (Z.leb_spec 24 (pos / 80)).
    - eexists _, (pos - 80). split; [Z.div_mod_to_equations; lia|].
      eapply runs_bind; [apply runs_setd|]. apply runs_ret.
    - exists t1, pos. split; [Z.div_mod_to_equations; lia|]. apply runs_ret. }
  eexists _, p. split; [|exact Hp2].
  rstep. eapply runs_bind; [exact H1|]. cbv beta.
  rewrite (proj2 (Z.ltb_ge pos 0)), (proj2 (Z.ltb_ge (25 * 80) pos)) by lia. cbn [orb].
  eapply runs_bind; [exact H2|]. eapply runs_bind; [apply runs_setd|].
  eapply runs_eq; [apply runs_setd|by destruct d].
Qed.

Lemma runs_consputc x d : screen d ->
  exists s t p, runs c me L (consputc x) d tt (out s t p d) L /\ 0 <= p < 24 * 80.
Proof.
  intros Hs. pose proof Hs as [Hp _]. unfold consputc.
  assert (exists s, runs c me L
    (if x =? BACKSPACE then uartputc 8;; uartputc 32;; uartputc 8 else uartputc x) d tt
    (d <|serial := s|>) L) as (s & H1).
  { destruct (x =? BACKSPACE); [|eexists; apply runs_uartputc].
    eexists. eapply runs_bind; [apply runs_uartputc|]. eapply runs_bind; [apply runs_uartputc|].
    eapply runs_eq; [apply runs_uartputc|by destruct d]. }
  assert (screen (d <|serial := s|>)) as Hs1 by exact Hs.
  destruct (runs_cgaputc x _ Hs1) as (t & p & H2 & Hr).
  exists s, t, p. split; [|done]. rstep. rewrite Hp. cbn [Z.eqb negb].
  eapply runs_bind; [exact H1|]. eapply runs_eq; [exact H2|by destruct d].
Qed.

Lemma screen_out s t p d : panicked d = 0 -> 0 <= p < 24 * 80 -> screen (out s t p d).
Proof. by split. Qed.

Lemma runs_putall l : forall d, screen d ->
  exists s t p, runs c me L (iter l consputc) d tt (out s t p d) L /\ 0 <= p < 24 * 80.
Proof.
  induction l as [|x l IH]; intros d Hs; cbn [iter].
  - exists (serial d), (crt d), (crt_pos d). split; [|apply Hs].
    eapply runs_eq; [apply runs_ret|by rewrite out_id].
  - destruct (runs_consputc x d Hs) as (s & t & p & H1 & Hp).
    destruct (IH (out s t p d) (screen_out _ _ _ _ (proj1 Hs) Hp)) as (s' & t' & p' & H2 & Hp').
    exists s', t', p'. rewrite out_out in H2. split; [by eapply runs_bind|done].
Qed.

(** The arguments fit the format. *)
Fixpoint fits (fmt : list Z) (args : list parg) : bool :=
  match fmt with
  | [] => true
  | c :: fmt =>
      if negb (c =? PERCENT) then fits fmt args else
      match fmt with
      | [] => true
      | c :: fmt =>
          if (c =? 100) || (c =? 120) || (c =? 112) then
            match args with AInt _ :: args => fits fmt args | _ => false end
          else if c =? 115 then
            match args with AStr _ :: args => fits fmt args | _ => false end
          else fits fmt args
      end
  end.

(** Output [m] that only prints *)
Definition prints (m : K unit) : Prop := forall d, screen d ->
  exists s t p, runs c me L m d tt (out s t p d) L /\ 0 <= p < 24 * 80.

Lemma prints_ret : prints (ret tt).
Proof.
  intros d Hs. exists (serial d), (crt d), (crt_pos d). rewrite out_id. split; [apply runs_ret|apply Hs].
Qed.
Lemma prints_seq m k : prints m -> prints k -> prints (m;; k).
Proof.
  intros Hm Hk d Hs. destruct (Hm d Hs) as (s & t & p & H1 & Hp).
  destruct (Hk (out s t p d) (screen_out _ _ _ _ (proj1 Hs) Hp)) as (s' & t' & p' & H2 & Hp').
  exists s', t', p'. rewrite out_out in H2. split; [by eapply runs_bind|done].
Qed.

Lemma prints_cprintf_loop n : forall fmt args, (length fmt < n)%nat ->
  fits fmt args = true -> prints (cprintf_loop fmt args).
Proof.
  assert (forall x, prints (consputc x)) as Hc by (intros x d; apply runs_consputc).
  assert (forall l, prints (iter l consputc)) as Hl by (intros l d; apply runs_putall).
  induction n as [|n IH]; intros fmt args Hn Hf; [lia|]. destruct fmt as [|x fmt]; [apply prints_ret|].
  simpl in Hn. cbn [cprintf_loop fits] in *. destruct (negb (x =? PERCENT)).
  { apply prints_seq; [done|]. apply IH; [lia|done]. }
  destruct fmt as [|y fmt]; [apply prints_ret|]. simpl in Hn.
  destruct (y =? 100); cbn [orb] in Hf; [|destruct ((y =? 120) || (y =? 112)); [|destruct (y =? 115)]].
  1,2,3: destruct args as [|[z|s] args]; try done; apply prints_seq; [apply Hl|apply IH; [lia|done]].
  destruct (y =? PERCENT); repeat (apply prints_seq; [done|]); apply IH; lia || done.
Qed.
End Output.

(** [cprintf] with arguments that fit its format returns, whether or not it
    takes the lock. *)
Lemma runs_cprintf c me L fmt args d :
  LCons ∉ L -> screen d -> fits fmt args = true ->
  exists s t p, runs c me L (cprintf fmt args) d tt (out s t p d) L /\ 0 <= p < 24 * 80.
Proof.
  intros HL Hs Hf. unfold cprintf.
  destruct (decide (cons_locking d = 0)) as [E|E].
  - destruct (prints_cprintf_loop c me L _ fmt args (Nat.lt_succ_diag_r _) Hf d Hs) as (s & t & p & H & Hp).
    exists s, t, p. split; [|done]. rstep. rewrite E. cbn [Z.eqb negb].
    eapply runs_bind; [apply runs_when_false|]. eapply runs_bind; [exact H|]. apply runs_when_false.
  - destruct (prints_cprintf_loop c me (LCons :: L) _ fmt args (Nat.lt_succ_diag_r _) Hf d Hs)
      as (s & t & p & H & Hp).
    exists s, t, p. split; [|done]. rstep. rewrite (proj2 (Z.eqb_neq _ _) E). cbn [negb].
    eapply runs_bind; [apply runs_when_true; by apply runs_acquire|].
    eapply runs_bind; [exact H|]. apply runs_when_true. apply runs_release.
Qed.
