(* ===== verification/Sched.v ===== *)
(** * Sleeping, waking and killing (proc.c: sched, yield, sleep, wakeup, kill)

    The switch to the scheduler and back is [swtch]: the state the thread
    finds when it runs again is the next entry of the [wake] script.  The
    saved register context is the rest of the model's own computation. *)

From S2P Require Import Prelude Params State Spinlock.

(** [swtch(&p->context, mycpu()->scheduler)].  The scheduler only resumes a
    RUNNABLE thread, and nothing makes a ZOMBIE runnable again. *)
Definition swtch (p : nat) : K unit := fun w =>
  match state (procs (da (now w)) p), wake w with
  | ZOMBIE, _ => (Exited, w)
  | _, [] => (Blocked, w)
  | _, f :: wk => (Ret tt, World (f (now w)) (noise w) wk)
  end.

Definition sched : K unit :=
  p <- curproc;;
  h <- holding LPtable;;
  if negb h then panic "sched ptable.lock" else
  c <- mycpu;; cpu <- get_cpu c;;
  if negb (ncli cpu =? 1) then panic "sched locks" else
  pr <- get_proc p;;
  if bool_decide (state pr = RUNNING) then panic "sched running" else
  fl <- readeflags;;
  if negb (Z.land fl FL_IF =? 0) then panic "sched interruptible" else
  c <- mycpu;; cpu <- get_cpu c;;
  let saved := intena cpu in
  swtch p;;
  c <- mycpu;;
  set_cpu c (fun cpu => cpu <|intena := saved|>).

Definition yield : K unit :=
  acquire LPtable;;
  p <- curproc;;
  set_proc p (fun p => p <|state := RUNNABLE|>);;
  sched;;
  release LPtable.

Definition sleep (ch : chan) (lk : lockid) : K unit :=
  p <- myproc;;
  match p with
  | None => panic "sleep"
  | Some p =>
      when (bool_decide (lk <> LPtable)) (acquire LPtable;; release lk);;
      set_proc p (fun p => p <|pchan := ch|>);;
      set_proc p (fun p => p <|state := SLEEPING|>);;
      sched;;
      set_proc p (fun p => p <|pchan := null|>);;
      when (bool_decide (lk <> LPtable)) (release LPtable;; acquire lk)
  end.

Definition wakes (ch : chan) (p : proc) : bool :=
  bool_decide (state p = SLEEPING /\ pchan p = ch).
Definition wake_proc (ch : chan) (p : proc) : proc :=
  if wakes ch p then p <|state := RUNNABLE|> else p.

(** The loop of [wakeup1] treats every slot of the table in the same way. *)
Definition wakeup_data (ch : chan) (d : data) : data :=
  d <|ptable ::= fmap (wake_proc ch)|>.
Definition wakeup1 (ch : chan) : K unit := setd (wakeup_data ch).

Definition wakeup (ch : chan) : K unit :=
  acquire LPtable;;
  wakeup1 ch;;
  release LPtable.

Definition kill (id : Z) : K Z :=
  acquire LPtable;;
  r <- foreach (seq 0 NPROC) (fun i =>
         p <- get_proc i;;
         if pid p =? id then
           set_proc i (fun p => p <|killed := 1|>);;
           p <- get_proc i;;
           when (bool_decide (state p = SLEEPING))
             (set_proc i (fun p => p <|state := RUNNABLE|>));;
           release LPtable;;
           ret (Some 0)
         else ret None);;
  match r with
  | Some v => ret v
  | None => release LPtable;; ret (-1)
  end.

(** ** Specifications *)

(** The process table has its [NPROC] slots. *)
Definition table_ok (d : data) : Prop := length (ptable d) = NPROC.

Lemma procs_upd_same d i f :
  (i < length (ptable d))%nat -> procs (upd_procs i f d) i = f (procs d i).
Proof.
  intros H. unfold procs, upd_procs. getset. rewrite !list_lookup_total_alt.
  rewrite list_lookup_alter_eq. by destruct (lookup_lt_is_Some_2 (ptable d) i H) as [x ->].
Qed.

Lemma procs_upd_other d i j f : i <> j -> procs (upd_procs i f d) j = procs d j.
Proof.
  intros H. unfold procs, upd_procs. getset. by rewrite !list_lookup_total_alt, list_lookup_alter_ne.
Qed.

Lemma procs_upd d i j f :
  (i < length (ptable d))%nat ->
  procs (upd_procs i f d) j = if decide (i = j) then f (procs d j) else procs d j.
Proof.
  intros H. case_decide as E; [subst; by apply procs_upd_same|by apply procs_upd_other].
Qed.

Lemma length_upd_procs d i f : length (ptable (upd_procs i f d)) = length (ptable d).
Proof. unfold upd_procs. getset. apply length_alter. Qed.

Lemma table_ok_upd d i f : table_ok d -> table_ok (upd_procs i f d).
Proof. unfold table_ok. by rewrite length_upd_procs. Qed.

Lemma procs_wakeup d ch i :
  (i < length (ptable d))%nat ->
  procs (wakeup_data ch d) i = wake_proc ch (procs d i).
Proof.
  intros H. unfold procs, wakeup_data. getset. rewrite !list_lookup_total_alt, list_lookup_fmap.
  by destruct (lookup_lt_is_Some_2 (ptable d) i H) as [x ->].
Qed.

Lemma table_ok_wakeup d ch : table_ok d -> table_ok (wakeup_data ch d).
Proof. unfold table_ok, wakeup_data. getset. by rewrite length_fmap. Qed.

Lemma upd_procs_compose d i f g :
  upd_procs i g (upd_procs i f d) = upd_procs i (fun p => g (f p)) d.
Proof.
  unfold upd_procs, upd. f_equal. apply list_eq. intros j.
  destruct (decide (i = j)) as [->|Hne].
  - cbn. rewrite !list_lookup_alter_eq. by destruct (ptable d !! j).
  - cbn. by rewrite !list_lookup_alter_ne.
Qed.

Lemma upd_procs_ext d i f g :
  f (procs d i) = g (procs d i) -> upd_procs i f d = upd_procs i g d.
Proof.
  intros H. unfold upd_procs, upd. destruct d as [t].
  unfold procs in H. simpl in *. f_equal. apply list_eq. intros j.
  destruct (decide (i = j)) as [->|Hne].
  - rewrite !list_lookup_alter_eq. rewrite list_lookup_total_alt in H.
    destruct (t !! j) eqn:E; simpl in *; congruence.
  - by rewrite !list_lookup_alter_ne.
Qed.

(** What [kill] does to the slot it finds. *)
Definition kill_proc (p : proc) : proc :=
  let p := p <|killed := 1|> in
  if bool_decide (state p = SLEEPING) then p <|state := RUNNABLE|> else p.

Section Specs.
Context (c : nat) (me : option nat).

Lemma runs_wakeup1 L ch d : runs c me L (wakeup1 ch) d tt (wakeup_data ch d) L.
Proof. exact (runs_setd c me L (wakeup_data ch) d). Qed.

Lemma runs_wakeup L ch d :
  LPtable ∉ L -> runs c me L (wakeup ch) d tt (wakeup_data ch d) L.
Proof.
  intros HL. eapply runs_bind; [by apply runs_acquire|].
  eapply runs_bind; [apply runs_wakeup1|]. apply runs_release.
Qed.

Lemma runs_kill_found L d i id :
  LPtable ∉ L -> table_ok d -> (i < NPROC)%nat -> pid (procs d i) = id ->
  (forall j, (j < i)%nat -> pid (procs d j) <> id) ->
  runs c me L (kill id) d 0 (upd_procs i kill_proc d) L.
Proof.
  intros HL Ht Hi Hid Hj. eapply runs_bind; [by apply runs_acquire|].
  eapply runs_bind; [apply (runs_scan_some c me _ L NPROC i)|apply runs_ret]; [done| |].
  - intros j Hlt. eapply runs_bind; [apply runs_get_proc|].
    destruct (Z.eqb_spec (pid (procs d j)) id); [by destruct (Hj j Hlt)|]. apply runs_ret.
  - eapply runs_bind; [apply runs_get_proc|]. rewrite (proj2 (Z.eqb_eq _ _) Hid).
    eapply runs_bind; [apply runs_set_proc|]. eapply runs_bind; [apply runs_get_proc|].
    rewrite procs_upd_same by (rewrite Ht; done).
    eapply runs_bind with (a := tt) (d2 := upd_procs i kill_proc d).
    + case_bool_decide as E.
      * eapply runs_eq; [apply runs_when_true, runs_set_proc|].
        rewrite upd_procs_compose. apply upd_procs_ext.
        unfold kill_proc. by rewrite bool_decide_true.
      * eapply runs_eq; [apply runs_when_false|]. apply upd_procs_ext.
        unfold kill_proc. by rewrite bool_decide_false.
    + eapply runs_bind; [apply runs_release|]. apply runs_ret.
Qed.

Lemma runs_kill_absent L d id :
  LPtable ∉ L -> (forall j, (j < NPROC)%nat -> pid (procs d j) <> id) ->
  runs c me L (kill id) d (-1) d L.
Proof.
  intros HL Hj. eapply runs_bind; [by apply runs_acquire|].
  eapply runs_bind; [apply runs_scan_none|].
  - intros j Hlt. eapply runs_bind; [apply runs_get_proc|].
    destruct (Z.eqb_spec (pid (procs d j)) id); [by destruct (Hj j Hlt)|]. apply runs_ret.
  - eapply runs_bind; [apply runs_release|]. apply runs_ret.
Qed.
End Specs.

(** ** Runs that sleep

    [execs i L m d wk a d' L' wk']: in thread [i], holding [L], with data [d]
    and the script [wk], [m] returns [a] with data [d'], holding [L'], and
    leaves [wk'] of the script.  The thread may come back on another CPU. *)
Definition execs {A} (i : nat) (L : list lockid) (m : K A) (d : data)
    (wk : list (kernel -> kernel)) (a : A) (d' : data) (L' : list lockid)
    (wk' : list (kernel -> kernel)) : Prop :=
  forall s c, quiet s c (Some i) L ->
  exists s' c', m (World (Kernel s d) [] wk) = (Ret a, World (Kernel s' d') [] wk')
    /\ quiet s' c' (Some i) L'.

(** The same situation, but the thread never comes back. *)
Definition blocks {A} (i : nat) (L : list lockid) (m : K A) (d : data)
    (wk : list (kernel -> kernel)) : Prop :=
  forall s c, quiet s c (Some i) L ->
  exists w', m (World (Kernel s d) [] wk) = (Blocked, w').

(** A script entry that brings thread [i] back, holding [ptable.lock] as the
    scheduler leaves it, after the rest of the system did [g] to the data. *)
Definition resumes (i : nat) (f : kernel -> kernel) (g : data -> data) : Prop :=
  forall s c d, quiet s c (Some i) [LPtable] ->
  exists s' c', f (Kernel s d) = Kernel s' (g d) /\ quiet s' c' (Some i) [LPtable].

(** On a single CPU, [lift g] is such an entry for every [g]. *)
Definition lift (g : data -> data) (k : kernel) : kernel := Kernel (sy k) (g (da k)).

Lemma resumes_lift i g : resumes i (lift g) g.
Proof. intros s c d Hq. by exists s, c. Qed.

Section Execs.
Context (i : nat).

Lemma runs_execs {A} L L' (m : K A) d wk a d' :
  (forall c, runs c (Some i) L m d a d' L') -> execs i L m d wk a d' L' wk.
Proof.
  intros H s c Hq. destruct (H c s wk Hq) as (s' & E & Hq'). by exists s', c.
Qed.

Lemma execs_bind {A B} L1 L2 L3 (m : K A) (f : A -> K B) d1 d2 d3 a b wk1 wk2 wk3 :
  execs i L1 m d1 wk1 a d2 L2 wk2 -> execs i L2 (f a) d2 wk2 b d3 L3 wk3 ->
  execs i L1 (bind m f) d1 wk1 b d3 L3 wk3.
Proof.
  intros H1 H2 s c Hq. destruct (H1 s c Hq) as (s1 & c1 & E1 & Hq1).
  destruct (H2 s1 c1 Hq1) as (s2 & c2 & E2 & Hq2).
  exists s2, c2. by rewrite (bind_Ret _ _ _ _ _ E1).
Qed.

Lemma blocks_bind {A B} L (m : K A) (f : A -> K B) d wk :
  blocks i L m d wk -> blocks i L (bind m f) d wk.
Proof.
  intros H s c Hq. destruct (H s c Hq) as (w & E). exists w. unfold bind. by rewrite E.
Qed.

Lemma execs_blocks {A B} L1 L2 (m : K A) (f : A -> K B) d1 d2 a wk1 wk2 :
  execs i L1 m d1 wk1 a d2 L2 wk2 -> blocks i L2 (f a) d2 wk2 ->
  blocks i L1 (bind m f) d1 wk1.
Proof.
  intros H1 H2 s c Hq. destruct (H1 s c Hq) as (s1 & c1 & E1 & Hq1).
  destruct (H2 s1 c1 Hq1) as (w & E2). exists w. by rewrite (bind_Ret _ _ _ _ _ E1).
Qed.

(** The checks of [sched] pass: only [ptable.lock] is held, interrupts are
    off and the state has been changed. *)
Lemma sched_checks d wk s c :
  quiet s c (Some i) [LPtable] -> state (procs d i) <> RUNNING ->
  exists s1 v, quiet s1 c (Some i) [LPtable] /\
    sched (World (Kernel s d) [] wk)
    = (swtch i;; c <- mycpu;; set_cpu c (fun cpu => cpu <|intena := v|>))
      (World (Kernel s1 d) [] wk).
Proof.
  intros Hq Hst. unfold sched.
  destruct (runs_curproc c i [LPtable] d s wk Hq) as (s1 & E1 & Hq1).
  rewrite (bind_Ret _ _ _ _ _ E1).
  destruct (holding_quiet s1 c (Some i) _ _ LPtable d [] wk Hq1) as (s2 & E2 & Hq2 & _).
  rewrite (bind_Ret _ _ _ _ _ E2), bool_decide_true by constructor.
  change (negb true) with false. cbv iota.
  assert (mycpu (World (Kernel s2 d) [] wk) = (Ret c, World (Kernel s2 d) [] wk)) as Em.
  { apply mycpu_eq; [apply Hq2|by apply Hq2]. }
  rewrite (bind_Ret _ _ _ _ _ Em). unfold get_cpu, gety. rewrite bind_gets. cbn [now sy].
  rewrite (q_ncli _ _ _ _ _ Hq2).
  change (negb (Z.of_nat (length [LPtable]) =? 1)) with false. cbv iota.
  unfold get_proc, getd. rewrite bind_gets. cbn [now da]. rewrite bool_decide_false by done.
  unfold readeflags, gety. rewrite bind_gets. cbn [now sy].
  rewrite (q_if _ _ _ _ _ Hq2) by done.
  change (negb (Z.land 0 FL_IF =? 0)) with false. cbv iota.
  rewrite (bind_Ret _ _ _ _ _ Em), bind_gets. cbn [now sy].
  by exists s2, (intena (cpus s2 !!! c)).
Qed.

Lemma quiet_intena s c me L v :
  quiet s c me L ->
  quiet (s <|cpus ::= alter (fun cpu => cpu <|intena := v|>) c|>) c me L.
Proof.
  intros [Hc Hp Hn Hif Hh Hf Hnd]. split; getset; rewrite ?cpu_alter_eq by done; try done.
  by apply on_cpu_set_cpu.
Qed.

Lemma execs_sched d f g wk :
  resumes i f g -> state (procs d i) <> RUNNING -> state (procs d i) <> ZOMBIE ->
  execs i [LPtable] sched d (f :: wk) tt (g d) [LPtable] wk.
Proof.
  intros Hf Hr Hz s c Hq.
  destruct (sched_checks d (f :: wk) s c Hq Hr) as (s1 & v & Hq1 & ->).
  destruct (Hf s1 c d Hq1) as (s2 & c2 & E2 & Hq2).
  erewrite bind_Ret; cycle 1.
  { unfold swtch. cbn [now da wake noise]. rewrite E2.
    destruct (state (procs d i)); try done. }
  erewrite bind_Ret; [|apply mycpu_eq; [apply Hq2|by apply Hq2]].
  eexists _, c2. split; [reflexivity|]. cbn [now sy da]. by apply quiet_intena.
Qed.

Lemma blocks_sched d :
  state (procs d i) <> RUNNING -> state (procs d i) <> ZOMBIE ->
  blocks i [LPtable] sched d [].
Proof.
  intros Hr Hz s c Hq. destruct (sched_checks d [] s c Hq Hr) as (s1 & v & Hq1 & ->).
  eexists. unfold bind, swtch. cbn [now da wake].
  destruct (state (procs d i)); done.
Qed.

(** A ZOMBIE leaves for good. *)
Lemma sched_exits d wk s c :
  quiet s c (Some i) [LPtable] -> state (procs d i) = ZOMBIE ->
  exists s1, sched (World (Kernel s d) [] wk) = (Exited, World (Kernel s1 d) [] wk)
    /\ quiet s1 c (Some i) [LPtable].
Proof.
  intros Hq Hz. destruct (sched_checks d wk s c Hq) as (s1 & v & Hq1 & ->); [congruence|].
  exists s1. split; [|done]. unfold bind, swtch. cbn [now da wake]. by rewrite Hz.
Qed.

(** Data of a thread that has gone to sleep on [ch]. *)
Definition asleep (ch : chan) (d : data) : data :=
  upd_procs i (fun p => p <|pchan := ch|> <|state := SLEEPING|>) d.
Definition awake (d : data) : data := upd_procs i (fun p => p <|pchan := null|>) d.

Lemma asleep_state ch d :
  (i < length (ptable d))%nat -> state (procs (asleep ch d) i) = SLEEPING.
Proof. intros H. unfold asleep. by rewrite procs_upd_same. Qed.

(** [sleep] swaps the caller's lock for [ptable.lock] and back. *)
Lemma execs_sleep_enter lk d wk :
  execs i [lk] (when (bool_decide (lk <> LPtable)) (acquire LPtable;; release lk))
    d wk tt d [LPtable] wk.
Proof.
  apply runs_execs. intros c. case_bool_decide as E; cbn [when].
  - eapply runs_bind; [apply runs_acquire; set_solver|]. apply runs_release2.
  - replace lk with LPtable by (destruct (decide (lk = LPtable)); [done|tauto]).
    apply runs_ret.
Qed.

Lemma execs_sleep_leave lk d wk :
  execs i [LPtable] (when (bool_decide (lk <> LPtable)) (release LPtable;; acquire lk))
    d wk tt d [lk] wk.
Proof.
  apply runs_execs. intros c. case_bool_decide as E; cbn [when].
  - eapply runs_bind; [apply runs_release|]. apply runs_acquire. set_solver.
  - replace lk with LPtable by (destruct (decide (lk = LPtable)); [done|tauto]).
    apply runs_ret.
Qed.

Lemma execs_sleep lk ch d f g wk :
  (i < length (ptable d))%nat -> resumes i f g ->
  execs i [lk] (sleep ch lk) d (f :: wk) tt (awake (g (asleep ch d))) [lk] wk.
Proof.
  intros Hi Hf. unfold sleep.
  eapply execs_bind; [apply runs_execs; intros c; apply runs_myproc|]. cbv beta iota.
  eapply execs_bind; [apply execs_sleep_enter|].
  eapply execs_bind; [apply runs_execs; intros c; apply runs_set_proc|].
  eapply execs_bind; [apply runs_execs; intros c; apply runs_set_proc|].
  rewrite upd_procs_compose. fold (asleep ch d).
  eapply execs_bind; [apply execs_sched; [done|by rewrite asleep_state..]|].
  eapply execs_bind; [apply runs_execs; intros c; apply runs_set_proc|].
  apply execs_sleep_leave.
Qed.

Lemma blocks_sleep lk ch d :
  (i < length (ptable d))%nat -> blocks i [lk] (sleep ch lk) d [].
Proof.
  intros Hi. unfold sleep.
  eapply execs_blocks; [apply runs_execs; intros c; apply runs_myproc|]. cbv beta iota.
  eapply execs_blocks; [apply execs_sleep_enter|].
  eapply execs_blocks; [apply runs_execs; intros c; apply runs_set_proc|].
  eapply execs_blocks; [apply runs_execs; intros c; apply runs_set_proc|].
  rewrite upd_procs_compose. fold (asleep ch d).
  apply blocks_bind, blocks_sched; by rewrite asleep_state.
Qed.
End Execs.

#[export] Hint Resolve runs_wakeup runs_wakeup1 : runs.

(** A command that does not sleep, in a run that may *)
Ltac estep := eapply execs_bind; [apply runs_execs; intros ?; rlast|cbv beta].
Ltac bstep := eapply execs_blocks; [apply runs_execs; intros ?; rlast|cbv beta].

(** ** Loops that sleep

    Every [while(cond) sleep(chan, lk)] of the kernel has this shape: the body
    either leaves the loop without sleeping or sleeps once and goes round.  The
    loop is bounded by the number of wake-ups left in the script, and the bound
    is never hit: the loop returns or the thread stays asleep. *)
Section SleepLoop.
Context (i : nat) (lk : lockid) {B : Type} (body : unit -> K (unit + B)).
Context (I : data -> Prop) (Q : data -> B -> data -> list lockid -> Prop).

(** The other threads keep the invariant [I] while this one sleeps. *)
Definition keeps (f : kernel -> kernel) : Prop :=
  exists g, resumes i f g /\ forall ch d, I d -> I (awake i (g (asleep i ch d))).

Definition leaves (d : data) (b : B) (d' : data) (L' : list lockid) : Prop :=
  forall c, runs c (Some i) [lk] (body tt) d (inr b) d' L'.
(** It sleeps in the state [d0] (it may have woken others first). *)
Definition sleeps_on (d : data) (ch : chan) (d0 : data) : Prop :=
  blocks i [lk] (body tt) d [] /\
  forall f g wk, resumes i f g ->
    execs i [lk] (body tt) d (f :: wk) (inl tt) (awake i (g (asleep i ch d0))) [lk] wk.

Hypothesis body_shape : forall d, I d ->
  (exists b d' L', leaves d b d' L' /\ Q d b d' L') \/ (exists ch d0, I d0 /\ sleeps_on d ch d0).

Lemma sleep_loop wk d :
  I d -> Forall keeps wk ->
  blocks i [lk] (retry body) d wk \/
  exists d1 b d' L' wk',
    I d1 /\ Q d1 b d' L' /\ wk' `suffix_of` wk /\
    execs i [lk] (retry body) d wk b d' L' wk'.
Proof.
  intros Hd Hwk.
  enough (blocks i [lk] (loop (Datatypes.S (length wk)) body tt) d wk \/
    exists d1 b d' L' wk', I d1 /\ Q d1 b d' L' /\ wk' `suffix_of` wk /\
    execs i [lk] (loop (Datatypes.S (length wk)) body tt) d wk b d' L' wk') as H by exact H.
  revert d Hd. induction Hwk as [|f wk Hf _ IH]; intros d Hd;
    rewrite loop_unfold;
    (destruct (body_shape d Hd) as [(b & d' & L' & Hl & HQ)|(ch & d0 & Hd0 & Hb & Hs)];
     [right; exists d, b, d', L'; eexists; split_and!;
      [done|done| |eapply execs_bind; [by apply runs_execs|];
                   apply runs_execs; intros; apply runs_ret]; done|]).
  - left. by apply blocks_bind.
  - destruct Hf as (g & Hr & Hg).
    destruct (IH _ (Hg ch d0 Hd0)) as [Hbl|(d1 & b & d' & L' & wk' & ? & ? & ? & Hex)].
    + left. eapply execs_blocks; [by apply (Hs f g wk)|]. done.
    + right. exists d1, b, d', L', wk'. split_and!; [done|done| |].
      * by apply suffix_cons_r.
      * eapply execs_bind; [by apply (Hs f g wk)|]. done.
Qed.
End SleepLoop.

