(* ===== verification/Sleeplock.v ===== *)
(** * Sleep-locks (sleeplock.c) *)

From S2P Require Import Prelude Params State Spinlock Sched.

Definition get_sl (s : slid) : K sleeplock := getd (fun d => sleeplocks d !!! s).
Definition upd_sl (s : slid) (f : sleeplock -> sleeplock) (d : data) : data :=
  d <|sleeplocks ::= fun m => <[s := f (m !!! s)]> m|>.
Definition set_sl (s : slid) (f : sleeplock -> sleeplock) : K unit := setd (upd_sl s f).

Definition initsleeplock (s : slid) (nm : string) : K unit :=
  initlock (LSleep s) "sleep lock";;
  set_sl s (fun lk => lk <|s_name := nm|>);;
  set_sl s (fun lk => lk <|s_locked := 0|>);;
  set_sl s (fun lk => lk <|s_pid := 0|>).

Definition acquiresleep_body (s : slid) (_ : unit) : K (unit + unit) :=
  lk <- get_sl s;;
  if s_locked lk =? 0 then ret (inr tt)
  else sleep (CSleep s) (LSleep s);; ret (inl tt).

Definition acquiresleep (s : slid) : K unit :=
  acquire (LSleep s);;
  retry (acquiresleep_body s);;
  set_sl s (fun lk => lk <|s_locked := 1|>);;
  p <- curproc;; p <- get_proc p;;
  set_sl s (fun lk => lk <|s_pid := pid p|>);;
  release (LSleep s).

Definition releasesleep (s : slid) : K unit :=
  acquire (LSleep s);;
  set_sl s (fun lk => lk <|s_locked := 0|>);;
  set_sl s (fun lk => lk <|s_pid := 0|>);;
  wakeup (CSleep s);;
  release (LSleep s).

Definition holdingsleep (s : slid) : K bool :=
  acquire (LSleep s);;
  lk <- get_sl s;;
  r <- (if s_locked lk =? 0 then ret false
        else p <- curproc;; p <- get_proc p;; ret (s_pid lk =? pid p));;
  release (LSleep s);;
  ret r.

(** ** Specifications *)

Definition lock_by (id : Z) (lk : sleeplock) : sleeplock :=
  lk <|s_locked := 1|> <|s_pid := id|>.
Definition unlock_sl (lk : sleeplock) : sleeplock := lk <|s_locked := 0|> <|s_pid := 0|>.

Definition sl (d : data) (s : slid) : sleeplock := sleeplocks d !!! s.

Lemma upd_sl_compose d s f g : upd_sl s g (upd_sl s f d) = upd_sl s (fun x => g (f x)) d.
Proof.
  unfold upd_sl, upd. f_equal. cbn. by rewrite lookup_total_insert_eq, insert_insert_eq.
Qed.

Lemma sl_upd_same d s f : sl (upd_sl s f d) s = f (sl d s).
Proof. unfold sl, upd_sl. getset. by rewrite lookup_total_insert_eq. Qed.
Lemma sl_upd_other d s s' f : s <> s' -> sl (upd_sl s f d) s' = sl d s'.
Proof. intros. unfold sl, upd_sl. getset. by rewrite lookup_total_insert_ne. Qed.
Lemma procs_upd_sl d s f i : procs (upd_sl s f d) i = procs d i.
Proof. done. Qed.

Section Specs.
Context (c i : nat).

Lemma runs_get_sl L s d : runs c (Some i) L (get_sl s) d (sl d s) d L.
Proof. exact (runs_getd c (Some i) L (fun d => sl d s) d). Qed.
Lemma runs_set_sl L s f d : runs c (Some i) L (set_sl s f) d tt (upd_sl s f d) L.
Proof. exact (runs_setd c (Some i) L (upd_sl s f) d). Qed.

Lemma runs_acquiresleep L s d :
  LSleep s ∉ L -> s_locked (sl d s) = 0 ->
  runs c (Some i) L (acquiresleep s) d tt (upd_sl s (lock_by (pid (procs d i))) d) L.
Proof.
  intros HL Hfree. eapply runs_bind; [by apply runs_acquire|].
  eapply runs_bind.
  { apply runs_retry_exit with (b := tt). eapply runs_bind; [apply runs_get_sl|].
    rewrite Hfree. apply runs_ret. }
  eapply runs_bind; [apply runs_set_sl|]. eapply runs_bind; [apply runs_curproc|].
  eapply runs_bind; [apply runs_get_proc|]. eapply runs_bind; [apply runs_set_sl|].
  rewrite upd_sl_compose, procs_upd_sl. apply runs_release.
Qed.

Lemma runs_releasesleep L s d :
  LSleep s ∉ L -> LPtable ∉ L ->
  runs c (Some i) L (releasesleep s) d tt (wakeup_data (CSleep s) (upd_sl s unlock_sl d)) L.
Proof.
  intros HL HP. eapply runs_bind; [by apply runs_acquire|].
  eapply runs_bind; [apply runs_set_sl|]. eapply runs_bind; [apply runs_set_sl|].
  eapply runs_bind; [apply runs_wakeup; set_solver|]. rewrite upd_sl_compose.
  apply runs_release.
Qed.

Lemma runs_holdingsleep L s d :
  LSleep s ∉ L ->
  runs c (Some i) L (holdingsleep s) d
    (negb (s_locked (sl d s) =? 0) && (s_pid (sl d s) =? pid (procs d i))) d L.
Proof.
  intros HL. eapply runs_bind; [by apply runs_acquire|].
  eapply runs_bind; [apply runs_get_sl|].
  destruct (s_locked (sl d s) =? 0); simpl negb; simpl andb.
  - eapply runs_bind; [apply runs_ret|]. eapply runs_bind; [apply runs_release|]. apply runs_ret.
  - eapply runs_bind.
    { eapply runs_bind; [apply runs_curproc|]. eapply runs_bind; [apply runs_get_proc|].
      apply runs_ret. }
    eapply runs_bind; [apply runs_release|]. apply runs_ret.
Qed.
End Specs.
