(* ===== verification/CString.v ===== *)
(** * Byte memory and string.c

    Memory is a function from addresses to bytes.  The loops of string.c are
    recursive functions on the count; a C string is seen from its start as a
    function from offsets to bytes, so that the same definitions serve arrays
    in memory and arrays held in a record. *)

From S2P Require Import Prelude Params.

Abbreviation memory := (Z -> Z).

Definition put (m : memory) (a v : Z) : memory := fun x => if x =? a then u8 v else m x.

(** [rep stosb], [rep stosl] *)
Definition stosb (m : memory) (a v cnt : Z) : memory := fun x =>
  if (a <=? x) && (x <? a + cnt) then u8 v else m x.
Definition stosl (m : memory) (a v cnt : Z) : memory := fun x =>
  if (a <=? x) && (x <? a + 4 * cnt) then u8 (Z.shiftr v (8 * ((x - a) mod 4))) else m x.

Definition memset (m : memory) (dst c n : Z) : memory :=
  if (Z.rem (i32 dst) 4 =? 0) && (n mod 4 =? 0) then
    let c := Z.land c 0xFF in
    stosl m dst (Z.lor (Z.lor (Z.lor (Z.shiftl c 24) (Z.shiftl c 16)) (Z.shiftl c 8)) c) (n / 4)
  else stosb m dst c n.

Fixpoint copy_fwd (n : nat) (m : memory) (d s : Z) : memory :=
  match n with
  | O => m
  | S n => copy_fwd n (put m d (m s)) (d + 1) (s + 1)
  end.
Fixpoint copy_bwd (n : nat) (m : memory) (d s : Z) : memory :=
  match n with
  | O => m
  | S n => copy_bwd n (put m (d - 1) (m (s - 1))) (d - 1) (s - 1)
  end.

(** The pointers [s + n] and [d + n] must not wrap around the address space. *)
Definition memmove (m : memory) (dst src n : Z) : memory :=
  if (src <? dst) && (dst <? src + n) then copy_bwd (Z.to_nat n) m (dst + n) (src + n)
  else copy_fwd (Z.to_nat n) m dst src.

Definition memcpy := memmove.

Fixpoint memcmp_loop (n : nat) (m : memory) (s1 s2 : Z) : Z :=
  match n with
  | O => 0
  | S n => if m s1 =? m s2 then memcmp_loop n m (s1 + 1) (s2 + 1) else m s1 - m s2
  end.
Definition memcmp (m : memory) (v1 v2 n : Z) : Z := memcmp_loop (Z.to_nat n) m v1 v2.

(** ** Strings *)

Abbreviation cstr := (Z -> Z).
Definition adv (p : cstr) : cstr := fun i => p (i + 1).

Fixpoint strncmp_loop (n : nat) (p q : cstr) : Z :=
  match n with
  | O => 0
  | S n' =>
      if negb (p 0 =? 0) && (p 0 =? q 0) then strncmp_loop n' (adv p) (adv q)
      else p 0 - q 0
  end.
Definition strncmp (p q : cstr) (n : Z) : Z := strncmp_loop (Z.to_nat n) p q.

(** The bytes written by [strncpy(s, t, n)], from [s] on. *)
Fixpoint strncpy_loop (n : nat) (t : cstr) : list Z :=
  match n with
  | O => []
  | S n' => if t 0 =? 0 then replicate n 0 else t 0 :: strncpy_loop n' (adv t)
  end.
Definition strncpy (t : cstr) (n : Z) : list Z := strncpy_loop (Z.to_nat n) t.

(** The bytes written by [safestrcpy(s, t, n)]: at most [n - 1] of [t], the
    terminator of [t] included when it is met, then a zero. *)
Fixpoint safestrcpy_loop (n : nat) (t : cstr) : list Z :=
  match n with
  | O => [0]
  | S n' => if t 0 =? 0 then [0; 0] else t 0 :: safestrcpy_loop n' (adv t)
  end.
Definition safestrcpy (t : cstr) (n : Z) : list Z :=
  if n <=? 0 then [] else safestrcpy_loop (Z.to_nat (n - 1)) t.

(** [strlen] runs off the end of memory when there is no terminator; the fuel
    is the number of bytes it may look at. *)
Fixpoint strlen (fuel : nat) (s : cstr) : option Z :=
  match fuel with
  | O => None
  | S f => if s 0 =? 0 then Some 0 else (fun n => 1 + n) <$> strlen f (adv s)
  end.

(** The bytes of an array up to its terminator *)
Fixpoint until0 (l : list Z) : list Z :=
  match l with
  | [] => []
  | c :: l => if c =? 0 then [] else c :: until0 l
  end.

(** ** 32-bit words, little-endian *)

Definition load32 (m : memory) (a : Z) : Z :=
  m a + 256 * m (a + 1) + 65536 * m (a + 2) + 16777216 * m (a + 3).
Definition load16 (m : memory) (a : Z) : Z := m a + 256 * m (a + 1).
Definition store32 (m : memory) (a v : Z) : memory :=
  put (put (put (put m a v) (a + 1) (v / 256)) (a + 2) (v / 65536)) (a + 3) (v / 16777216).

(** Bytes and words inside a block of bytes *)
Definition load_bytes (m : memory) (a : Z) (n : nat) : list Z :=
  (fun i => m (a + Z.of_nat i)) <$> seq 0 n.
Definition get32 (l : list Z) (off : Z) : Z := load32 (fun i => l !!! Z.to_nat i) off.
Definition get16 (l : list Z) (off : Z) : Z :=
  l !!! Z.to_nat off + 256 * (l !!! Z.to_nat (off + 1)).
Definition set_bytes (l : list Z) (off : Z) (bs : list Z) : list Z :=
  list_inserts (Z.to_nat off) bs l.
Definition le32 (v : Z) : list Z := [u8 v; u8 (v / 256); u8 (v / 65536); u8 (v / 16777216)].
Definition le16 (v : Z) : list Z := [u8 v; u8 (v / 256)].
Definition set32 (l : list Z) (off v : Z) : list Z := set_bytes l off (le32 v).
Definition set16 (l : list Z) (off v : Z) : list Z := set_bytes l off (le16 v).

(** ** What the routines compute *)

(** Bytes of memory really are bytes. *)
Definition bytes (m : memory) : Prop := forall a, 0 <= m a < 256.

Lemma put_bytes m a v : bytes m -> bytes (put m a v).
Proof. intros H x. unfold put. destruct (x =? a); [apply u8_range|apply H]. Qed.

Lemma u8_small z : 0 <= z < 256 -> u8 z = z.
Proof. apply Z.mod_small. Qed.

Lemma shiftr_byte c k :
  0 <= c < 256 -> 0 <= k < 4 ->
  u8 (Z.shiftr (Z.lor (Z.lor (Z.lor (Z.shiftl c 24) (Z.shiftl c 16)) (Z.shiftl c 8)) c) (8 * k)) = c.
Proof.
  intros Hc Hk. unfold u8. change 256 with (2 ^ 8). rewrite <- Z.land_ones by lia.
  assert (forall n, 8 <= n -> Z.testbit c n = false) as Hhi.
  { intros n Hn. rewrite <- (Z.mod_small c (2 ^ 8)) by (change (2 ^ 8) with 256; lia).
    apply Z.mod_pow2_bits_high. lia. }
  apply Z.bits_inj'. intros n Hn.
  rewrite Z.land_spec, Z.shiftr_spec by lia. rewrite !Z.lor_spec.
  destruct (Z.ltb_spec n 8).
  - rewrite Z.ones_spec_low, andb_true_r by lia.
    assert (k = 0 \/ k = 1 \/ k = 2 \/ k = 3) as Hk4 by lia.
    destruct Hk4 as [->|[->|[->| ->]]];
      rewrite ?Z.shiftl_spec by lia;
      repeat match goal with
      | |- context [Z.testbit c ?x] =>
          progress (first [rewrite (Hhi x) by lia | rewrite (Z.testbit_neg_r c x) by lia
                          | replace x with n by lia])
      end; by rewrite ?orb_false_r, ?orb_false_l.
  - rewrite Z.ones_spec_high, andb_false_r by lia. by rewrite Hhi.
Qed.

(** [memset]: the word-wise path writes the same bytes as the byte-wise one. *)
Lemma memset_spec m dst c n x :
  0 <= n ->
  memset m dst c n x = if (dst <=? x) && (x <? dst + n) then u8 c else m x.
Proof.
  intros Hn. unfold memset.
  destruct (Z.rem (i32 dst) 4 =? 0); [|done]. simpl andb.
  destruct (Z.eqb_spec (n mod 4) 0) as [E|]; [|done]. cbv zeta.
  change (true && true) with true. cbv iota. unfold stosl.
  replace (4 * (n / 4)) with n by (pose proof (Z.div_mod n 4 ltac:(lia)); lia).
  destruct ((dst <=? x) && (x <? dst + n)); [|done].
  change 0xFF with (Z.ones 8). rewrite Z.land_ones by lia.
  change (2 ^ 8) with 256. rewrite shiftr_byte; [done|apply u8_range|].
  apply Z.mod_pos_bound. lia.
Qed.

Lemma copy_fwd_spec n : forall m d s x,
  bytes m -> (d <= s \/ s + Z.of_nat n <= d) ->
  copy_fwd n m d s x
  = if (d <=? x) && (x <? d + Z.of_nat n) then m (s + (x - d)) else m x.
Proof.
  induction n as [|n IH]; intros m d s x Hm Hds; simpl copy_fwd.
  - destruct (Z.leb_spec d x), (Z.ltb_spec x (d + Z.of_nat 0)); simpl; try done; lia.
  - rewrite IH by (first [by apply put_bytes | lia]). unfold put.
    repeat match goal with
    | |- context [?a =? ?b] => destruct (Z.eqb_spec a b)
    | |- context [?a <=? ?b] => destruct (Z.leb_spec a b)
    | |- context [?a <? ?b] => destruct (Z.ltb_spec a b)
    end; simpl; try lia; rewrite ?u8_small by apply Hm; try (f_equal; lia).
Qed.

Lemma copy_bwd_spec n : forall m d s x,
  bytes m -> s <= d ->
  copy_bwd n m d s x
  = if (d - Z.of_nat n <=? x) && (x <? d) then m (s + (x - d)) else m x.
Proof.
  induction n as [|n IH]; intros m d s x Hm Hds; simpl copy_bwd.
  - destruct (Z.leb_spec (d - Z.of_nat 0) x), (Z.ltb_spec x d); simpl; try done; lia.
  - rewrite IH by (first [by apply put_bytes | lia]). unfold put.
    repeat match goal with
    | |- context [?a =? ?b] => destruct (Z.eqb_spec a b)
    | |- context [?a <=? ?b] => destruct (Z.leb_spec a b)
    | |- context [?a <? ?b] => destruct (Z.ltb_spec a b)
    end; simpl; try lia; rewrite ?u8_small by apply Hm; try (f_equal; lia).
Qed.

(** Copying is right also when source and destination overlap. *)
Lemma memmove_spec m dst src n x :
  bytes m -> 0 <= n ->
  memmove m dst src n x
  = if (dst <=? x) && (x <? dst + n) then m (src + (x - dst)) else m x.
Proof.
  intros Hm Hn. unfold memmove.
  destruct (Z.ltb_spec src dst), (Z.ltb_spec dst (src + n)); simpl.
  - rewrite copy_bwd_spec by (first [done | lia]).
    rewrite Z2Nat.id by lia. replace (dst + n - n) with dst by lia.
    destruct ((dst <=? x) && (x <? dst + n)); f_equal; lia.
  - rewrite copy_fwd_spec by (first [done | lia]). by rewrite Z2Nat.id by lia.
  - rewrite copy_fwd_spec by (first [done | lia]). by rewrite Z2Nat.id by lia.
  - rewrite copy_fwd_spec by (first [done | lia]). by rewrite Z2Nat.id by lia.
Qed.

(** The characters of a string up to its terminator, [n] at most. *)
Fixpoint chars (n : nat) (p : cstr) : list Z :=
  match n with
  | O => []
  | S n => if p 0 =? 0 then [] else p 0 :: chars n (adv p)
  end.

Lemma strncmp_loop_zero n : forall p q,
  strncmp_loop n p q = 0 <-> chars n p = chars n q.
Proof.
  induction n as [|n IH]; intros p q; simpl; [done|].
  destruct (Z.eqb_spec (p 0) 0) as [Ep|Ep]; destruct (Z.eqb_spec (p 0) (q 0)) as [E|E]; simpl.
  - rewrite <- E, Ep. simpl. split; [done|lia].
  - destruct (Z.eqb_spec (q 0) 0); [lia|]. split; [lia|done].
  - destruct (Z.eqb_spec (q 0) 0); [lia|]. rewrite IH, E. split; [by intros ->|by intros [=]].
  - destruct (Z.eqb_spec (q 0) 0).
    + split; [lia|done].
    + split; [lia|intros [=]; lia].
Qed.

Lemma strncmp_zero p q n :
  strncmp p q n = 0 <-> chars (Z.to_nat n) p = chars (Z.to_nat n) q.
Proof. apply strncmp_loop_zero. Qed.

Lemma length_strncpy t n : 0 <= n -> Z.of_nat (length (strncpy t n)) = n.
Proof.
  intros Hn. unfold strncpy. rewrite <- (Z2Nat.id n) at 2 by lia. f_equal.
  generalize (Z.to_nat n) as k. intros k. revert t.
  induction k as [|k IH]; intros t; simpl; [done|].
  destruct (t 0 =? 0); simpl; [by rewrite length_replicate|by rewrite IH].
Qed.

(** A list of bytes as an array; past its end there are zeroes. *)
Definition of_bytes (l : list Z) : cstr := fun i => l !!! Z.to_nat i.

Lemma chars_ext n : forall p q,
  (forall i, 0 <= i < Z.of_nat n -> p i = q i) -> chars n p = chars n q.
Proof.
  induction n as [|n IH]; intros p q H; simpl; [done|].
  rewrite (H 0) by lia. destruct (q 0 =? 0); [done|]. f_equal. apply IH.
  intros i Hi. apply H. lia.
Qed.

Lemma chars_of_bytes_cons n x l :
  chars (S n) (of_bytes (x :: l)) = if x =? 0 then [] else x :: chars n (of_bytes l).
Proof.
  simpl. change (of_bytes (x :: l) 0) with x. destruct (x =? 0); [done|]. f_equal.
  apply chars_ext. intros i Hi. unfold adv, of_bytes.
  by replace (Z.to_nat (i + 1)) with (S (Z.to_nat i)) by lia.
Qed.

(** [strncpy] keeps the first [n] characters. *)
Lemma chars_strncpy n t : chars n (of_bytes (strncpy_loop n t)) = chars n t.
Proof.
  revert t. induction n as [|n IH]; intros t; [done|].
  simpl strncpy_loop. destruct (Z.eqb_spec (t 0) 0) as [E|E].
  - simpl replicate. rewrite chars_of_bytes_cons. simpl chars. by rewrite E.
  - rewrite chars_of_bytes_cons. simpl chars.
    by rewrite IH, (proj2 (Z.eqb_neq _ _) E).
Qed.

Lemma strlen_chars fuel : forall s n,
  strlen fuel s = Some n -> Z.of_nat (length (chars fuel s)) = n /\ 0 <= n < Z.of_nat fuel.
Proof.
  induction fuel as [|f IH]; intros s n; simpl; [done|].
  destruct (s 0 =? 0); [intros [= <-]; simpl; lia|].
  destruct (strlen f (adv s)) as [k|] eqn:E; simpl; [|done].
  intros [= <-]. destruct (IH _ _ E). lia.
Qed.

Lemma load_store32 m a v :
  0 <= v < two32 -> load32 (store32 m a v) a = v.
Proof.
  intros Hv. unfold load32, store32, put.
  repeat match goal with
  | |- context [?x =? ?y] => destruct (Z.eqb_spec x y); try lia
  end. unfold u8, two32 in *. Z.div_mod_to_equations. lia.
Qed.

Lemma load_store32_other m a b v :
  (b + 4 <= a \/ a + 4 <= b) -> load32 (store32 m a v) b = load32 m b.
Proof.
  intros H. unfold load32, store32, put.
  repeat match goal with
  | |- context [?x =? ?y] => destruct (Z.eqb_spec x y); try lia
  end.
Qed.

Lemma store32_bytes m a v : bytes m -> bytes (store32 m a v).
Proof. intros H. unfold store32. by repeat apply put_bytes. Qed.

Lemma load32_range m a : bytes m -> 0 <= load32 m a < two32.
Proof.
  intros H. unfold load32, two32.
  pose proof (H a); pose proof (H (a + 1)); pose proof (H (a + 2)); pose proof (H (a + 3)). lia.
Qed.

Lemma load32_ext m m' a :
  (forall x, a <= x < a + 4 -> m x = m' x) -> load32 m a = load32 m' a.
Proof. intros H. unfold load32. by rewrite !H by lia. Qed.

(** ** Words inside a block *)

Lemma length_set_bytes l off bs : length (set_bytes l off bs) = length l.
Proof. apply length_inserts. Qed.

Lemma set_bytes_lookup l off bs i :
  0 <= off -> off + Z.of_nat (length bs) <= Z.of_nat (length l) -> 0 <= i ->
  set_bytes l off bs !!! Z.to_nat i =
  if (off <=? i) && (i <? off + Z.of_nat (length bs)) then bs !!! Z.to_nat (i - off)
  else l !!! Z.to_nat i.
Proof.
  intros Ho Hl Hi. unfold set_bytes.
  destruct (Z.leb_spec off i); simpl; [destruct (Z.ltb_spec i (off + Z.of_nat (length bs)))|].
  - rewrite list_lookup_total_inserts by lia. f_equal. lia.
  - apply list_lookup_total_inserts_ge. lia.
  - apply list_lookup_total_inserts_lt. lia.
Qed.

Ltac byte_cases :=
  repeat match goal with
  | |- context [(?x <=? ?y) && (?y <? ?z)] =>
      destruct (Z.leb_spec x y); destruct (Z.ltb_spec y z); try lia; cbn [andb]
  end.

Lemma get32_set32 l off v :
  0 <= off -> off + 4 <= Z.of_nat (length l) -> 0 <= v < two32 -> get32 (set32 l off v) off = v.
Proof.
  intros Ho Hl Hv. unfold get32, set32, load32.
  rewrite !set_bytes_lookup by (simpl; lia). change (Z.of_nat (length (le32 v))) with 4.
  byte_cases. replace (off - off) with 0 by lia. replace (off + 1 - off) with 1 by lia.
  replace (off + 2 - off) with 2 by lia. replace (off + 3 - off) with 3 by lia.
  unfold le32. simpl. unfold u8, two32 in *. Z.div_mod_to_equations. lia.
Qed.

Lemma get32_set32_other l a b v :
  0 <= a -> a + 4 <= Z.of_nat (length l) -> 0 <= b -> (b + 4 <= a \/ a + 4 <= b) ->
  get32 (set32 l a v) b = get32 l b.
Proof.
  intros Ha Hl Hb Hd. unfold get32, set32, load32.
  rewrite !set_bytes_lookup by (simpl; lia). change (Z.of_nat (length (le32 v))) with 4.
  by byte_cases.
Qed.

Lemma length_set32 l off v : length (set32 l off v) = length l.
Proof. apply length_set_bytes. Qed.
