(* ===== verification/Kalloc.v ===== *)
(** * The physical page allocator (kalloc.c)

    The free list is threaded through the free pages themselves: the first
    word of a free page is the kernel address of the next one.  Kernel
    addresses are mapped to physical memory at [KERNBASE]. *)

From S2P Require Import Prelude Params State CString Spinlock Sched.

Definition klocked (m : K unit) : K unit :=
  u <- getd use_lock;; when (negb (u =? 0)) m.

(** [r->next] *)
Definition run_next (r : Z) : K Z := getd (fun d => load32 (mem d) (V2P r)).
Definition set_run_next (r v : Z) : K unit :=
  setd (fun d => d <|mem ::= fun m => store32 m (V2P r) v|>).

Definition kalloc : K Z :=
  klocked (acquire LKmem);;
  r <- getd freelist;;
  when (negb (r =? 0))
    (n <- run_next r;; setd (fun d => d <|freelist := n|>));;
  klocked (release LKmem);;
  ret r.

Definition kfree (v : Z) : K unit :=
  e <- getd kend;;
  if negb (v mod PGSIZE =? 0) || (v <? e) || (PHYSTOP <=? V2P v) then panic "kfree" else
  setd (fun d => d <|mem ::= fun m => memset m (V2P v) 1 PGSIZE|>);;
  klocked (acquire LKmem);;
  h <- getd freelist;;
  set_run_next v h;;
  setd (fun d => d <|freelist := v|>);;
  klocked (release LKmem).

Definition freerange (vstart vend : Z) : K unit :=
  loop (Z.to_nat ((vend - vstart) / PGSIZE) + 2) (fun p =>
    if p + PGSIZE <=? vend then kfree p;; ret (inl (p + PGSIZE)) else ret (inr tt))
    (PGROUNDUP vstart).

Definition kinit1 (vstart vend : Z) : K unit :=
  initlock LKmem "kmem";;
  setd (fun d => d <|use_lock := 0|>);;
  freerange vstart vend.

Definition kinit2 (vstart vend : Z) : K unit :=
  freerange vstart vend;;
  setd (fun d => d <|use_lock := 1|>).

(** ** The free list as a list *)

(** A page the allocator may hand out: aligned, above the kernel image, below
    the top of physical memory. *)
Definition page_ok (e p : Z) : Prop :=
  p mod PGSIZE = 0 /\ e <= p /\ KERNBASE <= p < KERNBASE + PHYSTOP.

Fixpoint chain (m : memory) (h : Z) (l : list Z) : Prop :=
  match l with
  | [] => h = 0
  | p :: l => h = p /\ chain m (load32 m (V2P p)) l
  end.

Record free_list (d : data) (l : list Z) : Prop := {
  fl_chain : chain (mem d) (freelist d) l;
  fl_pages : Forall (page_ok (kend d)) l;
  fl_nodup : NoDup l
}.

Lemma V2P_kernel p : KERNBASE <= p < KERNBASE + PHYSTOP -> V2P p = p - KERNBASE.
Proof. unfold V2P, KERNBASE, PHYSTOP. intros. apply u32_small. unfold two32. lia. Qed.

(** Memory that agrees on the pages of the list carries the same list. *)
Lemma chain_ext m m' h l e :
  Forall (page_ok e) l ->
  (forall p x, p ∈ l -> V2P p <= x < V2P p + 4 -> m x = m' x) ->
  chain m h l -> chain m' h l.
Proof.
  revert h. induction l as [|p l IH]; intros h Hp Hx; simpl; [done|].
  intros [-> Hc]. split; [done|]. apply Forall_cons in Hp as [_ Hp].
  rewrite <- (load32_ext m m' (V2P p)) by (intros; eapply Hx; [constructor|done]).
  apply IH; [done| |done]. intros q x Hq. apply Hx. by constructor.
Qed.

(** Distinct pages do not overlap. *)
Lemma pages_disjoint e p q :
  page_ok e p -> page_ok e q -> p <> q -> V2P p + PGSIZE <= V2P q \/ V2P q + PGSIZE <= V2P p.
Proof.
  intros (Hp & _ & Hpr) (Hq & _ & Hqr) Hne.
  rewrite !V2P_kernel by done. unfold PGSIZE in *.
  apply Z.mod_divide in Hp as [a ->]; [|lia]. apply Z.mod_divide in Hq as [b ->]; [|lia]. lia.
Qed.

Section Specs.
Context (c : nat) (me : option nat).

Lemma runs_klocked_acquire L d :
  LKmem ∉ L ->
  runs c me L (klocked (acquire LKmem)) d tt d (if use_lock d =? 0 then L else LKmem :: L).
Proof.
  intros HL. eapply runs_bind; [apply runs_getd|].
  destruct (use_lock d =? 0); [apply runs_ret|by apply runs_acquire].
Qed.

Lemma runs_klocked_release L d :
  runs c me (if use_lock d =? 0 then L else LKmem :: L) (klocked (release LKmem)) d tt d L.
Proof.
  eapply runs_bind; [apply runs_getd|].
  destruct (use_lock d =? 0); [apply runs_ret|by apply runs_release].
Qed.

(** [kalloc] pops the head of the free list. *)
Lemma runs_kalloc L d p l :
  LKmem ∉ L -> free_list d (p :: l) ->
  let d' := d <|freelist := load32 (mem d) (V2P p)|> in
  runs c me L kalloc d p d' L /\ free_list d' l.
Proof.
  intros HL [[Hh Hc] Hp Hnd]. apply Forall_cons in Hp as [(Hpm & He & Hr) Hp].
  apply NoDup_cons in Hnd as [_ Hnd]. simpl. split; [|split; done].
  eapply runs_bind; [by apply runs_klocked_acquire|].
  eapply runs_bind; [apply runs_getd|]. rewrite Hh.
  destruct (Z.eqb_spec p 0) as [E|_]; [unfold KERNBASE in Hr; lia|].
  eapply runs_bind.
  { apply runs_when_true. eapply runs_bind; [apply runs_getd|].
    exact (runs_setd c me _ (fun d' => d' <|freelist := load32 (mem d) (V2P p)|>) d). }
  eapply runs_bind; [|apply runs_ret].
  change (use_lock d) with (use_lock d <|freelist := load32 (mem d) (V2P p)|>).
  apply runs_klocked_release.
Qed.

(** With nothing free, [kalloc] returns the null pointer. *)
Lemma runs_kalloc_empty L d :
  LKmem ∉ L -> free_list d [] -> runs c me L kalloc d 0 d L.
Proof.
  intros HL [Hh _ _]. simpl in Hh.
  eapply runs_bind; [by apply runs_klocked_acquire|].
  eapply runs_bind; [apply runs_getd|]. rewrite Hh.
  eapply runs_bind; [apply runs_when_false|].
  eapply runs_bind; [apply runs_klocked_release|]. apply runs_ret.
Qed.

Definition kfree_data (v : Z) (d : data) : data :=
  d <|mem ::= fun m => store32 (memset m (V2P v) 1 PGSIZE) (V2P v) (freelist d)|>
    <|freelist := v|>.

Lemma runs_kfree L d v :
  LKmem ∉ L -> page_ok (kend d) v -> runs c me L (kfree v) d tt (kfree_data v d) L.
Proof.
  intros HL (Hm & He & Hr). unfold kfree.
  eapply runs_bind; [apply runs_getd|].
  replace (negb (v mod PGSIZE =? 0) || (v <? kend d) || (PHYSTOP <=? V2P v)) with false.
  2: { rewrite V2P_kernel by done. rewrite Hm. simpl.
       destruct (Z.ltb_spec v (kend d)); [lia|]. destruct (Z.leb_spec PHYSTOP (v - KERNBASE)); [lia|done]. }
  eapply runs_bind; [apply runs_setd|].
  set (d1 := d <|mem ::= _|>). change (use_lock d) with (use_lock d1).
  eapply runs_bind; [by apply runs_klocked_acquire|].
  eapply runs_bind; [apply runs_getd|].
  eapply runs_bind; [apply runs_setd|]. eapply runs_bind; [apply runs_setd|].
  eapply runs_eq; [|reflexivity].
  change (use_lock d1) with (use_lock (kfree_data v d)). apply runs_klocked_release.
Qed.

Lemma panics_kfree L d v :
  ~ page_ok (kend d) v -> 0 <= v < two32 -> panics c me L (kfree v) d "kfree".
Proof.
  intros Hn Hv. unfold kfree. eapply runs_panics; [apply runs_getd|].
  destruct (Z.eqb_spec (v mod PGSIZE) 0); [|apply panics_panic].
  destruct (Z.ltb_spec v (kend d)); [apply panics_panic|].
  destruct (Z.leb_spec PHYSTOP (V2P v)); [apply panics_panic|].
  destruct Hn. split; [done|]. split; [lia|].
  unfold V2P, KERNBASE, PHYSTOP, u32, two32 in *. Z.div_mod_to_equations. lia.
Qed.

(** [kfree] pushes the page, provided it is not on the list already. *)
Lemma kfree_free_list d v l :
  free_list d l -> page_ok (kend d) v -> v ∉ l -> bytes (mem d) ->
  free_list (kfree_data v d) (v :: l).
Proof.
  intros [Hc Hp Hnd] Hv Hin Hb. split; getset; [|by constructor|by constructor].
  unfold kfree_data. getset. simpl. split; [done|].
  assert (0 <= freelist d < two32) as Hf.
  { destruct l as [|q l]; simpl in Hc; [rewrite Hc; unfold two32; lia|].
    apply Forall_cons in Hp as [(_ & _ & Hr) _]. destruct Hc as [-> _].
    unfold KERNBASE, PHYSTOP, two32 in *. lia. }
  rewrite load_store32 by done.
  eapply chain_ext; [done| |done]. intros q x Hq Hx.
  assert (page_ok (kend d) q) as Hqo by by eapply Forall_forall in Hp.
  assert (v <> q) as Hvq by by intros ->.
  pose proof (pages_disjoint _ _ _ Hv Hqo Hvq) as Hdis. unfold store32, put.
  unfold PGSIZE in *.
  repeat match goal with
  | |- context [?a =? ?b] => destruct (Z.eqb_spec a b); [lia|]
  end.
  rewrite memset_spec by lia.
  destruct (Z.leb_spec (V2P v) x), (Z.ltb_spec x (V2P v + 4096)); simpl; try done. lia.
Qed.

(** [n] pages from [p] on, the way [freerange] walks them. *)
Definition page_run (p : Z) (n : nat) : list Z :=
  (fun k => p + Z.of_nat k * PGSIZE) <$> seq 0 n.

Lemma page_run_S p n : page_run p (S n) = p :: page_run (p + PGSIZE) n.
Proof.
  unfold page_run. cbn [seq fmap list_fmap]. f_equal; [lia|].
  rewrite <- fmap_S_seq, <- list_fmap_compose.
  apply list_fmap_ext. intros i x _. cbn. unfold PGSIZE. lia.
Qed.

Lemma elem_of_page_run p n x :
  x ∈ page_run p n -> p <= x < p + Z.of_nat n * PGSIZE /\ (x - p) mod PGSIZE = 0.
Proof.
  unfold page_run. intros (k & -> & Hk%elem_of_seq)%list_elem_of_fmap.
  unfold PGSIZE. split; [lia|].
  replace (p + Z.of_nat k * 4096 - p) with (Z.of_nat k * 4096) by lia. apply Z.mod_mul. lia.
Qed.

Lemma bytes_kfree d v : bytes (mem d) -> bytes (mem (kfree_data v d)).
Proof.
  intros Hb. unfold kfree_data. getset. apply store32_bytes. intros x.
  rewrite memset_spec by (unfold PGSIZE; lia).
  destruct (_ && _); [apply u8_range|apply Hb].
Qed.

Lemma runs_freerange_loop L n : forall fuel d p vend l,
  LKmem ∉ L -> bytes (mem d) -> free_list d l ->
  Forall (page_ok (kend d)) (page_run p n) ->
  (forall q, q ∈ page_run p n -> q ∉ l) ->
  p + Z.of_nat n * PGSIZE <= vend < p + Z.of_nat n * PGSIZE + PGSIZE ->
  (n < fuel)%nat ->
  exists d',
    runs c me L (loop fuel (fun p => if p + PGSIZE <=? vend
                   then kfree p;; ret (inl (p + PGSIZE)) else ret (inr tt)) p) d tt d' L
    /\ free_list d' (reverse (page_run p n) ++ l) /\ bytes (mem d') /\ kend d' = kend d.
Proof.
  induction n as [|n IH]; intros fuel d p vend l HL Hb Hfl Hok Hnew Hv Hf;
    (destruct fuel as [|fuel]; [lia|]); rewrite loop_unfold.
  - exists d. split; [|done]. destruct (Z.leb_spec (p + PGSIZE) vend); [unfold PGSIZE in *; lia|].
    eapply runs_bind; [apply runs_ret|]. apply runs_ret.
  - rewrite page_run_S in *. apply Forall_cons in Hok as [Hp Hok].
    assert (p ∉ l) as Hpl by (apply Hnew; constructor).
    destruct (IH fuel (kfree_data p d) (p + PGSIZE) vend (p :: l)) as (d' & Hr & Hl & Hb' & He).
    + done.
    + by apply bytes_kfree.
    + by apply kfree_free_list.
    + done.
    + intros q Hq [->|Hin]%elem_of_cons.
      * apply elem_of_page_run in Hq. unfold PGSIZE in *. lia.
      * by apply (Hnew q); [constructor|].
    + unfold PGSIZE in *. lia.
    + lia.
    + exists d'. split_and!; [|by rewrite reverse_cons, <- app_assoc|done|done].
      destruct (Z.leb_spec (p + PGSIZE) vend); [|unfold PGSIZE in *; lia].
      eapply runs_bind;
        [eapply runs_bind; [by apply runs_kfree|]; apply runs_ret|]. exact Hr.
Qed.

(** [freerange] puts every whole page of the range on the free list, and
    its loop bound is enough. *)
Lemma runs_freerange L d vstart vend l :
  let p := PGROUNDUP vstart in
  let n := Z.to_nat ((vend - p) / PGSIZE) in
  LKmem ∉ L -> bytes (mem d) -> free_list d l ->
  KERNBASE <= vstart -> kend d <= vstart ->
  vstart <= vend -> p <= vend <= KERNBASE + PHYSTOP ->
  (forall q, q ∈ page_run p n -> q ∉ l) ->
  exists d', runs c me L (freerange vstart vend) d tt d' L
    /\ free_list d' (reverse (page_run p n) ++ l) /\ bytes (mem d') /\ kend d' = kend d.
Proof.
  intros p n HL Hb Hfl Hs He Hse Hv Hnew.
  assert (vstart <= p < vstart + PGSIZE /\ p mod PGSIZE = 0) as [Hp Hpm].
  { apply PGROUNDUP_bounds; unfold KERNBASE, PHYSTOP, PGSIZE, two32 in *; lia. }
  assert (p + Z.of_nat n * PGSIZE <= vend < p + Z.of_nat n * PGSIZE + PGSIZE) as Hn.
  { subst n. rewrite Z2Nat.id by (apply Z.div_pos; unfold PGSIZE; lia).
    pose proof (Z.mod_pos_bound (vend - p) PGSIZE eq_refl).
    pose proof (Z.div_mod (vend - p) PGSIZE ltac:(done)). lia. }
  destruct (runs_freerange_loop L n (Z.to_nat ((vend - vstart) / PGSIZE) + 2) d p vend l)
    as (d' & Hr & Hl & Hb' & Hk); try done.
  - apply Forall_forall. intros q [Hq Hqm]%elem_of_page_run. split; [|lia].
    replace q with ((q - p) + p) by lia. rewrite Z.add_mod, Hqm, Hpm by done. done.
  - subst n. pose proof (Z.div_le_mono (vend - p) (vend - vstart) PGSIZE eq_refl ltac:(lia)). lia.
  - by exists d'.
Qed.
End Specs.

(** ** The allocator as its clients see it

    A client that allocates pages and gives them back, in any order; [KFree k]
    gives back the [k]-th page it holds. *)
Inductive kop : Set := KAlloc | KFree (k : nat).

Fixpoint kclient (ops : list kop) (held : list Z) : K (list Z) :=
  match ops with
  | [] => ret held
  | KAlloc :: ops => p <- kalloc;; kclient ops (if p =? 0 then held else p :: held)
  | KFree k :: ops =>
      match held !! k with
      | Some p => kfree p;; kclient ops (delete k held)
      | None => kclient ops held
      end
  end.

(** How many pages the client then holds, and how many are free *)
Fixpoint kcount (ops : list kop) (h f : nat) : nat * nat :=
  match ops with
  | [] => (h, f)
  | KAlloc :: ops => match f with O => kcount ops h O | S f => kcount ops (S h) f end
  | KFree k :: ops => if Nat.ltb k h then kcount ops (pred h) (S f) else kcount ops h f
  end.

Definition in_page (p x : Z) : Prop := V2P p <= x < V2P p + PGSIZE.

Lemma kfree_frame d v x : ~ in_page v x -> mem (kfree_data v d) x = mem d x.
Proof.
  unfold in_page, PGSIZE. intros Hx. unfold kfree_data. getset. unfold store32, put.
  repeat match goal with
  | |- context [?a =? ?b] => destruct (Z.eqb_spec a b); [lia|]
  end.
  rewrite memset_spec by (unfold PGSIZE; lia). unfold PGSIZE.
  destruct (Z.leb_spec (V2P v) x), (Z.ltb_spec x (V2P v + 4096)); simpl; try done. lia.
Qed.

Record kstate (d : data) (held l : list Z) : Prop := {
  ks_list : free_list d l;
  ks_held : Forall (page_ok (kend d)) held;
  ks_nodup : NoDup (held ++ l);
  ks_bytes : bytes (mem d)
}.

Section Client.
Context (c : nat) (me : option nat) (L : list lockid) (HL : LKmem ∉ L).

Lemma kstate_alloc d held p l :
  kstate d held (p :: l) ->
  exists d', runs c me L kalloc d p d' L /\ kstate d' (p :: held) l /\ p <> 0 /\
    (forall x, mem d' x = mem d x).
Proof.
  intros [S1 S2 S3 S4]. destruct (runs_kalloc c me L d p l HL S1) as [Hr Hl].
  pose proof (fl_pages _ _ S1) as [Hp _]%Forall_cons.
  eexists. split; [exact Hr|]. split_and!; [|destruct Hp as (_ & _ & ?); unfold KERNBASE in *; lia|done].
  split; [done|by constructor| |done].
  by rewrite <- app_comm_cons, Permutation_middle.
Qed.

Lemma kstate_free d held k p l :
  kstate d held l -> held !! k = Some p ->
  exists d', runs c me L (kfree p) d tt d' L /\ kstate d' (delete k held) (p :: l) /\
    (forall x, ~ in_page p x -> mem d' x = mem d x).
Proof.
  intros [S1 S2 S3 S4] Hk. assert (page_ok (kend d) p) as Hp by (by eapply Forall_lookup_1).
  assert (held ≡ₚ p :: delete k held) as Eh by (by apply delete_Permutation).
  exists (kfree_data p d). split; [by apply runs_kfree|]. split; [|apply kfree_frame].
  remember (delete k held) as h1 eqn:E1. rewrite Eh in S3. simpl in S3. apply NoDup_cons in S3 as [Hn S3].
  rewrite not_elem_of_app in Hn. split.
  - apply kfree_free_list; try done. tauto.
  - change (kend (kfree_data p d)) with (kend d). rewrite Eh in S2. by apply Forall_cons in S2 as [_ ?].
  - rewrite <- Permutation_middle. apply NoDup_cons. rewrite not_elem_of_app. tauto.
  - by apply bytes_kfree.
Qed.

(** C8: the allocator never hands out a page twice, loses none, and fails only
    when none is free.  Whatever a client allocates and frees, its calls return;
    the pages it then holds and the free ones are those it started with, all
    distinct; their numbers are those of a counter of free pages; and memory
    outside these pages is untouched. *)
Theorem allocator_refines ops : forall d held l,
  kstate d held l ->
  exists held' d' l', runs c me L (kclient ops held) d held' d' L /\ kstate d' held' l' /\
    held' ++ l' ≡ₚ held ++ l /\ kcount ops (length held) (length l) = (length held', length l') /\
    forall x, (forall p, p ∈ held ++ l -> ~ in_page p x) -> mem d' x = mem d x.
Proof.
  induction ops as [|[|k] ops IH]; intros d held l Hs; cbn [kclient kcount].
  - exists held, d, l. split_and!; try done. apply runs_ret.
  - destruct l as [|p l].
    + destruct (IH d held [] Hs) as (h' & d' & l' & Hr & Hs' & Hp & Hk & Hm).
      exists h', d', l'. split_and!; try done.
      eapply runs_bind; [apply runs_kalloc_empty; [done|apply Hs]|]. exact Hr.
    + destruct (kstate_alloc d held p l Hs) as (d1 & Hr1 & Hs1 & Hp0 & Hm1).
      destruct (IH d1 (p :: held) l Hs1) as (h' & d' & l' & Hr & Hs' & Hp & Hk & Hm).
      exists h', d', l'. split_and!; try done.
      * eapply runs_bind; [exact Hr1|]. by rewrite (proj2 (Z.eqb_neq _ _)).
      * by rewrite Hp, <- app_comm_cons, Permutation_middle.
      * intros x Hx. rewrite Hm, Hm1; [done|]. intros q Hq. apply Hx.
        by rewrite <- Permutation_middle.
  - destruct (held !! k) as [p|] eqn:Hk.
    + destruct (kstate_free d held k p l Hs Hk) as (d1 & Hr1 & Hs1 & Hm1).
      assert (held ≡ₚ p :: delete k held) as Eh by (by apply delete_Permutation).
      remember (delete k held) as h1 eqn:E1.
      assert (h1 ++ p :: l ≡ₚ held ++ l) as Ep by (by rewrite Eh, <- Permutation_middle).
      destruct (IH d1 h1 (p :: l) Hs1) as (h' & d' & l' & Hr & Hs' & Hp & Hc & Hm).
      exists h', d', l'. split_and!; try done.
      * by eapply runs_bind.
      * by rewrite Hp.
      * apply lookup_lt_Some in Hk as Hlt. rewrite (proj2 (Nat.ltb_lt _ _)) by done.
        rewrite <- Hc. f_equal. rewrite Eh. simpl. done.
      * intros x Hx. rewrite Hm, Hm1; [done| |].
        -- apply Hx, elem_of_app. left. by eapply list_elem_of_lookup_2.
        -- intros q. rewrite Ep. apply Hx.
    + destruct (IH d held l Hs) as (h' & d' & l' & Hr & Hs' & Hp & Hc & Hm).
      exists h', d', l'. split_and!; try done.
      apply lookup_ge_None in Hk. rewrite (proj2 (Nat.ltb_ge _ _)) by done. done.
Qed.
End Client.

(** ** Boot *)

Lemma page_run_iff p n x vend :
  p mod PGSIZE = 0 -> p + Z.of_nat n * PGSIZE <= vend < p + Z.of_nat n * PGSIZE + PGSIZE ->
  x ∈ page_run p n <-> x mod PGSIZE = 0 /\ p <= x /\ x + PGSIZE <= vend.
Proof.
  intros Hp Hv. split.
  - intros [Hx Hm]%elem_of_page_run. split; [|split; [lia|]].
    + replace x with ((x - p) + p) by lia. rewrite Z.add_mod, Hm, Hp by done. done.
    + apply Z.mod_divide in Hm as [k Hk]; [|done]. unfold PGSIZE in *. lia.
  - intros (Hx & Hpx & Hxv). apply Z.mod_divide in Hp as [a ->]; [|done].
    apply Z.mod_divide in Hx as [b ->]; [|done]. apply list_elem_of_fmap.
    exists (Z.to_nat (b - a)). unfold PGSIZE in *. split; [lia|]. apply elem_of_seq. lia.
Qed.

(** The pages that lie in a range of addresses *)
Definition pages_in (lo hi p : Z) : Prop := p mod PGSIZE = 0 /\ lo <= p /\ p + PGSIZE <= hi.

Lemma runs_freerange_pages c me L d vstart vend l :
  LKmem ∉ L -> bytes (mem d) -> free_list d l -> KERNBASE <= vstart -> kend d <= vstart ->
  PGROUNDUP vstart <= vend -> vstart <= vend <= KERNBASE + PHYSTOP ->
  (forall q, pages_in vstart vend q -> q ∉ l) ->
  exists d' l', runs c me L (freerange vstart vend) d tt d' L /\ free_list d' l' /\ bytes (mem d') /\
    kend d' = kend d /\ forall q, q ∈ l' <-> pages_in vstart vend q \/ q ∈ l.
Proof.
  intros HL Hb Hfl Hs He Hp Hv Hnew. set (p := PGROUNDUP vstart) in *.
  set (n := Z.to_nat ((vend - p) / PGSIZE)).
  assert (vstart <= p < vstart + PGSIZE /\ p mod PGSIZE = 0) as [Hpb Hpm].
  { apply PGROUNDUP_bounds; unfold KERNBASE, PHYSTOP, PGSIZE, two32 in *; lia. }
  assert (p + Z.of_nat n * PGSIZE <= vend < p + Z.of_nat n * PGSIZE + PGSIZE) as Hn.
  { subst n. rewrite Z2Nat.id by (apply Z.div_pos; unfold PGSIZE; lia).
    pose proof (Z.mod_pos_bound (vend - p) PGSIZE eq_refl).
    pose proof (Z.div_mod (vend - p) PGSIZE ltac:(done)). lia. }
  assert (forall q, q ∈ page_run p n <-> pages_in vstart vend q) as Hq.
  { intros q. rewrite (page_run_iff p n q vend Hpm Hn). unfold pages_in. split; [lia|].
    intros (Hqm & Hq & Hqv). split_and!; try done.
    apply Z.mod_divide in Hqm as [b ->]; [|done]. apply Z.mod_divide in Hpm as [a Ha]; [|done].
    unfold PGSIZE in *. lia. }
  destruct (runs_freerange c me L d vstart vend l) as (d' & Hr & Hl & Hb' & Hk); try done.
  { apply Hv. }
  { fold p. lia. }
  { intros q Hx. apply Hnew. by apply Hq. }
  exists d', (reverse (page_run p n) ++ l). split_and!; try done.
  intros q. by rewrite elem_of_app, elem_of_reverse, Hq.
Qed.

(** C9: after [kinit1] and [kinit2] the free list holds exactly the whole pages
    of the two ranges of memory, each once, and the allocator takes its lock. *)
Theorem kinit_frees c me d mid top :
  bytes (mem d) -> freelist d = 0 -> KERNBASE <= kend d -> PGROUNDUP (kend d) <= mid ->
  mid mod PGSIZE = 0 -> kend d <= mid <= top -> top <= KERNBASE + PHYSTOP ->
  exists d' l, runs c me [] (kinit1 (kend d) mid;; kinit2 mid top) d tt d' [] /\
    free_list d' l /\ use_lock d' = 1 /\
    forall p, p ∈ l <-> pages_in (kend d) mid p \/ pages_in mid top p.
Proof.
  intros Hb Hf Hk Hr Hm Hmt Ht.
  destruct (runs_freerange_pages c me [] (d <|use_lock := 0|>) (kend d) mid [])
    as (d1 & l1 & Hr1 & Hl1 & Hb1 & Ek1 & Hp1); try done.
  { apply not_elem_of_nil. }
  { split; [done|constructor|constructor]. }
  { lia. }
  { intros q _. apply not_elem_of_nil. }
  getset_in Ek1.
  assert (PGROUNDUP mid = mid) as Em.
  { rewrite PGROUNDUP_spec by (unfold KERNBASE, PHYSTOP, PGSIZE, two32 in *; lia).
    apply Z.mod_divide in Hm as [a ->]; [|done]. unfold PGSIZE in *.
    rewrite <- (Z.mod_unique (a * 4096 + 4096 - 1) 4096 a 4095); lia. }
  destruct (runs_freerange_pages c me [] d1 mid top l1)
    as (d2 & l2 & Hr2 & Hl2 & Hb2 & Ek2 & Hp2); try done; try lia.
  { apply not_elem_of_nil. }
  { intros q Hq Hl. apply Hp1 in Hl as [Hl|Hl]; [|by apply not_elem_of_nil in Hl].
    unfold pages_in, PGSIZE in *. lia. }
  exists (d2 <|use_lock := 1|>), l2. split_and!; try done.
  - eapply runs_bind; [|eapply runs_bind; [exact Hr2|apply runs_setd]].
    unfold kinit1. eapply runs_bind; [apply runs_initlock, not_elem_of_nil|].
    eapply runs_bind; [apply runs_setd|]. exact Hr1.
  - destruct Hl2. by split.
  - intros p. rewrite Hp2, Hp1, elem_of_nil. tauto.
Qed.

(** The kernel ends at 1 MB + 12 KB; two ranges of two pages and a bit *)
Definition ex_kend : Z := KERNBASE + 0x103010.
Definition ex_mem0 : data := data0 ex_kend 0 0 ∅.

Lemma bytes_zero : bytes (fun _ => 0).
Proof. intros a. lia. Qed.

Lemma kinit_frees_witness :
  let mid := KERNBASE + 0x106000 in let top := KERNBASE + 0x108800 in
  exists d' l, runs 0 None [] (kinit1 ex_kend mid;; kinit2 mid top) ex_mem0 tt d' [] /\
    free_list d' l /\ use_lock d' = 1 /\
    forall p, p ∈ l <-> pages_in ex_kend mid p \/ pages_in mid top p.
Proof.
  apply (kinit_frees 0 None ex_mem0); try done.
Defined.

(** One page held, two free ones *)
Definition ex_page (k : Z) : Z := KERNBASE + 0x104000 + k * PGSIZE.
Definition ex_kmem : data := kfree_data (ex_page 2) (kfree_data (ex_page 1) ex_mem0).

Lemma ex_page_ok k : k = 0 \/ k = 1 \/ k = 2 -> page_ok ex_kend (ex_page k).
Proof. intros [->|[->| ->]]; by vm_compute. Qed.

Lemma ex_kstate : kstate ex_kmem [ex_page 0] [ex_page 2; ex_page 1].
Proof.
  split.
  - apply kfree_free_list; [|apply ex_page_ok; auto| |by apply bytes_kfree, bytes_zero].
    + apply kfree_free_list; [|apply ex_page_ok; auto|apply not_elem_of_nil|apply bytes_zero].
      split; [done|constructor|constructor].
    + by intros ?%list_elem_of_singleton.
  - constructor; [|done]. apply ex_page_ok. auto.
  - repeat (apply NoDup_cons; split; [by rewrite ?elem_of_cons, elem_of_nil; intuition|]). constructor.
  - by apply bytes_kfree, bytes_kfree, bytes_zero.
Qed.

Lemma allocator_refines_witness :
  let ops := [KAlloc; KFree 1; KAlloc; KAlloc; KAlloc] in
  kcount ops 1 2 = (3%nat, 0%nat) /\
  exists held' d' l', runs 0 None [] (kclient ops [ex_page 0]) ex_kmem held' d' [] /\
    kstate d' held' l' /\ held' ++ l' ≡ₚ [ex_page 0] ++ [ex_page 2; ex_page 1] /\
    kcount ops 1 2 = (length held', length l') /\
    forall x, (forall p, p ∈ [ex_page 0] ++ [ex_page 2; ex_page 1] -> ~ in_page p x) ->
      mem d' x = mem ex_kmem x.
Proof.
  intros ops. split; [reflexivity|].
  apply (allocator_refines 0 None [] (not_elem_of_nil _) ops ex_kmem [ex_page 0] [ex_page 2; ex_page 1]).
  apply ex_kstate.
Defined.
