(* ===== verification/Vm.v ===== *)
(** * Virtual memory (vm.c)

    Page directories and page tables live in physical memory, one word per
    entry.  [walkpgdir] returns the kernel address of an entry, 0 for none.
    The loop bounds are the number of pages the loop can visit. *)

From S2P Require Import Prelude Params State CString Spinlock Printk Sched Kalloc.

(** Word access through a kernel address *)
Definition kload (a : Z) : K Z := getd (fun d => load32 (mem d) (V2P a)).
Definition kstore (a v : Z) : K unit :=
  setd (fun d => d <|mem ::= fun m => store32 m (V2P a) v|>).
Definition kmemset (a c n : Z) : K unit :=
  setd (fun d => d <|mem ::= fun m => memset m (V2P a) c n|>).
Definition kmemmove (dst src n : Z) : K unit :=
  setd (fun d => d <|mem ::= fun m => memmove m (V2P dst) (V2P src) n|>).

(** The bytes of [l] at address [a]. *)
Definition put_list (m : memory) (a : Z) (l : list Z) : memory := fun x =>
  if (a <=? x) && (x <? a + Z.of_nat (length l)) then u8 (l !!! Z.to_nat (x - a)) else m x.
Definition kmemmove_in (dst : Z) (l : list Z) : K unit :=
  setd (fun d => d <|mem ::= fun m => put_list m (V2P dst) l|>).

(** ** mmu.h: segment descriptors *)

Definition SEG (type base lim dpl : Z) : segdesc :=
  SegDesc (Z.land (Z.shiftr lim 12) 0xffff) (Z.land base 0xffff)
    (Z.land (Z.shiftr base 16) 0xff) type 1 dpl 1 (Z.shiftr lim 28) 0 0 1 1
    (Z.shiftr base 24).
Definition SEG16 (type base lim dpl : Z) : segdesc :=
  SegDesc (Z.land lim 0xffff) (Z.land base 0xffff) (Z.land (Z.shiftr base 16) 0xff)
    type 1 dpl 1 (Z.shiftr lim 16) 0 0 1 0 (Z.shiftr base 24).

Definition STA_X : Z := 0x8.
Definition STA_W : Z := 0x2.
Definition STA_R : Z := 0x2.
Definition STS_T32A : Z := 0x9.

Definition set_gdt (i : Z) (v : segdesc) (c : cpu) : cpu :=
  c <|gdt ::= <[Z.to_nat i := v]>|>.

Definition seginit : K unit :=
  c <- cpuid;;
  set_cpu c (set_gdt SEG_KCODE (SEG (Z.lor STA_X STA_R) 0 0xffffffff 0));;
  set_cpu c (set_gdt SEG_KDATA (SEG STA_W 0 0xffffffff 0));;
  set_cpu c (set_gdt SEG_UCODE (SEG (Z.lor STA_X STA_R) 0 0xffffffff DPL_USER));;
  set_cpu c (set_gdt SEG_UDATA (SEG STA_W 0 0xffffffff DPL_USER)).

(** ** Walking and building page tables *)

Definition walkpgdir (pgdir va : Z) (alloc : bool) : K Z :=
  let pde := pgdir + 4 * PDX va in
  e <- kload pde;;
  if negb (Z.land e PTE_P =? 0) then
    ret (P2V (PTE_ADDR e) + 4 * PTX va)
  else if negb alloc then ret 0 else
    pgtab <- kalloc;;
    if pgtab =? 0 then ret 0 else
    kmemset pgtab 0 PGSIZE;;
    kstore pde (Z.lor (Z.lor (Z.lor (V2P pgtab) PTE_P) PTE_W) PTE_U);;
    ret (pgtab + 4 * PTX va).

Definition mappages_round (pgdir perm last : Z) : Z * Z -> K ((Z * Z) + Z) := fun '(a, pa) =>
  pte <- walkpgdir pgdir a true;;
  if pte =? 0 then ret (inr (-1)) else
  e <- kload pte;;
  if negb (Z.land e PTE_P =? 0) then panic "remap" else
  kstore pte (Z.lor (Z.lor pa perm) PTE_P);;
  if a =? last then ret (inr 0) else
  ret (inl (u32 (a + PGSIZE), u32 (pa + PGSIZE))).

Definition mappages (pgdir va size pa perm : Z) : K Z :=
  let a := PGROUNDDOWN va in
  let last := PGROUNDDOWN (u32 (va + size - 1)) in
  loop (Z.to_nat (u32 (last - a) / PGSIZE) + 1) (mappages_round pgdir perm last) (a, pa).

Definition deallocuvm (pgdir oldsz newsz : Z) : K Z :=
  if oldsz <=? newsz then ret oldsz else
  loop (Z.to_nat ((oldsz - newsz) / PGSIZE) + 2) (fun a =>
    if a <? oldsz then
      pte <- walkpgdir pgdir a false;;
      if pte =? 0 then
        ret (inl (u32 (u32 (PGADDR (PDX a + 1) 0 0 - PGSIZE) + PGSIZE)))
      else
        e <- kload pte;;
        if negb (Z.land e PTE_P =? 0) then
          let pa := PTE_ADDR e in
          if pa =? 0 then panic "kfree" else
          kfree (P2V pa);;
          kstore pte 0;;
          ret (inl (u32 (a + PGSIZE)))
        else ret (inl (u32 (a + PGSIZE)))
    else ret (inr newsz)) (PGROUNDUP newsz).

Definition freevm (pgdir : Z) : K unit :=
  if pgdir =? 0 then panic "freevm: no pgdir" else
  deallocuvm pgdir KERNBASE 0;;
  iter (seq 0 NPDENTRIES) (fun i =>
    e <- kload (pgdir + 4 * Z.of_nat i);;
    when (negb (Z.land e PTE_P =? 0)) (kfree (P2V (PTE_ADDR e))));;
  kfree pgdir.

Definition allocuvm (pgdir oldsz newsz : Z) : K Z :=
  if KERNBASE <=? newsz then ret 0 else
  if newsz <? oldsz then ret oldsz else
  loop (Z.to_nat ((newsz - oldsz) / PGSIZE) + 2) (fun a =>
    if a <? newsz then
      m <- kalloc;;
      if m =? 0 then
        printk "allocuvm out of memory";;
        deallocuvm pgdir newsz oldsz;; ret (inr 0)
      else
        kmemset m 0 PGSIZE;;
        r <- mappages pgdir a PGSIZE (V2P m) (Z.lor PTE_W PTE_U);;
        if r <? 0 then
          printk "allocuvm out of memory (2)";;
          deallocuvm pgdir newsz oldsz;; kfree m;; ret (inr 0)
        else ret (inl (u32 (a + PGSIZE)))
    else ret (inr newsz)) (PGROUNDUP oldsz).

(** The table of kernel mappings: virtual address, physical range, flags. *)
Definition kmap (kd : Z) : list (Z * Z * Z * Z) :=
  [ (KERNBASE, 0, EXTMEM, PTE_W);
    (KERNLINK, V2P KERNLINK, V2P kd, 0);
    (kd, V2P kd, PHYSTOP, PTE_W);
    (DEVSPACE, DEVSPACE, 0, PTE_W) ].

Definition setupkvm : K Z :=
  pgdir <- kalloc;;
  if pgdir =? 0 then ret 0 else
  kmemset pgdir 0 PGSIZE;;
  if DEVSPACE <? P2V PHYSTOP then panic "PHYSTOP too high" else
  kd <- getd kdata;;
  r <- foreach (kmap kd) (fun '(virt, phys_start, phys_end, perm) =>
         r <- mappages pgdir virt (u32 (phys_end - phys_start)) phys_start perm;;
         if r <? 0 then freevm pgdir;; ret (Some 0) else ret None);;
  match r with
  | Some v => ret v
  | None => ret pgdir
  end.

(** ** Switching *)

Definition lcr3 (v : Z) : K unit := setd (fun d => d <|cr3 := v|>).

Definition switchkvm : K unit := kp <- getd kpgdir;; lcr3 (V2P kp).

Definition kvmalloc : K unit :=
  p <- setupkvm;;
  setd (fun d => d <|kpgdir := p|>);;
  switchkvm.

Definition switchuvm (p : option nat) : K unit :=
  match p with
  | None => panic "switchuvm: no process"
  | Some i =>
      pr <- get_proc i;;
      if kstack pr =? 0 then panic "switchuvm: no kstack" else
      if pgdir pr =? 0 then panic "switchuvm: no pgdir" else
      pushcli;;
      c <- mycpu;; x <- get_cpu c;;
      set_cpu c (set_gdt SEG_TSS (SEG16 STS_T32A (ts_addr x) 103 0));;
      c <- mycpu;; x <- get_cpu c;;
      set_cpu c (set_gdt SEG_TSS ((gdt x !!! Z.to_nat SEG_TSS) <|sd_s := 0|>));;
      c <- mycpu;; set_cpu c (fun x => x <|ts_ss0 := Z.shiftl SEG_KDATA 3|>);;
      c <- mycpu;; set_cpu c (fun x => x <|ts_esp0 := u32 (kstack pr + KSTACKSIZE)|>);;
      c <- mycpu;; set_cpu c (fun x => x <|ts_iomb := 0xFFFF|>);;
      lcr3 (V2P (pgdir pr));;
      popcli
  end.

(** ** User memory *)

Definition inituvm (pgdir : Z) (init : list Z) : K unit :=
  if PGSIZE <=? Z.of_nat (length init) then panic "inituvm: more than a page" else
  m <- kalloc;;
  kmemset m 0 PGSIZE;;
  mappages pgdir 0 PGSIZE (V2P m) (Z.lor PTE_W PTE_U);;
  kmemmove_in m init.

Definition clearpteu (pgdir uva : Z) : K unit :=
  pte <- walkpgdir pgdir uva false;;
  if pte =? 0 then panic "clearpteu" else
  e <- kload pte;;
  kstore pte (Z.land e (Z.lnot PTE_U)).

Definition copyuvm (pgdir sz : Z) : K Z :=
  d <- setupkvm;;
  if d =? 0 then ret 0 else
  loop (Z.to_nat (sz / PGSIZE) + 2) (fun i =>
    if i <? sz then
      pte <- walkpgdir pgdir i false;;
      if pte =? 0 then panic "copyuvm: pte should exist" else
      e <- kload pte;;
      if Z.land e PTE_P =? 0 then panic "copyuvm: page not present" else
      let pa := PTE_ADDR e in
      let flags := PTE_FLAGS e in
      m <- kalloc;;
      if m =? 0 then freevm d;; ret (inr 0) else
      kmemmove m (P2V pa) PGSIZE;;
      r <- mappages d i PGSIZE (V2P m) flags;;
      if r <? 0 then kfree m;; freevm d;; ret (inr 0) else
      ret (inl (u32 (i + PGSIZE)))
    else ret (inr d)) 0.

(** [walkpgdir] can return 0 here, and [uva2ka] does not test for it. *)
Definition uva2ka (pgdir uva : Z) : K Z :=
  pte <- walkpgdir pgdir uva false;;
  if pte =? 0 then fault else
  e <- kload pte;;
  if Z.land e PTE_P =? 0 then ret 0 else
  if Z.land e PTE_U =? 0 then ret 0 else
  ret (P2V (PTE_ADDR e)).

Definition copyout (pgdir va : Z) (p : list Z) : K Z :=
  loop (Z.to_nat (Z.of_nat (length p) / PGSIZE) + 3) (fun '(va, buf) =>
    let len := Z.of_nat (length buf) in
    if 0 <? len then
      let va0 := PGROUNDDOWN va in
      pa0 <- uva2ka pgdir va0;;
      if pa0 =? 0 then ret (inr (-1)) else
      let n := Z.min (PGSIZE - (va - va0)) len in
      kmemmove_in (pa0 + (va - va0)) (take (Z.to_nat n) buf);;
      ret (inl (u32 (va0 + PGSIZE), drop (Z.to_nat n) buf))
    else ret (inr 0)) (va, p).
