(* ===== verification/Usercopy.v ===== *)
(** * User memory seen from the kernel (proc.c: copy_from_user, copy_to_user,
    copy_str_from_user)

    The kernel reads and writes user memory through the page tables that are
    loaded.  A page fault in kernel mode ends in the [panic] of [trap]. *)

From S2P Require Import Prelude Params State CString Spinlock Sched Kalloc Vm.

(** The translation the MMU makes for kernel code; CR0_WP is set, so that the
    write permission of user pages is checked. *)
Definition translate (d : data) (write : bool) (va : Z) : option Z :=
  let ok e := negb (Z.land e PTE_P =? 0) && (negb write || negb (Z.land e PTE_W =? 0)) in
  let pde := load32 (mem d) (cr3 d + 4 * PDX va) in
  if ok pde then
    let pte := load32 (mem d) (PTE_ADDR pde + 4 * PTX va) in
    if ok pte then Some (PTE_ADDR pte + va mod PGSIZE) else None
  else None.

Definition ptr (a : Z) (n : nat) : list Z := (fun i => u32 (a + Z.of_nat i)) <$> seq 0 n.

Definition page_fault {A} : K A := panic "trap".

Definition load_user (va : Z) (n : nat) : K (list Z) :=
  d <- getd id;;
  match mapM (translate d false) (ptr va n) with
  | Some pas => ret (mem d <$> pas)
  | None => page_fault
  end.

Fixpoint put_at (m : memory) (pas bs : list Z) : memory :=
  match pas, bs with
  | a :: pas, b :: bs => put_at (CString.put m a b) pas bs
  | _, _ => m
  end.

Definition store_user (va : Z) (bs : list Z) : K unit :=
  d <- getd id;;
  match mapM (translate d true) (ptr va (length bs)) with
  | Some pas => setd (fun d => d <|mem ::= fun m => put_at m pas bs|>)
  | None => page_fault
  end.

(** The thread group leader of the calling thread. *)
Definition leader : K nat :=
  p <- curproc;; pr <- get_proc p;; deref (process pr).

(** [n] bytes at [src]; [store] writes them to the kernel's destination. *)
Definition copy_from_user (store : list Z -> K unit) (src n : Z) : K bool :=
  g <- leader;;
  acquire (LVlock g);;
  pr <- get_proc g;;
  if (sz pr <=? src) || (sz pr <? u32 (src + n)) then release (LVlock g);; ret false
  else
    bs <- load_user src (Z.to_nat n);;
    store bs;;
    release (LVlock g);;
    ret true.

(** The result of [memmove], its destination, is the result: user address 0 is
    taken for a failure after the bytes were copied. *)
Definition copy_to_user (dst : Z) (bs : list Z) : K bool :=
  g <- leader;;
  acquire (LVlock g);;
  pr <- get_proc g;;
  if (sz pr <=? dst) || (sz pr <? u32 (dst + Z.of_nat (length bs))) then
    release (LVlock g);; ret false
  else
    store_user dst bs;;
    release (LVlock g);;
    ret (negb (dst =? 0)).

(** The loop of [copy_str_from_user]: [i] bytes have been copied from before
    [src].  The result is the final [i], the final [src] and the bytes
    written. *)
Fixpoint copy_str_loop (fuel : nat) (g : nat) (src i limit : Z) (acc : list Z)
    : K (Z * Z * list Z) :=
  match fuel with
  | O => ret (i, src, acc)
  | S fuel =>
      pr <- get_proc g;;
      if (src <? sz pr) && (i <? limit) then
        bs <- load_user src 1;;
        let c := bs !!! 0%nat in
        if c =? 0 then ret (i, u32 (src + 1), acc ++ [c])
        else copy_str_loop fuel g (u32 (src + 1)) (i + 1) limit (acc ++ [c])
      else ret (i, src, acc)
  end.

(** The result and the bytes written to the destination. *)
Definition copy_str_from_user (src limit : Z) : K (Z * list Z) :=
  g <- leader;;
  acquire (LVlock g);;
  ' (i, src, bs) <- copy_str_loop (Z.to_nat limit) g src 0 limit [];;
  pr <- get_proc g;;
  if src =? sz pr then release (LVlock g);; ret (-1, bs)
  else release (LVlock g);; ret (i, bs).

(** ** User memory *)

(** The byte at user address [va] *)
Definition user (d : data) (va : Z) : Z :=
  match translate d false va with Some pa => mem d pa | None => 0 end.
Definition user_bytes (d : data) (va : Z) (n : nat) : list Z :=
  (fun i => user d (va + Z.of_nat i)) <$> seq 0 n.

Lemma length_user_bytes d va n : length (user_bytes d va n) = n.
Proof. unfold user_bytes. by rewrite length_fmap, length_seq. Qed.

Lemma user_bytes_app d va m n :
  user_bytes d va (m + n) = user_bytes d va m ++ user_bytes d (va + Z.of_nat m) n.
Proof.
  unfold user_bytes. rewrite seq_app, fmap_app. f_equal. simpl.
  replace (seq m n) with (Nat.add m <$> seq 0 n) by (rewrite fmap_add_seq; f_equal; lia).
  rewrite <- list_fmap_compose.
  apply list_fmap_ext. intros i x _. cbn. f_equal. lia.
Qed.

(** The words of the page tables that the translation of [va] reads *)
Definition walks (d : data) (va x : Z) : Prop :=
  let a := cr3 d + 4 * PDX va in
  a <= x < a + 4 \/
  let b := PTE_ADDR (load32 (mem d) a) + 4 * PTX va in b <= x < b + 4.

(** The address space below [size] is mapped, writable, one byte per address,
    and no page table is inside it. *)
Record maps_user (d : data) (size : Z) : Prop := {
  mu_map : forall va, 0 <= va < size -> exists pa, translate d true va = Some pa;
  mu_inj : forall va va' pa, 0 <= va < size -> 0 <= va' < size ->
    translate d true va = Some pa -> translate d true va' = Some pa -> va = va';
  mu_tables : forall va va' pa, 0 <= va < size -> translate d true va = Some pa -> ~ walks d va' pa;
  mu_size : size < two32
}.

Lemma translate_read d va pa : translate d true va = Some pa -> translate d false va = Some pa.
Proof.
  unfold translate. cbn [negb orb]. rewrite !andb_true_r.
  destruct (negb (Z.land (load32 (mem d) (cr3 d + 4 * PDX va)) PTE_P =? 0)); [|done]. simpl.
  destruct (negb (Z.land (load32 _ (cr3 _ + _)) PTE_W =? 0)); [|done]. simpl.
  destruct (negb (Z.land _ PTE_P =? 0)); [|done]. simpl. by destruct (negb _).
Qed.

(** Memory that agrees on the page tables gives the same translation. *)
Lemma translate_ext d m w va :
  (forall x, walks d va x -> m x = mem d x) -> translate (d <|mem := m|>) w va = translate d w va.
Proof.
  intros H. unfold translate. getset.
  rewrite (load32_ext m (mem d) (cr3 d + 4 * PDX va)) by (intros x Hx; apply H; by left).
  set (pde := load32 (mem d) (cr3 d + 4 * PDX va)).
  rewrite (load32_ext m (mem d) (PTE_ADDR pde + 4 * PTX va)) by (intros x Hx; apply H; by right).
  done.
Qed.

Lemma put_at_notin m pas bs x : x ∉ pas -> put_at m pas bs x = m x.
Proof.
  revert m bs. induction pas as [|a pas IH]; intros m [|b bs] Hx; try done. simpl.
  apply not_elem_of_cons in Hx as [Ha Hx]. rewrite IH by done. unfold CString.put.
  by rewrite (proj2 (Z.eqb_neq _ _)).
Qed.

Lemma put_at_lookup m pas bs i a b :
  NoDup pas -> length pas = length bs -> pas !! i = Some a -> bs !! i = Some b -> 0 <= b < 256 ->
  put_at m pas bs a = b.
Proof.
  revert m bs i. induction pas as [|a' pas IH]; intros m [|b' bs] i Hnd Hl Ha Hb Hr; try done.
  apply NoDup_cons in Hnd as [Hn Hnd]. simpl in *. destruct i as [|i]; simpl in *.
  - simplify_eq. rewrite put_at_notin by done. unfold CString.put. rewrite Z.eqb_refl. by apply u8_small.
  - by eapply (IH _ bs i); try lia.
Qed.

Section Maps.
Context (d : data) (size : Z) (Hm : maps_user d size).

Lemma ptr_small va n : 0 <= va -> va + Z.of_nat n <= two32 ->
  ptr va n = (fun i => va + Z.of_nat i) <$> seq 0 n.
Proof.
  intros H0 H1. unfold ptr. apply list_fmap_ext. intros i x Hx.
  apply lookup_seq in Hx as [-> Hx]. apply u32_small. lia.
Qed.

Lemma translate_all w va n :
  0 <= va -> va + Z.of_nat n <= size ->
  exists pas, mapM (translate d w) (ptr va n) = Some pas /\
    Forall2 (fun x pa => translate d true x = Some pa) (ptr va n) pas.
Proof.
  intros H0 H1. pose proof (mu_size _ _ Hm). rewrite ptr_small by lia.
  assert (forall x, x ∈ (fun i => va + Z.of_nat i) <$> seq 0 n -> 0 <= x < size) as Hin.
  { intros x (i & -> & Hi%elem_of_seq)%list_elem_of_fmap. lia. }
  induction ((fun i => va + Z.of_nat i) <$> seq 0 n) as [|x l IH].
  - exists []. by split.
  - destruct (mu_map _ _ Hm x) as [pa Hpa]; [apply Hin; left|].
    destruct IH as (pas & E & HF); [intros y Hy; apply Hin; by right|].
    exists (pa :: pas). split; [|by constructor]. simpl.
    assert (translate d w x = Some pa) as -> by (destruct w; [done|by apply translate_read]).
    simpl. by rewrite E.
Qed.

Lemma runs_load_user c me L va n :
  0 <= va -> va + Z.of_nat n <= size ->
  runs c me L (load_user va n) d (user_bytes d va n) d L.
Proof.
  intros H0 H1. destruct (translate_all false va n H0 H1) as (pas & E & HF).
  unfold load_user. eapply runs_bind; [apply runs_getd|]. cbv beta. unfold id. rewrite E.
  assert (mem d <$> pas = user_bytes d va n) as ->; [|apply runs_ret].
  pose proof (mu_size _ _ Hm). rewrite ptr_small in HF by lia. unfold user_bytes.
  clear E. revert pas HF. induction (seq 0 n) as [|i l IH]; intros pas HF;
    inversion HF as [|? pa ? pas' Hpa HF']; subst; [done|]. simpl. f_equal; [|by apply IH].
  unfold user. by rewrite (translate_read _ _ _ Hpa).
Qed.

(** What a copy to user memory did *)
Record stored (va : Z) (bs : list Z) (d' : data) : Prop := {
  st_mem : d' = d <|mem := mem d'|>;
  st_user : forall x, 0 <= x < size -> user d' x =
    if decide (va <= x < va + Z.of_nat (length bs)) then bs !!! Z.to_nat (x - va) else user d x;
  st_maps : maps_user d' size;
  st_translate : forall w x, translate d' w x = translate d w x;
  st_frame : forall pa,
    (forall x, va <= x < va + Z.of_nat (length bs) -> translate d true x <> Some pa) ->
    mem d' pa = mem d pa
}.

Section Store.
Context (va : Z) (bs pas : list Z).
Hypothesis H0 : 0 <= va.
Hypothesis H1 : va + Z.of_nat (length bs) <= size.
Hypothesis Hpas : Forall2 (fun x pa => translate d true x = Some pa)
  ((fun i => va + Z.of_nat i) <$> seq 0 (length bs)) pas.

Lemma pas_lookup i pa :
  pas !! i = Some pa <-> (i < length bs)%nat /\ translate d true (va + Z.of_nat i) = Some pa.
Proof.
  split.
  - intros Hi. destruct (Forall2_lookup_r _ _ _ _ _ Hpas Hi) as (x & Hx & Ht).
    apply list_lookup_fmap_Some_1 in Hx as (j & -> & Hj). apply lookup_seq in Hj as [-> Hj].
    by split.
  - intros [Hi Ht].
    destruct (Forall2_lookup_l _ _ _ i (va + Z.of_nat i) Hpas) as (pa' & Hpa & Ht').
    { rewrite list_lookup_fmap, lookup_seq_lt by done. done. }
    by simplify_eq.
Qed.

Lemma pas_nodup : NoDup pas.
Proof.
  apply NoDup_alt. intros i j pa [Hi Ti]%pas_lookup [Hj Tj]%pas_lookup.
  assert (va + Z.of_nat i = va + Z.of_nat j); [|lia].
  eapply (mu_inj _ _ Hm); [lia|lia|done|done].
Qed.

Lemma pas_elem pa : pa ∈ pas -> exists x, va <= x < va + Z.of_nat (length bs) /\
  translate d true x = Some pa.
Proof.
  intros (i & [Hi Ht]%pas_lookup)%list_elem_of_lookup_1. exists (va + Z.of_nat i). split; [lia|done].
Qed.

Lemma translate_stored w x :
  translate (d <|mem ::= fun m => put_at m pas bs|>) w x = translate d w x.
Proof.
  apply (translate_ext d (put_at (mem d) pas bs)). intros y Hy. apply put_at_notin.
  intros (z & Hz & Ht)%pas_elem. eapply (mu_tables _ _ Hm); [|exact Ht|exact Hy]. lia.
Qed.

Lemma walks_stored x y :
  walks (d <|mem ::= fun m => put_at m pas bs|>) x y <-> walks d x y.
Proof.
  unfold walks. getset. rewrite (load32_ext _ (mem d)); [done|]. intros z Hz. apply put_at_notin.
  intros (v & Hv & Ht)%pas_elem. eapply (mu_tables _ _ Hm); [|exact Ht|left; exact Hz]. lia.
Qed.

Lemma stored_ok :
  Forall (fun b => 0 <= b < 256) bs -> stored va bs (d <|mem ::= fun m => put_at m pas bs|>).
Proof.
  intros Hbs. pose proof (Forall2_length _ _ _ Hpas) as El. rewrite length_fmap, length_seq in El. split.
  - done.
  - intros x Hx. unfold user. rewrite translate_stored.
    destruct (mu_map _ _ Hm x Hx) as [pa Hpa]. rewrite (translate_read _ _ _ Hpa). getset.
    case_decide as Hin.
    + destruct (lookup_lt_is_Some_2 bs (Z.to_nat (x - va))) as [b Hb]; [lia|].
      rewrite (list_lookup_total_correct _ _ _ Hb).
      apply (put_at_lookup _ _ _ (Z.to_nat (x - va))); [apply pas_nodup|done| |done|].
      * apply pas_lookup. split; [lia|]. by replace (va + Z.of_nat (Z.to_nat (x - va))) with x by lia.
      * by eapply (Forall_lookup_1 _ _ _ _ Hbs).
    + apply put_at_notin. intros (y & Hy & Ht)%pas_elem.
      rewrite (mu_inj _ _ Hm x y pa) in Hin; try done. lia.
  - destruct Hm as [M1 M2 M3 M4]. split; [..|done].
    + intros v Hv. rewrite translate_stored. auto.
    + intros v v' pa. rewrite !translate_stored. apply M2.
    + intros v v' pa. rewrite translate_stored, walks_stored. apply M3.
  - apply translate_stored.
  - intros pa Hpa. apply put_at_notin. intros (y & Hy & Ht)%pas_elem. by apply (Hpa y).
Qed.
End Store.

Definition store_data (va : Z) (bs : list Z) : data :=
  match mapM (translate d true) (ptr va (length bs)) with
  | Some pas => d <|mem ::= fun m => put_at m pas bs|>
  | None => d
  end.

Lemma store_data_ok va bs :
  0 <= va -> va + Z.of_nat (length bs) <= size -> Forall (fun b => 0 <= b < 256) bs ->
  stored va bs (store_data va bs).
Proof.
  intros H0 H1 Hbs. destruct (translate_all true va (length bs) H0 H1) as (pas & E & HF).
  pose proof (mu_size _ _ Hm). rewrite ptr_small in HF by lia. unfold store_data. rewrite E.
  by eapply stored_ok.
Qed.

Lemma runs_store_user c me L va bs :
  0 <= va -> va + Z.of_nat (length bs) <= size ->
  runs c me L (store_user va bs) d tt (store_data va bs) L.
Proof.
  intros H0 H1. destruct (translate_all true va (length bs) H0 H1) as (pas & E & _).
  unfold store_user, store_data. eapply runs_bind; [apply runs_getd|]. cbv beta. unfold id. rewrite E.
  apply runs_setd.
Qed.
End Maps.

(** Two copies, one after the other *)
Lemma stored_app d size va bs1 bs2 d1 d2 :
  stored d size va bs1 d1 -> stored d1 size (va + Z.of_nat (length bs1)) bs2 d2 ->
  stored d size va (bs1 ++ bs2) d2.
Proof.
  intros [A1 A2 A3 A4 A5] [B1 B2 B3 B4 B5]. split; [|..|done| |].
  - rewrite B1, A1. done.
  - intros x Hx. rewrite B2, A2 by done. rewrite length_app, Nat2Z.inj_add.
    repeat case_decide; try lia; try done.
    + rewrite lookup_total_app_r by lia. f_equal. lia.
    + by rewrite lookup_total_app_l by lia.
  - intros w x. by rewrite B4, A4.
  - intros pa Hpa. rewrite length_app, Nat2Z.inj_add in Hpa. rewrite B5, A5; [done|..].
    + intros x Hx. apply Hpa. lia.
    + intros x Hx. rewrite A4. apply Hpa. lia.
Qed.

(** ** The copies between user and kernel *)

Section Copies.
Context (c i g : nat) (L : list lockid) (d : data).
Hypothesis HL : LVlock g ∉ L.
Hypothesis Hg : process (procs d i) = Some g.
Local Abbreviation size := (sz (procs d g)).

Lemma runs_leader L' : runs c (Some i) L' leader d g d L'.
Proof. unfold leader. rstep. rstep. rewrite Hg. apply runs_ret. Qed.

(** In range: the bytes go to [store]. *)
Lemma runs_copy_from_user (store : list Z -> K unit) src n d' :
  maps_user d size -> 0 <= src < size -> 0 <= n -> src + n <= size ->
  runs c (Some i) (LVlock g :: L) (store (user_bytes d src (Z.to_nat n))) d tt d' (LVlock g :: L) ->
  runs c (Some i) L (copy_from_user store src n) d true d' L.
Proof.
  intros Hm Hs Hn Hr Hst. unfold copy_from_user. pose proof (mu_size _ _ Hm).
  eapply runs_bind; [apply runs_leader|]. rstep. rstep.
  rewrite (proj2 (Z.leb_gt _ _)) by lia. simpl.
  destruct (Z.ltb_spec size (u32 (src + n))) as [E|E].
  - exfalso. assert (u32 (src + n) <= src + n); [|lia].
    unfold u32. apply Z.mod_le; unfold two32; lia.
  - eapply runs_bind; [by apply (runs_load_user d size Hm); lia|].
    eapply runs_bind; [exact Hst|]. rstep. apply runs_ret.
Qed.

(** Out of range: nothing is copied. *)
Lemma runs_copy_from_user_fail (store : list Z -> K unit) src n :
  size <= src \/ size < u32 (src + n) ->
  runs c (Some i) L (copy_from_user store src n) d false d L.
Proof.
  intros Hr. unfold copy_from_user. eapply runs_bind; [apply runs_leader|]. rstep. rstep.
  replace (_ || _) with true; [rstep; apply runs_ret|].
  symmetry. apply orb_true_iff. destruct Hr; [left; by apply Z.leb_le|right; by apply Z.ltb_lt].
Qed.

Lemma runs_copy_to_user dst bs :
  maps_user d size -> 0 <= dst < size -> dst + Z.of_nat (length bs) <= size ->
  runs c (Some i) L (copy_to_user dst bs) d (negb (dst =? 0)) (store_data d dst bs) L.
Proof.
  intros Hm Hs Hr. pose proof (mu_size _ _ Hm). unfold copy_to_user.
  eapply runs_bind; [apply runs_leader|]. rstep. rstep.
  rewrite (proj2 (Z.leb_gt _ _)) by lia. simpl.
  destruct (Z.ltb_spec size (u32 (dst + Z.of_nat (length bs)))) as [E|E].
  - exfalso. assert (u32 (dst + Z.of_nat (length bs)) <= dst + Z.of_nat (length bs)); [|lia].
    unfold u32. apply Z.mod_le; unfold two32; lia.
  - eapply runs_bind; [by apply (runs_store_user d size Hm); lia|]. rstep. apply runs_ret.
Qed.

Lemma runs_copy_to_user_fail dst bs :
  size <= dst \/ size < u32 (dst + Z.of_nat (length bs)) ->
  runs c (Some i) L (copy_to_user dst bs) d false d L.
Proof.
  intros Hr. unfold copy_to_user. eapply runs_bind; [apply runs_leader|]. rstep. rstep.
  replace (_ || _) with true; [rstep; apply runs_ret|].
  symmetry. apply orb_true_iff. destruct Hr; [left; by apply Z.leb_le|right; by apply Z.ltb_lt].
Qed.
End Copies.

(** ** An address space of sixteen bytes: one page, at physical 0x5000 *)

Definition ex_umem (x : Z) : Z :=
  if x =? 0x1000 then 7 else if x =? 0x1001 then 0x20
  else if x =? 0x2000 then 7 else if x =? 0x2001 then 0x50
  else if (0x5000 <=? x) && (x <? 0x5010) then x - 0x5000 + 65 else 0.
Definition ex_proc : proc := proc0 <|sz := 16|> <|state := RUNNING|> <|pid := 1|> <|tgid := 1|>
  <|process := Some 0%nat|> <|threadcount := 1|> <|pgdir := 0x80001000|>.
Definition ex_udata : data :=
  (data0 0 0 0 ∅) <|mem := ex_umem|> <|cr3 := 0x1000|>
    <|ptable := ex_proc :: replicate 63 proc0|>.

Lemma ex_pde k :
  0 <= k < 0x400 ->
  load32 ex_umem (0x1000 + 4 * k) = 0x2007 \/ load32 ex_umem (0x1000 + 4 * k) = 0.
Proof.
  intros Hk. destruct (decide (k = 0)) as [->|]; [by left|]. right. unfold load32, ex_umem.
  repeat match goal with
  | |- context [?a =? ?b] => rewrite (proj2 (Z.eqb_neq a b)) by lia
  | |- context [?a <=? ?b] => rewrite (proj2 (Z.leb_gt a b)) by lia
  end. done.
Qed.

Lemma ex_translate w va : 0 <= va < 16 -> translate ex_udata w va = Some (0x5000 + va).
Proof.
  intros Hv. unfold translate. rewrite PDX_spec, PTX_spec by (unfold two32; lia).
  rewrite (Z.div_small va) by lia. rewrite (Z.div_small va) by lia.
  rewrite (Z.mod_small va PGSIZE) by (unfold PGSIZE; lia).
  by destruct w.
Qed.

Lemma ex_maps : maps_user ex_udata 16.
Proof.
  split.
  - intros va Hv. exists (0x5000 + va). by apply ex_translate.
  - intros va va' pa Hv Hv'. rewrite !ex_translate by done. intros. simplify_eq. lia.
  - intros va va' pa Hv. rewrite ex_translate by done. intros [= <-]. unfold walks.
    change (cr3 ex_udata) with 0x1000. change (mem ex_udata) with ex_umem.
    pose proof (Z.mod_pos_bound (va' / 2 ^ 22) 1024 eq_refl) as H1. rewrite <- PDX_spec in H1.
    pose proof (Z.mod_pos_bound (va' / 2 ^ 12) 1024 eq_refl) as H2. rewrite <- PTX_spec in H2.
    destruct (ex_pde (PDX va')) as [-> | ->]; [lia|..].
    + change (PTE_ADDR 0x2007) with 0x2000. lia.
    + change (PTE_ADDR 0) with 0. lia.
  - done.
Qed.
