(* ===== verification/Bio.v ===== *)
(** * The buffer cache (bio.c) and the in-memory disk (memide.c)

    The cache is an array of buffers linked into a ring through the head, most
    recently used first.  The disk driver is linked in (ide.o or memide.o); the
    cache is written against the interface [BlockDev], which memide.c
    implements. *)

From S2P Require Import Prelude Params State CString Spinlock Sched Sleeplock.

Definition bufs (d : data) (b : nat) : buf := bcache d !!! b.
Definition get_buf (b : nat) : K buf := getd (fun d => bufs d b).
Definition upd_buf (b : nat) (f : buf -> buf) (d : data) : data :=
  d <|bcache ::= alter f b|>.
Definition set_buf (b : nat) (f : buf -> buf) : K unit := setd (upd_buf b f).

Definition zero_block : block := replicate 512 0.

(** ** memide.c *)

Definition disk_block (d : data) (bn : Z) : block := default zero_block (disk d !! bn).

(** [memmove(p, b->data, BSIZE)] on the disk image; the write is recorded. *)
Definition disk_write (bn : Z) (bl : block) (d : data) : data :=
  d <|disk ::= <[bn := bl]>|> <|dtrace ::= fun t => t ++ [(bn, bl)]|>.

Module Memide.
(** [size] is the size of the image that is linked in. *)
Definition ideinit (size : Z) : K unit := setd (fun d => d <|disksize := i32 (size / BSIZE)|>).

Definition ideintr : K unit := ret tt.

Definition iderw (b : nat) : K unit :=
  h <- holdingsleep (SBuf b);;
  if negb h then panic "iderw: buf not locked" else
  bf <- get_buf b;;
  if Z.land (b_flags bf) (Z.lor B_VALID B_DIRTY) =? B_VALID then
    panic "iderw: nothing to do" else
  if negb (b_dev bf =? 1) then panic "iderw: request not for disk 1" else
  n <- getd disksize;;
  if n <=? b_blockno bf then panic "iderw: block out of range" else
  (if negb (Z.land (b_flags bf) B_DIRTY =? 0) then
     set_buf b (fun bf => bf <|b_flags ::= fun f => Z.land f (Z.lnot B_DIRTY)|>);;
     setd (disk_write (b_blockno bf) (b_data bf))
   else
     setd (fun d => upd_buf b (fun x => x <|b_data := disk_block d (b_blockno bf)|>) d));;
  set_buf b (fun bf => bf <|b_flags ::= fun f => Z.lor f B_VALID|>).
End Memide.

(** ** bio.c *)

(** The disk driver: [iderw], which the cache calls, and the interrupt handler,
    which [trap] calls. *)
Class BlockOps := iderw : nat -> K unit.
Class BlockIntr := ideintr : K unit.

Section Bio.
Context `{BlockOps}.

(** The initial links: each buffer is pushed in front. *)
Definition binit : K unit :=
  initlock LBcache "bcache";;
  set_buf NBUF (fun h => h <|b_prev := NBUF|>);;
  set_buf NBUF (fun h => h <|b_next := NBUF|>);;
  iter (seq 0 NBUF) (fun b =>
    h <- get_buf NBUF;;
    set_buf b (fun x => x <|b_next := b_next h|>);;
    set_buf b (fun x => x <|b_prev := NBUF|>);;
    initsleeplock (SBuf b) "buffer";;
    set_buf (b_next h) (fun x => x <|b_prev := b|>);;
    set_buf NBUF (fun h => h <|b_next := b|>)).

Definition bget_cached (dev blockno : Z) (b : nat) : K (nat + option nat) :=
  if bool_decide (b = NBUF) then ret (inr None) else
  bf <- get_buf b;;
  if (b_dev bf =? dev) && (b_blockno bf =? blockno) then
    set_buf b (fun x => x <|b_refcnt ::= fun n => u32 (n + 1)|>);;
    release LBcache;;
    acquiresleep (SBuf b);;
    ret (inr (Some b))
  else ret (inl (b_next bf)).

Definition bget_recycle (dev blockno : Z) (b : nat) : K (nat + option nat) :=
  if bool_decide (b = NBUF) then ret (inr None) else
  bf <- get_buf b;;
  if (b_refcnt bf =? 0) && (Z.land (b_flags bf) B_DIRTY =? 0) then
    set_buf b (fun x => x <|b_dev := dev|>);;
    set_buf b (fun x => x <|b_blockno := blockno|>);;
    set_buf b (fun x => x <|b_flags := 0|>);;
    set_buf b (fun x => x <|b_refcnt := 1|>);;
    release LBcache;;
    acquiresleep (SBuf b);;
    ret (inr (Some b))
  else ret (inl (b_prev bf)).

(** The ring has [NBUF] buffers and the head. *)
Definition bget (dev blockno : Z) : K nat :=
  acquire LBcache;;
  h <- get_buf NBUF;;
  r <- loop (Datatypes.S NBUF) (bget_cached dev blockno) (b_next h);;
  match r with
  | Some b => ret b
  | None =>
      h <- get_buf NBUF;;
      r <- loop (Datatypes.S NBUF) (bget_recycle dev blockno) (b_prev h);;
      match r with
      | Some b => ret b
      | None => panic "bget: no buffers"
      end
  end.

Definition bread (dev blockno : Z) : K nat :=
  b <- bget dev blockno;;
  bf <- get_buf b;;
  when (Z.land (b_flags bf) B_VALID =? 0) (iderw b);;
  ret b.

Definition bwrite (b : nat) : K unit :=
  h <- holdingsleep (SBuf b);;
  if negb h then panic "bwrite" else
  set_buf b (fun x => x <|b_flags ::= fun f => Z.lor f B_DIRTY|>);;
  iderw b.

(** [b->next->prev = b->prev; ...]: unlink [b] and link it in at the front. *)
Definition move_front (b : nat) (bc : list buf) : list buf :=
  let nx := b_next (bc !!! b) in
  let bc := alter (fun x => x <|b_prev := b_prev (bc !!! b)|>) nx bc in
  let bc := alter (fun x => x <|b_next := b_next (bc !!! b)|>) (b_prev (bc !!! b)) bc in
  let bc := alter (fun x => x <|b_next := b_next (bc !!! NBUF)|>) b bc in
  let bc := alter (fun x => x <|b_prev := NBUF|>) b bc in
  let bc := alter (fun x => x <|b_prev := b|>) (b_next (bc !!! NBUF)) bc in
  alter (fun x => x <|b_next := b|>) NBUF bc.

Definition brelse (b : nat) : K unit :=
  h <- holdingsleep (SBuf b);;
  if negb h then panic "brelse" else
  releasesleep (SBuf b);;
  acquire LBcache;;
  set_buf b (fun x => x <|b_refcnt ::= fun n => u32 (n - 1)|>);;
  bf <- get_buf b;;
  when (b_refcnt bf =? 0) (setd (fun d => d <|bcache ::= move_front b|>));;
  release LBcache.
End Bio.

(** ** The ring of buffers

    [dll nx pv x l]: following [nx] from [x] visits the nodes of [l] in order,
    and [pv] leads back. *)
Fixpoint dll (nx pv : nat -> nat) (x : nat) (l : list nat) : Prop :=
  match l with
  | [] => True
  | y :: l => nx x = y /\ pv y = x /\ dll nx pv y l
  end.

Lemma dll_app nx pv x l1 y l2 :
  dll nx pv x (l1 ++ y :: l2) <-> dll nx pv x (l1 ++ [y]) /\ dll nx pv y l2.
Proof. revert x. induction l1 as [|z l1 IH]; intros x; simpl; [tauto|]. rewrite IH. tauto. Qed.

Lemma dll_ext nx pv nx' pv' x l y :
  (forall z, z ∈ x :: l -> nx' z = nx z) -> (forall z, z ∈ l ++ [y] -> pv' z = pv z) ->
  dll nx pv x (l ++ [y]) -> dll nx' pv' x (l ++ [y]).
Proof.
  revert x. induction l as [|z l IH]; intros x Hn Hp; simpl.
  - intros (H1 & H2 & _). rewrite Hn by set_solver. rewrite Hp by set_solver. done.
  - intros (H1 & H2 & H3). rewrite Hn by set_solver. rewrite Hp by set_solver.
    split; [done|]. split; [done|]. apply IH; [| |done]; set_solver.
Qed.

Lemma last_cons (z x : nat) l : List.last (z :: l) x = List.last l z.
Proof.
  revert z. induction l as [|n l IH]; intros z; [done|].
  change (List.last (n :: l) x = List.last (n :: l) z). destruct l as [|m l]; [done|].
  change (List.last (n :: m :: l) x) with (List.last (m :: l) x).
  change (List.last (n :: m :: l) z) with (List.last (m :: l) z).
  clear IH. revert m. induction l as [|k l IH]; intros m; [done|]. apply (IH k).
Qed.

Lemma last_elem (x : nat) l : List.last l x ∈ x :: l.
Proof.
  revert x. induction l as [|z l IH]; intros x; [left|]. rewrite last_cons. right. apply IH.
Qed.

(** The same walk with its last link changed from [b] to [y]. *)
Lemma dll_bridge nx pv nx' pv' x l b y :
  NoDup (x :: l) ->
  nx' (List.last l x) = y -> pv' y = List.last l x ->
  (forall z, z ∈ x :: l -> z <> List.last l x -> nx' z = nx z) ->
  (forall z, z ∈ l -> pv' z = pv z) ->
  dll nx pv x (l ++ [b]) -> dll nx' pv' x (l ++ [y]).
Proof.
  revert x. induction l as [|z l IH]; intros x Hnd Hl1 Hl2 Hn Hp; [by simpl in *|].
  rewrite last_cons in *. apply NoDup_cons in Hnd as [Hx Hnd].
  intros (H1 & H2 & H3). simpl. split.
  - rewrite Hn; [done|set_solver|]. intros ->. apply Hx, last_elem.
  - split; [rewrite Hp; [done|set_solver]|]. apply IH; try done; set_solver.
Qed.

Lemma dll_prev nx pv x l y : dll nx pv x (l ++ [y]) -> pv y = List.last l x.
Proof.
  revert x. induction l as [|z l IH]; intros x; simpl; [tauto|]. intros (_ & _ & H).
  rewrite (IH z H). symmetry. apply last_cons.
Qed.

(** Moving the node [b] to the front of the ring through [h] *)
Section Move.
Context (nx pv nx' pv' : nat -> nat) (h b : nat) (l1 l2 : list nat).
Let p := pv b.
Let n := nx b.
Let a := List.hd h (l1 ++ l2 ++ [h]).
Hypothesis Hnd : NoDup (h :: l1 ++ b :: l2).
Hypothesis Hd : dll nx pv h (l1 ++ b :: l2 ++ [h]).
Hypothesis Hnx : forall z, nx' z = if decide (z = h) then b else if decide (z = b) then a
                                   else if decide (z = p) then n else nx z.
Hypothesis Hpv : forall z, pv' z = if decide (z = a) then b else if decide (z = b) then h
                                   else if decide (z = n) then p else pv z.

Lemma move_facts :
  b <> h /\ b ∉ l1 /\ b ∉ l2 /\ h ∉ l1 /\ h ∉ l2 /\ NoDup l1 /\ NoDup l2 /\
  (forall x, x ∈ l1 -> x ∉ l2).
Proof.
  apply NoDup_cons in Hnd as [Hh Hnd']. apply NoDup_app in Hnd' as (? & Hx & Hy).
  apply NoDup_cons in Hy as [? ?]. rewrite not_elem_of_app, not_elem_of_cons in Hh.
  destruct Hh as (? & ? & ?).
  split_and!; try done.
  - intros Hin. specialize (Hx b Hin). by apply not_elem_of_cons in Hx as [? _].
  - intros x Hin. specialize (Hx x Hin). by apply not_elem_of_cons in Hx as [_ ?].
Qed.

Lemma move_prev : p = List.last l1 h.
Proof. apply dll_app in Hd as [H1 _]. by eapply dll_prev. Qed.

Lemma move_nx z : z <> h -> z <> b -> z <> p -> nx' z = nx z.
Proof. intros. rewrite Hnx. by rewrite !decide_False. Qed.
Lemma move_pv z : z <> a -> z <> b -> z <> n -> pv' z = pv z.
Proof. intros. rewrite Hpv. by rewrite !decide_False. Qed.

(** The part behind [b] keeps its links. *)
Lemma move_tail :
  exists r, l2 ++ [h] = n :: r /\ (p ∉ l2 -> a ∈ l1 \/ a = n -> dll nx' pv' n r).
Proof.
  destruct move_facts as (Hbh & Hb1 & Hb2 & Hh1 & Hh2 & Hn1 & Hn2 & Hdis).
  pose proof move_nx as Mnx. pose proof move_pv as Mpv.
  apply dll_app in Hd as [_ H2]. destruct l2 as [|y r]; simpl in H2.
  - exists []. destruct H2 as [E _]. simpl. subst n. by rewrite E.
  - exists (r ++ [h]). destruct H2 as (E & _ & H2). subst n. rewrite E. simpl.
    split; [done|]. intros Hp Ha. eapply dll_ext; [| |exact H2].
    + intros z Hz. apply Mnx; intros ->; done.
    + apply NoDup_cons in Hn2 as [Hy _]. intros z Hz.
      assert (z ∈ y :: r \/ z = h) as Hz'.
      { apply elem_of_app in Hz as [?|?%list_elem_of_singleton]; [left; by right|by right]. }
      assert (y <> h) by (intros ->; apply Hh2; left).
      apply Mpv.
      * intros ->. destruct Ha as [Ha|Ha].
        { destruct Hz' as [Hz'| ->]; [by apply (Hdis _ Ha)|done]. }
        rewrite Ha in Hz. apply elem_of_app in Hz as [?|?%list_elem_of_singleton]; done.
      * intros ->. by destruct Hz' as [?| ?].
      * rewrite E. intros ->. apply elem_of_app in Hz as [?|?%list_elem_of_singleton]; done.
Qed.

Lemma dll_move : dll nx' pv' h (b :: l1 ++ l2 ++ [h]).
Proof.
  destruct move_facts as (Hbh & Hb1 & Hb2 & Hh1 & Hh2 & Hn1 & Hn2 & Hdis).
  pose proof move_nx as Mnx. pose proof move_pv as Mpv.
  pose proof move_prev as Ep. destruct move_tail as (r & Er & Htl).
  assert (n ∈ l2 \/ n = h) as Hin.
  { assert (n ∈ l2 ++ [h]) as Hx by (rewrite Er; left).
    apply elem_of_app in Hx as [?|?%list_elem_of_singleton]; auto. }
  assert (b <> n) as Hbn by (intros <-; destruct Hin; [done|congruence]).
  split; [rewrite Hnx; by rewrite decide_True|].
  destruct l1 as [|a' l1'].
  - assert (a = n) as Ea by (subst a; simpl; by rewrite Er).
    simpl in *. split; [rewrite Hpv, Ea, decide_False, decide_True; done|].
    rewrite Er. split; [|split].
    + rewrite Hnx, decide_False, decide_True; done.
    + rewrite Hpv, Ea, decide_True; done.
    + apply Htl; [by rewrite Ep|by right].
  - assert (a = a') as Ea by done. rewrite Ea in *.
    assert (p ∈ a' :: l1') as Hp by (rewrite Ep, last_cons; apply last_elem).
    assert (a' ∈ a' :: l1') as Ha' by left.
    split; [rewrite Hpv, decide_False, decide_True; [done|done|by intros ->]|].
    simpl. rewrite Er. split; [|split].
    + rewrite Hnx, decide_False, decide_True; done.
    + rewrite Hpv, decide_True; done.
    + apply dll_app. split; [|apply Htl; [by apply Hdis|by left]].
      apply dll_app in Hd as [H1 _]. rewrite last_cons in Ep.
      apply NoDup_cons in Hn1 as Hn1'. destruct Hn1' as [Hna _].
      assert (forall z, z ∈ a' :: l1' -> z <> h /\ z <> b /\ z <> n) as Hz.
      { intros z Hz. split_and!; intros ->; try done. destruct Hin as [?|E]; [by eapply Hdis|].
        by rewrite E in Hz. }
      eapply dll_bridge; [done| | | | |apply H1]; try rewrite <- Ep.
      * destruct (Hz p Hp) as (? & ? & ?). rewrite Hnx. do 2 rewrite decide_False by done.
        by rewrite decide_True.
      * destruct (Hz a' Ha') as (? & ? & ?). rewrite Hpv. do 2 rewrite decide_False by done.
        by rewrite decide_True.
      * intros z Hzz Hzp. destruct (Hz z Hzz) as (? & ? & ?). by apply Mnx.
      * intros z Hzz. destruct (Hz z) as (? & ? & ?); [by right|].
        apply Mpv; try done. by intros ->.
Qed.
End Move.

Definition nx_of (bc : list buf) (i : nat) : nat := b_next (bc !!! i).
Definition pv_of (bc : list buf) (i : nat) : nat := b_prev (bc !!! i).

(** The ring holds the buffers in the order [l], most recently used first. *)
Record ring (bc : list buf) (l : list nat) : Prop := {
  rg_len : length bc = Datatypes.S NBUF;
  rg_perm : l ≡ₚ seq 0 NBUF;
  rg_dll : dll (nx_of bc) (pv_of bc) NBUF (l ++ [NBUF])
}.

Lemma bc_alter (bc : list buf) f i j :
  (i < length bc)%nat ->
  alter f i bc !!! j = if decide (j = i) then f (bc !!! j) else bc !!! j.
Proof.
  intros Hi. rewrite !list_lookup_total_alt. case_decide as E.
  - subst. rewrite list_lookup_alter_eq. by destruct (lookup_lt_is_Some_2 bc i Hi) as [x ->].
  - by rewrite list_lookup_alter_ne.
Qed.

Lemma ring_lt bc l i : ring bc l -> i ∈ l <-> (i < NBUF)%nat.
Proof. intros H. rewrite (rg_perm _ _ H), elem_of_seq. lia. Qed.

Lemma ring_nodup bc l : ring bc l -> NoDup (NBUF :: l).
Proof.
  intros H. constructor.
  - rewrite (ring_lt bc l _ H). lia.
  - rewrite (rg_perm _ _ H). apply NoDup_seq.
Qed.

(** A buffer with other links *)
Definition relinked (x y : buf) : Prop := exists p n, y = x <|b_prev := p|> <|b_next := n|>.

Lemma relinked_refl x : relinked x x.
Proof. exists (b_prev x), (b_next x). by destruct x. Qed.
Lemma relinked_prev x v : relinked x (x <|b_prev := v|>).
Proof. exists v, (b_next x). by destruct x. Qed.
Lemma relinked_next x v : relinked x (x <|b_next := v|>).
Proof. exists (b_prev x), v. by destruct x. Qed.
Lemma relinked_alter (bc0 bc : list buf) f i j :
  (forall x, relinked x (f x)) -> relinked (bc0 !!! j) (bc !!! j) ->
  relinked (bc0 !!! j) (alter f i bc !!! j).
Proof.
  intros Hf (p & n & H). destruct (decide (i < length bc)%nat) as [Hi|Hi].
  - rewrite bc_alter by done. case_decide; [|by exists p, n].
    destruct (Hf (bc !!! j)) as (p' & n' & ->). rewrite H. by exists p', n'.
  - replace (alter f i bc) with bc; [by exists p, n|]. apply list_eq. intros k.
    destruct (decide (i = k)) as [->|]; [|by rewrite list_lookup_alter_ne].
    rewrite list_lookup_alter_eq. by rewrite lookup_ge_None_2 by lia.
Qed.

Lemma move_front_relinked b bc j : relinked (bc !!! j) (move_front b bc !!! j).
Proof.
  unfold move_front.
  repeat (apply relinked_alter; [intros x; first [apply relinked_prev|apply relinked_next]|]).
  apply relinked_refl.
Qed.

Lemma length_move_front b bc : length (move_front b bc) = length bc.
Proof. unfold move_front. by rewrite !length_alter. Qed.

(** The links after the six assignments of [brelse] *)
Section Links.
Context (b : nat) (bc : list buf).
Let p := pv_of bc b.
Let n := nx_of bc b.
Let a := if decide (NBUF = p) then n else nx_of bc NBUF.
Hypothesis Hlen : length bc = Datatypes.S NBUF.
Hypothesis Hb : (b < NBUF)%nat.
Hypothesis Hp : (p <= NBUF)%nat.
Hypothesis Hn : (n <= NBUF)%nat.
Hypothesis Ha : (a <= NBUF)%nat.
Hypothesis Hpb : p <> b.
Hypothesis Hnb : n <> b.

Lemma move_front_eq :
  move_front b bc =
  alter (fun x => x <|b_next := b|>) NBUF (alter (fun x => x <|b_prev := b|>) a
    (alter (fun x => x <|b_prev := NBUF|>) b (alter (fun x => x <|b_next := a|>) b
      (alter (fun x => x <|b_next := n|>) p (alter (fun x => x <|b_prev := p|>) n bc))))).
Proof.
  unfold move_front. cbv zeta.
  change (b_next (bc !!! b)) with n. change (b_prev (bc !!! b)) with p.
  set (bc1 := alter (fun x => x <|b_prev := p|>) n bc).
  assert (bc1 !!! b = bc !!! b) as E1.
  { subst bc1. rewrite bc_alter by (unfold n in *; lia). by rewrite decide_False. }
  rewrite E1. change (b_next (bc !!! b)) with n. change (b_prev (bc !!! b)) with p.
  set (bc2 := alter (fun x => x <|b_next := n|>) p bc1).
  assert (length bc1 = Datatypes.S NBUF) as L1 by (subst bc1; by rewrite length_alter).
  assert (length bc2 = Datatypes.S NBUF) as L2 by (subst bc2; by rewrite length_alter).
  assert (b_next (bc2 !!! NBUF) = a) as E2.
  { subst bc2. rewrite bc_alter by (unfold p in *; lia). subst a. case_decide as E; [done|].
    subst bc1. rewrite bc_alter by (unfold n in *; lia). by case_decide. }
  rewrite E2. set (bc3 := alter _ b bc2). set (bc4 := alter _ b bc3).
  assert (b_next (bc4 !!! NBUF) = a) as E4.
  { subst bc4 bc3. rewrite !bc_alter by (rewrite ?length_alter; lia).
    rewrite !decide_False by lia. done. }
  by rewrite E4.
Qed.

Lemma move_front_nx z :
  nx_of (move_front b bc) z = if decide (z = NBUF) then b else if decide (z = b) then a
                              else if decide (z = p) then n else nx_of bc z.
Proof.
  unfold nx_of at 1. rewrite move_front_eq.
  rewrite !bc_alter by (rewrite ?length_alter; unfold p, n, a in *; lia).
  revert Hp Hn Ha Hpb Hnb Hb. generalize p, n, a. intros p' n' a' ? ? ? ? ? ?.
  repeat case_decide; subst; getset; try done; lia.
Qed.

Lemma move_front_pv z :
  pv_of (move_front b bc) z = if decide (z = a) then b else if decide (z = b) then NBUF
                              else if decide (z = n) then p else pv_of bc z.
Proof.
  unfold pv_of at 1. rewrite move_front_eq.
  rewrite !bc_alter by (rewrite ?length_alter; unfold p, n, a in *; lia).
  revert Hp Hn Ha Hpb Hnb Hb. generalize p, n, a. intros p' n' a' ? ? ? ? ? ?.
  repeat case_decide; subst; getset; try done; lia.
Qed.
End Links.

(** [brelse] moves the buffer to the front of the list. *)
Lemma move_front_ring b bc l1 l2 :
  ring bc (l1 ++ b :: l2) -> ring (move_front b bc) (b :: l1 ++ l2).
Proof.
  intros H. pose proof (ring_nodup _ _ H) as Hnd. pose proof (rg_dll _ _ H) as Hd.
  pose proof (fun i => ring_lt bc _ i H) as Hlt. pose proof (rg_len _ _ H) as Hlen.
  rewrite <- app_assoc in Hd. simpl in Hd.
  assert (b < NBUF)%nat as Hb by (apply Hlt, elem_of_app; right; left).
  assert (NBUF ∉ l1 ++ b :: l2) as Hh by (by apply NoDup_cons in Hnd as [? _]).
  pose proof Hd as [Hd1 Hd2]%dll_app. apply dll_prev in Hd1 as Ep.
  assert (exists r, l2 ++ [NBUF] = nx_of bc b :: r) as [r Er].
  { destruct (l2 ++ [NBUF]) as [|y r] eqn:E; [by apply app_eq_nil in E as [_ ?]|].
    destruct Hd2 as (<- & _). by exists r. }
  assert (nx_of bc b <> b /\ nx_of bc b <= NBUF)%nat as [Hnb Hn].
  { assert (nx_of bc b ∈ l2 ++ [NBUF]) as Hx by (rewrite Er; left).
    apply elem_of_app in Hx as [Hx|Hx%list_elem_of_singleton]; [|lia].
    assert (nx_of bc b < NBUF)%nat by (apply Hlt, elem_of_app; right; by right).
    split; [|lia]. intros E. rewrite E in Hx. apply NoDup_cons in Hnd as [_ Hnd].
    apply NoDup_app in Hnd as (_ & _ & Hnd). by apply NoDup_cons in Hnd as [? _]. }
  assert (pv_of bc b <> b /\ pv_of bc b <= NBUF /\ (pv_of bc b = NBUF <-> l1 = []))%nat
    as (Hpb & Hp & Hpl).
  { rewrite Ep. pose proof (last_elem NBUF l1) as [E|Hx]%elem_of_cons.
    - rewrite E. split_and!; [lia|lia|]. destruct l1 as [|x l1]; [done|].
      rewrite last_cons in E. destruct Hh. rewrite <- E. apply elem_of_app. left. apply last_elem.
    - assert (List.last l1 NBUF < NBUF)%nat by (by apply Hlt, elem_of_app; left).
      split_and!; [|lia|split; [lia|intros ->; by apply not_elem_of_nil in Hx]].
      intros E. rewrite E in Hx. apply NoDup_cons in Hnd as [_ Hnd].
      apply NoDup_app in Hnd as (_ & Hnd & _). apply (Hnd _ Hx). left. }
  assert (List.hd NBUF (l1 ++ l2 ++ [NBUF])
    = if decide (NBUF = pv_of bc b) then nx_of bc b else nx_of bc NBUF) as Ea.
  { destruct l1 as [|x l1]; simpl.
    - rewrite decide_True by (symmetry; by apply Hpl). by rewrite Er.
    - rewrite decide_False by (intros E; symmetry in E; by apply Hpl in E).
      symmetry. apply Hd. }
  assert (List.hd NBUF (l1 ++ l2 ++ [NBUF]) <= NBUF)%nat as Ha.
  { destruct l1 as [|x l1]; simpl; [by rewrite Er|].
    assert (x < NBUF)%nat by (apply Hlt; left). lia. }
  split; [by rewrite length_move_front|rewrite <- (rg_perm _ _ H); apply Permutation_middle|].
  change ((b :: l1 ++ l2) ++ [NBUF]) with (b :: (l1 ++ l2) ++ [NBUF]). rewrite <- app_assoc.
  rewrite Ea in Ha.
  eapply (dll_move (nx_of bc) (pv_of bc)); [done|done| |]; intros z; rewrite Ea;
    [by apply move_front_nx|by apply move_front_pv].
Qed.

(** ** Walking the ring *)

(** [chain f l y]: from the first node of [l], [f] leads through [l] to [y]. *)
Fixpoint chain_to (f : nat -> nat) (l : list nat) (y : nat) : Prop :=
  match l with
  | [] => True
  | x :: l => f x = List.hd y l /\ chain_to f l y
  end.

Lemma chain_snoc f l x y :
  chain_to f l x -> f x = y -> chain_to f (l ++ [x]) y.
Proof.
  induction l as [|z l IH]; simpl; [tauto|]. intros [E H] Hx. split; [|by apply IH].
  rewrite E. by destruct l.
Qed.

Lemma dll_forward nx pv h l1 y l2 :
  dll nx pv h (l1 ++ y :: l2) -> nx h = List.hd y l1 /\ chain_to nx l1 y.
Proof.
  revert h. induction l1 as [|z l1 IH]; intros h; simpl; [tauto|].
  intros (E & _ & H). split; [done|]. by apply IH.
Qed.

Lemma dll_backward nx pv y l2 e :
  dll nx pv y (l2 ++ [e]) -> pv e = List.hd y (reverse l2) /\ chain_to pv (reverse l2) y.
Proof.
  revert y. induction l2 as [|z l2 IH]; intros y; simpl; [tauto|].
  intros (_ & Ez & H). apply IH in H as [He Hc]. rewrite reverse_cons. split.
  - rewrite He. by destruct (reverse l2).
  - by apply chain_snoc.
Qed.

Lemma runs_walk c me L L' (body : nat -> K (nat + option nat)) f d d' r l y fuel :
  chain_to f l y -> (forall z, z ∈ l -> runs c me L (body z) d (inl (f z)) d L) ->
  runs c me L (body y) d (inr r) d' L' -> (length l < fuel)%nat ->
  runs c me L (loop fuel body (List.hd y l)) d r d' L'.
Proof.
  revert fuel. induction l as [|x l IH]; intros fuel Hc Hl Hy Hf;
    (destruct fuel as [|fuel]; [simpl in Hf; lia|]); rewrite loop_unfold; simpl.
  - eapply runs_bind; [done|]. apply runs_ret.
  - destruct Hc as [Hx Hc]. eapply runs_bind; [apply Hl; left|]. cbv beta iota. rewrite Hx.
    apply IH; [done| |done|simpl in Hf; lia]. intros z Hz. apply Hl. by right.
Qed.

(** The last element with a property *)
Lemma last_split (P : nat -> Prop) `{forall x, Decision (P x)} l x :
  x ∈ l -> P x -> exists l1 b l2, l = l1 ++ b :: l2 /\ P b /\ (forall z, z ∈ l2 -> ~ P z).
Proof.
  intros Hx Hp. induction l as [|z l IH] using rev_ind; [by apply not_elem_of_nil in Hx|].
  destruct (decide (P z)) as [Hz|Hz].
  - exists l, z, []. split_and!; [done|done|]. by intros y Hy%elem_of_nil.
  - apply elem_of_app in Hx as [Hx| ->%list_elem_of_singleton]; [|done].
    destruct (IH Hx) as (l1 & b & l2 & -> & Hb & Hl2). exists l1, b, (l2 ++ [z]).
    split_and!; [by rewrite <- app_assoc|done|].
    intros y [Hy| ->%list_elem_of_singleton]%elem_of_app; auto.
Qed.

Lemma bufs_upd d b f j :
  (b < length (bcache d))%nat ->
  bufs (upd_buf b f d) j = if decide (j = b) then f (bufs d j) else bufs d j.
Proof. intros H. unfold bufs, upd_buf. getset. by apply bc_alter. Qed.

Lemma upd_buf_compose d b f g : upd_buf b g (upd_buf b f d) = upd_buf b (fun x => g (f x)) d.
Proof.
  unfold upd_buf, upd. cbn. f_equal. apply list_eq. intros j.
  destruct (decide (b = j)) as [->|Hne].
  - rewrite !list_lookup_alter_eq. by destruct (bcache d !! j).
  - by rewrite !list_lookup_alter_ne.
Qed.

#[export] Hint Resolve runs_acquiresleep runs_releasesleep runs_holdingsleep runs_get_sl
  runs_set_sl runs_wakeup : runs.

Lemma runs_get_buf c me L b d : runs c me L (get_buf b) d (bufs d b) d L.
Proof. exact (runs_getd c me L (fun d => bufs d b) d). Qed.
Lemma runs_set_buf c me L b f d : runs c me L (set_buf b f) d tt (upd_buf b f d) L.
Proof. exact (runs_setd c me L (upd_buf b f) d). Qed.
#[export] Hint Resolve runs_get_buf runs_set_buf : runs.

(** ** The disk driver as an interface

    What the cache relies on: a thread that holds the buffer's sleep-lock can
    read a block into it and write it out. *)
Record holds (d : data) (me b : nat) : Prop := {
  ho_lt : (b < NBUF)%nat;
  ho_len : length (bcache d) = Datatypes.S NBUF;
  ho_locked : s_locked (sl d (SBuf b)) = 1;
  ho_pid : s_pid (sl d (SBuf b)) = pid (procs d me);
  ho_dev : b_dev (bufs d b) = 1;
  ho_range : 0 <= b_blockno (bufs d b) < disksize d
}.

Definition loaded (bl : block) (x : buf) : buf := x <|b_data := bl|> <|b_flags := B_VALID|>.
Definition cleaned (x : buf) : buf := x <|b_flags := B_VALID|>.
Definition DIRTY : Z := Z.lor B_VALID B_DIRTY.

Class BlockDev `{BlockOps} : Prop := {
  iderw_read c me d b :
    holds d me b -> b_flags (bufs d b) = 0 ->
    runs c (Some me) [] (iderw b) d tt
      (upd_buf b (loaded (disk_block d (b_blockno (bufs d b)))) d) [];
  iderw_write c me d b :
    holds d me b -> b_flags (bufs d b) = DIRTY ->
    runs c (Some me) [] (iderw b) d tt
      (disk_write (b_blockno (bufs d b)) (b_data (bufs d b)) (upd_buf b cleaned d)) []
}.

#[export] Instance memide_ops : BlockOps := Memide.iderw.

Lemma runs_holding_yes c me d b :
  holds d me b -> runs c (Some me) [] (holdingsleep (SBuf b)) d true d [].
Proof.
  intros H. pose proof (runs_holdingsleep c me [] (SBuf b) d ltac:(set_solver)) as Hr.
  by rewrite (ho_locked _ _ _ H), (ho_pid _ _ _ H), Z.eqb_refl in Hr.
Qed.

Lemma upd_buf_ext d b f g :
  (forall x, x = bufs d b -> f x = g x) -> upd_buf b f d = upd_buf b g d.
Proof.
  intros H. unfold upd_buf, upd. cbn. f_equal. apply list_eq. intros j.
  destruct (decide (b = j)) as [->|Hne]; [|by rewrite !list_lookup_alter_ne].
  rewrite !list_lookup_alter_eq. unfold bufs in H. rewrite list_lookup_total_alt in H.
  destruct (bcache d !! j) as [x|] eqn:E; [|done]. simpl in *. f_equal. by apply H.
Qed.

#[export] Instance memide_dev : BlockDev.
Proof.
  split; intros c me d b Hh Hf; unfold iderw, memide_ops, Memide.iderw;
    (eapply runs_bind; [by apply runs_holding_yes|]); cbn [negb]; rstep; rewrite Hf.
  - change (Z.land 0 (Z.lor B_VALID B_DIRTY) =? B_VALID) with false. cbv iota.
    rewrite (ho_dev _ _ _ Hh). change (negb (1 =? 1)) with false. cbv iota. rstep.
    destruct (Z.leb_spec (disksize d) (b_blockno (bufs d b))); [pose proof (ho_range _ _ _ Hh); lia|].
    change (negb (Z.land 0 B_DIRTY =? 0)) with false. cbv iota. rstep.
    eapply runs_eq; [rlast|]. rewrite upd_buf_compose. apply upd_buf_ext. intros x ->.
    unfold loaded. destruct (bufs d b) eqn:E. unfold upd. cbn in *. by rewrite Hf.
  - change (Z.land DIRTY (Z.lor B_VALID B_DIRTY) =? B_VALID) with false. cbv iota.
    rewrite (ho_dev _ _ _ Hh). change (negb (1 =? 1)) with false. cbv iota. rstep.
    destruct (Z.leb_spec (disksize d) (b_blockno (bufs d b))); [pose proof (ho_range _ _ _ Hh); lia|].
    change (negb (Z.land DIRTY B_DIRTY =? 0)) with true. cbv iota.
    eapply runs_bind; [rstep; rlast|]. eapply runs_eq; [rlast|].
    match goal with |- upd_buf b ?f (disk_write ?n ?v ?d1) = _ =>
      change (disk_write n v (upd_buf b f d1) = disk_write n v (upd_buf b cleaned d)) end.
    f_equal. rewrite upd_buf_compose. apply upd_buf_ext. intros x ->.
    unfold cleaned. destruct (bufs d b) eqn:E. unfold upd. cbn in *. by rewrite Hf.
Qed.
