(* ===== verification/Cache.v ===== *)
(** * The buffer cache is coherent (bio.c, continued)

    The invariant [cache] of the buffer cache as one thread finds it when
    nobody else holds a buffer, and what [bread], [bwrite] and [brelse] do to
    the contents of the disk as seen through the cache. *)

From S2P Require Import Prelude Params State CString Spinlock Sched Sleeplock Bio.

(** ** The rest of the kernel state *)

Definition rest (d : data) : data :=
  d <|bcache := []|> <|sleeplocks := ∅|> <|ptable := []|> <|disk := ∅|> <|dtrace := []|>.

Record same_rest (d d' : data) : Prop := {
  sr_rest : rest d' = rest d;
  sr_pid : forall i, pid (procs d' i) = pid (procs d i);
  sr_inode : forall n, sl d' (SInode n) = sl d (SInode n)
}.

#[global] Instance same_rest_preorder : PreOrder same_rest.
Proof.
  split; [by split|]. intros d1 d2 d3 [H1 H2 H3] [H4 H5 H6].
  split; [congruence| |]; intros i; by rewrite ?H5, ?H6.
Qed.

Lemma sr_log d d' : same_rest d d' -> log d' = log d.
Proof. intros [H _ _]. exact (f_equal log H). Qed.
Lemma sr_disksize d d' : same_rest d d' -> disksize d' = disksize d.
Proof. intros [H _ _]. exact (f_equal disksize H). Qed.
Lemma sr_sb d d' : same_rest d d' -> sb d' = sb d.
Proof. intros [H _ _]. exact (f_equal sb H). Qed.

Lemma sr_icache d d' : same_rest d d' -> icache d' = icache d.
Proof. intros [H _ _]. exact (f_equal icache H). Qed.

Lemma sr_set_log d d' f : same_rest d d' -> same_rest (d <|log ::= f|>) (d' <|log ::= f|>).
Proof.
  intros [E1 E2 E3]. split; [|done|done].
  change ((rest d') <|log ::= f|> = (rest d) <|log ::= f|>). by rewrite E1.
Qed.

Lemma sr_upd_buf d b f : same_rest d (upd_buf b f d).
Proof. by split. Qed.
Lemma sr_upd_sl d b f : same_rest d (upd_sl (SBuf b) f d).
Proof. split; [done|done|]. intros n. by apply sl_upd_other. Qed.
Lemma sr_disk_write d bn bl : same_rest d (disk_write bn bl d).
Proof. by split. Qed.
Lemma sr_bcache d f : same_rest d (d <|bcache ::= f|>).
Proof. by split. Qed.
Lemma sr_wakeup d ch : same_rest d (wakeup_data ch d).
Proof.
  split; [done| |done]. intros i. unfold procs, wakeup_data. getset.
  rewrite !list_lookup_total_alt, list_lookup_fmap.
  destruct (ptable d !! i); [|done]. simpl. unfold wake_proc. by destruct (wakes ch p).
Qed.
#[export] Hint Resolve sr_upd_buf sr_upd_sl sr_disk_write sr_bcache sr_wakeup : runs.

(** ** The contents of a disk block, as seen through the cache *)

Definition has (d : data) (bn : Z) (b : nat) : Prop :=
  b_dev (bufs d b) = 1 /\ b_blockno (bufs d b) = bn.
#[global] Instance has_dec d bn b : Decision (has d bn b).
Proof. unfold has. apply _. Defined.

Definition view (d : data) (bn : Z) : block :=
  match list_find (has d bn) (seq 0 NBUF) with
  | Some (_, b) => b_data (bufs d b)
  | None => disk_block d bn
  end.

(** ** The invariant: [H] are the buffers this thread holds, [D] contains the
    numbers of the blocks whose buffers are dirty. *)

Definition flags_ok (f : Z) : Prop := f = 0 \/ f = B_VALID \/ f = DIRTY.

Record cache (d : data) (me : nat) (H : list nat) (D : list Z) : Prop := {
  ca_ring : exists l, ring (bcache d) l;
  ca_uniq : forall i j bn, (i < NBUF)%nat -> (j < NBUF)%nat -> has d bn i -> has d bn j -> i = j;
  ca_flags : forall i, (i < NBUF)%nat -> flags_ok (b_flags (bufs d i));
  ca_dev : forall i, (i < NBUF)%nat -> b_dev (bufs d i) = 1 -> b_flags (bufs d i) <> 0;
  ca_data : forall i, (i < NBUF)%nat -> b_dev (bufs d i) = 1 -> length (b_data (bufs d i)) = 512%nat;
  ca_held : forall b, b ∈ H -> holds d me b /\ b_refcnt (bufs d b) = 1;
  ca_free : forall b, (b < NBUF)%nat -> b ∉ H ->
    b_refcnt (bufs d b) = 0 /\ s_locked (sl d (SBuf b)) = 0;
  ca_coherent : forall b, (b < NBUF)%nat -> b ∉ H -> b_dev (bufs d b) = 1 ->
    b_flags (bufs d b) = B_VALID ->
    b_data (bufs d b) = disk_block d (b_blockno (bufs d b));
  ca_dirty : forall b, (b < NBUF)%nat -> b_flags (bufs d b) = DIRTY ->
    b_dev (bufs d b) = 1 /\ b_blockno (bufs d b) ∈ D;
  ca_disk : forall bn, length (disk_block d bn) = 512%nat;
  ca_nodup : NoDup H
}.

Lemma view_has d me H D b bn :
  cache d me H D -> (b < NBUF)%nat -> has d bn b -> view d bn = b_data (bufs d b).
Proof.
  intros Hc Hb Hh. unfold view. destruct (list_find _ _) as [[i j]|] eqn:E.
  - apply list_find_Some in E as (Hi & Hj & _). f_equal. f_equal.
    apply lookup_seq in Hi as [-> Hi]. eapply (ca_uniq _ _ _ _ Hc); try done; lia.
  - apply list_find_None in E. rewrite Forall_forall in E. destruct (E b); [|done].
    apply elem_of_seq. lia.
Qed.

Lemma view_none d bn :
  (forall b, (b < NBUF)%nat -> ~ has d bn b) -> view d bn = disk_block d bn.
Proof.
  intros H. unfold view. destruct (list_find _ _) as [[i j]|] eqn:E; [|done].
  apply list_find_Some in E as (Hi & Hj & _). apply lookup_seq in Hi as [-> Hi].
  destruct (H (0 + i)%nat); [lia|done].
Qed.

Lemma has_or_not d bn :
  (exists b, (b < NBUF)%nat /\ has d bn b) \/ (forall b, (b < NBUF)%nat -> ~ has d bn b).
Proof.
  destruct (list_find (has d bn) (seq 0 NBUF)) as [[i j]|] eqn:E.
  - apply list_find_Some in E as (Hi & Hj & _). apply lookup_seq in Hi as [-> Hi]. left.
    exists (0 + i)%nat. split; [lia|done].
  - right. apply list_find_None in E. rewrite Forall_forall in E. intros b Hb.
    apply E, elem_of_seq. lia.
Qed.

(** Two states that agree on which blocks are cached, with the same contents *)
Lemma view_same d d' me H D me' H' D' :
  cache d me H D -> cache d' me' H' D' ->
  (forall b bn, (b < NBUF)%nat -> has d' bn b <-> has d bn b) ->
  (forall b, (b < NBUF)%nat -> b_data (bufs d' b) = b_data (bufs d b)) ->
  (forall bn, (forall b, (b < NBUF)%nat -> ~ has d bn b) -> disk_block d' bn = disk_block d bn) ->
  forall bn, view d' bn = view d bn.
Proof.
  intros Hc Hc' Hh Hd Hk bn. destruct (has_or_not d bn) as [(b & Hb & Hx)|Hx].
  - rewrite (view_has d me H D b bn Hc Hb Hx).
    rewrite (view_has d' me' H' D' b bn Hc' Hb); [by apply Hd|by apply Hh].
  - rewrite (view_none d bn Hx), view_none; [by apply Hk|]. intros b Hb Hy. by apply (Hx b Hb), Hh.
Qed.

(** ** Finding a buffer *)

Definition take_sl (me b : nat) (d : data) : data :=
  upd_sl (SBuf b) (lock_by (pid (procs d me))) d.
Definition refd (x : buf) : buf := x <|b_refcnt := 1|>.
Definition recycled (bn : Z) (x : buf) : buf :=
  x <|b_dev := 1|> <|b_blockno := bn|> <|b_flags := 0|> <|b_refcnt := 1|>.

Section Find.
Context (c me : nat) (d : data) (H : list nat) (D : list Z) (bn : Z).
Hypothesis Hc : cache d me H D.

Lemma match_has z :
  (b_dev (bufs d z) =? 1) && (b_blockno (bufs d z) =? bn) = bool_decide (has d bn z).
Proof.
  unfold has. case_bool_decide as E.
  - destruct E as [-> ->]. by rewrite !Z.eqb_refl.
  - destruct (Z.eqb_spec (b_dev (bufs d z)) 1); [|done].
    destruct (Z.eqb_spec (b_blockno (bufs d z)) bn); [|done]. by destruct E.
Qed.

Lemma runs_cached_skip `{BlockOps} z L :
  (z < NBUF)%nat -> ~ has d bn z ->
  runs c (Some me) L (bget_cached 1 bn z) d (inl (nx_of (bcache d) z)) d L.
Proof.
  intros Hz Hn. unfold bget_cached. rewrite bool_decide_false by lia. rstep.
  rewrite match_has, bool_decide_false by done. apply runs_ret.
Qed.

Lemma runs_bget_hit `{BlockOps} b :
  (b < NBUF)%nat -> has d bn b -> b ∉ H ->
  runs c (Some me) [] (bget 1 bn) d b (take_sl me b (upd_buf b refd d)) [].
Proof.
  intros Hb Hh HH. destruct (ca_ring _ _ _ _ Hc) as [l Hl].
  destruct (list_elem_of_split l b) as (l1 & l2 & ->); [by apply (ring_lt _ _ _ Hl)|].
  pose proof (rg_dll _ _ Hl) as Hd. rewrite <- app_assoc in Hd. simpl in Hd.
  apply dll_forward in Hd as [Hs Hch].
  destruct (ca_free _ _ _ _ Hc b Hb HH) as [Hr Hsl].
  unfold bget. rstep. rstep. change (b_next (bufs d NBUF)) with (nx_of (bcache d) NBUF).
  rewrite Hs. eapply runs_bind; [eapply runs_walk; [exact Hch| | |]|].
  - intros z Hz. apply runs_cached_skip.
    + apply (ring_lt _ _ _ Hl), elem_of_app. by left.
    + intros Hx. assert (z = b) as ->.
      { eapply (ca_uniq _ _ _ _ Hc); try done. apply (ring_lt _ _ _ Hl), elem_of_app. by left. }
      pose proof (ring_nodup _ _ Hl) as [_ Hnd]%NoDup_cons. apply NoDup_app in Hnd as (_ & Hnd & _).
      apply (Hnd b Hz). left.
  - unfold bget_cached. rewrite bool_decide_false by lia. rstep.
    rewrite match_has, bool_decide_true by done. rstep. rstep.
    eapply runs_bind; [apply runs_acquiresleep; [set_solver|done]|]. apply runs_ret.
  - pose proof (Permutation_length (rg_perm _ _ Hl)) as Hlen.
    rewrite length_app, length_seq in Hlen. simpl in Hlen. lia.
  - cbv beta iota. eapply runs_eq; [apply runs_ret|].
    rewrite (upd_buf_ext d b _ refd); [done|]. intros x ->. unfold refd.
    destruct (bufs d b) eqn:E. unfold upd. simpl in *. by rewrite Hr.
Qed.

(** A buffer that can be recycled *)
Definition victim (b : nat) : Prop :=
  b_refcnt (bufs d b) = 0 /\ b_flags (bufs d b) <> DIRTY.

Lemma runs_recycle_skip `{BlockOps} z L :
  (z < NBUF)%nat -> ~ victim z ->
  runs c (Some me) L (bget_recycle 1 bn z) d (inl (pv_of (bcache d) z)) d L.
Proof.
  intros Hz Hn. unfold bget_recycle. rewrite bool_decide_false by lia. rstep.
  replace (_ && _) with false; [apply runs_ret|]. symmetry. unfold victim in Hn.
  destruct (Z.eqb_spec (b_refcnt (bufs d z)) 0) as [E|]; [|done]. simpl.
  destruct (ca_flags _ _ _ _ Hc z Hz) as [Ef|[Ef|Ef]]; rewrite Ef in *; try done;
    exfalso; by apply Hn.
Qed.

Lemma runs_bget_miss `{BlockOps} v :
  (forall b, (b < NBUF)%nat -> ~ has d bn b) -> (v < NBUF)%nat -> victim v ->
  exists b, (b < NBUF)%nat /\ victim b /\
    runs c (Some me) [] (bget 1 bn) d b (take_sl me b (upd_buf b (recycled bn) d)) [].
Proof.
  intros Hno Hv Hvic. destruct (ca_ring _ _ _ _ Hc) as [l Hl].
  destruct (last_split victim l v) as (l1 & b & l2 & El & Hb & Hl2); [|done|].
  { by apply (ring_lt _ _ _ Hl). }
  pose proof (fun z => ring_lt _ _ z Hl) as Hlt.
  assert (b < NBUF)%nat as Hbl. { apply Hlt. rewrite El. apply elem_of_app. right. left. }
  exists b. split; [done|]. split; [done|].
  pose proof (Permutation_length (rg_perm _ _ Hl)) as Hlen. rewrite length_seq in Hlen.
  pose proof (rg_dll _ _ Hl) as Hd. pose proof (dll_forward _ _ _ _ _ [] Hd) as [Hs Hch].
  rewrite El, <- app_assoc in Hd. simpl in Hd. apply dll_app in Hd as [_ Hd].
  apply dll_backward in Hd as [Hs2 Hch2].
  unfold bget. rstep. rstep. change (b_next (bufs d NBUF)) with (nx_of (bcache d) NBUF).
  rewrite Hs. eapply runs_bind; [eapply runs_walk; [exact Hch| | |lia]|].
  { intros z Hz. apply runs_cached_skip; [by apply Hlt|apply Hno; by apply Hlt]. }
  { unfold bget_cached. rewrite bool_decide_true by done. rlast. }
  cbv beta iota. rstep. change (b_prev (bufs d NBUF)) with (pv_of (bcache d) NBUF). rewrite Hs2.
  eapply runs_bind; [eapply runs_walk; [exact Hch2| | |]|].
  - intros z Hz. rewrite elem_of_reverse in Hz. apply runs_recycle_skip; [|by apply Hl2].
    apply Hlt. rewrite El. apply elem_of_app. right. by right.
  - unfold bget_recycle. rewrite bool_decide_false by lia. rstep.
    destruct Hb as [Hr Hf]. rewrite Hr. simpl.
    replace (Z.land _ B_DIRTY =? 0) with true; cycle 1.
    { destruct (ca_flags _ _ _ _ Hc b Hbl) as [Ef|[Ef|Ef]]; by rewrite Ef. }
    do 5 rstep.
    eapply runs_bind; [apply runs_acquiresleep; [set_solver|]|apply runs_ret].
    assert (b ∉ H) as HbH.
    { intros HbH. destruct (ca_held _ _ _ _ Hc b HbH) as [_ Hr1]. congruence. }
    apply (ca_free _ _ _ _ Hc b Hbl HbH).
  - rewrite length_reverse. rewrite El, length_app in Hlen. simpl in Hlen. lia.
  - cbv beta iota. eapply runs_eq; [apply runs_ret|]. by rewrite !upd_buf_compose.
Qed.
End Find.

(** ** One buffer changes *)

(** The fields that do not concern the ring *)
Definition same_buf (x y : buf) : Prop :=
  b_flags y = b_flags x /\ b_dev y = b_dev x /\ b_blockno y = b_blockno x /\
  b_refcnt y = b_refcnt x /\ b_data y = b_data x.

Lemma same_buf_refl x : same_buf x x.
Proof. by split_and!. Qed.
Lemma relinked_same x y : relinked x y -> same_buf x y.
Proof. intros (p & n & ->). by split_and!. Qed.

Section Step.
Context (d d' : data) (me b : nat) (H H' : list nat) (D D' : list Z).
Hypothesis Hc : cache d me H D.
Hypothesis Hring : exists l, ring (bcache d') l.
Hypothesis Hothers : forall j, (j < NBUF)%nat -> j <> b ->
  same_buf (bufs d j) (bufs d' j) /\ sl d' (SBuf j) = sl d (SBuf j).
Hypothesis Hrest : same_rest d d'.
Hypothesis Hlt : (b < NBUF)%nat.

Lemma has_other j bn : (j < NBUF)%nat -> j <> b -> has d' bn j <-> has d bn j.
Proof.
  intros Hj Hne. destruct (Hothers j Hj Hne) as [(_ & Ed & En & _) _].
  unfold has. by rewrite Ed, En.
Qed.

Lemma holds_other j : j <> b -> holds d me j -> holds d' me j.
Proof.
  intros Hne [Hj Hlen Hl Hp Hd Hr]. destruct (Hothers j Hj Hne) as [(_ & Ed & En & _) Es].
  destruct Hring as [l Hl']. split; try done.
  - apply Hl'.
  - by rewrite Es.
  - by rewrite Es, (sr_pid _ _ Hrest).
  - by rewrite Ed.
  - by rewrite En, (sr_disksize _ _ Hrest).
Qed.

Lemma cache_step :
  (forall bn, length (disk_block d' bn) = 512%nat) ->
  (forall j, (j < NBUF)%nat -> j <> b -> j ∉ H -> b_dev (bufs d j) = 1 ->
     b_flags (bufs d j) = B_VALID ->
     disk_block d' (b_blockno (bufs d j)) = disk_block d (b_blockno (bufs d j))) ->
  flags_ok (b_flags (bufs d' b)) ->
  (b_dev (bufs d' b) = 1 -> b_flags (bufs d' b) <> 0 /\ length (b_data (bufs d' b)) = 512%nat) ->
  (forall j bn, (j < NBUF)%nat -> j <> b -> has d bn j -> ~ has d' bn b) ->
  NoDup H' -> (forall j, j <> b -> j ∈ H' <-> j ∈ H) ->
  (b ∈ H' -> holds d' me b /\ b_refcnt (bufs d' b) = 1) ->
  (b ∉ H' -> b_refcnt (bufs d' b) = 0 /\ s_locked (sl d' (SBuf b)) = 0 /\
     (b_dev (bufs d' b) = 1 -> b_flags (bufs d' b) = B_VALID ->
      b_data (bufs d' b) = disk_block d' (b_blockno (bufs d' b)))) ->
  (forall j, (j < NBUF)%nat -> j <> b -> b_flags (bufs d j) = DIRTY ->
     b_blockno (bufs d j) ∈ D -> b_blockno (bufs d j) ∈ D') ->
  (b_flags (bufs d' b) = DIRTY -> b_dev (bufs d' b) = 1 /\ b_blockno (bufs d' b) ∈ D') ->
  cache d' me H' D'.
Proof.
  intros Hlen Hdisk Hfl Hdv Hun Hnd HH Hin Hout HD HDb. split; try done.
  - intros i j bn Hi Hj Hhi Hhj.
    destruct (decide (i = b)) as [->|Hib]; destruct (decide (j = b)) as [->|Hjb]; try done.
    + apply has_other in Hhj; try done. by destruct (Hun j bn Hj Hjb Hhj).
    + apply has_other in Hhi; try done. by destruct (Hun i bn Hi Hib Hhi).
    + apply has_other in Hhi, Hhj; try done. by eapply (ca_uniq _ _ _ _ Hc).
  - intros i Hi. destruct (decide (i = b)) as [->|Hib]; [done|].
    destruct (Hothers i Hi Hib) as [(-> & _) _]. by apply Hc.
  - intros i Hi. destruct (decide (i = b)) as [->|Hib]; [by intros [? _]%Hdv|].
    destruct (Hothers i Hi Hib) as [(-> & -> & _) _]. by apply Hc.
  - intros i Hi. destruct (decide (i = b)) as [->|Hib]; [by intros [_ ?]%Hdv|].
    destruct (Hothers i Hi Hib) as [(_ & -> & _ & _ & ->) _]. by apply Hc.
  - intros j Hj. destruct (decide (j = b)) as [->|Hjb]; [by apply Hin|].
    apply HH in Hj; [|done]. destruct (ca_held _ _ _ _ Hc j Hj) as [Hh Hr].
    split; [by apply holds_other|]. by destruct (Hothers j (ho_lt _ _ _ Hh) Hjb) as [(_ & _ & _ & -> & _) _].
  - intros j Hj HjH. destruct (decide (j = b)) as [->|Hjb].
    { by destruct (Hout HjH) as (? & ? & _). }
    destruct (Hothers j Hj Hjb) as [(_ & _ & _ & -> & _) ->].
    apply Hc; [done|]. by rewrite <- HH.
  - intros j Hj HjH. destruct (decide (j = b)) as [->|Hjb].
    { by destruct (Hout HjH) as (_ & _ & ?). }
    destruct (Hothers j Hj Hjb) as [(-> & -> & -> & _ & ->) _]. intros Hd Hf.
    assert (j ∉ H) as HjH' by (by rewrite <- HH).
    rewrite Hdisk by done. by apply Hc.
  - intros j Hj. destruct (decide (j = b)) as [->|Hjb]; [done|].
    destruct (Hothers j Hj Hjb) as [(-> & -> & -> & _) _]. intros Hf.
    destruct (ca_dirty _ _ _ _ Hc j Hj Hf) as [Hd Hx]. split; [done|]. by apply HD.
Qed.
End Step.

(** ** The operations *)

Definition keeps_links (f : buf -> buf) : Prop :=
  forall x, b_next (f x) = b_next x /\ b_prev (f x) = b_prev x.

Lemma ring_upd_buf d b f l :
  keeps_links f -> ring (bcache d) l -> ring (bcache (upd_buf b f d)) l.
Proof.
  intros Hf [Hlen Hperm Hdll]. unfold upd_buf. getset.
  assert (forall z, nx_of (alter f b (bcache d)) z = nx_of (bcache d) z /\
                    pv_of (alter f b (bcache d)) z = pv_of (bcache d) z) as E.
  { intros z. unfold nx_of, pv_of. rewrite !list_lookup_total_alt.
    destruct (decide (b = z)) as [->|]; [|by rewrite list_lookup_alter_ne].
    rewrite list_lookup_alter_eq. by destruct (bcache d !! z); simpl; [apply Hf|]. }
  split; [by rewrite length_alter|done|].
  eapply dll_ext; [| |exact Hdll]; intros z _; apply E.
Qed.

Lemma cache_len d me H D : cache d me H D -> length (bcache d) = Datatypes.S NBUF.
Proof. intros Hc. destruct (ca_ring _ _ _ _ Hc) as [l Hl]. apply Hl. Qed.

(** There is a buffer to recycle when few are held or dirty. *)
Lemma cache_room d me H D :
  cache d me H D -> (length H + length D < NBUF)%nat ->
  exists v, (v < NBUF)%nat /\ victim d v.
Proof.
  intros Hc Hlt.
  destruct (decide (Exists (fun v => b_refcnt (bufs d v) = 0 /\ b_flags (bufs d v) <> DIRTY)
    (seq 0 NBUF))) as [Hex|Hno].
  { apply Exists_exists in Hex as (v & Hv%elem_of_seq & Hx). exists v. split; [lia|done]. }
  exfalso. assert (forall v, (v < NBUF)%nat -> v ∉ H -> b_flags (bufs d v) = DIRTY) as Hd.
  { intros v Hv HvH. destruct (ca_free _ _ _ _ Hc v Hv HvH) as [Hr _].
    destruct (decide (b_flags (bufs d v) = DIRTY)); [done|]. exfalso.
    apply Hno, Exists_exists. exists v. split; [apply elem_of_seq; lia|done]. }
  set (A := filter (fun v => v ∈ H) (seq 0 NBUF)).
  set (B := filter (fun v => v ∉ H) (seq 0 NBUF)).
  assert (length A + length B = NBUF)%nat as Hab.
  { transitivity (length (seq 0 NBUF)); [|apply length_seq].
    unfold A, B. generalize (seq 0 NBUF). clear. induction l as [|x l IH]; [done|]. rewrite !filter_cons. repeat case_decide; simpl; try done; lia. }
  assert (length A <= length H)%nat.
  { apply submseteq_length, NoDup_submseteq; [apply NoDup_filter, NoDup_seq|].
    intros x Hx. by apply list_elem_of_filter in Hx as [? _]. }
  assert (length B <= length D)%nat; [|lia].
  rewrite <- (length_fmap (fun v => b_blockno (bufs d v)) B).
  apply submseteq_length, NoDup_submseteq.
  - apply NoDup_fmap_2_strong; [|apply NoDup_filter, NoDup_seq].
    intros x y [Hx Hx'%elem_of_seq]%list_elem_of_filter [Hy Hy'%elem_of_seq]%list_elem_of_filter E.
    destruct (ca_dirty _ _ _ _ Hc x) as [? _]; [lia|apply Hd; [lia|done]|].
    destruct (ca_dirty _ _ _ _ Hc y) as [? _]; [lia|apply Hd; [lia|done]|].
    eapply (ca_uniq _ _ _ _ Hc x y); [lia|lia|by split|by split].
  - intros z (x & -> & [Hx Hx'%elem_of_seq]%list_elem_of_filter)%list_elem_of_fmap.
    apply (ca_dirty _ _ _ _ Hc x); [lia|]. apply Hd; [lia|done].
Qed.

(** The block is in a dirty buffer, which keeps it in the cache. *)
Definition pinned (d : data) (x : Z) : Prop :=
  exists b, (b < NBUF)%nat /\ has d x b /\ b_flags (bufs d b) = DIRTY.

Lemma pinned_same d d' :
  (forall j, (j < NBUF)%nat -> (b_flags (bufs d' j) = DIRTY \/ b_flags (bufs d j) = DIRTY) ->
     b_flags (bufs d' j) = b_flags (bufs d j) /\ b_dev (bufs d' j) = b_dev (bufs d j) /\
     b_blockno (bufs d' j) = b_blockno (bufs d j)) ->
  forall x, pinned d' x <-> pinned d x.
Proof.
  intros H x. unfold pinned, has. split; intros (b & Hb & Hh & Hf); exists b;
    destruct (H b Hb) as (E1 & E2 & E3); auto; rewrite ?E1, ?E2, ?E3 in *; done.
Qed.

(** What [bread(1, bn)] achieves: a locked buffer with the contents of [bn]. *)
Record opened (d d' : data) (me b : nat) (bn : Z) (H : list nat) (D : list Z) : Prop := {
  op_cache : cache d' me (b :: H) D;
  op_has : has d' bn b;
  op_data : b_data (bufs d' b) = view d bn;
  op_view : forall x, view d' x = view d x;
  op_rest : same_rest d d';
  op_disk : disk d' = disk d;
  op_trace : dtrace d' = dtrace d;
  op_held : forall j, j ∈ H -> bufs d' j = bufs d j;
  op_pinned : forall x, pinned d' x <-> pinned d x
}.

Lemma disk_block_eq d d' : disk d' = disk d -> forall bn, disk_block d' bn = disk_block d bn.
Proof. intros E bn. unfold disk_block. by rewrite E. Qed.

Section Bread.
Context {Ops : BlockOps} {Dev : BlockDev} (c me : nat) (d : data) (H : list nat) (D : list Z) (bn : Z).
Hypothesis Hc : cache d me H D.
Hypothesis Hbn : 0 <= bn < disksize d.
Hypothesis HnH : forall b, b ∈ H -> ~ has d bn b.

Lemma opened_hit b :
  (b < NBUF)%nat -> has d bn b -> b ∉ H ->
  opened d (take_sl me b (upd_buf b refd d)) me b bn H D.
Proof.
  intros Hb Hh HH. pose proof (cache_len _ _ _ _ Hc) as Hlen.
  set (d' := take_sl me b (upd_buf b refd d)).
  assert (forall j, bufs d' j = if decide (j = b) then refd (bufs d j) else bufs d j) as Eb.
  { intros j. apply (bufs_upd d b refd j). lia. }
  assert (bufs d' b = refd (bufs d b)) as Ebb by (by rewrite Eb, decide_True).
  assert (same_rest d d') as Hr by (etrans; [apply sr_upd_buf|apply sr_upd_sl]).
  assert (forall j, (j < NBUF)%nat -> j <> b ->
    same_buf (bufs d j) (bufs d' j) /\ sl d' (SBuf j) = sl d (SBuf j)) as Ho.
  { intros j _ Hj. rewrite Eb, decide_False by done. split; [apply same_buf_refl|].
    unfold d', take_sl. rewrite sl_upd_other by congruence. done. }
  assert (has d' bn b) as Hh' by (unfold has; by rewrite Ebb).
  assert (holds d' me b) as Hho.
  { destruct Hh. unfold d'. split; try done.
    - rewrite <- Hlen. unfold take_sl, upd_sl, upd_buf. getset. apply length_alter.
    - unfold take_sl. by rewrite sl_upd_same.
    - unfold take_sl. by rewrite sl_upd_same.
    - fold d'. by rewrite Ebb.
    - fold d'. rewrite Ebb. by replace (b_blockno (refd (bufs d b))) with bn. }
  assert (cache d' me (b :: H) D) as Hc'.
  { destruct (ca_ring _ _ _ _ Hc) as [l Hl].
    apply (cache_step d d' me b H (b :: H) D D); try done.
    - exists l. unfold d', take_sl, upd_sl. getset. by apply (ring_upd_buf d b refd).
    - apply Hc.
    - rewrite Ebb. by apply (ca_flags _ _ _ _ Hc).
    - rewrite Ebb. intros Hd. split; [by apply (ca_dev _ _ _ _ Hc)|by apply (ca_data _ _ _ _ Hc)].
    - intros j x Hj Hjb Hx. unfold has. rewrite Ebb. intros Hy. apply Hjb.
      by apply (ca_uniq _ _ _ _ Hc j b x).
    - constructor; [done|apply Hc].
    - intros j Hj. rewrite elem_of_cons. tauto.
    - by rewrite Ebb.
    - intros Hx. destruct Hx. left.
    - rewrite Ebb. intros Hf. by apply (ca_dirty _ _ _ _ Hc). }
  split; try done.
  - rewrite Ebb. symmetry. by eapply view_has.
  - eapply view_same; [done|done| | |done].
    + intros j x _. unfold has. rewrite Eb. by case_decide.
    + intros j _. rewrite Eb. by case_decide.
  - intros j Hj. rewrite Eb, decide_False; [done|]. by intros ->.
  - apply pinned_same. intros j _ _. rewrite Eb. by case_decide.
Qed.

(** A recycled buffer, with the block loaded *)
Section Miss.
Context (b : nat).
Hypothesis Hb : (b < NBUF)%nat.
Hypothesis Hno : forall j, (j < NBUF)%nat -> ~ has d bn j.
Hypothesis Hvic : victim d b.

Let d1 : data := take_sl me b (upd_buf b (recycled bn) d).
Let d' : data := upd_buf b (loaded (disk_block d bn)) d1.

Lemma miss_free : b ∉ H.
Proof.
  intros Hx. destruct (ca_held _ _ _ _ Hc b Hx) as [_ Hr]. destruct Hvic as [Hr' _]. congruence.
Qed.

Lemma miss_bufs1 j : bufs d1 j = if decide (j = b) then recycled bn (bufs d j) else bufs d j.
Proof. apply (bufs_upd d b (recycled bn) j). rewrite (cache_len _ _ _ _ Hc). lia. Qed.

Lemma miss_bufs j :
  bufs d' j = if decide (j = b) then loaded (disk_block d bn) (recycled bn (bufs d j))
              else bufs d j.
Proof.
  unfold d'. rewrite bufs_upd; cycle 1.
  { unfold d1, take_sl, upd_sl, upd_buf. getset. rewrite length_alter, (cache_len _ _ _ _ Hc). lia. }
  rewrite miss_bufs1. by case_decide.
Qed.

Lemma miss_buf : bufs d' b = loaded (disk_block d bn) (recycled bn (bufs d b)).
Proof. by rewrite miss_bufs, decide_True. Qed.

Lemma miss_holds1 : holds d1 me b.
Proof.
  assert (bufs d1 b = recycled bn (bufs d b)) as E by (by rewrite miss_bufs1, decide_True).
  split; rewrite ?E; try done.
  - unfold d1, take_sl, upd_sl, upd_buf. getset. by rewrite length_alter, (cache_len _ _ _ _ Hc).
  - unfold d1, take_sl. by rewrite sl_upd_same.
  - unfold d1, take_sl. by rewrite sl_upd_same.
Qed.

Lemma miss_rest : same_rest d d'.
Proof. etrans; [apply sr_upd_buf|]. etrans; [apply sr_upd_sl|apply sr_upd_buf]. Qed.

Lemma miss_cache : cache d' me (b :: H) D.
Proof.
  pose proof miss_rest as Hrest. pose proof miss_buf as Ebb. pose proof miss_free as HbH. destruct (ca_ring _ _ _ _ Hc) as [l Hl].
  apply (cache_step d d' me b H (b :: H) D D); try done.
  - exists l. apply ring_upd_buf; [done|]. unfold d1, take_sl, upd_sl. getset. by apply ring_upd_buf.
  - intros j _ Hj. rewrite miss_bufs, decide_False by done. split; [apply same_buf_refl|].
    unfold d', d1, take_sl. change (sl (upd_buf b _ ?x) ?y) with (sl x y).
    rewrite sl_upd_other by congruence. done.
  - apply Hc.
  - rewrite Ebb. right. by left.
  - rewrite Ebb. intros _. split; [done|]. apply Hc.
  - intros j x Hj Hjb Hx. unfold has. rewrite Ebb. intros [_ Hy]. unfold loaded, recycled in Hy.
    getset_in Hy. subst x. by apply (Hno j Hj).
  - constructor; [done|apply Hc].
  - intros j Hj. rewrite elem_of_cons. tauto.
  - intros _. rewrite Ebb. split; [|done]. destruct miss_holds1 as [? Hl1 ? ? ? ?].
    split; rewrite ?Ebb; try done. unfold d', upd_buf. getset. by rewrite length_alter.
  - intros Hx. destruct Hx. left.
  - by rewrite Ebb.
Qed.

Lemma miss_view x : view d' x = view d x.
Proof.
  pose proof miss_cache as Hc'. pose proof miss_free as HbH.
  destruct (decide (x = bn)) as [->|Hx].
  - rewrite (view_has d' me (b :: H) D b bn Hc' Hb), (view_none d bn Hno).
    + by rewrite miss_buf.
    + unfold has. by rewrite miss_buf.
  - assert (forall j, has d' x j -> j <> b /\ has d x j) as Hhas.
    { intros j Hj. unfold has in Hj. rewrite miss_bufs in Hj. case_decide; [|done].
      destruct Hj as [_ Hj]. unfold loaded, recycled in Hj. getset_in Hj. congruence. }
    destruct (has_or_not d' x) as [(j & Hj & Hh)|Hn].
    + destruct (Hhas j Hh) as [Hjb Hh'].
      rewrite (view_has d' me _ D j x Hc' Hj Hh), (view_has d me H D j x Hc Hj Hh').
      by rewrite miss_bufs, decide_False.
    + rewrite (view_none d' x Hn). destruct (has_or_not d x) as [(j & Hj & Hh)|Hn']; cycle 1.
      { by rewrite (view_none d x Hn'). }
      rewrite (view_has d me H D j x Hc Hj Hh).
      assert (j = b) as ->.
      { destruct (decide (j = b)); [done|]. destruct (Hn j Hj). unfold has.
        by rewrite miss_bufs, decide_False. }
      destruct Hh as [Hd <-]. destruct Hvic as [_ Hf]. symmetry.
      apply (ca_coherent _ _ _ _ Hc b); try done.
      destruct (ca_flags _ _ _ _ Hc b Hb) as [E|[E|E]]; try done.
      by apply (ca_dev _ _ _ _ Hc b Hb) in Hd.
Qed.

Lemma opened_miss : opened d d' me b bn H D.
Proof.
  pose proof miss_rest as Hrest. pose proof miss_free as HbH. split; try done.
  - apply miss_cache.
  - unfold has. by rewrite miss_buf.
  - rewrite miss_buf. by rewrite (view_none d bn Hno).
  - apply miss_view.
  - intros j Hj. rewrite miss_bufs, decide_False; [done|]. by intros ->.
  - apply pinned_same. intros j _ Hf. rewrite miss_bufs in *. case_decide; [subst|done].
    destruct Hvic as [_ Hv]. by destruct Hf.
Qed.
End Miss.

(** [bread] returns a buffer with what the disk holds, or what a committed or
    pending write has put into the cache. *)
Lemma runs_bread :
  (exists j, (j < NBUF)%nat /\ has d bn j) \/ (length H + length D < NBUF)%nat ->
  exists b d', runs c (Some me) [] (bread 1 bn) d b d' [] /\ opened d d' me b bn H D.
Proof.
  intros Hroom. unfold bread. destruct (has_or_not d bn) as [(b & Hb & Hh)|Hno].
  - assert (b ∉ H) as HbH by (intros Hx; by apply (HnH b)).
    exists b, (take_sl me b (upd_buf b refd d)).
    pose proof (opened_hit b Hb Hh HbH) as Hop. split; [|done].
    eapply runs_bind; [by apply (runs_bget_hit c me d H D bn Hc)|]. rstep.
    assert (Z.land (b_flags (bufs (take_sl me b (upd_buf b refd d)) b)) B_VALID =? 0 = false) as ->.
    { pose proof (op_cache _ _ _ _ _ _ _ Hop) as Hc'. destruct (op_has _ _ _ _ _ _ _ Hop) as [Hd _].
      apply (ca_dev _ _ _ _ Hc' b Hb) in Hd.
      destruct (ca_flags _ _ _ _ Hc' b Hb) as [E|[E|E]]; rewrite E in *; done. }
    rstep. rlast.
  - destruct Hroom as [(j & Hj & Hx)|Hroom]; [by destruct (Hno j Hj)|].
    destruct (cache_room _ _ _ _ Hc Hroom) as (v & Hv & Hvic).
    destruct (runs_bget_miss c me d H D bn Hc v Hno Hv Hvic) as (b & Hb & Hbv & Hrun).
    exists b. eexists. split; [|by apply (opened_miss b)].
    eapply runs_bind; [exact Hrun|]. rstep.
    assert (bufs (take_sl me b (upd_buf b (recycled bn) d)) b = recycled bn (bufs d b)) as E.
    { by rewrite miss_bufs1, decide_True. }
    rewrite E. change (Z.land (b_flags (recycled bn (bufs d b))) B_VALID =? 0) with true.
    eapply runs_bind; [|rlast]. cbn [when]. eapply runs_eq.
    + apply iderw_read; [by apply miss_holds1|by rewrite E].
    + by rewrite E.
Qed.
End Bread.

(** ** Changing, writing and releasing a held buffer *)

(** [bwrite]: the disk gets the contents of the buffer. *)
Definition write_out (b : nat) (d : data) : data :=
  disk_write (b_blockno (bufs d b)) (b_data (bufs d b)) (upd_buf b cleaned d).

Section Held.
Context {Ops : BlockOps} {Dev : BlockDev} (d : data) (me b : nat) (H : list nat) (D : list Z).
Hypothesis Hc : cache d me H D.
Hypothesis Hin : b ∈ H.
Let bn : Z := b_blockno (bufs d b).

Lemma held_facts :
  holds d me b /\ (b < NBUF)%nat /\ (b < length (bcache d))%nat /\ b_refcnt (bufs d b) = 1 /\
  has d bn b /\ (b_flags (bufs d b) = B_VALID \/ b_flags (bufs d b) = DIRTY).
Proof.
  destruct (ca_held _ _ _ _ Hc b Hin) as [Hh Hr]. pose proof (ho_lt _ _ _ Hh).
  rewrite (cache_len _ _ _ _ Hc). split_and!; [done|done|lia|done|split; [apply Hh|done]|].
  pose proof (ca_dev _ _ _ _ Hc b (ho_lt _ _ _ Hh) (ho_dev _ _ _ Hh)).
  destruct (ca_flags _ _ _ _ Hc b) as [?|[?|?]]; auto. done.
Qed.

(** A change of the contents or the flags *)
Lemma held_update f D' :
  keeps_links f ->
  (forall x, b_dev (f x) = b_dev x /\ b_blockno (f x) = b_blockno x /\ b_refcnt (f x) = b_refcnt x) ->
  (b_flags (f (bufs d b)) = B_VALID \/ b_flags (f (bufs d b)) = DIRTY /\ bn ∈ D') ->
  length (b_data (f (bufs d b))) = 512%nat ->
  (forall x, x ∈ D -> x <> bn -> x ∈ D') ->
  cache (upd_buf b f d) me H D'.
Proof.
  intros Hk Hf Hfl Hlen HD. destruct held_facts as (Hh & Hlt & Hlt' & Hr & Hhas & _).
  pose proof (bufs_upd d b f b Hlt') as Eb. rewrite decide_True in Eb by done.
  destruct (Hf (bufs d b)) as (Ed & En & Er). destruct (ca_ring _ _ _ _ Hc) as [l Hl].
  assert (forall x, has (upd_buf b f d) x b <-> has d x b) as Hhb.
  { intros x. unfold has. by rewrite Eb, Ed, En. }
  apply (cache_step d (upd_buf b f d) me b H H D D'); try done.
  - exists l. by apply ring_upd_buf.
  - intros j _ Hj. rewrite bufs_upd, decide_False by done. split; [apply same_buf_refl|done].
  - apply Hc.
  - rewrite Eb. destruct Hfl as [-> | [-> _]]; unfold flags_ok; auto.
  - rewrite Eb. intros _. split; [|done]. by destruct Hfl as [-> | [-> _]].
  - intros j x Hj Hjb Hx Hy. apply Hhb in Hy. apply Hjb. by apply (ca_uniq _ _ _ _ Hc j b x).
  - apply Hc.
  - intros _. rewrite Eb, Er. split; [|done]. destruct Hh. split; rewrite ?Eb, ?Ed, ?En; try done.
    unfold upd_buf. getset. by rewrite length_alter.
  - intros j Hj Hjb Hfd Hx. apply HD; [done|]. intros E. apply Hjb.
    destruct (ca_dirty _ _ _ _ Hc j Hj Hfd) as [Hd _].
    apply (ca_uniq _ _ _ _ Hc j b bn); try done.
  - rewrite Eb, Ed, En. intros Hx. split; [apply Hhas|].
    destruct Hfl as [E|[_ ?]]; [rewrite E in Hx; done|done].
Qed.

Lemma view_update f D' x :
  cache (upd_buf b f d) me H D' ->
  (forall x, b_dev (f x) = b_dev x /\ b_blockno (f x) = b_blockno x) ->
  view (upd_buf b f d) x = if decide (x = bn) then b_data (f (bufs d b)) else view d x.
Proof.
  intros Hc' Hf. destruct held_facts as (Hh & Hlt & Hlt' & Hr & Hhas & _).
  destruct (Hf (bufs d b)) as (Ed & En).
  assert (forall j y, (j < NBUF)%nat -> has (upd_buf b f d) y j <-> has d y j) as Hhj.
  { intros j y _. unfold has. rewrite bufs_upd by done. case_decide; [subst|done].
    by rewrite Ed, En. }
  case_decide as E.
  - subst x. rewrite (view_has (upd_buf b f d) me H D' b bn); [|done|done|by apply Hhj].
    by rewrite bufs_upd, decide_True.
  - destruct (has_or_not d x) as [(j & Hj & Hx)|Hx].
    + assert (j <> b) as Hjb by (intros ->; apply E; by destruct Hx as [_ <-]).
      rewrite (view_has d me H D j x), (view_has (upd_buf b f d) me H D' j x); try done.
      * by rewrite bufs_upd, decide_False.
      * by apply Hhj.
    + rewrite (view_none d x Hx). rewrite view_none; [done|]. intros j Hj Hy.
      by apply (Hx j Hj), Hhj.
Qed.

(** Filling the buffer with new contents *)
Lemma held_store bl :
  length bl = 512%nat ->
  cache (upd_buf b (fun x => x <|b_data := bl|>) d) me H D /\
  forall x, view (upd_buf b (fun x => x <|b_data := bl|>) d) x = if decide (x = bn) then bl else view d x.
Proof.
  intros Hlen. destruct held_facts as (Hh & Hlt & Hlt' & Hr & Hhas & Hfl).
  assert (cache (upd_buf b (fun x => x <|b_data := bl|>) d) me H D) as Hc'.
  { apply held_update; try done. destruct Hfl as [Hfl|Hfl]; [by left|right]. split; [done|].
    by apply (ca_dirty _ _ _ _ Hc b). }
  split; [done|]. intros x. by rewrite (view_update _ D).
Qed.

Lemma runs_bwrite c : runs c (Some me) [] (bwrite b) d tt (write_out b d) [].
Proof.
  destruct held_facts as (Hh & Hlt & Hlt' & Hr & Hhas & Hfl). unfold bwrite.
  eapply runs_bind; [by apply runs_holding_yes|]. cbn [negb]. rstep.
  set (d1 := upd_buf b _ d).
  assert (bufs d1 b = (bufs d b) <|b_flags := DIRTY|>) as E.
  { unfold d1. rewrite bufs_upd, decide_True by done. destruct (bufs d b) as [fl ? ? ? ? ? ? ?] eqn:E.
    unfold upd. cbn in *. by destruct Hfl as [-> | ->]. }
  eapply runs_eq; [apply iderw_write|]; rewrite ?E; try done.
  - destruct Hh. split; rewrite ?E; try done. unfold d1, upd_buf. getset. by rewrite length_alter.
  - unfold write_out. getset. f_equal. unfold d1. rewrite upd_buf_compose. done.
Qed.

Lemma disk_block_write d0 x bl y :
  disk_block (disk_write x bl d0) y = if decide (y = x) then bl else disk_block d0 y.
Proof.
  unfold disk_block, disk_write. getset. case_decide as E.
  - subst. by rewrite lookup_insert_eq.
  - by rewrite lookup_insert_ne.
Qed.

Lemma held_write :
  cache (write_out b d) me H (filter (fun x => x <> bn) D) /\
  (forall x, view (write_out b d) x = view d x).
Proof.
  destruct held_facts as (Hh & Hlt & Hlt' & Hr & Hhas & Hfl).
  assert (cache (upd_buf b cleaned d) me H (filter (fun x => x <> bn) D)) as Hc1.
  { apply held_update; try done.
    - by left.
    - apply (ca_data _ _ _ _ Hc); [done|apply Hh].
    - intros x Hx Hne. by apply list_elem_of_filter. }
  set (D' := filter (fun x => x <> bn) D) in *. set (d1 := upd_buf b cleaned d) in *.
  assert (forall y, disk_block (write_out b d) y
    = if decide (y = bn) then b_data (bufs d b) else disk_block d1 y) as Edb.
  { intros y. apply disk_block_write. }
  assert (cache (write_out b d) me H D') as Hc'.
  { destruct Hc1 as [R1 R2 R3 R4 R5 R6 R7 R8 R9 R10 R11]. split; try done.
    - intros j Hj. destruct (R6 j Hj) as [[? ? ? ? ? ?] ?]. split; [|done]. by split.
    - intros j Hj HjH Hd Hf. change (bufs (write_out b d) j) with (bufs d1 j) in *. rewrite Edb.
      rewrite decide_False; [by apply R8|]. intros E. apply HjH.
      assert (j = b) as ->; [|done]. apply (R2 j b bn); [done|done|by split|].
      unfold has, d1. by rewrite bufs_upd, decide_True.
    - intros y. rewrite Edb. case_decide; [|apply R10]. apply Hc; [done|apply Hh]. }
  split; [done|]. intros x.
  eapply view_same; [exact Hc|exact Hc'| | |].
  - intros j y _. change (has (write_out b d) y j) with (has d1 y j).
    unfold has, d1. rewrite bufs_upd by done. by case_decide.
  - intros j _. change (bufs (write_out b d) j) with (bufs d1 j). unfold d1.
    rewrite bufs_upd by done. by case_decide.
  - intros y Hy. rewrite Edb, decide_False; [done|]. intros ->. by apply (Hy b).
Qed.
End Held.

Lemma cache_perm d me H H' D : H ≡ₚ H' -> cache d me H D -> cache d me H' D.
Proof.
  intros HP [R1 R2 R3 R4 R5 R6 R7 R8 R9 R10 R11]. split; try done.
  - intros j Hj. apply R6. by rewrite HP.
  - intros j Hj Hn. apply R7; [done|]. by rewrite HP.
  - intros j Hj Hn. apply R8; [done|]. by rewrite HP.
  - by rewrite <- HP.
Qed.

Lemma cache_weaken d me H D D' : (forall x, x ∈ D -> x ∈ D') -> cache d me H D -> cache d me H D'.
Proof.
  intros HD [R1 R2 R3 R4 R5 R6 R7 R8 R9 R10 R11]. split; try done.
  intros j Hj Hf. destruct (R9 j Hj Hf). split; [done|]. by apply HD.
Qed.

Lemma cache_shrink d me H D D' :
  (forall x, pinned d x -> x ∈ D') -> cache d me H D -> cache d me H D'.
Proof.
  intros HD [R1 R2 R3 R4 R5 R6 R7 R8 R9 R10 R11]. split; try done.
  intros j Hj Hf. destruct (R9 j Hj Hf). split; [done|]. apply HD. by exists j.
Qed.

(** ** Releasing *)

Definition unrefd (x : buf) : buf := x <|b_refcnt := 0|>.
Definition released (b : nat) (d : data) : data :=
  (upd_buf b unrefd (wakeup_data (CSleep (SBuf b)) (upd_sl (SBuf b) unlock_sl d)))
    <|bcache ::= move_front b|>.

Lemma runs_brelse `{BlockOps} c me d b Hs D :
  cache d me Hs D -> b ∈ Hs -> runs c (Some me) [] (brelse b) d tt (released b d) [].
Proof.
  intros Hc Hin. destruct (ca_held _ _ _ _ Hc b Hin) as [Hh Hr].
  pose proof (cache_len _ _ _ _ Hc) as Hlen. pose proof (ho_lt _ _ _ Hh).
  unfold brelse. eapply runs_bind; [by apply runs_holding_yes|]. cbn [negb].
  rstep. rstep. rstep. rstep.
  set (d1 := wakeup_data _ _).
  assert (bufs d1 b = bufs d b) as E1 by done.
  assert (length (bcache d1) = length (bcache d)) as E2 by done.
  rewrite bufs_upd, decide_True by (done || lia). rewrite E1.
  destruct (bufs d b) as [fl dv bno rc p n q da] eqn:Eb. simpl in Hr. subst rc. getset.
  change (u32 (1 - 1) =? 0) with true.
  eapply runs_bind; [apply runs_when_true, runs_setd|].
  eapply runs_eq; [rlast|]. unfold released. fold d1. f_equal. apply upd_buf_ext.
  intros x ->. by rewrite E1.
Qed.

Record closed (d d' : data) : Prop := {
  cl_view : forall x, view d' x = view d x;
  cl_rest : same_rest d d';
  cl_disk : disk d' = disk d;
  cl_trace : dtrace d' = dtrace d;
  cl_bufs : forall j, (j < NBUF)%nat ->
    b_flags (bufs d' j) = b_flags (bufs d j) /\ b_dev (bufs d' j) = b_dev (bufs d j) /\
    b_blockno (bufs d' j) = b_blockno (bufs d j) /\ b_data (bufs d' j) = b_data (bufs d j)
}.

Lemma released_bufs d b j :
  length (bcache d) = Datatypes.S NBUF -> (b < NBUF)%nat ->
  same_buf (if decide (j = b) then unrefd (bufs d j) else bufs d j) (bufs (released b d) j).
Proof.
  intros Hlen Hb. unfold released. set (d1 := wakeup_data _ _).
  pose proof (bufs_upd d1 b unrefd j) as E. change (bufs d1 j) with (bufs d j) in E.
  rewrite <- E by (change (bcache d1) with (bcache d); lia).
  apply relinked_same, move_front_relinked.
Qed.

Lemma cache_released d me b H D :
  cache d me (b :: H) D ->
  (b_flags (bufs d b) = B_VALID -> b_data (bufs d b) = disk_block d (b_blockno (bufs d b))) ->
  cache (released b d) me H D /\ closed d (released b d).
Proof.
  intros Hc Hcoh. destruct (held_facts d me b (b :: H) D Hc) as (Hh & Hlt & _ & _ & Hhas & Hfl);
    [left|]. pose proof (cache_len _ _ _ _ Hc) as Hlen.
  pose proof (fun j => released_bufs d b j Hlen Hlt) as Eb. set (d' := released b d) in *.
  pose proof (ca_nodup _ _ _ _ Hc) as [HbH Hnd]%NoDup_cons.
  assert (same_rest d d') as Hr.
  { etrans; [apply (sr_upd_sl d b unlock_sl)|]. etrans; [apply sr_wakeup|].
    etrans; [apply sr_upd_buf|apply sr_bcache]. }
  pose proof (Eb b) as Ebb. rewrite decide_True in Ebb by done.
  destruct Ebb as (E1 & E2 & E3 & E4 & E5).
  assert (cache d' me H D) as Hc'.
  { destruct (ca_ring _ _ _ _ Hc) as [l Hl].
    destruct (list_elem_of_split l b) as (l1 & l2 & ->); [by apply (ring_lt _ _ _ Hl)|].
    apply (cache_step d d' me b (b :: H) H D D); try done.
    - exists (b :: l1 ++ l2). apply move_front_ring. by apply (ring_upd_buf d b unrefd).
    - intros j _ Hj. specialize (Eb j). rewrite decide_False in Eb by done. split; [done|].
      change (sl d' (SBuf j)) with (sl (upd_sl (SBuf b) unlock_sl d) (SBuf j)).
      rewrite sl_upd_other; [done|congruence].
    - apply Hc.
    - rewrite E1. by apply Hc.
    - rewrite E1, E2, E5. intros Hd. split; [by apply Hc|by apply Hc].
    - intros j x Hj Hjb Hx. unfold has. rewrite E2, E3. intros Hy. apply Hjb.
      by apply (ca_uniq _ _ _ _ Hc j b x).
    - intros j Hj. rewrite elem_of_cons. tauto.
    - intros _. rewrite E1, E2, E3, E4, E5. split; [done|]. split; [|intros _; apply Hcoh].
      change (sl d' (SBuf b)) with (sl (upd_sl (SBuf b) unlock_sl d) (SBuf b)).
      by rewrite sl_upd_same.
    - rewrite E1, E2, E3. apply (ca_dirty _ _ _ _ Hc b Hlt). }
  split; [done|]. assert (forall j, (j < NBUF)%nat ->
    b_flags (bufs d' j) = b_flags (bufs d j) /\ b_dev (bufs d' j) = b_dev (bufs d j) /\
    b_blockno (bufs d' j) = b_blockno (bufs d j) /\ b_data (bufs d' j) = b_data (bufs d j)) as Hsame.
  { intros j _. specialize (Eb j) as (F1 & F2 & F3 & _ & F5).
    rewrite F1, F2, F3, F5. by case_decide. }
  split; try done. eapply view_same; [exact Hc|exact Hc'| | |done].
  - intros j x Hj. destruct (Hsame j Hj) as (_ & F2 & F3 & _). unfold has. by rewrite F2, F3.
  - intros j Hj. by destruct (Hsame j Hj) as (_ & _ & _ & F).
Qed.

(** ** [binit] *)

(** A node pushed in front *)
Lemma dll_push nx pv nx' pv' h b l :
  dll nx pv h (l ++ [h]) -> b ∉ h :: l -> NoDup (h :: l) ->
  nx' h = b -> nx' b = nx h -> pv' (nx h) = b -> pv' b = h ->
  (forall z, z ∈ l -> nx' z = nx z) -> (forall z, z ∈ h :: l -> z <> nx h -> pv' z = pv z) ->
  dll nx' pv' h (b :: l ++ [h]).
Proof.
  intros Hd Hb Hnd E1 E2 E3 E4 Hn Hp. split_and!; [done|done|].
  destruct l as [|a l]; simpl in *.
  - destruct Hd as [E _]. rewrite E in *. done.
  - destruct Hd as (E & _ & Hd). rewrite E in *. split_and!; [done|done|].
    apply NoDup_cons in Hnd as [Hh Hnd]. apply NoDup_cons in Hnd as [Ha Hnd].
    eapply dll_ext; [exact Hn| |exact Hd].
    intros z [Hz| ->%list_elem_of_singleton]%elem_of_app.
    + apply Hp; [by right; right|]. by intros ->.
    + apply Hp; [by left|]. intros ->. apply Hh. left.
Qed.

(** One buffer pushed onto the ring, as [binit] does it *)
Definition push_front (k a : nat) (bc : list buf) : list buf :=
  alter (fun h => h <|b_next := k|>) NBUF
    (alter (fun x => x <|b_prev := k|>) a
      (alter (fun x => x <|b_prev := NBUF|>) k (alter (fun x => x <|b_next := a|>) k bc))).

Section Push.
Context (k : nat) (bc : list buf).
Hypothesis Hk : (k < NBUF)%nat.
Hypothesis Hlen : length bc = Datatypes.S NBUF.

Lemma length_push a : length (push_front k a bc) = Datatypes.S NBUF.
Proof. unfold push_front. by rewrite !length_alter. Qed.

Lemma push_relinked a j : relinked (bc !!! j) (push_front k a bc !!! j).
Proof.
  unfold push_front.
  repeat (apply relinked_alter; [intros x; first [apply relinked_prev|apply relinked_next]|]).
  apply relinked_refl.
Qed.

Lemma push_nx a z :
  (a <= NBUF)%nat -> a <> k -> nx_of (push_front k a bc) z =
  if decide (z = NBUF) then k else if decide (z = k) then a else nx_of bc z.
Proof.
  intros Ha Hak. unfold nx_of, push_front.
  rewrite !bc_alter by (rewrite ?length_alter, Hlen; lia). repeat case_decide; subst; done || lia.
Qed.
Lemma push_pv a z :
  (a <= NBUF)%nat -> a <> k -> pv_of (push_front k a bc) z =
  if decide (z = a) then k else if decide (z = k) then NBUF else pv_of bc z.
Proof.
  intros Ha Hak. unfold pv_of, push_front.
  rewrite !bc_alter by (rewrite ?length_alter, Hlen; lia). repeat case_decide; subst; done || lia.
Qed.

Lemma push_dll :
  dll (nx_of bc) (pv_of bc) NBUF (reverse (seq 0 k) ++ [NBUF]) ->
  let bc' := push_front k (nx_of bc NBUF) bc in
  (nx_of bc NBUF <= NBUF)%nat /\ nx_of bc NBUF <> k /\
  dll (nx_of bc') (pv_of bc') NBUF (reverse (seq 0 (Datatypes.S k)) ++ [NBUF]).
Proof.
  intros Hd bc'. assert (forall z, z ∈ reverse (seq 0 k) -> (z < k)%nat) as Hin.
  { intros z. rewrite elem_of_reverse, elem_of_seq. lia. }
  assert ((nx_of bc NBUF <= NBUF)%nat /\ nx_of bc NBUF <> k) as [Ha Hak].
  { destruct (reverse (seq 0 k)) as [|a l]; destruct Hd as [-> _]; [lia|].
    specialize (Hin a (list_elem_of_here a l)). lia. }
  split; [done|]. split; [done|]. rewrite seq_S, reverse_app. simpl.
  apply (dll_push (nx_of bc) (pv_of bc)); try done; subst bc'.
  - rewrite elem_of_cons. intros [E|E%Hin]; lia.
  - apply NoDup_cons. split; [intros E%Hin; lia|]. rewrite reverse_Permutation. apply NoDup_seq.
  - rewrite push_nx by done. by rewrite decide_True.
  - rewrite push_nx by done. rewrite decide_False, decide_True; [done|done|lia].
  - rewrite push_pv by done. by rewrite decide_True.
  - rewrite push_pv by done. rewrite decide_False, decide_True; [done|done|lia].
  - intros z Hz%Hin. rewrite push_nx by done. rewrite !decide_False; [done|lia|lia].
  - intros z Hz Hza. rewrite push_pv by done. rewrite !decide_False; [done| |done].
    apply elem_of_cons in Hz as [->|Hz%Hin]; lia.
Qed.
End Push.

Section Binit.
Context (me : option nat) (c : nat) (d : data).
Hypothesis Hlen : length (bcache d) = Datatypes.S NBUF.

(** The loop after [k] buffers *)
Record linked (k : nat) (d' : data) : Prop := {
  li_len : length (bcache d') = Datatypes.S NBUF;
  li_dll : dll (nx_of (bcache d')) (pv_of (bcache d')) NBUF (reverse (seq 0 k) ++ [NBUF]);
  li_bufs : forall i, same_buf (bufs d i) (bufs d' i);
  li_sl : forall i, (i < k)%nat -> s_locked (sl d' (SBuf i)) = 0;
  li_rest : same_rest d d';
  li_disk : disk d' = disk d
}.

Lemma runs_initsleeplock L s nm d0 :
  LSleep s ∉ L -> exists lk, s_locked lk = 0 /\
  runs c me L (initsleeplock s nm) d0 tt (upd_sl s (fun _ => lk) d0) L.
Proof.
  intros Hs. exists (Sleeplock 0 nm 0). split; [done|]. unfold initsleeplock.
  eapply runs_bind; [by apply runs_initlock|]. eapply runs_bind; [apply runs_setd|].
  eapply runs_bind; [apply runs_setd|]. eapply runs_eq; [apply runs_setd|].
  rewrite !upd_sl_compose. unfold upd_sl. f_equal.
Qed.

Lemma same_buf_trans x y z : same_buf x y -> same_buf y z -> same_buf x z.
Proof.
  unfold same_buf. intros (? & ? & ? & ? & ?) (? & ? & ? & ? & ?). split_and!; congruence.
Qed.

Lemma linked_S k d' :
  (k < NBUF)%nat -> linked k d' ->
  exists d2, runs c me []
    (h <- get_buf NBUF;;
     set_buf k (fun x => x <|b_next := b_next h|>);;
     set_buf k (fun x => x <|b_prev := NBUF|>);;
     initsleeplock (SBuf k) "buffer";;
     set_buf (b_next h) (fun x => x <|b_prev := k|>);;
     set_buf NBUF (fun h => h <|b_next := k|>)) d' tt d2 [] /\ linked (Datatypes.S k) d2.
Proof.
  intros Hk [L1 L2 L3 L4 L5 L6].
  destruct (push_dll k (bcache d') Hk L1 L2) as (Ha & Hak & Hd).
  set (a := nx_of (bcache d') NBUF) in *.
  destruct (runs_initsleeplock [] (SBuf k) "buffer"
    (upd_buf k (fun x => x <|b_prev := NBUF|>) (upd_buf k (fun x => x <|b_next := a|>) d')))
    as (lk & E0 & Hr); [apply not_elem_of_nil|].
  exists ((upd_sl (SBuf k) (fun _ => lk) d') <|bcache ::= push_front k a|>). split.
  - rstep. change (b_next (bufs d' NBUF)) with a. rstep. rstep.
    eapply runs_bind; [exact Hr|]. rstep. eapply runs_eq; [rlast|]. done.
  - split; try done.
    + by apply length_push.
    + intros i. eapply same_buf_trans; [apply L3|]. apply relinked_same.
      apply (push_relinked k (bcache d') a i).
    + intros i Hi. change (s_locked (sl (upd_sl (SBuf k) (fun _ => lk) d') (SBuf i)) = 0).
      destruct (decide (i = k)) as [->|Hik]; [by rewrite sl_upd_same|].
      rewrite sl_upd_other by congruence. apply L4. lia.
    + etrans; [exact L5|]. etrans; [apply sr_upd_sl|apply sr_bcache].
Qed.

(** The two assignments to the head *)
Definition headed0 : data :=
  upd_buf NBUF (fun h => h <|b_next := NBUF|>) (upd_buf NBUF (fun h => h <|b_prev := NBUF|>) d).

Lemma linked_0 : linked 0 headed0.
Proof.
  assert (forall j, bufs headed0 j = if decide (j = NBUF)
    then (bufs d j) <|b_prev := NBUF|> <|b_next := NBUF|> else bufs d j) as E.
  { intros j. unfold headed0. rewrite !bufs_upd by (unfold upd_buf; getset; rewrite ?length_alter; lia).
    by case_decide. }
  split; try done.
  - unfold headed0, upd_buf. getset. by rewrite !length_alter.
  - change (b_next (bufs headed0 NBUF) = NBUF /\ b_prev (bufs headed0 NBUF) = NBUF /\ True).
    by rewrite E, decide_True.
  - intros i. rewrite E. by case_decide.
  - intros i Hi. lia.
Qed.

(** All the buffers are free and empty in the zeroed memory. *)
Hypothesis Hzero : forall i, (i < NBUF)%nat ->
  b_flags (bufs d i) = 0 /\ b_dev (bufs d i) = 0 /\ b_refcnt (bufs d i) = 0.
Hypothesis Hdisk : forall bn, length (disk_block d bn) = 512%nat.

Lemma linked_cache d' p : linked NBUF d' -> cache d' p [] [].
Proof.
  intros [L1 L2 L3 L4 L5 L6].
  assert (forall i, (i < NBUF)%nat ->
    b_flags (bufs d' i) = 0 /\ b_dev (bufs d' i) = 0 /\ b_refcnt (bufs d' i) = 0) as Hz.
  { intros i Hi. destruct (L3 i) as (-> & -> & _ & -> & _). by apply Hzero. }
  assert (forall i, (i < NBUF)%nat -> b_dev (bufs d' i) <> 1) as Hd.
  { intros i Hi. destruct (Hz i Hi) as (_ & -> & _). lia. }
  split; try done.
  - exists (reverse (seq 0 NBUF)). split; [done|apply reverse_Permutation|done].
  - intros i j bn Hi _ [E _]. by destruct (Hd i Hi).
  - intros i Hi. left. by apply Hz.
  - intros i Hi E. by destruct (Hd i Hi).
  - intros i Hi E. by destruct (Hd i Hi).
  - intros b Hb. by apply not_elem_of_nil in Hb.
  - intros b Hb _. split; [by apply Hz|by apply L4].
  - intros b Hb _ E. by destruct (Hd b Hb).
  - intros b Hb E. destruct (Hz b Hb) as (E' & _). rewrite E' in E. done.
  - intros bn. unfold disk_block. rewrite L6. apply Hdisk.
  - constructor.
Qed.

Lemma runs_binit `{BlockOps} :
  exists d', runs c me [] binit d tt d' [] /\
    ring (bcache d') (reverse (seq 0 NBUF)) /\ (forall p, cache d' p [] []) /\
    same_rest d d' /\ disk d' = disk d.
Proof.
  destruct (runs_iter_seq c me [] NBUF _ linked headed0 linked_0 (fun k d1 => linked_S k d1))
    as (d' & Hr & Hl).
  exists d'. split_and!.
  - unfold binit. eapply runs_bind; [apply runs_initlock, not_elem_of_nil|].
    eapply runs_bind; [apply runs_setd|]. eapply runs_bind; [apply runs_setd|]. exact Hr.
  - split; [apply Hl|apply reverse_Permutation|apply Hl].
  - intros p. by apply linked_cache.
  - apply Hl.
  - apply Hl.
Qed.
End Binit.
