(* ===== verification/Log.v ===== *)
(** * The write-ahead log (log.c)

    File-system calls bracket their writes with [begin_op]/[end_op]; the last
    one out commits: the modified blocks go to the log area, the header block
    with their numbers is the commit point, then they are installed and the
    header is cleared. *)

From S2P Require Import Prelude Params State CString Spinlock Sched Sleeplock Bio.

Definition set_log (f : logstate -> logstate) : K unit := setd (fun d => d <|log ::= f|>).

(** ** fs.c: readsb *)

Definition decode_sb (bl : block) : superblock :=
  Superblock (get32 bl 0) (get32 bl 4) (get32 bl 8) (get32 bl 12) (get32 bl 16)
    (get32 bl 20) (get32 bl 24).

Section Log.
Context `{BlockOps}.

Definition readsb (dev : Z) : K superblock :=
  b <- bread dev 1;;
  bf <- get_buf b;;
  brelse b;;
  ret (decode_sb (b_data bf)).

Definition install_trans : K unit :=
  lg <- getd log;;
  iter (seq 0 (Z.to_nat (lh_n lg))) (fun tail =>
    lg <- getd log;;
    lbuf <- bread (l_dev lg) (u32 (l_start lg + Z.of_nat tail + 1));;
    dbuf <- bread (l_dev lg) (u32 (lh_block lg !!! tail));;
    lb <- get_buf lbuf;;
    set_buf dbuf (fun x => x <|b_data := b_data lb|>);;
    bwrite dbuf;;
    brelse lbuf;;
    brelse dbuf).

(** The header block: a count, then that many block numbers. *)
Definition read_head : K unit :=
  lg <- getd log;;
  b <- bread (l_dev lg) (u32 (l_start lg));;
  bf <- get_buf b;;
  set_log (fun lg => lg <|lh_n := i32 (get32 (b_data bf) 0)|>);;
  iter (seq 0 (Z.to_nat (i32 (get32 (b_data bf) 0)))) (fun i =>
    if Nat.leb (Z.to_nat LOGSIZE) i then fault else
    set_log (fun lg => lg <|lh_block ::=
      <[i := i32 (get32 (b_data bf) (4 + 4 * Z.of_nat i))]>|>));;
  brelse b.

Definition head_block (lg : logstate) (bl : block) : block :=
  foldl (fun bl i => set32 bl (4 + 4 * Z.of_nat i) (lh_block lg !!! i))
    (set32 bl 0 (lh_n lg)) (seq 0 (Z.to_nat (lh_n lg))).

Definition write_head : K unit :=
  lg <- getd log;;
  b <- bread (l_dev lg) (u32 (l_start lg));;
  set_buf b (fun x => x <|b_data ::= head_block lg|>);;
  bwrite b;;
  brelse b.

Definition recover_from_log : K unit :=
  read_head;;
  install_trans;;
  set_log (fun lg => lg <|lh_n := 0|>);;
  write_head.

(** [sizeof(struct logheader)] is a word and [LOGSIZE] words. *)
Definition initlog (dev : Z) : K unit :=
  if BSIZE <=? 4 + 4 * LOGSIZE then panic "initlog: too big logheader" else
  initlock LLog "log";;
  sb <- readsb dev;;
  set_log (fun lg => lg <|l_start := i32 (sb_logstart sb)|>);;
  set_log (fun lg => lg <|l_size := i32 (sb_nlog sb)|>);;
  set_log (fun lg => lg <|l_dev := dev|>);;
  recover_from_log.

Definition begin_op_body (_ : unit) : K (unit + unit) :=
  lg <- getd log;;
  if negb (l_committing lg =? 0) then sleep CLog LLog;; ret (inl tt)
  else if LOGSIZE <? lh_n lg + (l_outstanding lg + 1) * MAXOPBLOCKS then
    sleep CLog LLog;; ret (inl tt)
  else
    set_log (fun lg => lg <|l_outstanding ::= fun n => n + 1|>);;
    release LLog;;
    ret (inr tt).

Definition begin_op : K unit :=
  acquire LLog;;
  retry begin_op_body.

Definition write_log : K unit :=
  lg <- getd log;;
  iter (seq 0 (Z.to_nat (lh_n lg))) (fun tail =>
    lg <- getd log;;
    to <- bread (l_dev lg) (u32 (l_start lg + Z.of_nat tail + 1));;
    from <- bread (l_dev lg) (u32 (lh_block lg !!! tail));;
    fb <- get_buf from;;
    set_buf to (fun x => x <|b_data := b_data fb|>);;
    bwrite to;;
    brelse from;;
    brelse to).

Definition commit : K unit :=
  lg <- getd log;;
  when (0 <? lh_n lg)
    (write_log;;
     write_head;;
     install_trans;;
     set_log (fun lg => lg <|lh_n := 0|>);;
     write_head).

Definition end_op : K unit :=
  acquire LLog;;
  set_log (fun lg => lg <|l_outstanding ::= fun n => n - 1|>);;
  lg <- getd log;;
  if negb (l_committing lg =? 0) then panic "log.committing" else
  do_commit <-
    (if l_outstanding lg =? 0 then
       set_log (fun lg => lg <|l_committing := 1|>);; ret true
     else wakeup CLog;; ret false);;
  release LLog;;
  when do_commit
    (commit;;
     acquire LLog;;
     set_log (fun lg => lg <|l_committing := 0|>);;
     wakeup CLog;;
     release LLog).

(** The slot [log_write] uses: that of the same block (log absorption), or
    the next free one. *)
Fixpoint log_slot (i : nat) (blocks : list Z) (bn : Z) : nat :=
  match blocks with
  | [] => i
  | b :: blocks => if u32 b =? bn then i else log_slot (S i) blocks bn
  end.

Definition log_write (b : nat) : K unit :=
  lg <- getd log;;
  if (LOGSIZE <=? lh_n lg) || (l_size lg - 1 <=? lh_n lg) then
    panic "too big a transaction" else
  if l_outstanding lg <? 1 then panic "log_write outside of trans" else
  acquire LLog;;
  lg <- getd log;; bf <- get_buf b;;
  let i := log_slot 0 (take (Z.to_nat (lh_n lg)) (lh_block lg)) (b_blockno bf) in
  set_log (fun lg => lg <|lh_block ::= <[i := i32 (b_blockno bf)]>|>);;
  when (Z.of_nat i =? lh_n lg) (set_log (fun lg => lg <|lh_n ::= fun n => n + 1|>));;
  set_buf b (fun x => x <|b_flags ::= fun f => Z.lor f B_DIRTY|>);;
  release LLog.
End Log.
