(* ===== verification/Commit.v ===== *)
(** * Transactions are atomic (log.c, continued)

    The commit of a transaction as a sequence of block writes, and recovery
    after a crash between any two of them. *)

From S2P Require Import Prelude Params State CString Spinlock Sched Sleeplock Bio Cache Log.

(** ** Sequences of block writes *)

Abbreviation writes := (list (Z * block)).

Definition apply_writes (ws : writes) (m : gmap Z block) : gmap Z block :=
  foldl (fun m w => <[w.1 := w.2]> m) m ws.

(** A function from block numbers to contents, overridden by the writes *)
Definition over (ws : writes) (f : Z -> block) : Z -> block :=
  foldl (fun f w x => if decide (x = w.1) then w.2 else f x) f ws.

Lemma over_app ws1 ws2 f : over (ws1 ++ ws2) f = over ws2 (over ws1 f).
Proof. apply foldl_app. Qed.

Lemma over_ext ws f g x : (forall y, f y = g y) -> over ws f x = over ws g x.
Proof.
  revert f g. induction ws as [|w ws IH]; intros f g E; simpl; [done|].
  apply IH. intros y. case_decide; auto.
Qed.

Lemma over_notin ws f x : x ∉ ws.*1 -> over ws f x = f x.
Proof.
  revert f. induction ws as [|w ws IH]; intros f Hx; simpl in *; [done|].
  apply not_elem_of_cons in Hx as [Hw Hx]. rewrite IH by done. by rewrite decide_False.
Qed.

Lemma over_last ws f x bl : over (ws ++ [(x, bl)]) f x = bl.
Proof. rewrite over_app. simpl. by rewrite decide_True. Qed.

(** Distinct targets: each keeps its write. *)
Lemma over_in ws f x bl : NoDup ws.*1 -> (x, bl) ∈ ws -> over ws f x = bl.
Proof.
  revert f. induction ws as [|w ws IH]; intros f Hnd Hin; [by apply not_elem_of_nil in Hin|].
  apply NoDup_cons in Hnd as [Hw Hnd]. simpl. apply elem_of_cons in Hin as [<-|Hin].
  - rewrite over_notin by done. simpl. by rewrite decide_True.
  - by apply IH.
Qed.

Lemma apply_over ws m x :
  default zero_block (apply_writes ws m !! x) = over ws (fun y => default zero_block (m !! y)) x.
Proof.
  revert m. induction ws as [|w ws IH]; intros m; [done|].
  change (apply_writes (w :: ws) m) with (apply_writes ws (<[w.1 := w.2]> m)).
  rewrite IH. apply (over_ext ws). intros y. case_decide.
  - subst. by rewrite lookup_insert_eq.
  - by rewrite lookup_insert_ne.
Qed.

(** ** What a part of the log code did to the disk and to the cache *)

Record wrote (d d' : data) (me : nat) (D : list Z) (ws : writes) : Prop := {
  wr_cache : cache d' me [] D;
  wr_rest : same_rest d d';
  wr_disk : disk d' = apply_writes ws (disk d);
  wr_trace : dtrace d' = dtrace d ++ ws;
  wr_view : forall x, view d' x = over ws (view d) x;
  wr_pinned : forall x, pinned d' x <-> pinned d x /\ x ∉ ws.*1
}.

Lemma wrote_refl d me D : cache d me [] D -> wrote d d me D [].
Proof.
  intros Hc. split; try done; [by rewrite app_nil_r|].
  intros x. simpl. split; [|tauto]. intros Hp. split; [done|]. apply not_elem_of_nil.
Qed.

Lemma wrote_trans d1 d2 d3 me D ws1 ws2 :
  wrote d1 d2 me D ws1 -> wrote d2 d3 me D ws2 -> wrote d1 d3 me D (ws1 ++ ws2).
Proof.
  intros [C1 R1 K1 T1 V1 P1] [C2 R2 K2 T2 V2 P2]. split; try done.
  - by etrans.
  - rewrite K2, K1. unfold apply_writes. by rewrite foldl_app.
  - by rewrite T2, T1, app_assoc.
  - intros x. rewrite V2, over_app. by apply over_ext.
  - intros x. rewrite fmap_app, not_elem_of_app, P2, P1. tauto.
Qed.

Lemma wrote_disk_block d d' me D ws x :
  wrote d d' me D ws -> disk_block d' x = over ws (disk_block d) x.
Proof. intros H. unfold disk_block. rewrite (wr_disk _ _ _ _ _ H). apply apply_over. Qed.

(** A clean block is on disk as it is in the cache. *)
Lemma view_unheld d me H D x :
  cache d me H D -> (forall j, j ∈ H -> b_blockno (bufs d j) <> x) -> x ∉ D -> view d x = disk_block d x.
Proof.
  intros Hc HH Hx. destruct (has_or_not d x) as [(b & Hb & Hh)|Hn]; [|by apply view_none].
  rewrite (view_has _ _ _ _ _ _ Hc Hb Hh). destruct Hh as [Hd <-].
  apply (ca_coherent _ _ _ _ Hc); [done|intros Hj; by apply (HH b)|done|].
  pose proof (ca_dev _ _ _ _ Hc b Hb Hd).
  destruct (ca_flags _ _ _ _ Hc b Hb) as [?|[?|Hf]]; [done|done|].
  by destruct (ca_dirty _ _ _ _ Hc b Hb Hf).
Qed.
Lemma view_clean d me D x : cache d me [] D -> x ∉ D -> view d x = disk_block d x.
Proof. intros Hc. apply (view_unheld d me [] D); [done|]. by intros j ?%not_elem_of_nil. Qed.

Lemma pinned_opened d d' me b bn H D x :
  opened d d' me b bn H D -> pinned d x -> pinned d' x.
Proof. intros Ho. apply (op_pinned _ _ _ _ _ _ _ Ho). Qed.

Lemma pinned_closed d d' x : closed d d' -> pinned d' x <-> pinned d x.
Proof.
  intros Hcl. apply pinned_same. intros j Hj _.
  by destruct (cl_bufs _ _ Hcl j Hj) as (-> & -> & -> & _).
Qed.

(** ** Writing one block through the cache *)

(** A held buffer gets new contents, goes to disk and is released. *)
Section Flush.
Context (d : data) (me b : nat) (H : list nat) (D : list Z) (bl : block) (bn : Z).
Hypothesis Hc : cache d me (b :: H) D.
Hypothesis Hbn : has d bn b.
Hypothesis Hlen : length bl = 512%nat.

Let d1 : data := upd_buf b (fun x => x <|b_data := bl|>) d.
Let d2 : data := write_out b d1.

Lemma flush_buf : bufs d1 b = (bufs d b) <|b_data := bl|>.
Proof.
  destruct (held_facts d me b (b :: H) D Hc) as (_ & _ & Hlt & _); [left|].
  unfold d1. by rewrite bufs_upd, decide_True.
Qed.

Lemma flush_write :
  disk d2 = <[bn := bl]> (disk d) /\ dtrace d2 = dtrace d ++ [(bn, bl)] /\ same_rest d d2.
Proof.
  unfold d2, write_out. rewrite flush_buf. getset. destruct Hbn as [_ ->].
  split_and!; [done|done|]. etrans; [apply sr_upd_buf|]. etrans; [apply sr_upd_buf|].
  apply sr_disk_write.
Qed.

Lemma flush_cache :
  cache d2 me (b :: H) D /\ (forall x, view d2 x = if decide (x = bn) then bl else view d x) /\
  has d2 bn b /\ b_flags (bufs d2 b) = B_VALID /\ b_data (bufs d2 b) = disk_block d2 bn /\
  (forall j, j <> b -> bufs d2 j = bufs d j).
Proof.
  assert (b ∈ b :: H) as Hin by left.
  destruct (held_store d me b (b :: H) D Hc Hin bl Hlen) as [Hc1 Hv1]. fold d1 in Hc1, Hv1.
  destruct (held_write d1 me b (b :: H) D Hc1 Hin) as [Hc2 Hv2]. fold d2 in Hc2, Hv2.
  destruct (held_facts d me b (b :: H) D Hc Hin) as (_ & _ & Hlt & _).
  destruct (held_facts d1 me b (b :: H) D Hc1 Hin) as (_ & _ & Hlt1 & _).
  assert (bufs d2 b = cleaned (bufs d1 b)) as Eb.
  { unfold d2, write_out. change (bufs (disk_write ?x ?y ?z) b) with (bufs z b).
    by rewrite bufs_upd, decide_True. }
  destruct Hbn as [Hd Hn].
  split_and!.
  - eapply cache_weaken; [|done]. intros x. rewrite list_elem_of_filter. tauto.
  - intros x. by rewrite Hv2, Hv1, Hn.
  - unfold has. by rewrite Eb, flush_buf.
  - by rewrite Eb.
  - rewrite Eb, flush_buf. unfold disk_block. destruct flush_write as (-> & _).
    by rewrite lookup_insert_eq.
  - intros j Hj. unfold d2, write_out. change (bufs (disk_write ?x ?y ?z) j) with (bufs z j).
    rewrite bufs_upd, decide_False by done. unfold d1. by rewrite bufs_upd, decide_False.
Qed.

Lemma flush_pinned x : pinned d2 x <-> pinned d x /\ x ∉ [(bn, bl)].*1.
Proof.
  destruct flush_cache as (_ & _ & _ & Hf & _ & Ho).
  destruct (held_facts d me b (b :: H) D Hc) as (_ & Hlt & _); [left|].
  simpl. rewrite list_elem_of_singleton. split.
  - intros (j & Hj & Hh & Hfj). assert (j <> b) as Hjb by (intros ->; rewrite Hf in Hfj; done).
    unfold has in Hh. rewrite Ho in Hh, Hfj by done. split; [by exists j|].
    intros ->. apply Hjb. by apply (ca_uniq _ _ _ _ Hc j b bn).
  - intros [(j & Hj & Hh & Hfj) Hx]. exists j. split; [done|]. unfold has in *.
    rewrite Ho; [done|]. intros ->. destruct Hbn, Hh. congruence.
Qed.

Lemma runs_flush {Ops : BlockOps} {Dev : BlockDev} c :
  runs c (Some me) [] (bwrite b) d1 tt d2 [].
Proof.
  assert (b ∈ b :: H) as Hin by left.
  destruct (held_store d me b (b :: H) D Hc Hin bl Hlen) as [Hc1 _].
  by eapply runs_bwrite.
Qed.
End Flush.

(** The same, with the buffer released: one write *)
Lemma flush_wrote d0 d me b D bl bn :
  opened d0 d me b bn [] D -> length bl = 512%nat ->
  wrote d0 (released b (write_out b (upd_buf b (fun x => x <|b_data := bl|>) d))) me D [(bn, bl)].
Proof.
  intros Ho Hlen. pose proof (op_cache _ _ _ _ _ _ _ Ho) as Hc.
  pose proof (op_has _ _ _ _ _ _ _ Ho) as Hh.
  destruct (flush_cache d me b [] D bl bn Hc Hh Hlen) as (Hc2 & Hv2 & Hh2 & Hf2 & Hd2 & _).
  destruct (flush_write d me b [] D bl bn Hc Hh) as (Hk & Ht & Hr).
  set (d2 := write_out b _) in *.
  destruct (cache_released d2 me b [] D Hc2) as [Hc3 Hcl].
  { destruct Hh2 as [_ E]. by rewrite E. }
  split; try done.
  - etrans; [apply Ho|]. etrans; [exact Hr|apply Hcl].
  - rewrite (cl_disk _ _ Hcl), Hk, (op_disk _ _ _ _ _ _ _ Ho). done.
  - by rewrite (cl_trace _ _ Hcl), Ht, (op_trace _ _ _ _ _ _ _ Ho).
  - intros x. rewrite (cl_view _ _ Hcl), Hv2. simpl. case_decide; [done|]. apply Ho.
  - intros x. rewrite (pinned_closed d2 _ x Hcl).
    etrans; [apply (flush_pinned d me b [] D bl bn Hc Hh Hlen)|].
    by rewrite (op_pinned _ _ _ _ _ _ _ Ho).
Qed.

(** ** Copying one block *)

Lemma view_length d me H D x : cache d me H D -> length (view d x) = 512%nat.
Proof.
  intros Hc. destruct (has_or_not d x) as [(b & Hb & Hh)|Hn].
  - rewrite (view_has _ _ _ _ _ _ Hc Hb Hh). apply Hc; [done|apply Hh].
  - rewrite (view_none _ _ Hn). apply Hc.
Qed.

Section Copy.
Context {Ops : BlockOps} {Dev : BlockDev} (c me : nat).

(** Two buffers open at the same time *)
Lemma open_two d D x y :
  cache d me [] D -> 0 <= x < disksize d -> 0 <= y < disksize d -> x <> y ->
  (length D < NBUF)%nat -> pinned d y \/ (1 + length D < NBUF)%nat ->
  exists b1 b2 d1 d2,
    runs c (Some me) [] (bread 1 x) d b1 d1 [] /\ runs c (Some me) [] (bread 1 y) d1 b2 d2 [] /\
    opened d d1 me b1 x [] D /\ opened d1 d2 me b2 y [b1] D /\
    cache d2 me [b2; b1] D /\ has d2 x b1 /\ has d2 y b2 /\ b1 <> b2 /\
    b_data (bufs d2 b1) = view d x /\ b_data (bufs d2 b2) = view d y /\
    (forall z, view d2 z = view d z).
Proof.
  intros Hc Hx Hy Hne HD Hp.
  destruct (runs_bread c me d [] D x Hc Hx) as (b1 & d1 & Hr1 & Ho1).
  { intros b Hb. by apply not_elem_of_nil in Hb. }
  { right. simpl. lia. }
  pose proof (op_has _ _ _ _ _ _ _ Ho1) as Hh1.
  destruct (runs_bread c me d1 [b1] D y) as (b2 & d2 & Hr2 & Ho2).
  { apply Ho1. }
  { by rewrite (sr_disksize _ _ (op_rest _ _ _ _ _ _ _ Ho1)). }
  { intros b ->%list_elem_of_singleton [_ E]. destruct Hh1 as [_ E']. congruence. }
  { destruct Hp as [Hp|Hp]; [left|right; simpl; lia].
    apply (pinned_opened _ _ _ _ _ _ _ _ Ho1) in Hp as (j & Hj & Hh & _). by exists j. }
  assert (bufs d2 b1 = bufs d1 b1) as E1 by (apply (op_held _ _ _ _ _ _ _ Ho2); left).
  exists b1, b2, d1, d2. split_and!; try done.
  - apply Ho2.
  - unfold has. by rewrite E1.
  - apply Ho2.
  - pose proof (ca_nodup _ _ _ _ (op_cache _ _ _ _ _ _ _ Ho2)) as [Hn _]%NoDup_cons. set_solver.
  - rewrite E1. apply Ho1.
  - rewrite (op_data _ _ _ _ _ _ _ Ho2). apply Ho1.
  - intros z. rewrite (op_view _ _ _ _ _ _ _ Ho2). apply Ho1.
Qed.

(** The body of the loop of [write_log] *)
Lemma runs_log_block d D dst src :
  cache d me [] D -> 0 <= dst < disksize d -> 0 <= src < disksize d -> dst <> src ->
  (length D < NBUF)%nat -> pinned d src ->
  exists d', runs c (Some me) []
    (to <- bread 1 dst;; from <- bread 1 src;;
     fb <- get_buf from;; set_buf to (fun x => x <|b_data := b_data fb|>);;
     bwrite to;; brelse from;; brelse to) d tt d' []
  /\ wrote d d' me D [(dst, view d src)].
Proof.
  intros Hc Hdst Hsrc Hne HD Hpin.
  destruct (open_two d D dst src) as (to & from & d1 & d2 & Hr1 & Hr2 & Ho1 & Ho2 & Hc2 & Hht & Hhf
    & Hbne & _ & Hdf & Hv2); auto.
  pose proof (view_length d me [] D src Hc) as Hlen.
  assert (cache d2 me [to; from] D) as Hc2' by (eapply cache_perm; [apply Permutation_swap|done]).
  destruct (flush_cache d2 me to [from] D (view d src) dst Hc2' Hht Hlen)
    as (Hc4 & Hv4 & Hh4 & Hf4 & Hd4 & Ho4).
  destruct (flush_write d2 me to [from] D (view d src) dst Hc2' Hht) as (Hk4 & Ht4 & Hrest4).
  set (d4 := write_out to (upd_buf to (fun x => x <|b_data := view d src|>) d2)) in *.
  assert (pinned d2 src) as Hpin2 by (by eapply pinned_opened, pinned_opened).
  assert (b_flags (bufs d4 from) = DIRTY) as Hff.
  { rewrite Ho4 by done. destruct Hpin2 as (j & Hj & Hh & Hf).
    assert (j = from) as ->; [|done]. apply (ca_uniq _ _ _ _ Hc2 j from src); try done.
    apply (ca_held _ _ _ _ Hc2 from). left. }
  destruct (cache_released d4 me from [to] D) as [Hc5 Hcl5].
  { eapply cache_perm; [apply Permutation_swap|done]. }
  { by rewrite Hff. }
  set (d5 := released from d4) in *.
  destruct (cl_bufs _ _ Hcl5 to) as (F1 & F2 & F3 & F4).
  { apply (ca_held _ _ _ _ Hc2 to). right. left. }
  destruct (cache_released d5 me to [] D Hc5) as [Hc6 Hcl6].
  { intros _. rewrite F3, F4, (disk_block_eq _ _ (cl_disk _ _ Hcl5)), Hd4.
    by destruct Hh4 as [_ ->]. }
  exists (released to d5). split.
  - eapply runs_bind; [exact Hr1|]. eapply runs_bind; [exact Hr2|]. rstep. rewrite Hdf.
    rstep. eapply runs_bind; [by apply (runs_flush d2 me to [from] D)|].
    eapply runs_bind; [eapply (runs_brelse c me d4 from); [exact Hc4|right; left]|].
    eapply runs_brelse; [exact Hc5|left].
  - split; try done.
    + etrans; [apply Ho1|]. etrans; [apply Ho2|]. etrans; [exact Hrest4|].
      etrans; [apply Hcl5|apply Hcl6].
    + rewrite (cl_disk _ _ Hcl6), (cl_disk _ _ Hcl5), Hk4, (op_disk _ _ _ _ _ _ _ Ho2),
        (op_disk _ _ _ _ _ _ _ Ho1). done.
    + by rewrite (cl_trace _ _ Hcl6), (cl_trace _ _ Hcl5), Ht4, (op_trace _ _ _ _ _ _ _ Ho2),
        (op_trace _ _ _ _ _ _ _ Ho1).
    + intros x. rewrite (cl_view _ _ Hcl6), (cl_view _ _ Hcl5), Hv4, Hv2. done.
    + intros x. rewrite (pinned_closed d5 _ x Hcl6), (pinned_closed d4 _ x Hcl5).
      etrans; [apply (flush_pinned d2 me to [from] D (view d src) dst Hc2' Hht Hlen)|].
      by rewrite (op_pinned _ _ _ _ _ _ _ Ho2), (op_pinned _ _ _ _ _ _ _ Ho1).
Qed.

(** The body of the loop of [install_trans] *)
Lemma runs_install_block d D src dst :
  cache d me [] D -> 0 <= src < disksize d -> 0 <= dst < disksize d -> src <> dst ->
  (length D < NBUF)%nat -> pinned d dst \/ (1 + length D < NBUF)%nat -> src ∉ D ->
  exists d', runs c (Some me) []
    (lbuf <- bread 1 src;; dbuf <- bread 1 dst;;
     lb <- get_buf lbuf;; set_buf dbuf (fun x => x <|b_data := b_data lb|>);;
     bwrite dbuf;; brelse lbuf;; brelse dbuf) d tt d' []
  /\ wrote d d' me D [(dst, view d src)].
Proof.
  intros Hc Hsrc Hdst Hne HD Hpin Hclean.
  destruct (open_two d D src dst) as (lb & db & d1 & d2 & Hr1 & Hr2 & Ho1 & Ho2 & Hc2 & Hhl & Hhd
    & Hbne & Hdl & _ & Hv2); auto.
  pose proof (view_length d me [] D src Hc) as Hlen.
  destruct (flush_cache d2 me db [lb] D (view d src) dst Hc2 Hhd Hlen)
    as (Hc4 & Hv4 & Hh4 & Hf4 & Hd4 & Ho4).
  destruct (flush_write d2 me db [lb] D (view d src) dst Hc2 Hhd) as (Hk4 & Ht4 & Hrest4).
  set (d4 := write_out db (upd_buf db (fun x => x <|b_data := view d src|>) d2)) in *.
  destruct (cache_released d4 me lb [db] D) as [Hc5 Hcl5].
  { eapply cache_perm; [apply Permutation_swap|done]. }
  { intros _. rewrite Ho4 by done. rewrite Hdl. destruct Hhl as [_ ->].
    rewrite (view_clean d me D src Hc Hclean). unfold disk_block.
    rewrite Hk4, (op_disk _ _ _ _ _ _ _ Ho2), (op_disk _ _ _ _ _ _ _ Ho1).
    by rewrite lookup_insert_ne. }
  set (d5 := released lb d4) in *.
  destruct (cl_bufs _ _ Hcl5 db) as (F1 & F2 & F3 & F4).
  { apply (ca_held _ _ _ _ Hc2 db). left. }
  destruct (cache_released d5 me db [] D Hc5) as [Hc6 Hcl6].
  { intros _. rewrite F3, F4, (disk_block_eq _ _ (cl_disk _ _ Hcl5)), Hd4.
    by destruct Hh4 as [_ ->]. }
  exists (released db d5). split.
  - eapply runs_bind; [exact Hr1|]. eapply runs_bind; [exact Hr2|]. rstep. rewrite Hdl.
    rstep. eapply runs_bind; [by apply (runs_flush d2 me db [lb] D)|].
    eapply runs_bind; [eapply (runs_brelse c me d4 lb); [exact Hc4|right; left]|].
    eapply runs_brelse; [exact Hc5|left].
  - split; try done.
    + etrans; [apply Ho1|]. etrans; [apply Ho2|]. etrans; [exact Hrest4|].
      etrans; [apply Hcl5|apply Hcl6].
    + rewrite (cl_disk _ _ Hcl6), (cl_disk _ _ Hcl5), Hk4, (op_disk _ _ _ _ _ _ _ Ho2),
        (op_disk _ _ _ _ _ _ _ Ho1). done.
    + by rewrite (cl_trace _ _ Hcl6), (cl_trace _ _ Hcl5), Ht4, (op_trace _ _ _ _ _ _ _ Ho2),
        (op_trace _ _ _ _ _ _ _ Ho1).
    + intros x. rewrite (cl_view _ _ Hcl6), (cl_view _ _ Hcl5), Hv4, Hv2. done.
    + intros x. rewrite (pinned_closed d5 _ x Hcl6), (pinned_closed d4 _ x Hcl5).
      etrans; [apply (flush_pinned d2 me db [lb] D (view d src) dst Hc2 Hhd Hlen)|].
      by rewrite (op_pinned _ _ _ _ _ _ _ Ho2), (op_pinned _ _ _ _ _ _ _ Ho1).
Qed.

(** Changing one block in place *)
Lemma runs_edit_block d D x (f : block -> block) :
  cache d me [] D -> 0 <= x < disksize d -> (length D < NBUF)%nat ->
  (forall bl, length bl = 512%nat -> length (f bl) = 512%nat) ->
  exists d', runs c (Some me) []
    (b <- bread 1 x;; set_buf b (fun y => y <|b_data ::= f|>);; bwrite b;; brelse b) d tt d' []
  /\ wrote d d' me D [(x, f (view d x))].
Proof.
  intros Hc Hx HD Hf. destruct (runs_bread c me d [] D x Hc Hx) as (b & d1 & Hr & Ho).
  { intros b Hb. by apply not_elem_of_nil in Hb. }
  { by right. }
  pose proof (op_cache _ _ _ _ _ _ _ Ho) as Hc1. pose proof (op_has _ _ _ _ _ _ _ Ho) as Hh1.
  assert (length (f (view d x)) = 512%nat) as Hlen by (by eapply Hf, view_length).
  pose proof (flush_wrote d d1 me b D (f (view d x)) x Ho Hlen) as Hw.
  eexists. split; [|exact Hw].
  eapply runs_bind; [exact Hr|]. rstep.
  rewrite (upd_buf_ext d1 b _ (fun y => y <|b_data := f (view d x)|>)); cycle 1.
  { intros y ->. rewrite <- (op_data _ _ _ _ _ _ _ Ho). by destruct (bufs d1 b). }
  eapply runs_bind; [by apply (runs_flush d1 me b [] D)|].
  destruct (flush_cache d1 me b [] D (f (view d x)) x Hc1 Hh1 Hlen) as (Hc2 & _).
  eapply runs_brelse; [exact Hc2|left].
Qed.
End Copy.

(** ** The log *)

(** The blocks of the transaction, and the blocks of the log area *)
Definition blks (lg : logstate) : list Z := take (Z.to_nat (lh_n lg)) (lh_block lg).
Definition in_log (lg : logstate) (x : Z) : Prop :=
  l_start lg <= x < l_start lg + l_size lg.
Definition slot_of (lg : logstate) (t : nat) : Z := l_start lg + Z.of_nat t + 1.

Record log_wf (d : data) : Prop := {
  lw_dev : l_dev (log d) = 1;
  lw_start : 0 <= l_start (log d);
  lw_size : 0 < l_size (log d) <= LOGSIZE;
  lw_end : l_start (log d) + l_size (log d) <= disksize d;
  lw_disk : disksize d < two31;
  lw_len : length (lh_block (log d)) = Z.to_nat LOGSIZE
}.

(** A transaction of distinct blocks outside the log that fits in it *)
Record txn_wf (d : data) : Prop := {
  tw_n : 0 <= lh_n (log d) < l_size (log d);
  tw_range : forall x, x ∈ blks (log d) -> 0 <= x < disksize d /\ ~ in_log (log d) x;
  tw_nodup : NoDup (blks (log d))
}.

Definition log_writes (lg : logstate) (f : Z -> block) (n : nat) : writes :=
  (fun t => (slot_of lg t, f (lh_block lg !!! t))) <$> seq 0 n.
Definition install_writes (lg : logstate) (f : nat -> block) (n : nat) : writes :=
  (fun t => (lh_block lg !!! t, f t)) <$> seq 0 n.

Lemma log_writes_S lg f n :
  log_writes lg f (S n) = log_writes lg f n ++ [(slot_of lg n, f (lh_block lg !!! n))].
Proof. unfold log_writes. by rewrite seq_S, fmap_app. Qed.
Lemma install_writes_S lg f n :
  install_writes lg f (S n) = install_writes lg f n ++ [(lh_block lg !!! n, f n)].
Proof. unfold install_writes. by rewrite seq_S, fmap_app. Qed.

Lemma elem_log_writes lg f n x :
  x ∈ (log_writes lg f n).*1 <-> exists t, (t < n)%nat /\ x = slot_of lg t.
Proof.
  unfold log_writes. rewrite <- list_fmap_compose, list_elem_of_fmap. split.
  - intros (t & -> & Ht%elem_of_seq). exists t. split; [lia|done].
  - intros (t & Ht & ->). exists t. split; [done|]. apply elem_of_seq. lia.
Qed.
Lemma elem_install_writes lg f n x :
  x ∈ (install_writes lg f n).*1 <-> exists t, (t < n)%nat /\ x = lh_block lg !!! t.
Proof.
  unfold install_writes. rewrite <- list_fmap_compose, list_elem_of_fmap. split.
  - intros (t & -> & Ht%elem_of_seq). exists t. split; [lia|done].
  - intros (t & Ht & ->). exists t. split; [done|]. apply elem_of_seq. lia.
Qed.

Section Wf.
Context (d : data) (Hlw : log_wf d) (Htw : txn_wf d).
Local Abbreviation lg := (log d).
Local Abbreviation n := (Z.to_nat (lh_n (log d))).

Lemma txn_len : (n < NBUF)%nat /\ length (blks lg) = n.
Proof.
  pose proof (tw_n d Htw). pose proof (lw_size d Hlw). pose proof (lw_len d Hlw) as Hl.
  unfold LOGSIZE, MAXOPBLOCKS, NBUF in *. unfold blks. rewrite length_take.
  lia.
Qed.

Lemma blk_lookup t : (t < n)%nat -> blks lg !! t = Some (lh_block lg !!! t).
Proof.
  intros Ht. unfold blks. rewrite lookup_take_lt by done.
  apply list_lookup_lookup_total_lt. destruct txn_len as [Hn _].
  pose proof (lw_len d Hlw) as Hl. rewrite Hl.
  unfold LOGSIZE, MAXOPBLOCKS, NBUF in *. lia.
Qed.

Lemma blk_in t : (t < n)%nat -> lh_block lg !!! t ∈ blks lg.
Proof. intros Ht. eapply list_elem_of_lookup_2. by apply blk_lookup. Qed.

Lemma blk_inj s t : (s < n)%nat -> (t < n)%nat -> lh_block lg !!! s = lh_block lg !!! t -> s = t.
Proof.
  intros Hs Ht E. apply (NoDup_lookup (blks lg) s t (lh_block lg !!! s)); [apply Htw|..].
  - by apply blk_lookup.
  - rewrite E. by apply blk_lookup.
Qed.

Lemma slot_range t :
  (t < n)%nat -> 0 <= slot_of lg t < disksize d /\ in_log lg (slot_of lg t) /\
  u32 (l_start lg + Z.of_nat t + 1) = slot_of lg t.
Proof.
  intros Ht. pose proof (tw_n d Htw). pose proof (lw_start d Hlw). pose proof (lw_end d Hlw).
  pose proof (lw_disk d Hlw). unfold slot_of, in_log in *.
  rewrite u32_small by (unfold two31, two32 in *; lia). lia.
Qed.

Lemma blk_range t :
  (t < n)%nat -> 0 <= lh_block lg !!! t < disksize d /\ ~ in_log lg (lh_block lg !!! t) /\
  u32 (lh_block lg !!! t) = lh_block lg !!! t.
Proof.
  intros Ht. destruct (tw_range d Htw _ (blk_in t Ht)) as [Hr Hn]. pose proof (lw_disk d Hlw).
  split_and!; try done; try lia. apply u32_small. unfold two31, two32 in *. lia.
Qed.

Lemma start_range : 0 <= l_start lg < disksize d /\ u32 (l_start lg) = l_start lg.
Proof.
  pose proof (lw_start d Hlw). pose proof (lw_end d Hlw). pose proof (lw_size d Hlw).
  pose proof (lw_disk d Hlw). split; [lia|].
  apply u32_small. unfold two31, two32 in *. lia.
Qed.
End Wf.

Section Loops.
Context {Ops : BlockOps} {Dev : BlockDev} (c me : nat) (d : data) (D : list Z).
Hypothesis Hlw : log_wf d.
Hypothesis Htw : txn_wf d.
Hypothesis Hc : cache d me [] D.
Hypothesis HD : (length D < NBUF)%nat.
Local Abbreviation lg := (log d).
Local Abbreviation n := (Z.to_nat (lh_n (log d))).

(** [write_log] copies the modified blocks to the log. *)
Lemma runs_write_log :
  (forall t, (t < n)%nat -> pinned d (lh_block lg !!! t)) ->
  exists d', runs c (Some me) [] write_log d tt d' [] /\
    wrote d d' me D (log_writes lg (view d) n).
Proof.
  intros Hpin. unfold write_log.
  destruct (runs_iter_seq c (Some me) [] n (fun tail =>
      lg <- getd log;;
      to <- bread (l_dev lg) (u32 (l_start lg + Z.of_nat tail + 1));;
      from <- bread (l_dev lg) (u32 (lh_block lg !!! tail));;
      fb <- get_buf from;;
      set_buf to (fun x => x <|b_data := b_data fb|>);;
      bwrite to;;
      brelse from;;
      brelse to)
    (fun k d' => wrote d d' me D (log_writes lg (view d) k)) d) as (d' & Hr & Hw).
  - by apply wrote_refl.
  - intros k d1 Hk Hw.
    assert (log d1 = lg) as El by apply (sr_log _ _ (wr_rest _ _ _ _ _ Hw)).
    assert (disksize d1 = disksize d) as Es by apply (sr_disksize _ _ (wr_rest _ _ _ _ _ Hw)).
    destruct (slot_range d Hlw Htw k Hk) as (S1 & S2 & S3).
    destruct (blk_range d Hlw Htw k Hk) as (B1 & B2 & B3).
    assert (lh_block lg !!! k ∉ (log_writes lg (view d) k).*1) as Hnin.
    { rewrite elem_log_writes. intros (t & Ht & E). apply B2. rewrite E.
      by apply (slot_range d Hlw Htw); lia. }
    destruct (runs_log_block c me d1 D (slot_of lg k) (lh_block lg !!! k)) as (d2 & Hr2 & Hw2).
    + apply Hw.
    + by rewrite Es.
    + by rewrite Es.
    + intros E. apply B2. by rewrite <- E.
    + done.
    + apply (wr_pinned _ _ _ _ _ Hw). auto.
    + exists d2. split.
      * eapply runs_bind; [rlast|]. cbv beta. rewrite El, (lw_dev d Hlw : l_dev lg = 1), S3, B3. exact Hr2.
      * rewrite log_writes_S. eapply wrote_trans; [exact Hw|].
        rewrite (wr_view _ _ _ _ _ Hw), over_notin in Hw2 by done. exact Hw2.
  - exists d'. split; [|done]. rstep. exact Hr.
Qed.

(** [install_trans] copies them from the log to their home locations. *)
Lemma runs_install_trans :
  (forall t, (t < n)%nat -> slot_of lg t ∉ D) ->
  (forall t, (t < n)%nat -> pinned d (lh_block lg !!! t)) \/ (1 + length D < NBUF)%nat ->
  exists d', runs c (Some me) [] install_trans d tt d' [] /\
    wrote d d' me D (install_writes lg (fun t => view d (slot_of lg t)) n).
Proof.
  intros Hcl Hpin. unfold install_trans.
  destruct (runs_iter_seq c (Some me) [] n (fun tail =>
      lg <- getd log;;
      lbuf <- bread (l_dev lg) (u32 (l_start lg + Z.of_nat tail + 1));;
      dbuf <- bread (l_dev lg) (u32 (lh_block lg !!! tail));;
      lb <- get_buf lbuf;;
      set_buf dbuf (fun x => x <|b_data := b_data lb|>);;
      bwrite dbuf;;
      brelse lbuf;;
      brelse dbuf)
    (fun k d' => wrote d d' me D (install_writes lg (fun t => view d (slot_of lg t)) k)) d)
    as (d' & Hr & Hw).
  - by apply wrote_refl.
  - intros k d1 Hk Hw.
    assert (log d1 = lg) as El by apply (sr_log _ _ (wr_rest _ _ _ _ _ Hw)).
    assert (disksize d1 = disksize d) as Es by apply (sr_disksize _ _ (wr_rest _ _ _ _ _ Hw)).
    destruct (slot_range d Hlw Htw k Hk) as (S1 & S2 & S3).
    destruct (blk_range d Hlw Htw k Hk) as (B1 & B2 & B3).
    assert (slot_of lg k ∉ (install_writes lg (fun t => view d (slot_of lg t)) k).*1) as Hnin.
    { rewrite elem_install_writes. intros (t & Ht & E).
      destruct (blk_range d Hlw Htw t) as (_ & Hx & _); [lia|].
      apply Hx. by rewrite <- E. }
    destruct (runs_install_block c me d1 D (slot_of lg k) (lh_block lg !!! k)) as (d2 & Hr2 & Hw2).
    + apply Hw.
    + by rewrite Es.
    + by rewrite Es.
    + intros E. apply B2. by rewrite <- E.
    + done.
    + destruct Hpin as [Hpin|]; [left|by right]. apply (wr_pinned _ _ _ _ _ Hw).
      split; [by apply Hpin|]. rewrite elem_install_writes. intros (t & Ht & E).
      apply (blk_inj d Hlw Htw) in E; lia.
    + by apply Hcl.
    + exists d2. split.
      * eapply runs_bind; [rlast|]. cbv beta. rewrite El, (lw_dev d Hlw : l_dev lg = 1), S3, B3. exact Hr2.
      * rewrite install_writes_S. eapply wrote_trans; [exact Hw|].
        rewrite (wr_view _ _ _ _ _ Hw), over_notin in Hw2 by done. exact Hw2.
  - exists d'. split; [|done]. rstep. exact Hr.
Qed.
End Loops.

(** ** The header block *)

Lemma head_fold lg bl k :
  length bl = 512%nat -> Z.of_nat k <= LOGSIZE -> 0 <= lh_n lg < two32 ->
  (forall t, (t < k)%nat -> 0 <= lh_block lg !!! t < two32) ->
  let hb := foldl (fun bl i => set32 bl (4 + 4 * Z.of_nat i) (lh_block lg !!! i))
              (set32 bl 0 (lh_n lg)) (seq 0 k) in
  length hb = 512%nat /\ get32 hb 0 = lh_n lg /\
  forall t, (t < k)%nat -> get32 hb (4 + 4 * Z.of_nat t) = lh_block lg !!! t.
Proof.
  intros Hl Hk Hn Hb. unfold LOGSIZE, MAXOPBLOCKS in Hk.
  induction k as [|k IH]; cbv zeta in *.
  - simpl. rewrite length_set32. split_and!; [done| |lia]. apply get32_set32; lia.
  - destruct IH as (L & G & B); [lia|intros; apply Hb; lia|].
    rewrite seq_S, foldl_app. simpl. rewrite length_set32. split_and!; [done|..].
    + rewrite get32_set32_other by lia. done.
    + intros t Ht. destruct (decide (t = k)) as [->|Hne].
      * apply get32_set32; [lia|lia|]. apply Hb. lia.
      * rewrite get32_set32_other by lia. apply B. lia.
Qed.

(** What recovery reads from the header block [hd] *)
Definition head_n (hd : block) : Z := i32 (get32 hd 0).
Definition head_log (hd : block) (lg : logstate) : logstate :=
  foldl (fun lg i => lg <|lh_block ::= <[i := i32 (get32 hd (4 + 4 * Z.of_nat i))]>|>)
    (lg <|lh_n := head_n hd|>) (seq 0 (Z.to_nat (head_n hd))).

Lemma head_log_fold hd lg k :
  (k <= length (lh_block lg))%nat ->
  let lg' := foldl (fun lg i => lg <|lh_block ::= <[i := i32 (get32 hd (4 + 4 * Z.of_nat i))]>|>)
    (lg <|lh_n := head_n hd|>) (seq 0 k) in
  l_start lg' = l_start lg /\ l_size lg' = l_size lg /\ l_dev lg' = l_dev lg /\
  lh_n lg' = head_n hd /\ length (lh_block lg') = length (lh_block lg) /\
  forall t, (t < k)%nat -> lh_block lg' !!! t = i32 (get32 hd (4 + 4 * Z.of_nat t)).
Proof.
  induction k as [|k IH]; intros Hk; cbv zeta in *.
  - simpl. split_and!; try done. lia.
  - destruct IH as (E1 & E2 & E3 & E4 & E5 & E6); [lia|].
    rewrite seq_S, foldl_app. simpl. getset. rewrite length_insert. split_and!; try done.
    intros t Ht. destruct (decide (t = k)) as [->|Hne].
    + apply list_lookup_total_insert_eq. lia.
    + rewrite list_lookup_total_insert_ne by done. apply E6. lia.
Qed.

Lemma cache_set_log d me H D f : cache d me H D -> cache (d <|log ::= f|>) me H D.
Proof.
  intros [R1 R2 R3 R4 R5 R6 R7 R8 R9 R10 R11]. split; try done.
  intros b Hb. destruct (R6 b Hb) as [[? ? ? ? ? ?] ?]. split; [|done]. by split.
Qed.

Lemma log_wf_same d d' : same_rest d d' -> log_wf d -> log_wf d'.
Proof.
  intros Hr [? ? ? ? ? ?]. split; rewrite ?(sr_log _ _ Hr), ?(sr_disksize _ _ Hr); done.
Qed.
Lemma txn_wf_same d d' : same_rest d d' -> txn_wf d -> txn_wf d'.
Proof.
  intros Hr [? ? ?]. split; rewrite ?(sr_log _ _ Hr), ?(sr_disksize _ _ Hr); done.
Qed.

Lemma head_block_length lg bl :
  length bl = 512%nat -> length (head_block lg bl) = 512%nat.
Proof.
  intros Hl. unfold head_block.
  assert (forall l b, length b = 512%nat ->
    length (foldl (fun bl i => set32 bl (4 + 4 * Z.of_nat i) (lh_block lg !!! i)) b l) = 512%nat) as H.
  { induction l as [|i l IH]; intros b Hb; simpl; [done|]. apply IH. by rewrite length_set32. }
  apply H. by rewrite length_set32.
Qed.

Lemma runs_write_head {Ops : BlockOps} {Dev : BlockDev} c me d D :
  log_wf d -> cache d me [] D -> (length D < NBUF)%nat ->
  exists d', runs c (Some me) [] write_head d tt d' [] /\
    wrote d d' me D [(l_start (log d), head_block (log d) (view d (l_start (log d))))].
Proof.
  intros Hlw Hc HD. destruct (start_range d Hlw) as [Hs Hu].
  destruct (runs_edit_block c me d D (l_start (log d)) (head_block (log d)))
    as (d' & Hr & Hw); [done|done|done|apply head_block_length|].
  exists d'. split; [|done]. unfold write_head. rstep.
  rewrite (lw_dev d Hlw), Hu. exact Hr.
Qed.

(** ** Commit *)

Definition no_txn (lg : logstate) : logstate := lg <|lh_n := 0|>.

(** The block writes of [commit], when the cache shows the contents [v] *)
Definition commit_writes (lg : logstate) (v : Z -> block) : writes :=
  let n := Z.to_nat (lh_n lg) in
  let h1 := head_block lg (v (l_start lg)) in
  log_writes lg v n ++ (l_start lg, h1) ::
  install_writes lg (fun t => v (lh_block lg !!! t)) n ++
  [(l_start lg, head_block (no_txn lg) h1)].

Lemma install_writes_ext lg f g n :
  (forall t, (t < n)%nat -> f t = g t) -> install_writes lg f n = install_writes lg g n.
Proof.
  intros E. unfold install_writes. apply list_fmap_ext. intros i t Ht.
  apply lookup_seq in Ht as [-> Ht]. by rewrite E.
Qed.

Section Commit.
Context {Ops : BlockOps} {Dev : BlockDev} (c me : nat) (d : data).
Local Abbreviation lg := (log d).
Local Abbreviation n := (Z.to_nat (lh_n (log d))).
Hypothesis Hlw : log_wf d.
Hypothesis Htw : txn_wf d.
Hypothesis Hc : cache d me [] (blks lg).
Hypothesis Hpin : forall x, x ∈ blks lg -> pinned d x.

Lemma slots_nodup f : NoDup (log_writes lg f n).*1.
Proof.
  unfold log_writes. rewrite <- list_fmap_compose. apply NoDup_fmap_2_strong; [|apply NoDup_seq].
  intros s t _ _ E. unfold compose, slot_of in E. simpl in E. lia.
Qed.

Lemma start_not_slot f : l_start lg ∉ (log_writes lg f n).*1.
Proof. rewrite elem_log_writes. intros (t & Ht & E). unfold slot_of in E. lia. Qed.

Lemma slot_not_blk t : (t < n)%nat -> slot_of lg t ∉ blks lg.
Proof.
  intros Ht Hin. destruct (slot_range d Hlw Htw t Ht) as (_ & Hx & _).
  by destruct (tw_range d Htw _ Hin).
Qed.

(** After [write_log] and the first [write_head] the log holds the new
    contents. *)
Lemma logged_view ws t :
  ws = log_writes lg (view d) n -> (t < n)%nat ->
  over (ws ++ [(l_start lg, head_block lg (view d (l_start lg)))]) (view d) (slot_of lg t)
  = view d (lh_block lg !!! t).
Proof.
  intros -> Ht. rewrite over_app, (over_notin [_]); cycle 1.
  { simpl. rewrite list_elem_of_singleton. unfold slot_of. lia. }
  apply over_in; [apply slots_nodup|]. unfold log_writes. apply list_elem_of_fmap.
  exists t. split; [done|]. apply elem_of_seq. lia.
Qed.

(** The writes up to the second [write_head] *)
Lemma runs_commit_install :
  exists d1 d2 d3, runs c (Some me) [] write_log d tt d1 [] /\
    runs c (Some me) [] write_head d1 tt d2 [] /\ runs c (Some me) [] install_trans d2 tt d3 [] /\
    wrote d d3 me (blks lg)
      ((log_writes lg (view d) n ++ [(l_start lg, head_block lg (view d (l_start lg)))]) ++
       install_writes lg (fun t => view d (lh_block lg !!! t)) n).
Proof.
  destruct (txn_len d Hlw Htw) as [Hlen Eb].
  assert (length (blks lg) < NBUF)%nat as HD by lia.
  destruct (runs_write_log c me d (blks lg) Hlw Htw Hc HD) as (d1 & Hr1 & Hw1).
  { intros t Ht. by apply Hpin, blk_in. }
  pose proof (log_wf_same _ _ (wr_rest _ _ _ _ _ Hw1) Hlw) as Hlw1.
  pose proof (sr_log _ _ (wr_rest _ _ _ _ _ Hw1)) as El1.
  destruct (runs_write_head c me d1 (blks lg) Hlw1 (wr_cache _ _ _ _ _ Hw1) HD) as (d2 & Hr2 & Hw2).
  rewrite El1, (wr_view _ _ _ _ _ Hw1), over_notin in Hw2 by apply start_not_slot.
  pose proof (wrote_trans _ _ _ _ _ _ _ Hw1 Hw2) as Hw12.
  pose proof (wr_rest _ _ _ _ _ Hw12) as Hrest2. pose proof (sr_log _ _ Hrest2) as El2.
  pose proof (log_wf_same _ _ Hrest2 Hlw) as Hlw2. pose proof (txn_wf_same _ _ Hrest2 Htw) as Htw2.
  destruct (runs_install_trans c me d2 (blks lg) Hlw2 Htw2 (wr_cache _ _ _ _ _ Hw12) HD)
    as (d3 & Hr3 & Hw3).
  { rewrite El2. apply slot_not_blk. }
  { left. rewrite El2. intros t Ht. apply (wr_pinned _ _ _ _ _ Hw12).
    split; [by apply Hpin, blk_in|]. rewrite fmap_app, not_elem_of_app. simpl.
    rewrite elem_log_writes, list_elem_of_singleton.
    destruct (blk_range d Hlw Htw t Ht) as (_ & B & _). split.
    - intros (s & Hs & E). apply B. rewrite E. by apply (slot_range d Hlw Htw).
    - intros E. apply B. rewrite E. unfold in_log. pose proof (lw_size d Hlw). lia. }
  rewrite El2 in Hw3.
  rewrite (install_writes_ext _ _ (fun t => view d (lh_block lg !!! t))) in Hw3; cycle 1.
  { intros t Ht. rewrite (wr_view _ _ _ _ _ Hw12). by apply logged_view. }
  exists d1, d2, d3. split_and!; [done|done|done|]. by eapply wrote_trans.
Qed.

Lemma runs_commit :
  0 < lh_n lg ->
  exists d', runs c (Some me) [] commit d tt d' [] /\
    disk d' = apply_writes (commit_writes lg (view d)) (disk d) /\
    dtrace d' = dtrace d ++ commit_writes lg (view d) /\
    cache d' me [] [] /\ same_rest (d <|log ::= no_txn|>) d'.
Proof.
  intros Hn. destruct runs_commit_install as (d1 & d2 & d3 & Hr1 & Hr2 & Hr3 & Hw).
  set (ws := _ ++ _) in Hw. pose proof (wr_rest _ _ _ _ _ Hw) as Hrest.
  pose proof (sr_log _ _ Hrest) as El. set (d3' := d3 <|log ::= no_txn|>).
  assert (log d3' = no_txn lg) as El' by (unfold d3'; getset; by rewrite El).
  assert (cache d3' me [] []) as Hc3.
  { apply cache_set_log. eapply cache_shrink; [|apply Hw]. intros x Hx.
    apply (wr_pinned _ _ _ _ _ Hw) in Hx as [Hx Hnin]. exfalso. apply Hnin. unfold ws.
    rewrite fmap_app. apply elem_of_app. right. apply elem_install_writes.
    destruct Hx as (b & Hb & [_ <-] & Hf). destruct (ca_dirty _ _ _ _ Hc b Hb Hf) as [_ Hin].
    apply list_elem_of_lookup_1 in Hin as [t Ht]. exists t.
    destruct (txn_len d Hlw Htw) as [_ E]. apply lookup_lt_Some in Ht as Hlt.
    rewrite (blk_lookup d Hlw Htw t) in Ht by lia. split; [lia|]. by simplify_eq. }
  assert (log_wf d3') as Hlw3.
  { destruct (log_wf_same _ _ Hrest Hlw) as [? ? ? ? ? ?]. unfold d3'. split; getset; done. }
  destruct (runs_write_head c me d3' [] Hlw3 Hc3) as (d4 & Hr4 & Hw4); [unfold NBUF; simpl; lia|].
  rewrite El' in Hw4. change (view d3') with (view d3) in Hw4.
  change (l_start (no_txn lg)) with (l_start lg) in Hw4.
  rewrite (wr_view _ _ _ _ _ Hw) in Hw4. unfold ws in Hw4. rewrite over_app in Hw4.
  rewrite (over_notin (install_writes _ _ _)) in Hw4; cycle 1.
  { rewrite elem_install_writes. intros (t & Ht & E).
    destruct (blk_range d Hlw Htw t Ht) as (_ & B & _). apply B. rewrite <- E.
    unfold in_log. pose proof (lw_size d Hlw). lia. }
  rewrite over_last in Hw4.
  assert (commit_writes lg (view d) = ws ++ [(l_start lg, head_block (no_txn lg)
    (head_block lg (view d (l_start lg))))]) as Ews.
  { unfold commit_writes, ws. by rewrite <- !app_assoc. }
  exists d4. split_and!.
  - unfold commit. rstep. apply Z.ltb_lt in Hn. rewrite Hn. apply runs_when_true.
    eapply runs_bind; [exact Hr1|]. eapply runs_bind; [exact Hr2|].
    eapply runs_bind; [exact Hr3|]. eapply runs_bind; [apply runs_setd|]. exact Hr4.
  - rewrite (wr_disk _ _ _ _ _ Hw4), Ews. unfold apply_writes. rewrite foldl_app.
    f_equal. apply (wr_disk _ _ _ _ _ Hw).
  - rewrite (wr_trace _ _ _ _ _ Hw4), Ews, app_assoc. f_equal. apply (wr_trace _ _ _ _ _ Hw).
  - apply Hw4.
  - etrans; [by apply sr_set_log|]. exact (wr_rest _ _ _ _ _ Hw4).
Qed.
End Commit.
