(* ===== verification/Crash.v ===== *)
(** * Crash safety of the log (log.c, continued)

    A crash keeps a prefix of the block writes.  [logical] is what recovery
    makes of a disk image; it changes in one step, at the write of the header
    by [commit], and no write of a recovery changes it. *)

From S2P Require Import Prelude Params State CString Spinlock Sched Sleeplock Bio Cache Log Commit.

(** ** The contents a disk image stands for *)

Definition head_blk (hd : block) (t : nat) : Z := i32 (get32 hd (4 + 4 * Z.of_nat t)).

(** The installs that the header found on the disk calls for *)
Definition installs (start : Z) (m : Z -> block) : writes :=
  (fun t => (head_blk (m start) t, m (start + Z.of_nat t + 1))) <$>
    seq 0 (Z.to_nat (head_n (m start))).

Definition logical (start : Z) (m : Z -> block) : Z -> block := over (installs start m) m.

Lemma logical_ext start f g x :
  (forall y, f y = g y) -> logical start f x = logical start g x.
Proof.
  intros E. unfold logical, installs. rewrite <- E.
  rewrite (list_fmap_ext _ (fun t => (head_blk (f start) t, g (start + Z.of_nat t + 1)))).
  - by apply over_ext.
  - intros i t _. f_equal. apply E.
Qed.

(** A header that [recover_from_log] can follow *)
Record header_wf (lg : logstate) (size : Z) (hd : block) : Prop := {
  hw_n : 0 <= head_n hd < l_size lg;
  hw_range : forall t, (t < Z.to_nat (head_n hd))%nat ->
    0 <= head_blk hd t < size /\ ~ in_log lg (head_blk hd t);
  hw_inj : forall s t, (s < Z.to_nat (head_n hd))%nat -> (t < Z.to_nat (head_n hd))%nat ->
    head_blk hd s = head_blk hd t -> s = t
}.

Lemma header_empty lg size hd : 0 < l_size lg -> head_n hd = 0 -> header_wf lg size hd.
Proof. intros Hs E. split; rewrite E; simpl; lia. Qed.

Lemma logical_empty start m x : head_n (m start) = 0 -> logical start m x = m x.
Proof. intros E. unfold logical, installs. by rewrite E. Qed.

Lemma elem_installs start m x :
  x ∈ (installs start m).*1 <->
  exists t, (t < Z.to_nat (head_n (m start)))%nat /\ x = head_blk (m start) t.
Proof.
  unfold installs. rewrite <- list_fmap_compose, list_elem_of_fmap. split.
  - intros (t & -> & Ht%elem_of_seq). exists t. split; [lia|done].
  - intros (t & Ht & ->). exists t. split; [done|]. apply elem_of_seq. lia.
Qed.

Lemma logical_in lg size start m t :
  header_wf lg size (m start) -> (t < Z.to_nat (head_n (m start)))%nat ->
  logical start m (head_blk (m start) t) = m (start + Z.of_nat t + 1).
Proof.
  intros Hw Ht. apply over_in.
  - unfold installs. rewrite <- list_fmap_compose. apply NoDup_fmap_2_strong; [|apply NoDup_seq].
    intros s s' Hs%elem_of_seq Hs'%elem_of_seq E. apply (hw_inj _ _ _ Hw); [lia|lia|done].
  - apply list_elem_of_fmap. exists t. split; [done|]. apply elem_of_seq. lia.
Qed.

Lemma logical_out start m x : x ∉ (installs start m).*1 -> logical start m x = m x.
Proof. apply over_notin. Qed.

(** Writes outside the log to blocks that the header names are invisible. *)
Lemma logical_installed lg size m p x :
  header_wf lg size (m (l_start lg)) -> (forall y, y ∈ p.*1 -> ~ in_log lg y) ->
  (forall y, y ∈ p.*1 -> y ∈ (installs (l_start lg) m).*1) ->
  logical (l_start lg) (over p m) x = logical (l_start lg) m x.
Proof.
  intros Hw Hout Hin. pose proof (hw_n _ _ _ Hw) as Hn.
  assert (over p m (l_start lg) = m (l_start lg)) as Eh.
  { apply over_notin. intros Hx%Hout. apply Hx. unfold in_log. lia. }
  assert (installs (l_start lg) (over p m) = installs (l_start lg) m) as Ei.
  { unfold installs. rewrite Eh. apply list_fmap_ext. intros i t Ht.
    apply lookup_seq in Ht as [-> Ht]. f_equal. apply over_notin. intros Hx%Hout.
    apply Hx. unfold in_log. lia. }
  destruct (decide (x ∈ (installs (l_start lg) m).*1)) as [Hx|Hx].
  - apply elem_installs in Hx as (t & Ht & ->).
    rewrite (logical_in lg size) by done. rewrite <- Eh.
    rewrite (logical_in lg size) by (by rewrite Eh). apply over_notin. intros Hx%Hout.
    apply Hx. unfold in_log. lia.
  - rewrite logical_out by (by rewrite Ei). rewrite logical_out by done.
    apply over_notin. auto.
Qed.

(** ** The header that [commit] writes *)

Section Header.
Context (d : data) (bl : block).
Hypothesis Hlw : log_wf d.
Hypothesis Htw : txn_wf d.
Hypothesis Hbl : length bl = 512%nat.
Local Abbreviation lg := (log d).
Local Abbreviation n := (Z.to_nat (lh_n (log d))).

Lemma head_of_txn :
  head_n (head_block lg bl) = lh_n lg /\
  forall t, (t < n)%nat -> head_blk (head_block lg bl) t = lh_block lg !!! t.
Proof.
  pose proof (tw_n d Htw). pose proof (lw_size d Hlw). pose proof (lw_disk d Hlw).
  assert (forall t, (t < n)%nat -> 0 <= lh_block lg !!! t < two31) as Hb.
  { intros t Ht. destruct (blk_range d Hlw Htw t Ht). lia. }
  destruct (head_fold lg bl n) as (_ & Hn & Hh); [done|..].
  { unfold LOGSIZE, MAXOPBLOCKS in *. lia. }
  { unfold LOGSIZE, MAXOPBLOCKS, two32 in *. lia. }
  { intros t Ht. specialize (Hb t Ht). unfold two31, two32 in *. lia. }
  split.
  - unfold head_n, head_block. rewrite Hn. apply i32_small.
    unfold LOGSIZE, MAXOPBLOCKS, two31 in *. lia.
  - intros t Ht. unfold head_blk, head_block. rewrite Hh by done. apply i32_small.
    specialize (Hb t Ht). unfold two31 in *. lia.
Qed.

Lemma header_of_txn : header_wf lg (disksize d) (head_block lg bl).
Proof.
  destruct head_of_txn as [En Eb]. split.
  - rewrite En. apply Htw.
  - rewrite En. intros t Ht. rewrite Eb by done. destruct (blk_range d Hlw Htw t Ht) as (? & ? & _).
    done.
  - rewrite En. intros s t Hs Ht. rewrite !Eb by done. by apply (blk_inj d Hlw Htw).
Qed.
End Header.

Lemma head_of_empty lg bl : length bl = 512%nat -> head_n (head_block (no_txn lg) bl) = 0.
Proof.
  intros Hl. destruct (head_fold (no_txn lg) bl 0) as (_ & Hn & _); [done|..]; try done.
  { intros t Ht. lia. }
  unfold head_n. change (get32 (head_block (no_txn lg) bl) 0) with
    (get32 (foldl (fun bl i => set32 bl (4 + 4 * Z.of_nat i) (lh_block (no_txn lg) !!! i))
              (set32 bl 0 (lh_n (no_txn lg))) (seq 0 0)) 0). by rewrite Hn.
Qed.

(** ** Prefixes *)

Lemma take_app_cases {A} k (l1 l2 : list A) :
  (exists j, take k (l1 ++ l2) = take j l1 /\ k = j /\ (j <= length l1)%nat) \/
  (exists j, take k (l1 ++ l2) = l1 ++ take j l2 /\ k = (length l1 + j)%nat /\ (0 < j)%nat).
Proof.
  destruct (decide (k <= length l1)%nat).
  - left. exists k. split; [|done]. by rewrite take_app_le.
  - right. exists (k - length l1)%nat. split; [|lia]. by rewrite take_app_ge by lia.
Qed.

Lemma elem_take {A} k (l : list A) x : x ∈ take k l -> x ∈ l.
Proof. intros H. rewrite <- (take_drop k l). apply elem_of_app. by left. Qed.
Lemma elem_take_fst {A B} k (l : list (A * B)) x : x ∈ (take k l).*1 -> x ∈ l.*1.
Proof. rewrite fmap_take. apply elem_take. Qed.

(** ** A crash in [commit] *)

Section CommitCrash.
Context (me : nat) (d : data).
Local Abbreviation lg := (log d).
Local Abbreviation n := (Z.to_nat (lh_n (log d))).
Hypothesis Hlw : log_wf d.
Hypothesis Htw : txn_wf d.
Hypothesis Hc : cache d me [] (blks lg).
Hypothesis Hempty : head_n (disk_block d (l_start lg)) = 0.

Let h1 : block := head_block lg (view d (l_start lg)).
Let logged : writes := log_writes lg (view d) n ++ [(l_start lg, h1)].
Let inst : writes := install_writes lg (fun t => view d (lh_block lg !!! t)) n.

Lemma commit_split :
  commit_writes lg (view d) = logged ++ inst ++ [(l_start lg, head_block (no_txn lg) h1)].
Proof. unfold commit_writes, logged, inst. by rewrite <- app_assoc. Qed.

Lemma logged_in_log y : y ∈ logged.*1 -> in_log lg y.
Proof.
  pose proof (lw_size d Hlw). unfold logged. rewrite fmap_app, elem_of_app, elem_log_writes. simpl.
  rewrite list_elem_of_singleton. intros [(t & Ht & ->)| ->].
  - by apply (slot_range d Hlw Htw).
  - unfold in_log. lia.
Qed.

Lemma inst_out y : y ∈ inst.*1 -> y ∈ blks lg /\ ~ in_log lg y.
Proof.
  unfold inst. rewrite elem_install_writes. intros (t & Ht & ->). split.
  - by apply (blk_in d Hlw Htw).
  - by destruct (blk_range d Hlw Htw t Ht) as (_ & ? & _).
Qed.

(** Before the header is written, the old contents *)
Lemma crash_before k :
  (k <= n)%nat ->
  let m := over (take k (commit_writes lg (view d))) (disk_block d) in
  head_n (m (l_start lg)) = 0 /\ forall x, ~ in_log lg x -> logical (l_start lg) m x = disk_block d x.
Proof.
  intros Hk m. assert (head_n (m (l_start lg)) = 0) as Hn.
  { unfold m, commit_writes. rewrite take_app_le by (unfold log_writes; rewrite length_fmap, length_seq; lia).
    rewrite over_notin; [done|]. intros Hx%elem_take_fst. by apply start_not_slot in Hx. }
  split; [done|]. intros x Hx. rewrite logical_empty by done. unfold m.
  rewrite commit_split, take_app_le; cycle 1.
  { unfold logged, log_writes. rewrite length_app, length_fmap, length_seq. lia. }
  apply over_notin. intros Hy%elem_take_fst%logged_in_log. done.
Qed.

(** Once it is: the header names the transaction, the log holds it. *)
Lemma logged_image :
  let m := over logged (disk_block d) in
  m (l_start lg) = h1 /\ (forall x, ~ in_log lg x -> m x = disk_block d x) /\
  forall t, (t < n)%nat -> m (slot_of lg t) = view d (lh_block lg !!! t).
Proof.
  cbv zeta. split_and!.
  - apply over_last.
  - intros x Hx. apply over_notin. intros Hy%logged_in_log. done.
  - intros t Ht. unfold logged. rewrite over_app, (over_notin [_]); cycle 1.
    { simpl. rewrite list_elem_of_singleton. unfold slot_of. lia. }
    apply over_in; [by apply slots_nodup|]. unfold log_writes. apply list_elem_of_fmap.
    exists t. split; [done|]. apply elem_of_seq. lia.
Qed.

Lemma h1_facts :
  header_wf lg (disksize d) h1 /\ head_n h1 = lh_n lg /\
  forall t, (t < n)%nat -> head_blk h1 t = lh_block lg !!! t.
Proof.
  pose proof (view_length d me [] _ (l_start lg) Hc) as Hl.
  split; [by apply header_of_txn|by apply head_of_txn].
Qed.

Lemma logged_logical x :
  ~ in_log lg x -> logical (l_start lg) (over logged (disk_block d)) x = view d x.
Proof.
  intros Hx. destruct logged_image as (Eh & Eo & Es). destruct h1_facts as (Hw & En & Eb).
  set (m := over logged (disk_block d)) in *.
  destruct (decide (x ∈ (installs (l_start lg) m).*1)) as [Hin|Hin].
  - apply elem_installs in Hin as (t & Ht & ->). rewrite Eh, En in Ht.
    rewrite (logical_in lg (disksize d)) by (rewrite Eh, ?En; done).
    rewrite Eh, Eb by done. by apply Es.
  - rewrite logical_out, Eo by done. symmetry. apply (view_clean d me (blks lg)); [done|].
    intros Hb. apply Hin, elem_installs. apply list_elem_of_lookup_1 in Hb as [t Ht].
    destruct (txn_len d Hlw Htw) as [_ El]. apply lookup_lt_Some in Ht as Hlt.
    rewrite El in Hlt. exists t. rewrite Eh, En. split; [done|]. rewrite Eb by done.
    rewrite (blk_lookup d Hlw Htw t) in Ht by done. by simplify_eq.
Qed.

Lemma inst_installs y : y ∈ inst.*1 -> y ∈ (installs (l_start lg) (over logged (disk_block d))).*1.
Proof.
  destruct logged_image as (Eh & _ & _). destruct h1_facts as (_ & En & Eb).
  unfold inst. rewrite elem_install_writes, elem_installs, Eh, En.
  intros (t & Ht & ->). exists t. by rewrite Eb.
Qed.

Lemma over_inst_start p : (forall y, y ∈ p.*1 -> y ∈ inst.*1) ->
  over p (over logged (disk_block d)) (l_start lg) = h1.
Proof.
  intros Hp. rewrite over_notin; [apply logged_image|]. intros Hy%Hp%inst_out.
  destruct Hy as [_ Hy]. apply Hy. unfold in_log. pose proof (lw_size d Hlw). lia.
Qed.

Lemma inst_image x :
  ~ in_log lg x -> over inst (over logged (disk_block d)) x = view d x.
Proof.
  intros Hx. destruct logged_image as (_ & Eo & _).
  destruct (decide (x ∈ blks lg)) as [Hb|Hb].
  - apply list_elem_of_lookup_1 in Hb as [t Ht]. apply lookup_lt_Some in Ht as Hlt.
    destruct (txn_len d Hlw Htw) as [_ El]. rewrite El in Hlt.
    rewrite (blk_lookup d Hlw Htw t Hlt) in Ht. injection Ht as <-. apply over_in.
    + unfold inst, install_writes. rewrite <- list_fmap_compose.
      apply NoDup_fmap_2_strong; [|apply NoDup_seq]. intros s s' Hs%elem_of_seq Hs'%elem_of_seq E.
      apply (blk_inj d Hlw Htw); [lia|lia|done].
    + apply list_elem_of_fmap. exists t. split; [done|]. apply elem_of_seq. lia.
  - rewrite over_notin, Eo by (done || by intros [? _]%inst_out).
    symmetry. by apply (view_clean d me (blks lg)).
Qed.

(** The disk after the whole commit *)
Lemma commit_done x :
  ~ in_log lg x -> over (commit_writes lg (view d)) (disk_block d) x = view d x.
Proof.
  intros Hx. rewrite commit_split, !over_app, (over_notin [_]); [by apply inst_image|].
  simpl. rewrite list_elem_of_singleton. intros ->. apply Hx. unfold in_log.
  pose proof (lw_size d Hlw). lia.
Qed.

Lemma commit_head : head_n (over (commit_writes lg (view d)) (disk_block d) (l_start lg)) = 0.
Proof.
  rewrite commit_split, app_assoc, over_last. apply head_of_empty, head_block_length.
  by eapply view_length.
Qed.

Lemma crash_after k :
  (n < k)%nat ->
  let m := over (take k (commit_writes lg (view d))) (disk_block d) in
  header_wf lg (disksize d) (m (l_start lg)) /\
  forall x, ~ in_log lg x -> logical (l_start lg) m x = view d x.
Proof.
  intros Hk m. subst m. rewrite commit_split. destruct h1_facts as (Hw & _).
  assert (length logged = Datatypes.S n) as El.
  { unfold logged, log_writes. rewrite length_app, length_fmap, length_seq. simpl. lia. }
  rewrite take_app_ge by lia. rewrite over_app.
  assert (forall p, (forall y, y ∈ p.*1 -> y ∈ inst.*1) ->
    forall x, ~ in_log lg x ->
    logical (l_start lg) (over p (over logged (disk_block d))) x = view d x) as Hp.
  { intros p Hp x Hx. rewrite (logical_installed lg (disksize d)).
    - by apply logged_logical.
    - by destruct logged_image as (-> & _).
    - intros y Hy%Hp%inst_out. tauto.
    - intros y Hy. by apply inst_installs, Hp. }
  destruct (take_app_cases (k - length logged) inst [(l_start lg, head_block (no_txn lg) h1)])
    as [(j & -> & _)|(j & -> & _ & Hj)].
  - assert (forall y, y ∈ (take j inst).*1 -> y ∈ inst.*1) as Hj by (intros y; apply elem_take_fst).
    split; [|by apply Hp]. rewrite over_inst_start by done. exact Hw.
  - destruct j as [|j]; [lia|]. simpl take. rewrite take_nil.
    assert (head_n (head_block (no_txn lg) h1) = 0) as E0.
    { apply head_of_empty, head_block_length. by eapply view_length. }
    destruct (lw_size d Hlw) as [Hs _].
    split; [rewrite over_last; by apply header_empty|].
    intros x Hx. rewrite logical_empty by (by rewrite over_last).
    rewrite <- over_app, <- commit_split. by apply commit_done.
Qed.
End CommitCrash.

(** ** Recovery *)

Lemma fold_log (g : nat -> logstate -> logstate) l (d : data) :
  foldl (fun d i => d <|log ::= g i|>) d l = d <|log ::= fun lg => foldl (fun lg i => g i lg) lg l|>.
Proof.
  revert d. induction l as [|i l IH]; intros d; simpl; [by destruct d|]. by rewrite IH.
Qed.

Record headed (d d' : data) (me : nat) (hd : block) : Prop := {
  hd_cache : cache d' me [] [];
  hd_log : log d' = head_log hd (log d);
  hd_size : disksize d' = disksize d;
  hd_disk : disk d' = disk d;
  hd_trace : dtrace d' = dtrace d;
  hd_view : forall x, view d' x = view d x
}.

Section Recover.
Context {Ops : BlockOps} {Dev : BlockDev} (c me : nat) (d : data).
Local Abbreviation lg := (log d).
Hypothesis Hlw : log_wf d.
Hypothesis Hc : cache d me [] [].
Local Abbreviation hd := (disk_block d (l_start (log d))).
Hypothesis Hhd : header_wf lg (disksize d) hd.

Lemma runs_read_head :
  exists d', runs c (Some me) [] read_head d tt d' [] /\ headed d d' me hd.
Proof.
  destruct (start_range d Hlw) as [Hs Hu]. pose proof (lw_size d Hlw). pose proof (hw_n _ _ _ Hhd).
  destruct (runs_bread c me d [] [] (l_start lg) Hc Hs) as (b & d1 & Hr & Ho).
  { intros b Hb. by apply not_elem_of_nil in Hb. }
  { right. unfold NBUF. simpl. lia. }
  assert (b_data (bufs d1 b) = hd) as Eb.
  { rewrite (op_data _ _ _ _ _ _ _ Ho). apply (view_clean d me [] _ Hc). apply not_elem_of_nil. }
  set (d2 := d1 <|log ::= head_log hd|>).
  assert (cache d2 me [b] []) as Hc2 by apply cache_set_log, Ho.
  destruct (cache_released d2 me b [] [] Hc2) as [Hc3 Hcl].
  { intros _. change (bufs d2 b) with (bufs d1 b). rewrite Eb. destruct (op_has _ _ _ _ _ _ _ Ho) as [_ ->].
    change (disk_block d2) with (disk_block d1).
    by rewrite (disk_block_eq d d1 (op_disk _ _ _ _ _ _ _ Ho)). }
  exists (released b d2). split.
  - unfold read_head. rstep. rewrite (lw_dev d Hlw), Hu. eapply runs_bind; [exact Hr|].
    rstep. rewrite Eb. eapply runs_bind; [apply runs_setd|].
    eapply runs_bind; [|eapply runs_brelse; [exact Hc2|left]]. eapply runs_eq.
    + apply (runs_iter c (Some me) [] _ _
        (fun i d => d <|log ::= fun lg => lg <|lh_block ::= <[i := head_blk hd i]>|>|>)).
      intros i d' Hi%elem_of_seq. fold (head_n hd) in Hi.
      rewrite (proj2 (Nat.leb_gt _ _)) by lia. apply runs_setd.
    + rewrite (fold_log (fun i lg => lg <|lh_block ::= <[i := head_blk hd i]>|>)). done.
  - split.
    + done.
    + rewrite (sr_log _ _ (cl_rest _ _ Hcl)). unfold d2. getset.
      by rewrite (sr_log _ _ (op_rest _ _ _ _ _ _ _ Ho)).
    + rewrite (sr_disksize _ _ (cl_rest _ _ Hcl)). apply (sr_disksize _ _ (op_rest _ _ _ _ _ _ _ Ho)).
    + rewrite (cl_disk _ _ Hcl). apply Ho.
    + rewrite (cl_trace _ _ Hcl). apply Ho.
    + intros x. rewrite (cl_view _ _ Hcl). apply Ho.
Qed.

Lemma head_log_facts :
  l_start (head_log hd lg) = l_start lg /\ l_size (head_log hd lg) = l_size lg /\
  l_dev (head_log hd lg) = l_dev lg /\ lh_n (head_log hd lg) = head_n hd /\
  length (lh_block (head_log hd lg)) = length (lh_block lg) /\
  forall t, (t < Z.to_nat (head_n hd))%nat -> lh_block (head_log hd lg) !!! t = head_blk hd t.
Proof.
  pose proof (lw_size d Hlw). pose proof (hw_n _ _ _ Hhd). pose proof (lw_len d Hlw) as Hl.
  apply head_log_fold. rewrite Hl. lia.
Qed.

Lemma headed_wf d' : headed d d' me hd -> log_wf d' /\ txn_wf d'.
Proof.
  intros H. destruct head_log_facts as (E1 & E2 & E3 & E4 & E5 & E6).
  pose proof (hw_n _ _ _ Hhd) as Hn. pose proof (lw_size d Hlw) as Hsz. pose proof (lw_len d Hlw) as Hl.
  assert (log_wf d') as Hlw'.
  { destruct Hlw. split; rewrite ?(hd_log _ _ _ _ H), ?(hd_size _ _ _ _ H), ?E1, ?E2, ?E3, ?E5; done. }
  assert (forall t x, blks (log d') !! t = Some x ->
    (t < Z.to_nat (head_n hd))%nat /\ x = head_blk hd t) as Hb.
  { intros t x. unfold blks. rewrite (hd_log _ _ _ _ H), E4. intros Hx.
    apply lookup_lt_Some in Hx as Hlt. rewrite length_take in Hlt.
    rewrite lookup_take_lt in Hx by lia. split; [lia|]. rewrite <- E6 by lia. symmetry.
    by apply list_lookup_total_correct. }
  split; [done|]. split.
  - rewrite (hd_log _ _ _ _ H), E2, E4. done.
  - intros x Hx. apply list_elem_of_lookup_1 in Hx as [t Ht]. destruct (Hb _ _ Ht) as [Hlt ->].
    unfold in_log. rewrite (hd_log _ _ _ _ H), (hd_size _ _ _ _ H), E1, E2.
    by apply (hw_range _ _ _ Hhd).
  - apply NoDup_alt. intros s t x Hs Ht. destruct (Hb _ _ Hs) as [Hs' ->].
    destruct (Hb _ _ Ht) as [Ht' E]. by apply (hw_inj _ _ _ Hhd).
Qed.

(** The writes of a recovery *)
Definition recover_writes : writes :=
  installs (l_start lg) (disk_block d) ++ [(l_start lg, head_block (no_txn (head_log hd lg)) hd)].

Lemma headed_installs d' :
  headed d d' me hd ->
  install_writes (log d') (fun t => view d' (slot_of (log d') t)) (Z.to_nat (lh_n (log d'))) =
  installs (l_start lg) (disk_block d).
Proof.
  intros H. destruct head_log_facts as (E1 & E2 & E3 & E4 & E5 & E6).
  unfold install_writes, installs. rewrite (hd_log _ _ _ _ H), E4. apply list_fmap_ext.
  intros i t Ht. apply lookup_seq in Ht as [-> Ht]. rewrite E6 by lia. f_equal.
  rewrite (hd_view _ _ _ _ H). unfold slot_of. rewrite E1. apply (view_clean d me [] _ Hc), not_elem_of_nil.
Qed.

Lemma installs_out y : y ∈ (installs (l_start lg) (disk_block d)).*1 -> ~ in_log lg y.
Proof. rewrite elem_installs. intros (t & Ht & ->). by apply (hw_range _ _ _ Hhd). Qed.

Lemma runs_recover :
  exists d', runs c (Some me) [] recover_from_log d tt d' [] /\
    disk d' = apply_writes recover_writes (disk d) /\
    dtrace d' = dtrace d ++ recover_writes /\
    cache d' me [] [] /\ log_wf d' /\ lh_n (log d') = 0.
Proof.
  destruct runs_read_head as (d1 & Hr1 & Hh). destruct (headed_wf d1 Hh) as [Hlw1 Htw1].
  destruct (runs_install_trans c me d1 [] Hlw1 Htw1 (hd_cache _ _ _ _ Hh)) as (d2 & Hr2 & Hw2).
  { unfold NBUF. simpl. lia. }
  { intros t _. apply not_elem_of_nil. }
  { right. unfold NBUF. simpl. lia. }
  rewrite (headed_installs d1 Hh) in Hw2. pose proof (wr_rest _ _ _ _ _ Hw2) as Hrest.
  set (d3 := d2 <|log ::= no_txn|>).
  assert (log_wf d3) as Hlw3 by (destruct (log_wf_same _ _ Hrest Hlw1); by split).
  destruct (runs_write_head c me d3 [] Hlw3) as (d4 & Hr4 & Hw4).
  { apply cache_set_log, Hw2. }
  { unfold NBUF. simpl. lia. }
  assert (log d3 = no_txn (head_log hd lg)) as El.
  { unfold d3. getset. by rewrite (sr_log _ _ Hrest), (hd_log _ _ _ _ Hh). }
  destruct head_log_facts as (E1 & _). rewrite El in Hw4.
  change (l_start (no_txn ?x)) with (l_start x) in Hw4. rewrite E1 in Hw4.
  change (view d3) with (view d2) in Hw4.
  rewrite (wr_view _ _ _ _ _ Hw2), over_notin, (hd_view _ _ _ _ Hh),
    (view_clean d me [] _ Hc (not_elem_of_nil _)) in Hw4; cycle 1.
  { intros Hy%installs_out. apply Hy. unfold in_log. pose proof (lw_size d Hlw). lia. }
  exists d4. split_and!.
  - unfold recover_from_log. eapply runs_bind; [exact Hr1|]. eapply runs_bind; [exact Hr2|].
    eapply runs_bind; [apply runs_setd|]. exact Hr4.
  - rewrite (wr_disk _ _ _ _ _ Hw4). change (disk d3) with (disk d2).
    rewrite (wr_disk _ _ _ _ _ Hw2), (hd_disk _ _ _ _ Hh). unfold recover_writes, apply_writes.
    by rewrite foldl_app.
  - rewrite (wr_trace _ _ _ _ _ Hw4). change (dtrace d3) with (dtrace d2).
    by rewrite (wr_trace _ _ _ _ _ Hw2), (hd_trace _ _ _ _ Hh), <- app_assoc.
  - apply Hw4.
  - eapply log_wf_same; [apply Hw4|done].
  - by rewrite (sr_log _ _ (wr_rest _ _ _ _ _ Hw4)), El.
Qed.

(** A crash in a recovery loses nothing. *)
Lemma recover_crash k x :
  ~ in_log lg x ->
  let m := over (take k recover_writes) (disk_block d) in
  header_wf lg (disksize d) (m (l_start lg)) /\
  logical (l_start lg) m x = logical (l_start lg) (disk_block d) x.
Proof.
  intros Hx m. subst m. unfold recover_writes.
  assert (l_start lg ∉ (installs (l_start lg) (disk_block d)).*1) as Hst.
  { intros Hy%installs_out. apply Hy. unfold in_log. pose proof (lw_size d Hlw). lia. }
  destruct (take_app_cases k (installs (l_start lg) (disk_block d))
    [(l_start lg, head_block (no_txn (head_log hd lg)) hd)]) as [(j & -> & _)|(j & -> & _ & Hj)].
  - split.
    + rewrite over_notin; [done|]. by intros Hy%elem_take_fst.
    + apply (logical_installed lg (disksize d)); [done|..]; intros y Hy%elem_take_fst; [|done].
      by apply installs_out.
  - destruct j as [|j]; [lia|]. simpl take. rewrite take_nil.
    assert (head_n (head_block (no_txn (head_log hd lg)) hd) = 0) as E0 by apply head_of_empty, Hc.
    destruct (lw_size d Hlw) as [Hs _].
    split; [rewrite over_last; by apply header_empty|].
    rewrite logical_empty by (by rewrite over_last). rewrite over_app. apply over_notin. simpl.
    rewrite list_elem_of_singleton. intros ->. apply Hx. unfold in_log. lia.
Qed.
Lemma recover_done x :
  ~ in_log lg x -> over recover_writes (disk_block d) x = logical (l_start lg) (disk_block d) x.
Proof.
  intros Hx. unfold recover_writes. rewrite over_app. apply over_notin. simpl.
  rewrite list_elem_of_singleton. intros ->. apply Hx. unfold in_log. pose proof (lw_size d Hlw). lia.
Qed.
End Recover.

(** The disk image as a function *)
Definition img (m : gmap Z block) (x : Z) : block := default zero_block (m !! x).

(** ** Booting *)

Section Init.
Context {Ops : BlockOps} {Dev : BlockDev} (c me : nat) (r : data).
Hypothesis Hc : cache r me [] [].
Local Abbreviation s := (decode_sb (disk_block r 1)).

(** The superblock describes a log that fits on the disk. *)
Record boot_wf : Prop := {
  bt_start : 1 < sb_logstart s;
  bt_size : 0 < sb_nlog s <= LOGSIZE;
  bt_end : sb_logstart s + sb_nlog s <= disksize r;
  bt_disk : disksize r < two31;
  bt_len : length (lh_block (log r)) = Z.to_nat LOGSIZE
}.
Hypothesis Hbt : boot_wf.

Definition with_sb (sb : superblock) (lg : logstate) : logstate :=
  lg <|l_start := i32 (sb_logstart sb)|> <|l_size := i32 (sb_nlog sb)|> <|l_dev := 1|>.

Lemma runs_readsb :
  exists d', runs c (Some me) [] (readsb 1) r s d' [] /\ cache d' me [] [] /\
    same_rest r d' /\ disk d' = disk r /\ dtrace d' = dtrace r.
Proof.
  destruct Hbt as [B1 B2 B3 B4 B5].
  destruct (runs_bread c me r [] [] 1 Hc) as (b & d1 & Hr & Ho); [lia|..].
  { intros b Hb. by apply not_elem_of_nil in Hb. }
  { right. unfold NBUF. simpl. lia. }
  pose proof (op_cache _ _ _ _ _ _ _ Ho) as Hc1.
  assert (b_data (bufs d1 b) = disk_block r 1) as Eb.
  { rewrite (op_data _ _ _ _ _ _ _ Ho). apply (view_clean r me [] _ Hc), not_elem_of_nil. }
  destruct (cache_released d1 me b [] [] Hc1) as [Hc2 Hcl].
  { intros _. rewrite Eb. destruct (op_has _ _ _ _ _ _ _ Ho) as [_ ->].
    by rewrite (disk_block_eq r d1 (op_disk _ _ _ _ _ _ _ Ho)). }
  exists (released b d1). split_and!; [|done|..].
  - unfold readsb. eapply runs_bind; [exact Hr|]. rstep.
    eapply runs_bind; [eapply runs_brelse; [exact Hc1|left]|]. rewrite Eb. apply runs_ret.
  - etrans; [apply Ho|apply Hcl].
  - rewrite (cl_disk _ _ Hcl). apply Ho.
  - rewrite (cl_trace _ _ Hcl). apply Ho.
Qed.

Lemma with_sb_facts lg :
  l_start (with_sb s lg) = sb_logstart s /\ l_size (with_sb s lg) = sb_nlog s.
Proof.
  destruct Hbt. unfold with_sb, LOGSIZE, MAXOPBLOCKS, two31 in *. getset.
  split; apply i32_small; unfold two31; lia.
Qed.

Lemma runs_initlog lg :
  lg = with_sb s (log r) -> header_wf lg (disksize r) (disk_block r (l_start lg)) ->
  exists r' ws, runs c (Some me) [] (initlog 1) r tt r' [] /\
    cache r' me [] [] /\ log_wf r' /\ lh_n (log r') = 0 /\
    dtrace r' = dtrace r ++ ws /\
    (forall y, y ∈ ws.*1 -> y = l_start lg \/ y ∈ (installs (l_start lg) (disk_block r)).*1) /\
    (forall k x, ~ in_log lg x -> let m := img (apply_writes (take k ws) (disk r)) in
      header_wf lg (disksize r) (m (l_start lg)) /\
      logical (l_start lg) m x = logical (l_start lg) (disk_block r) x) /\
    forall x, ~ in_log lg x -> disk_block r' x = logical (l_start lg) (disk_block r) x.
Proof.
  intros -> Hh. destruct runs_readsb as (d1 & Hr1 & Hc1 & Hrest & Hk & Ht).
  destruct (with_sb_facts (log r)) as [Es Ez]. set (d2 := d1 <|log ::= with_sb s|>).
  assert (log d2 = with_sb s (log r)) as El.
  { unfold d2. getset. by rewrite (sr_log _ _ Hrest). }
  assert (disksize d2 = disksize r) as Ed by apply (sr_disksize _ _ Hrest).
  assert (disk_block d2 = disk_block r) as Eb.
  { change (img (disk d1) = img (disk r)). by rewrite Hk. }
  assert (log_wf d2) as Hlw.
  { destruct Hbt. split; rewrite ?El, ?Ed, ?Es, ?Ez; done || lia. }
  assert (cache d2 me [] []) as Hc2 by by apply cache_set_log.
  assert (header_wf (log d2) (disksize d2) (disk_block d2 (l_start (log d2)))) as Hh2.
  { by rewrite El, Ed, Eb. }
  destruct (runs_recover c me d2 Hlw Hc2 Hh2) as (r' & Hr2 & Hd & Htr & Hc' & Hlw' & Hn).
  pose proof (recover_crash me d2 Hlw Hc2 Hh2) as Hcrash.
  pose proof (recover_done d2 Hlw) as Hdone.
  rewrite El, Ed, Eb in Hcrash. rewrite El, Eb in Hdone. change (disk d2) with (disk d1) in Hd.
  rewrite Hk in Hd. exists r', (recover_writes d2).
  split_and!; [|exact Hc'|exact Hlw'|exact Hn|..].
  - unfold initlog. replace (BSIZE <=? 4 + 4 * LOGSIZE) with false by done.
    eapply runs_bind; [apply runs_initlock, not_elem_of_nil|].
    eapply runs_bind; [exact Hr1|]. eapply runs_bind; [apply runs_setd|].
    eapply runs_bind; [apply runs_setd|]. eapply runs_bind; [apply runs_setd|]. exact Hr2.
  - rewrite Htr. change (dtrace d2) with (dtrace d1). by rewrite Ht.
  - intros y. unfold recover_writes. rewrite fmap_app, elem_of_app, El, Eb. simpl.
    rewrite list_elem_of_singleton. tauto.
  - intros k x Hx m. destruct (Hcrash k x Hx) as [H1 H2].
    assert (forall y, m y = over (take k (recover_writes d2)) (disk_block r) y) as Em
      by (intros y; apply apply_over).
    rewrite Em, (logical_ext _ _ _ _ Em). by split.
  - intros x Hx. rewrite <- (Hdone x Hx). unfold disk_block at 1. rewrite Hd. apply apply_over.
Qed.
End Init.

(** The disk of a machine that crashed after the writes [ws] of [d], and was
    booted: [binit] has run, [initlog] has not. *)
Record rebooted (d : data) (ws : writes) (r : data) (p : nat) : Prop := {
  rb_disk : disk r = apply_writes ws (disk d);
  rb_size : disksize r = disksize d;
  rb_cache : cache r p [] [];
  rb_len : length (lh_block (log r)) = Z.to_nat LOGSIZE
}.

(** The superblock is the one the log was set up from. *)
Record sb_matches (lg : logstate) (bl : block) : Prop := {
  sm_start : sb_logstart (decode_sb bl) = l_start lg;
  sm_size : sb_nlog (decode_sb bl) = l_size lg;
  sm_after : 1 < l_start lg
}.

Lemma rebooted_boot d ws r p :
  log_wf d -> rebooted d ws r p -> sb_matches (log d) (disk_block d 1) -> 1 ∉ ws.*1 ->
  boot_wf r /\ l_start (with_sb (decode_sb (disk_block r 1)) (log r)) = l_start (log d) /\
  l_size (with_sb (decode_sb (disk_block r 1)) (log r)) = l_size (log d).
Proof.
  intros [W1 W2 W3 W4 W5 W6] [B1 B2 B3 B4] [S1 S2 S3] Hn.
  assert (disk_block r 1 = disk_block d 1) as E.
  { unfold disk_block at 1. rewrite B1, apply_over. by rewrite over_notin. }
  assert (boot_wf r) as Hb by (split; rewrite ?E, ?S1, ?S2, ?B2; done || lia).
  split; [done|]. rewrite <- S1, <- S2, <- E. by apply with_sb_facts.
Qed.

Lemma header_wf_same lg lg' size hd :
  l_start lg' = l_start lg -> l_size lg' = l_size lg -> header_wf lg size hd -> header_wf lg' size hd.
Proof.
  intros E1 E2 [H1 H2 H3]. split; unfold in_log in *; rewrite ?E1, ?E2; done.
Qed.

(** The first write of the header comes after the copies to the log. *)
Definition first_header (lg : logstate) (ws : writes) (j : nat) : Prop :=
  ws.*1 !! j = Some (l_start lg) /\ l_start lg ∉ (take j ws).*1.
Lemma commit_header lg v : first_header lg (commit_writes lg v) (Z.to_nat (lh_n lg)).
Proof.
  assert (length (log_writes lg v (Z.to_nat (lh_n lg))) = Z.to_nat (lh_n lg)) as El
    by (unfold log_writes; by rewrite length_fmap, length_seq).
  unfold first_header, commit_writes. split.
  - rewrite fmap_app, lookup_app_r; rewrite length_fmap, El; [|done]. by rewrite Nat.sub_diag.
  - rewrite take_app_length' by done. rewrite elem_log_writes. intros (t & _ & E). unfold slot_of in E. lia.
Qed.

Lemma commit_writes_targets d v y :
  log_wf d -> txn_wf d -> y ∈ (commit_writes (log d) v).*1 -> in_log (log d) y \/ y ∈ blks (log d).
Proof.
  intros Hlw Htw. pose proof (lw_size d Hlw) as Hs. unfold commit_writes.
  assert (in_log (log d) (l_start (log d))) as Hst by (unfold in_log; lia).
  rewrite fmap_app, elem_of_app, elem_log_writes, fmap_cons, elem_of_cons, fmap_app, elem_of_app,
    elem_install_writes. simpl. rewrite list_elem_of_singleton.
  intros [(t & Ht & ->)|[->|[(t & Ht & ->)| ->]]]; auto.
  - left. by apply (slot_range d Hlw Htw).
  - right. by apply (blk_in d Hlw Htw).
Qed.

(** ** The theorems *)

Section Theorems.
Context {Ops : BlockOps} {Dev : BlockDev}.

(** Booting after a crash *)
Lemma rebooted_initlog d ws r c p :
  rebooted d ws r p -> log_wf d -> sb_matches (log d) (disk_block d 1) -> 1 ∉ ws.*1 ->
  header_wf (log d) (disksize d) (over ws (disk_block d) (l_start (log d))) ->
  exists r', runs c (Some p) [] (initlog 1) r tt r' [] /\
    forall x, ~ in_log (log d) x ->
      disk_block r' x = logical (l_start (log d)) (over ws (disk_block d)) x.
Proof.
  intros Hrb Hlw Hsb H1 Hh. destruct (rebooted_boot d ws r p Hlw Hrb Hsb H1) as (Hb & Es & Ez).
  destruct Hrb as [B1 B2 B3 B4].
  assert (forall y, disk_block r y = over ws (disk_block d) y) as E.
  { intros y. unfold disk_block at 1. rewrite B1. apply apply_over. }
  destruct (runs_initlog c p r B3 Hb (with_sb (decode_sb (disk_block r 1)) (log r)) eq_refl)
    as (r' & ws' & Hr & _ & _ & _ & _ & _ & _ & Hd).
  { rewrite Es, (E (l_start (log d))), B2. by apply (header_wf_same (log d)). }
  exists r'. split; [done|]. intros x Hx. rewrite Hd, Es.
  - by apply logical_ext.
  - unfold in_log in *. by rewrite Es, Ez.
Qed.

Lemma commit_crash_image me d k :
  log_wf d -> txn_wf d -> cache d me [] (blks (log d)) ->
  head_n (disk_block d (l_start (log d))) = 0 ->
  let ws := take k (commit_writes (log d) (view d)) in
  let n := Z.to_nat (lh_n (log d)) in
  header_wf (log d) (disksize d) (over ws (disk_block d) (l_start (log d))) /\
  forall x, ~ in_log (log d) x ->
    logical (l_start (log d)) (over ws (disk_block d)) x =
    if decide (k <= n)%nat then disk_block d x else view d x.
Proof.
  intros Hlw Htw Hc He ws n. case_decide as Hk.
  - destruct (crash_before d Hlw Htw He k Hk) as [E H]. split; [|done].
    destruct (lw_size d Hlw). by apply header_empty.
  - apply (crash_after me d Hlw Htw Hc k). lia.
Qed.

(** C1: a commit is atomic.  [commit] runs to completion; whichever prefix of
    the block writes it made a crash leaves on the disk, booting ([initlog])
    gives every block outside the log its old contents, or gives every one the
    contents it had in the cache, and which of the two depends only on whether
    the first write of the log header is in the prefix. *)
Theorem commit_atomic c me d :
  log_wf d -> txn_wf d -> 0 < lh_n (log d) -> cache d me [] (blks (log d)) ->
  (forall x, x ∈ blks (log d) -> pinned d x) ->
  head_n (disk_block d (l_start (log d))) = 0 ->
  sb_matches (log d) (disk_block d 1) -> 1 ∉ blks (log d) ->
  exists d' ws, runs c (Some me) [] commit d tt d' [] /\ dtrace d' = dtrace d ++ ws /\
    exists j, first_header (log d) ws j /\
    forall k r c' p, rebooted d (take k ws) r p ->
      exists r', runs c' (Some p) [] (initlog 1) r tt r' [] /\
        forall x, ~ in_log (log d) x ->
          disk_block r' x = if decide (k <= j)%nat then disk_block d x else view d x.
Proof.
  intros Hlw Htw Hn Hc Hpin He Hsb H1.
  destruct (runs_commit c me d Hlw Htw Hc Hpin Hn) as (d' & Hr & Hd & Ht & _).
  exists d', (commit_writes (log d) (view d)). split; [done|]. split; [done|].
  exists (Z.to_nat (lh_n (log d))). split; [apply commit_header|].
  intros k r c' p Hrb. destruct (commit_crash_image me d k Hlw Htw Hc He) as [Hh Hl].
  assert (1 ∉ (take k (commit_writes (log d) (view d))).*1) as Hn1.
  { intros Hx%elem_take_fst. apply commit_writes_targets in Hx as [Hx|Hx]; [|done..].
    destruct Hsb. unfold in_log in Hx. lia. }
  destruct (rebooted_initlog d _ r c' p Hrb Hlw Hsb Hn1 Hh) as (r' & Hr' & Hx).
  exists r'. split; [done|]. intros x Hxl. rewrite Hx by done. by apply Hl.
Qed.

(** C2: recovery can be interrupted.  If the machine crashes again while
    [initlog] replays the log, after any prefix of its writes, the next boot
    gives every block outside the log the contents the first one would have. *)
Theorem recovery_restartable c p r :
  cache r p [] [] -> log_wf r -> sb_matches (log r) (disk_block r 1) ->
  header_wf (log r) (disksize r) (disk_block r (l_start (log r))) ->
  1 ∉ (installs (l_start (log r)) (disk_block r)).*1 ->
  exists r' ws, runs c (Some p) [] (initlog 1) r tt r' [] /\ dtrace r' = dtrace r ++ ws /\
    forall k r2 c2 p2, rebooted r (take k ws) r2 p2 ->
      exists r2', runs c2 (Some p2) [] (initlog 1) r2 tt r2' [] /\
        forall x, ~ in_log (log r) x -> disk_block r2' x = disk_block r' x.
Proof.
  intros Hc Hlw Hsb Hh H1.
  destruct (rebooted_boot r [] r p Hlw) as (Hb & Es & Ez); [by split; [| |done|apply Hlw]|done|..].
  { apply not_elem_of_nil. }
  destruct (runs_initlog c p r Hc Hb (with_sb (decode_sb (disk_block r 1)) (log r)) eq_refl)
    as (r' & ws & Hr & _ & _ & _ & Ht & Hy & Hm & Hd).
  { rewrite Es. by apply (header_wf_same (log r)). }
  unfold in_log in Hm, Hd. rewrite Es, Ez in Hm, Hd. rewrite Es in Hy.
  exists r', ws. split; [done|]. split; [done|]. intros k r2 c2 p2 Hrb.
  assert (1 ∉ (take k ws).*1) as Hn1.
  { intros Hx%elem_take_fst. apply Hy in Hx as [Hx|Hx]; [|done]. destruct Hsb. lia. }
  assert (forall x, ~ in_log (log r) x ->
    header_wf (log r) (disksize r) (over (take k ws) (disk_block r) (l_start (log r))) /\
    logical (l_start (log r)) (over (take k ws) (disk_block r)) x = disk_block r' x) as Hx.
  { intros x Hx. destruct (Hm k x Hx) as [F1 F2]. rewrite Hd, <- F2 by done.
    unfold img in F1. rewrite apply_over in F1. split.
    - apply (header_wf_same (with_sb (decode_sb (disk_block r 1)) (log r))); done.
    - apply logical_ext. intros y. symmetry. apply apply_over. }
  destruct (rebooted_initlog r _ r2 c2 p2 Hrb Hlw Hsb Hn1) as (r2' & Hr2 & Hx2).
  { apply (Hx 1). destruct Hsb. unfold in_log. lia. }
  exists r2'. split; [done|]. intros x Hxl. rewrite Hx2 by done. by apply Hx.
Qed.
End Theorems.

(** ** A transaction of one block, and the disk that a crash leaves *)

Definition ex_sb : block := set32 (set32 zero_block 12 30) 16 2.
Definition ex_links (i : nat) (x : buf) : buf :=
  x <|b_prev := if decide (i = 0)%nat then NBUF else pred i|>
    <|b_next := if decide (i = NBUF) then 0%nat else S i|>.
Definition ex_dirty : buf := Buf DIRTY 1 40 0 0 0 None (replicate 512 7).
Definition ex_bufs (b0 : buf) : list buf := imap ex_links (b0 :: replicate NBUF inhabitant).
Definition ex_data (b0 : buf) (n : Z) (m : gmap Z block) : data :=
  (data0 0 0 1000 m) <|bcache := ex_bufs b0|>
    <|log := LogState 2 30 0 0 1 n (40 :: replicate 29 0)|>.
Definition ex_txn : data := ex_data ex_dirty 1 {[1 := ex_sb]}.
Definition ex_head : block := set32 (set32 zero_block 0 1) 4 40.
Definition ex_crashed : data :=
  ex_data inhabitant 0 (<[2 := ex_head]> (<[3 := replicate 512 7]> {[1 := ex_sb]})).

Lemma all_bufs (P : nat -> Prop) : Forall P (seq 0 NBUF) -> forall i, (i < NBUF)%nat -> P i.
Proof. intros H i Hi. rewrite Forall_forall in H. apply H, elem_of_seq. lia. Qed.

Lemma ex_other b0 n m i : (0 < i)%nat -> (i <= NBUF)%nat -> bufs (ex_data b0 n m) i = ex_links i inhabitant.
Proof.
  intros H0 Hi. unfold NBUF in Hi. do 31 (destruct i as [|i]; [done || lia|]). lia.
Qed.

Lemma ex_ring b0 n m : ring (bcache (ex_data b0 n m)) (seq 0 NBUF).
Proof. split; [done|done|]. simpl. repeat split. Qed.

Lemma ex_cache_ok b0 n m D :
  b0 = ex_dirty /\ D = [40] \/ b0 = inhabitant /\ D = [] ->
  (forall x bl, m !! x = Some bl -> length bl = 512%nat) ->
  cache (ex_data b0 n m) 0 [] D.
Proof.
  intros H0 Hm. set (d := ex_data b0 n m).
  assert (bufs d 0 = ex_links 0 b0) as E0 by done.
  assert (forall i, (i < NBUF)%nat -> i = 0%nat \/ bufs d i = ex_links i inhabitant) as Hi.
  { intros [|i] Hi; [by left|]. right. apply ex_other; lia. }
  assert (forall i, (i < NBUF)%nat -> b_dev (bufs d i) = 1 -> i = 0%nat /\ b0 = ex_dirty) as H1.
  { intros i Hlt Hd. destruct (Hi i Hlt) as [->|E]; [|by rewrite E in Hd]. split; [done|].
    rewrite E0 in Hd. destruct H0 as [[-> _]|[-> _]]; [done|]. by simpl in Hd. }
  split.
  - eexists. apply ex_ring.
  - intros i j bn Hlt Hlt' [Ei _] [Ej _]. by destruct (H1 _ Hlt Ei) as [-> _], (H1 _ Hlt' Ej) as [-> _].
  - intros i Hlt. destruct (Hi i Hlt) as [->|E]; [|rewrite E; by left].
    rewrite E0. destruct H0 as [[-> _]|[-> _]]; [by right; right|by left].
  - intros i Hlt Hd. destruct (H1 i Hlt Hd) as [-> Eb]. by rewrite E0, Eb.
  - intros i Hlt Hd. destruct (H1 i Hlt Hd) as [-> Eb]. by rewrite E0, Eb.
  - intros b Hb. by apply not_elem_of_nil in Hb.
  - intros b Hlt _. split; [|done]. destruct (Hi b Hlt) as [->|E]; [|by rewrite E].
    rewrite E0. by destruct H0 as [[-> _]|[-> _]].
  - intros b Hlt _ Hd Hf. destruct (H1 b Hlt Hd) as [-> Eb]. rewrite E0, Eb in Hf. done.
  - intros b Hlt Hf. destruct (Hi b Hlt) as [->|E]; [|by rewrite E in Hf].
    rewrite E0 in *. destruct H0 as [[-> ->]|[-> _]]; [|done]. split; [done|]. left.
  - intros bn. unfold disk_block. change (disk d) with m. destruct (m !! bn) eqn:E; [|done].
    by apply (Hm bn).
  - constructor.
Qed.

Lemma ex_log_wf b0 n m : log_wf (ex_data b0 n m).
Proof. split; unfold ex_data, LOGSIZE, MAXOPBLOCKS, two31; getset; done || lia. Qed.

Lemma ex_sb_ok b0 n m :
  m !! 1 = Some ex_sb -> sb_matches (log (ex_data b0 n m)) (disk_block (ex_data b0 n m) 1).
Proof.
  intros E. unfold disk_block. change (disk (ex_data b0 n m)) with m. rewrite E. by split.
Qed.

Lemma ex_sizes x bl :
  (<[2 := ex_head]> (<[3 := replicate 512 7]> {[1 := ex_sb]}) : gmap Z block) !! x = Some bl ->
  length bl = 512%nat.
Proof.
  rewrite !lookup_insert, lookup_singleton. repeat case_decide; intros; by simplify_eq.
Qed.

Lemma ex_txn_cache : cache ex_txn 0 [] (blks (log ex_txn)).
Proof.
  apply ex_cache_ok; [by left|]. intros x bl. rewrite lookup_singleton. case_decide; intros; by simplify_eq.
Qed.

Lemma ex_txn_wf : txn_wf ex_txn.
Proof.
  split.
  - by vm_compute.
  - intros x ->%list_elem_of_singleton. unfold in_log, ex_txn, ex_data. getset. simpl. lia.
  - apply NoDup_singleton.
Qed.

Lemma ex_txn_pinned x : x ∈ blks (log ex_txn) -> pinned ex_txn x.
Proof. intros ->%list_elem_of_singleton. exists 0%nat. split; [unfold NBUF; lia|done]. Qed.

Lemma commit_atomic_witness :
  view ex_txn 40 <> disk_block ex_txn 40 /\
  exists d' ws, runs 0 (Some 0%nat) [] commit ex_txn tt d' [] /\ dtrace d' = dtrace ex_txn ++ ws /\
    exists j, first_header (log ex_txn) ws j /\
    forall k r c' p, rebooted ex_txn (take k ws) r p ->
      exists r', runs c' (Some p) [] (initlog 1) r tt r' [] /\
        forall x, ~ in_log (log ex_txn) x ->
          disk_block r' x = if decide (k <= j)%nat then disk_block ex_txn x else view ex_txn x.
Proof.
  split; [by vm_compute|].
  apply (commit_atomic 0 0 ex_txn).
  - apply ex_log_wf.
  - apply ex_txn_wf.
  - reflexivity.
  - apply ex_txn_cache.
  - apply ex_txn_pinned.
  - reflexivity.
  - apply ex_sb_ok. reflexivity.
  - intros H%list_elem_of_singleton. discriminate.
Defined.

Lemma recovery_restartable_witness :
  exists r' ws, runs 0 (Some 0%nat) [] (initlog 1) ex_crashed tt r' [] /\
    dtrace r' = dtrace ex_crashed ++ ws /\
    forall k r2 c2 p2, rebooted ex_crashed (take k ws) r2 p2 ->
      exists r2', runs c2 (Some p2) [] (initlog 1) r2 tt r2' [] /\
        forall x, ~ in_log (log ex_crashed) x -> disk_block r2' x = disk_block r' x.
Proof.
  apply (recovery_restartable 0 0 ex_crashed).
  - apply ex_cache_ok; [by right|apply ex_sizes].
  - apply ex_log_wf.
  - apply ex_sb_ok. reflexivity.
  - split; [by vm_compute|..].
    + intros t Ht. change (t < 1)%nat in Ht. replace t with 0%nat by lia. 
      split; [by vm_compute|]. vm_compute. by intros [_ ?].
    + intros s t Hs Ht _. change (s < 1)%nat in Hs. change (t < 1)%nat in Ht. lia.
  - vm_compute. intros H%list_elem_of_singleton. discriminate.
Defined.
