(* ===== verification/Ide.v ===== *)
(** * The IDE driver (ide.c)

    A queue of buffers, linked through [qnext]: the first one is the request
    the drive is working on, the interrupt handler completes it and starts the
    next.  The controller is reached through ports: an interface [IdePorts]. *)

From S2P Require Import Prelude Params State CString Spinlock Sched Sleeplock Bio.

Definition SECTOR_SIZE : Z := 512.
Definition IDE_BSY : Z := 0x80.
Definition IDE_DRDY : Z := 0x40.
Definition IDE_DF : Z := 0x20.
Definition IDE_ERR : Z := 0x01.
Definition IDE_CMD_READ : Z := 0x20.
Definition IDE_CMD_WRITE : Z := 0x30.
Definition IDE_CMD_RDMUL : Z := 0xc4.
Definition IDE_CMD_WRMUL : Z := 0xc5.

(** [inb(0x1f7)], [outb], and the two transfers of a sector through port
    0x1f0.  [polls] bounds how often the drive answers that it is not ready. *)
Class IdePorts := {
  polls : nat;
  ide_status : K Z;
  outb : Z -> Z -> K unit;
  insl : K block;
  outsl : block -> K unit
}.

Section Ide.
Context `{IdePorts}.

Definition idewait (checkerr : bool) : K Z :=
  loop polls (fun _ =>
    r <- ide_status;;
    if negb (Z.land r (Z.lor IDE_BSY IDE_DRDY) =? IDE_DRDY) then ret (inl tt) else
    ret (inr (if checkerr && negb (Z.land r (Z.lor IDE_DF IDE_ERR) =? 0) then -1 else 0))) tt.

(** The calls to [ioapicenable] are left out. *)
Definition ideinit : K unit :=
  initlock LIde "ide";;
  idewait false;;
  outb 0x1f6 (Z.lor 0xe0 (Z.shiftl 1 4));;
  foreach (seq 0 1000) (fun _ =>
    r <- ide_status;;
    if negb (r =? 0) then setd (fun d => d <|havedisk1 := 1|>);; ret (Some tt) else ret None);;
  outb 0x1f6 (Z.lor 0xe0 (Z.shiftl 0 4)).

Definition sector_per_block : Z := BSIZE / SECTOR_SIZE.
Definition read_cmd : Z := if sector_per_block =? 1 then IDE_CMD_READ else IDE_CMD_RDMUL.
Definition write_cmd : Z := if sector_per_block =? 1 then IDE_CMD_WRITE else IDE_CMD_WRMUL.

Definition idestart (b : option nat) : K unit :=
  match b with
  | None => panic "idestart"
  | Some b =>
      bf <- get_buf b;;
      if FSSIZE <=? b_blockno bf then panic "incorrect blockno" else
      let sector := i32 (b_blockno bf * sector_per_block) in
      if 7 <? sector_per_block then panic "idestart" else
      idewait false;;
      outb 0x3f6 0;;
      outb 0x1f2 sector_per_block;;
      outb 0x1f3 (Z.land sector 0xff);;
      outb 0x1f4 (Z.land (Z.shiftr sector 8) 0xff);;
      outb 0x1f5 (Z.land (Z.shiftr sector 16) 0xff);;
      outb 0x1f6 (Z.lor (Z.lor 0xe0 (Z.shiftl (Z.land (b_dev bf) 1) 4))
                        (Z.land (Z.shiftr sector 24) 0x0f));;
      if negb (Z.land (b_flags bf) B_DIRTY =? 0) then
        outb 0x1f7 write_cmd;;
        outsl (b_data bf)
      else outb 0x1f7 read_cmd
  end.

Definition ideintr : K unit :=
  acquire LIde;;
  q <- getd idequeue;;
  match q with
  | None => release LIde
  | Some b =>
      bf <- get_buf b;;
      setd (fun d => d <|idequeue := b_qnext bf|>);;
      (if Z.land (b_flags bf) B_DIRTY =? 0 then
         r <- idewait true;;
         when (0 <=? r) (bl <- insl;; set_buf b (fun x => x <|b_data := bl|>))
       else ret tt);;
      set_buf b (fun x => x <|b_flags ::= fun f => Z.lor f B_VALID|>);;
      set_buf b (fun x => x <|b_flags ::= fun f => Z.land f (Z.lnot B_DIRTY)|>);;
      wakeup (CBuf b);;
      q <- getd idequeue;;
      when (bool_decide (q <> None)) (idestart q);;
      release LIde
  end.

(** The loop that moves [pp] to the end of the queue, and the store there. *)
Definition append (b : nat) : K unit :=
  q <- getd idequeue;;
  match q with
  | None => setd (fun d => d <|idequeue := Some b|>)
  | Some h =>
      loop (S NBUF) (fun x =>
        bx <- get_buf x;;
        match b_qnext bx with
        | Some y => ret (inl y)
        | None => set_buf x (fun bx => bx <|b_qnext := Some b|>);; ret (inr tt)
        end) h
  end.

(** [while((b->flags & (B_VALID|B_DIRTY)) != B_VALID) sleep(b, &idelock);] *)
Definition iderw_body (b : nat) (_ : unit) : K (unit + unit) :=
  bf <- get_buf b;;
  if negb (Z.land (b_flags bf) (Z.lor B_VALID B_DIRTY) =? B_VALID) then
    sleep (CBuf b) LIde;; ret (inl tt)
  else ret (inr tt).

Definition iderw (b : nat) : K unit :=
  h <- holdingsleep (SBuf b);;
  if negb h then panic "iderw: buf not locked" else
  bf <- get_buf b;;
  if Z.land (b_flags bf) (Z.lor B_VALID B_DIRTY) =? B_VALID then
    panic "iderw: nothing to do" else
  hd1 <- getd havedisk1;;
  if negb (b_dev bf =? 0) && (hd1 =? 0) then panic "iderw: ide disk 1 not present" else
  acquire LIde;;
  set_buf b (fun x => x <|b_qnext := None|>);;
  append b;;
  q <- getd idequeue;;
  when (bool_decide (q = Some b)) (idestart (Some b));;
  retry (iderw_body b);;
  release LIde.
End Ide.
