(* ===== verification/Txn.v ===== *)
(** * File-system transactions (log.c, continued)

    [begin_op], [log_write] and [end_op] as the file system uses them: the
    blocks a transaction modifies stay in the cache until its last operation
    ends, and then reach the disk together. *)

From S2P Require Import Prelude Params State CString Spinlock Sched Sleeplock Bio Cache Log.
From S2P Require Import Commit Crash.

(** ** A transaction in progress; [H] are the buffers held *)

Record txn (d : data) (me : nat) (H : list nat) : Prop := {
  tx_log : log_wf d;
  tx_wf : txn_wf d;
  tx_cache : cache d me H (blks (log d));
  tx_pinned : forall x, x ∈ blks (log d) -> pinned d x;
  tx_head : head_n (disk_block d (l_start (log d))) = 0
}.

(** What the operations of a transaction do to the log: no blocks but [xs] join
    it. *)
Record grows (xs : list Z) (lg lg' : logstate) : Prop := {
  gr_start : l_start lg' = l_start lg;
  gr_size : l_size lg' = l_size lg;
  gr_out : l_outstanding lg' = l_outstanding lg;
  gr_com : l_committing lg' = l_committing lg;
  gr_blks : forall x, x ∈ blks lg' -> x ∈ blks lg \/ x ∈ xs
}.

Lemma grows_refl xs lg : grows xs lg lg.
Proof. split; try done. by left. Qed.
Lemma grows_trans xs ys zs lg1 lg2 lg3 :
  grows xs lg1 lg2 -> grows ys lg2 lg3 -> xs ⊆ zs -> ys ⊆ zs -> grows zs lg1 lg3.
Proof.
  intros [G1 G2 G3 G4 G5] [K1 K2 K3 K4 K5] Hx Hy. split; try congruence.
  intros x [Hi|Hi]%K5; [apply G5 in Hi as [?|?]; auto|auto].
Qed.
Lemma grows_weaken xs zs lg lg' : grows xs lg lg' -> xs ⊆ zs -> grows zs lg lg'.
Proof. intros G H. by eapply grows_trans; [exact G|apply grows_refl| |]. Qed.

Lemma grows_n d d' me H H' xs :
  txn d me H -> txn d' me H' -> grows xs (log d) (log d') ->
  lh_n (log d') <= lh_n (log d) + Z.of_nat (length xs).
Proof.
  intros T T' G. destruct (txn_len d (tx_log _ _ _ T) (tx_wf _ _ _ T)) as [_ E].
  destruct (txn_len d' (tx_log _ _ _ T') (tx_wf _ _ _ T')) as [_ E'].
  pose proof (tw_n _ (tx_wf _ _ _ T)). pose proof (tw_n _ (tx_wf _ _ _ T')).
  assert (blks (log d') ⊆+ blks (log d) ++ xs) as Hs%submseteq_length.
  { apply NoDup_submseteq; [apply T'|]. intros x Hx. apply elem_of_app, (gr_blks _ _ _ G), Hx. }
  rewrite length_app in Hs. lia.
Qed.

(** The slot of a block: its own, or the first free one *)
Lemma log_slot_spec l bn i :
  (forall x, x ∈ l -> u32 x = x) ->
  (bn ∉ l /\ log_slot i l bn = (i + length l)%nat) \/
  (exists k, l !! k = Some bn /\ log_slot i l bn = (i + k)%nat).
Proof.
  revert i. induction l as [|x l IH]; intros i Hu; simpl.
  - left. split; [apply not_elem_of_nil|lia].
  - rewrite Hu by left. destruct (Z.eqb_spec x bn) as [->|Hne].
    + right. exists 0%nat. split; [done|lia].
    + destruct (IH (S i)) as [[Hn ->]|(k & Hk & ->)].
      * intros y Hy. apply Hu. by right.
      * left. split; [|lia]. rewrite not_elem_of_cons. split; [congruence|done].
      * right. exists (S k). split; [done|lia].
Qed.

Definition joined (l : list Z) (x : Z) : list Z := if decide (x ∈ l) then l else l ++ [x].

Section LogWrite.
Context (c me b : nat) (d : data) (H : list nat).
Local Abbreviation lg := (log d).
Local Abbreviation n := (Z.to_nat (lh_n (log d))).
Local Abbreviation bn := (b_blockno (bufs d b)).
Hypothesis Htx : txn d me H.
Hypothesis Hb : b ∈ H.
Hypothesis Hbn : ~ in_log lg bn.
Hypothesis Hroom : lh_n lg < l_size lg - 1.

(** The header of the log with the block in it *)
Lemma slot_update :
  let i := log_slot 0 (take n (lh_block lg)) bn in
  let lg' := (if Z.of_nat i =? lh_n lg then (lg <|lh_block ::= <[i := i32 bn]>|>) <|lh_n ::= fun n => n + 1|>
              else lg <|lh_block ::= <[i := i32 bn]>|>) in
  blks lg' = joined (blks lg) bn /\ l_start lg' = l_start lg /\ l_size lg' = l_size lg /\
  l_dev lg' = l_dev lg /\ length (lh_block lg') = length (lh_block lg) /\
  lh_n lg' = Z.of_nat (length (joined (blks lg) bn)).
Proof.
  intros i lg'. destruct (tx_log _ _ _ Htx) as [W1 W2 W3 W4 W5 W6]. pose proof (tw_n d (tx_wf _ _ _ Htx)) as Hn.
  destruct (txn_len d (tx_log _ _ _ Htx) (tx_wf _ _ _ Htx)) as [_ Hl]. fold (blks lg) in i.
  pose proof (ho_range _ _ _ (proj1 (ca_held _ _ _ _ (tx_cache _ _ _ Htx) b Hb))) as Hr.
  assert (i32 bn = bn) as Ei by (apply i32_small; lia).
  assert (forall x, x ∈ blks lg -> u32 x = x) as Hu.
  { intros x Hx. destruct (tw_range d (tx_wf _ _ _ Htx) x Hx) as [Hx' _]. apply u32_small.
    unfold two31, two32 in *. lia. }
  unfold joined. subst lg'. rewrite Ei. destruct (log_slot_spec (blks lg) bn 0 Hu) as [[Hni E]|(k & Hk & E)].
  - fold i in E. rewrite Hl in E. rewrite decide_False, length_app, Hl by done. rewrite E.
    rewrite (proj2 (Z.eqb_eq _ _)) by lia. unfold blks. getset. rewrite length_insert.
    split_and!; try done; [|simpl; lia].
    replace (Z.to_nat (lh_n lg + 1)) with (S n) by lia.
    rewrite take_S_r with (x := bn); [|apply list_lookup_insert_eq; rewrite W6; lia].
    by rewrite take_insert_ge by lia.
  - fold i in E. apply lookup_lt_Some in Hk as Hlt. rewrite Hl in Hlt.
    rewrite decide_True by (by eapply list_elem_of_lookup_2). rewrite Hl, E. simpl.
    rewrite (proj2 (Z.eqb_neq _ _)) by lia. getset. rewrite length_insert. split_and!; try done; [|lia].
    unfold blks in *. getset. rewrite list_insert_id; [done|].
    by rewrite lookup_take_lt in Hk by lia.
Qed.

Definition dirtied (x : buf) : buf := x <|b_flags ::= fun f => Z.lor f B_DIRTY|>.
Definition log_joined : logstate :=
  let i := log_slot 0 (take n (lh_block lg)) bn in
  if Z.of_nat i =? lh_n lg then (lg <|lh_block ::= <[i := i32 bn]>|>) <|lh_n ::= fun n => n + 1|>
  else lg <|lh_block ::= <[i := i32 bn]>|>.
Lemma log_joined_grows : grows [bn] lg log_joined.
Proof.
  destruct slot_update as (Eb & Es & Ez & _). fold log_joined in Eb, Es, Ez. split; try done.
  - unfold log_joined. by destruct (_ =? _).
  - unfold log_joined. by destruct (_ =? _).
  - rewrite Eb. unfold joined. case_decide; [by left|].
    intros x [?|?]%elem_of_app; [by left|by right].
Qed.

Definition log_written : data := upd_buf b dirtied (d <|log := log_joined|>).

Lemma runs_log_write :
  1 <= l_outstanding lg -> runs c (Some me) [] (log_write b) d tt log_written [].
Proof.
  intros Ho. pose proof (lw_size d (tx_log _ _ _ Htx)). unfold log_write. rstep.
  rewrite (proj2 (Z.leb_gt _ _)) by lia. rewrite (proj2 (Z.leb_gt _ _)) by lia. cbn [orb].
  rewrite (proj2 (Z.ltb_ge _ _)) by lia. rstep. rstep. rstep.
  eapply runs_bind; [apply runs_setd|].
  eapply (runs_bind _ _ _ [LLog] _ _ _ _ (d <|log := log_joined|>)); [|rstep; apply runs_release].
  unfold log_joined, when. destruct (Z.of_nat _ =? _).
  - eapply runs_eq; [apply runs_setd|done].
  - eapply runs_eq; [apply runs_ret|done].
Qed.

Lemma log_written_ok :
  txn log_written me H /\ blks (log log_written) = joined (blks lg) bn /\
  (forall x, view log_written x = view d x) /\ disk log_written = disk d /\
  dtrace log_written = dtrace d /\ b_flags (bufs log_written b) = DIRTY.
Proof.
  destruct slot_update as (Eb & Es & Ez & Ed & El & En). fold log_joined in Eb, Es, Ez, Ed, El, En.
  destruct (tx_log _ _ _ Htx) as [W1 W2 W3 W4 W5 W6]. destruct (tx_wf _ _ _ Htx) as [T1 T2 T3].
  set (d1 := d <|log := log_joined|>).
  assert (cache d1 me H (blks lg)) as Hc1 by apply (cache_set_log d me H _ (fun _ => log_joined)), Htx.
  destruct (held_facts d1 me b H _ Hc1 Hb) as (Hh & Hlt & Hlt' & _ & Hhas & Hfl).
  assert (b_flags (dirtied (bufs d1 b)) = DIRTY) as Efl.
  { unfold dirtied. getset. by destruct Hfl as [-> | ->]. }
  assert (bn ∈ joined (blks lg) bn) as Hin.
  { unfold joined. case_decide; [done|]. apply elem_of_app. right. by apply list_elem_of_singleton. }
  assert (forall x, x ∈ blks lg -> x ∈ joined (blks lg) bn) as Hsub.
  { unfold joined. intros x Hx. case_decide; [done|]. apply elem_of_app. by left. }
  assert (cache log_written me H (joined (blks lg) bn)) as Hc2.
  { apply (held_update d1 me b H (blks lg) Hc1 Hb); try done.
    - by right.
    - apply Hc1; [done|apply Hh].
    - auto. }
  assert (log log_written = log_joined) as Elog by done.
  split_and!; try done.
  - split; [split|split|..]; rewrite ?Elog, ?Eb, ?Es, ?Ez, ?Ed, ?El, ?En; try done.
    + unfold joined. case_decide; rewrite ?length_app;
        destruct (txn_len d (tx_log _ _ _ Htx) (tx_wf _ _ _ Htx)) as [_ ->]; simpl; lia.
    + intros x Hx. unfold in_log. rewrite Es, Ez. unfold joined in Hx. case_decide; [by apply T2|].
      apply elem_of_app in Hx as [Hx|Hx%list_elem_of_singleton]; [by apply T2|]. subst x.
      split; [apply Hh|done].
    + unfold joined. case_decide; [done|]. apply NoDup_app. split_and!; [done| |apply NoDup_singleton].
      intros x Hx Hy%list_elem_of_singleton. by subst.
    + intros x Hx. destruct (decide (x = bn)) as [->|Hne].
      * exists b. split; [done|]. unfold has, log_written. fold d1. by rewrite bufs_upd, decide_True.
      * assert (x ∈ blks lg) as Hx'.
        { unfold joined in Hx. case_decide; [done|].
          apply elem_of_app in Hx as [?|Hx%list_elem_of_singleton]; done. }
        destruct (tx_pinned _ _ _ Htx x Hx') as (j & Hj & Hhj & Hfj). exists j. split; [done|].
        unfold has, log_written. fold d1. rewrite bufs_upd by done.
        rewrite decide_False; [done|]. intros ->. by destruct Hhj.
    + apply Htx.
  - intros x. change log_written with (upd_buf b dirtied d1) in *.
    rewrite (view_update d1 me b H (blks lg) Hc1 Hb _ _ x Hc2) by done.
    case_decide; [|done]. subst x. symmetry. apply (view_has d me H (blks lg)); [apply Htx|done|done].
  - unfold log_written. fold d1. by rewrite bufs_upd, decide_True.
Qed.
End LogWrite.

(** ** The end of a transaction *)

Lemma no_txn_id d : lh_n (log d) = 0 -> d <|log ::= no_txn|> = d.
Proof. intros E. destruct d as [? ? ? ? ? ? ? ? ? ? ? ? ? ? ? ? ? ? ? []]. cbn in E. by subst. Qed.

Lemma runs_begin_op c me d :
  l_committing (log d) = 0 -> lh_n (log d) + (l_outstanding (log d) + 1) * MAXOPBLOCKS <= LOGSIZE ->
  runs c (Some me) [] begin_op d tt (d <|log ::= fun lg => lg <|l_outstanding ::= fun n => n + 1|>|>) [].
Proof.
  intros E Hn. unfold begin_op. rstep. apply runs_retry_exit. unfold begin_op_body. rstep.
  rewrite E. cbn [Z.eqb negb]. rewrite (proj2 (Z.ltb_ge _ _)) by done.
  eapply runs_bind; [apply runs_setd|]. rstep. apply runs_ret.
Qed.

Section EndOp.
Context {Ops : BlockOps} {Dev : BlockDev} (c me : nat) (d : data).
Local Abbreviation lg := (log d).
Hypothesis Htx : txn d me [].

Lemma txn_set_log f :
  l_start (f lg) = l_start lg -> l_size (f lg) = l_size lg -> l_dev (f lg) = l_dev lg ->
  lh_n (f lg) = lh_n lg -> lh_block (f lg) = lh_block lg -> txn (d <|log ::= f|>) me [].
Proof.
  intros E1 E2 E3 E4 E5. destruct Htx as [[] [] ? ? ?].
  assert (blks (f lg) = blks lg) as Eb by (unfold blks; by rewrite E4, E5).
  split; [split|split|..]; getset; unfold in_log; rewrite ?Eb, ?E1, ?E2, ?E3, ?E4, ?E5; try done.
  by apply cache_set_log.
Qed.

(** [commit], whether or not there is something to write *)
Lemma runs_commit_any :
  exists d', runs c (Some me) [] commit d tt d' [] /\ cache d' me [] [] /\
    same_rest (d <|log ::= no_txn|>) d' /\ head_n (disk_block d' (l_start lg)) = 0 /\
    forall x, ~ in_log lg x -> disk_block d' x = view d x.
Proof.
  destruct Htx as [Hlw Htw Hc Hp He]. destruct (decide (0 < lh_n lg)) as [Hn|Hn].
  - destruct (runs_commit c me d Hlw Htw Hc Hp Hn) as (d' & Hr & Hd & _ & Hc' & Hs).
    assert (forall x, disk_block d' x = over (commit_writes lg (view d)) (disk_block d) x) as Ed.
    { intros x. unfold disk_block at 1. rewrite Hd. apply apply_over. }
    exists d'. split_and!; try done.
    + rewrite Ed. by apply (commit_head me).
    + intros x Hx. rewrite Ed. by apply (commit_done me).
  - pose proof (tw_n d Htw). assert (lh_n lg = 0) as E by lia.
    assert (blks lg = []) as Eb by (unfold blks; by rewrite E).
    exists d. rewrite Eb in Hc. split_and!; try done.
    + unfold commit. rstep. rewrite E. apply runs_ret.
    + rewrite no_txn_id by done. done.
    + intros x Hx. symmetry. apply (view_clean d me [] x Hc), not_elem_of_nil.
Qed.

(** An operation ends while others are running. *)
Lemma runs_end_op_more :
  l_committing lg = 0 -> l_outstanding lg <> 1 ->
  runs c (Some me) [] end_op d tt
    (wakeup_data CLog (d <|log ::= fun lg => lg <|l_outstanding ::= fun n => n - 1|>|>)) [].
Proof.
  intros E Ho. unfold end_op. rstep. eapply runs_bind; [apply runs_setd|]. rstep. getset.
  rewrite E. cbn [Z.eqb negb]. rewrite (proj2 (Z.eqb_neq _ _)) by lia.
  eapply runs_bind; [rstep; rlast|]. rstep. apply runs_ret.
Qed.

End EndOp.

(** What the invariants depend on *)
Lemma cache_frame d d' me H D :
  bcache d' = bcache d -> (forall b, sl d' (SBuf b) = sl d (SBuf b)) ->
  (forall i, pid (procs d' i) = pid (procs d i)) -> disksize d' = disksize d -> disk d' = disk d ->
  cache d me H D -> cache d' me H D.
Proof.
  intros E1 E2 E3 E4 E5 [R1 R2 R3 R4 R5 R6 R7 R8 R9 R10 R11].
  assert (forall b, bufs d' b = bufs d b) as Eb by (intros b; unfold bufs; by rewrite E1).
  assert (forall x, disk_block d' x = disk_block d x) as Ed by (by apply disk_block_eq).
  assert (forall bn b, has d' bn b <-> has d bn b) as Eh by (intros bn b; unfold has; by rewrite Eb).
  split; try (by rewrite ?E1); try (by setoid_rewrite Eb); try (by setoid_rewrite Ed); [| | |].
  - intros i j bn Hi Hj. rewrite !Eh. by apply R2.
  - intros b Hb. rewrite Eb. destruct (R6 b Hb) as [[H1 H2 H3 H4 H5 H6] ?]. split; [|done].
    split; rewrite ?E1, ?E2, ?E3, ?E4, ?Eb; done.
  - intros b Hb. rewrite Eb, E2. by apply R7.
  - intros b Hb. rewrite Eb, Ed. by apply R8.
Qed.
Lemma txn_frame d d' me H :
  bcache d' = bcache d -> (forall b, sl d' (SBuf b) = sl d (SBuf b)) ->
  (forall i, pid (procs d' i) = pid (procs d i)) -> disksize d' = disksize d -> disk d' = disk d ->
  log d' = log d -> txn d me H -> txn d' me H.
Proof.
  intros E1 E2 E3 E4 E5 E6 [[L1 L2 L3 L4 L5 L6] [W1 W2 W3] T3 T4 T5].
  split; [split|split|..]; rewrite ?E6, ?E4; try done.
  - by eapply cache_frame.
  - intros x Hx. destruct (T4 x Hx) as (b & Hb & Hh & Hf). exists b.
    unfold has, bufs in *. by rewrite E1.
  - by rewrite (disk_block_eq d d' E5).
Qed.
Lemma view_frame d d' x : bcache d' = bcache d -> disk d' = disk d -> view d' x = view d x.
Proof.
  intros E1 E2. unfold view. rewrite (list_find_ext (has d' x) (has d x)).
  - destruct (list_find _ _) as [[]|]; [unfold bufs; by rewrite E1|by apply disk_block_eq].
  - intros b. unfold has, bufs. by rewrite E1.
Qed.

Lemma cache_wakeup d ch me H D : cache d me H D -> cache (wakeup_data ch d) me H D.
Proof. apply cache_frame; try done. apply (sr_wakeup d ch). Qed.

(** The last operation ends. *)
Lemma runs_end_op_last {Ops : BlockOps} {Dev : BlockDev} c me d :
  txn d me [] -> l_committing (log d) = 0 -> l_outstanding (log d) = 1 ->
  exists d', runs c (Some me) [] end_op d tt d' [] /\ txn d' me [] /\
    lh_n (log d') = 0 /\ l_outstanding (log d') = 0 /\ l_committing (log d') = 0 /\
    l_start (log d') = l_start (log d) /\ l_size (log d') = l_size (log d) /\
    forall x, ~ in_log (log d) x -> disk_block d' x = view d x /\ view d' x = view d x.
Proof.
  intros Htx E Ho.
  set (f := fun lg : logstate => lg <|l_outstanding ::= fun n => n - 1|> <|l_committing := 1|>).
  assert (txn (d <|log ::= f|>) me []) as Htx1 by by apply txn_set_log.
  destruct (runs_commit_any c me _ Htx1) as (d3 & Hr & Hc3 & Hs & He & Hx). 
  pose proof (sr_log _ _ Hs) as El.
  set (g := fun lg : logstate => lg <|l_committing := 0|>).
  set (d4 := wakeup_data CLog (d3 <|log ::= g|>)).
  assert (log d4 = (log d) <|l_outstanding := 0|> <|l_committing := 0|> <|lh_n := 0|>) as El4.
  { change (log d4) with (g (log d3)). rewrite El. unfold g, f. getset. unfold no_txn.
    destruct (log d). cbn in Ho. by subst. }
  assert (cache d4 me [] []) as Hc4 by by apply cache_wakeup, cache_set_log.
  exists d4. split_and!; try (by rewrite El4).
  - unfold end_op. rstep. eapply runs_bind; [apply runs_setd|]. rstep. getset.
    rewrite E, Ho. cbn [Z.eqb negb Z.sub Z.add Z.opp Z.pos_sub].
    eapply runs_bind; [eapply runs_bind; [apply runs_setd|]; apply runs_ret|]. rstep.
    apply runs_when_true. eapply runs_bind; [exact Hr|]. rstep.
    eapply runs_bind; [apply runs_setd|]. rstep. eapply runs_eq; [rlast|done].
  - destruct Htx as [[] [] ? ? ?].
    assert (blks (log d4) = []) as Eb by by rewrite El4.
    assert (disksize d4 = disksize d) as Edd by apply (sr_disksize _ _ Hs).
    split; [split|split|..]; rewrite ?Eb, ?El4, ?Edd; getset; try done || lia.
    + intros x Hx'. by apply not_elem_of_nil in Hx'.
    + constructor.
    + intros x Hx'. by apply not_elem_of_nil in Hx'.
  - intros x Hxl. rewrite (view_clean d4 me [] x Hc4) by apply not_elem_of_nil.
    split; apply (Hx x Hxl).
Qed.

(** ** The protocol of log.c: [bread], modify, [log_write], [brelse] *)

Definition update_block (x : Z) (f : block -> block) `{BlockOps} : K unit :=
  b <- bread 1 x;;
  set_buf b (fun y => y <|b_data ::= f|>);;
  log_write b;;
  brelse b.

Lemma txn_same d d' me H H' :
  txn d me H -> same_rest d d' -> disk d' = disk d -> cache d' me H' (blks (log d)) ->
  (forall x, pinned d' x <-> pinned d x) -> txn d' me H'.
Proof.
  intros [T1 T2 T3 T4 T5] Hr Hd Hc Hp. pose proof (sr_log _ _ Hr) as El.
  split; rewrite ?El; [by eapply log_wf_same|by eapply txn_wf_same|done| |].
  - intros x Hx. by apply Hp, T4.
  - by rewrite (disk_block_eq d d' Hd).
Qed.

(** Everything but the cache, the disk and the log *)
Record same_but_log (d d' : data) : Prop := {
  sl_rest : rest (d' <|log := log d|>) = rest d;
  sl_pid : forall i, pid (procs d' i) = pid (procs d i);
  sl_inode : forall n, sl d' (SInode n) = sl d (SInode n)
}.
#[global] Instance same_but_log_preorder : PreOrder same_but_log.
Proof.
  split; [by intros []; split|]. intros d1 d2 d3 [H1 H2 H3] [H4 H5 H6]. split.
  - change (rest (d3 <|log := log d1|>)) with ((rest (d3 <|log := log d2|>)) <|log := log d1|>).
    by rewrite H4.
  - intros i. by rewrite H5.
  - intros n. by rewrite H6.
Qed.
Lemma sl_same_rest d d' : same_rest d d' -> same_but_log d d'.
Proof.
  intros [E1 E2 E3]. split; [|done|done]. rewrite <- E1. rewrite <- (sr_log d d') by done. by destruct d'.
Qed.
Lemma sl_log d f : same_but_log d (d <|log ::= f|>).
Proof. by destruct d. Qed.
Lemma sl_sb d d' : same_but_log d d' -> sb d' = sb d.
Proof. intros [H _ _]. exact (f_equal sb H). Qed.
Lemma sl_disksize d d' : same_but_log d d' -> disksize d' = disksize d.
Proof. intros [H _ _]. exact (f_equal disksize H). Qed.
Lemma sl_icache d d' : same_but_log d d' -> icache d' = icache d.
Proof. intros [H _ _]. exact (f_equal icache H). Qed.

Lemma no_held d x j : j ∈ [] -> b_blockno (bufs d j) <> x.
Proof. by intros ?%not_elem_of_nil. Qed.
#[export] Hint Resolve no_held : runs.

(** A buffer that is held is modified, logged and given back. *)
Section HeldWrite.
Context (c me : nat) (d : data) (H : list nat) (b : nat) (f : block -> block).
Local Abbreviation lg := (log d).
Local Abbreviation x := (b_blockno (bufs d b)).
Hypothesis Htx : txn d me (b :: H).
Hypothesis Hout : ~ in_log lg x.
Hypothesis Hroom : lh_n lg < l_size lg - 1.
Hypothesis Hop : 1 <= l_outstanding lg.
Hypothesis Hf : forall bl, length bl = 512%nat -> length (f bl) = 512%nat.

Definition modified : data := upd_buf b (fun y => y <|b_data ::= f|>) d.

Lemma modified_ok :
  txn modified me (b :: H) /\ b_data (bufs d b) = view d x /\
  (forall j, b_blockno (bufs modified j) = b_blockno (bufs d j)) /\
  forall y, view modified y = if decide (y = x) then f (view d x) else view d y.
Proof.
  pose proof (tx_cache _ _ _ Htx) as Hc.
  destruct (held_facts d me b (b :: H) (blks lg) Hc ltac:(left)) as (Hh & Hlt & Hlt' & _ & Hhas & _).
  pose proof (view_has _ _ _ _ _ _ Hc Hlt Hhas) as Ev.
  assert (length (f (view d x)) = 512%nat) as Hlen.
  { apply Hf. rewrite Ev. apply (ca_data _ _ _ _ Hc); [done|apply Hh]. }
  destruct (held_store d me b (b :: H) (blks lg) Hc ltac:(left) _ Hlen) as [Hc2 Hv2].
  assert (upd_buf b (fun y => y <|b_data := f (view d x)|>) d = modified) as Eu.
  { apply upd_buf_ext. intros y ->. rewrite Ev. by destruct (bufs d b). }
  rewrite Eu in Hc2, Hv2.
  assert (forall j, let y := bufs modified j in
    b_flags y = b_flags (bufs d j) /\ b_dev y = b_dev (bufs d j) /\
    b_blockno y = b_blockno (bufs d j)) as Eb.
  { intros j. unfold modified. rewrite bufs_upd by done. by case_decide. }
  split_and!; [|done|intros j; apply Eb|done].
  apply (txn_same d _ me (b :: H)); [done|apply sr_upd_buf|done|done|].
  intros y. apply pinned_same. intros j _ _. by destruct (Eb j) as (-> & -> & ->).
Qed.

Definition logged : data := log_written b modified.

Lemma runs_held_write :
  runs c (Some me) [] (log_write b) modified tt logged [] /\
  runs c (Some me) [] (brelse b) logged tt (released b logged) [] /\
  txn (released b logged) me H /\ grows [x] lg (log (released b logged)) /\
  same_but_log d (released b logged) /\ disk (released b logged) = disk d /\
  (forall j, j ∈ H -> b_blockno (bufs (released b logged) j) = b_blockno (bufs d j)) /\
  forall y, view (released b logged) y = if decide (y = x) then f (view d x) else view d y.
Proof.
  destruct modified_ok as (Htx2 & _ & Ebn & Hv).
  assert (b ∈ b :: H) as Hin by left. pose proof (Ebn b) as Ex.
  assert (~ in_log (log modified) (b_blockno (bufs modified b))) as Hout2 by by rewrite Ex.
  pose proof (runs_log_write c me b modified (b :: H) Htx2 Hin Hout2 Hroom Hop) as Hr3.
  destruct (log_written_ok me b modified (b :: H) Htx2 Hin Hout2 Hroom) as (Htx3 & Eb3 & Hv3 & Hd3 & _ & Hfl).
  pose proof (log_joined_grows me b modified (b :: H) Htx2 Hin Hroom) as Hg. rewrite Ex in Hg.
  change (log_joined b modified) with (log logged) in Hg. fold logged in Htx3, Eb3, Hv3, Hd3, Hfl, Hr3.
  pose proof (tx_cache _ _ _ Htx3) as Hc3.
  destruct (cache_released logged me b H (blks (log logged)) Hc3) as [Hc4 Hcl].
  { by rewrite Hfl. }
  split_and!.
  - done.
  - eapply runs_brelse; [exact Hc3|left].
  - apply (txn_same logged _ me (b :: H)); [done|apply Hcl|apply Hcl|done|].
    intros y. by apply pinned_closed.
  - by rewrite (sr_log _ _ (cl_rest _ _ Hcl)).
  - etrans; [apply sl_same_rest, sr_upd_buf|]. etrans; [|apply sl_same_rest, Hcl].
    etrans; [apply (sl_log modified (fun _ => log_joined b modified))|apply sl_same_rest, sr_upd_buf].
  - by rewrite (cl_disk _ _ Hcl), Hd3.
  - intros j Hj. destruct (held_facts logged me j (b :: H) _ Hc3 ltac:(by right)) as (_ & Hlt & _).
    destruct (cl_bufs _ _ Hcl j Hlt) as (_ & _ & -> & _). rewrite <- Ebn.
    destruct (held_facts modified me b (b :: H) _ (tx_cache _ _ _ Htx2) Hin) as (_ & _ & Hb & _).
    unfold logged, log_written. rewrite bufs_upd by done. by case_decide.
  - intros y. by rewrite (cl_view _ _ Hcl), Hv3.
Qed.
End HeldWrite.

Section Update.
Context {Ops : BlockOps} {Dev : BlockDev} (c me : nat) (d : data) (H : list nat) (x : Z) (f : block -> block).
Local Abbreviation lg := (log d).
Hypothesis Htx : txn d me H.
Hypothesis Hone : (length H <= 1)%nat.
Hypothesis Hheld : forall j, j ∈ H -> b_blockno (bufs d j) <> x.
Hypothesis Hx : 0 <= x < disksize d.
Hypothesis Hout : ~ in_log lg x.
Hypothesis Hroom : lh_n lg < l_size lg - 1.
Hypothesis Hop : 1 <= l_outstanding lg.
Hypothesis Hf : forall bl, length bl = 512%nat -> length (f bl) = 512%nat.

(** The buffer, held *)
Lemma runs_hold :
  exists b d1, runs c (Some me) [] (bread 1 x) d b d1 [] /\ txn d1 me (b :: H) /\
    opened d d1 me b x H (blks lg).
Proof.
  pose proof (tx_cache _ _ _ Htx) as Hc. destruct (txn_len d (tx_log _ _ _ Htx) (tx_wf _ _ _ Htx)) as [Hn El].
  destruct (runs_bread c me d H (blks lg) x Hc Hx) as (b & d1 & Hr & Ho).
  { intros b Hb [_ Hb']. by apply (Hheld b). }
  { right. pose proof (lw_size _ (tx_log _ _ _ Htx)). unfold LOGSIZE, MAXOPBLOCKS, NBUF in *. lia. }
  exists b, d1. split; [done|]. split; [|done].
  apply (txn_same d _ me H); [done|apply Ho|apply Ho|apply Ho|apply Ho].
Qed.

Lemma runs_update_parts :
  exists b d1 d', runs c (Some me) [] (bread 1 x) d b d1 [] /\ b_data (bufs d1 b) = view d x /\
    same_rest d d1 /\
    runs c (Some me) [] (set_buf b (fun y => y <|b_data ::= f|>);; log_write b;; brelse b) d1 tt d' [] /\
    txn d' me H /\ grows [x] lg (log d') /\ same_but_log d d' /\ disk d' = disk d /\
    (forall j, j ∈ H -> b_blockno (bufs d' j) = b_blockno (bufs d j)) /\
    forall y, view d' y = if decide (y = x) then f (view d x) else view d y.
Proof.
  destruct runs_hold as (b & d1 & Hr1 & Htx1 & Ho). pose proof (op_rest _ _ _ _ _ _ _ Ho) as Hsr.
  pose proof (sr_log _ _ Hsr) as El. assert (b_blockno (bufs d1 b) = x) as Ebn by apply Ho.
  destruct (runs_held_write c me d1 H b f Htx1) as (Hr2 & Hr3 & Htx3 & Hg & Hs & Hd & Hk & Hv);
    rewrite ?El, ?Ebn in *; try done.
  exists b, d1, (released b (logged d1 b f)). split; [done|]. split; [apply Ho|]. split; [done|]. split_and!.
  - rstep. eapply runs_bind; [exact Hr2|exact Hr3].
  - done.
  - done.
  - etrans; [apply sl_same_rest, Hsr|done].
  - rewrite Hd. apply Ho.
  - intros j Hj. rewrite Hk by done. by rewrite (op_held _ _ _ _ _ _ _ Ho).
  - intros y. rewrite Hv, !(op_view _ _ _ _ _ _ _ Ho). done.
Qed.

Lemma runs_update_block :
  exists d', runs c (Some me) [] (update_block x f) d tt d' [] /\ txn d' me H /\
    grows [x] lg (log d') /\ same_but_log d d' /\ disk d' = disk d /\
    (forall j, j ∈ H -> b_blockno (bufs d' j) = b_blockno (bufs d j)) /\
    forall y, view d' y = if decide (y = x) then f (view d x) else view d y.
Proof.
  destruct runs_update_parts as (b & d1 & d' & Hr1 & _ & _ & Hr2 & Hu). exists d'. split; [|done].
  unfold update_block. by eapply runs_bind.
Qed.
End Update.

(** A group of updates between [begin_op] and [end_op] *)
Abbreviation updates := (list (Z * (block -> block))).

Definition transaction (us : updates) `{BlockOps} : K unit :=
  begin_op;;
  iter us (fun u => update_block u.1 u.2);;
  end_op.

Definition updated (us : updates) (g : Z -> block) : Z -> block :=
  foldl (fun g u y => if decide (y = u.1) then u.2 (g u.1) else g y) g us.

Lemma updated_ext us f g y : (forall x, f x = g x) -> updated us f y = updated us g y.
Proof.
  revert f g. induction us as [|u us IH]; intros f g E; simpl; [done|]. apply IH.
  intros x. case_decide; by rewrite E.
Qed.

Definition update_ok (d : data) (u : Z * (block -> block)) : Prop :=
  0 <= u.1 < disksize d /\ ~ in_log (log d) u.1 /\
  forall bl, length bl = 512%nat -> length (u.2 bl) = 512%nat.

Lemma runs_updates {Ops : BlockOps} {Dev : BlockDev} c me us : forall d,
  txn d me [] -> Forall (update_ok d) us -> 1 <= l_outstanding (log d) ->
  lh_n (log d) + Z.of_nat (length us) < l_size (log d) ->
  exists d', runs c (Some me) [] (iter us (fun u => update_block u.1 u.2)) d tt d' [] /\ txn d' me [] /\
    l_outstanding (log d') = l_outstanding (log d) /\ l_committing (log d') = l_committing (log d) /\
    l_start (log d') = l_start (log d) /\ l_size (log d') = l_size (log d) /\ disk d' = disk d /\
    forall y, view d' y = updated us (view d) y.
Proof.
  induction us as [|u us IH]; intros d Htx Hus Ho Hn; simpl.
  - exists d. split_and!; try done. apply runs_ret.
  - apply Forall_cons in Hus as [(U1 & U2 & U3) Hus]. simpl in Hn.
    destruct (runs_update_block c me d [] u.1 u.2 Htx ltac:(simpl; lia) (no_held d u.1) U1 U2 ltac:(lia) Ho U3)
      as (d1 & Hr1 & Htx1 & Hg & Ed & Ek & _ & Hv).
    pose proof (grows_n _ _ _ _ _ _ Htx Htx1 Hg) as Hn1. simpl in Hn1.
    destruct Hg as [G1 G2 G3 G4 _].
    destruct (IH d1 Htx1) as (d2 & Hr2 & Htx2 & F1 & F2 & F3 & F4 & F5 & F6).
    { eapply Forall_impl; [exact Hus|]. intros u' (V1 & V2 & V3).
      unfold update_ok, in_log. by rewrite (sl_disksize _ _ Ed), G1, G2. }
    { by rewrite G3. }
    { rewrite G2. lia. }
    exists d2. split_and!; try congruence.
    + by eapply runs_bind.
    + intros y. rewrite F6. by apply updated_ext.
Qed.

(** C3: what a transaction writes reaches the disk, and nothing else does.  A
    group of block updates, each made the way log.c documents ([bread], modify,
    [log_write], [brelse]), between [begin_op] and [end_op] on an idle log runs
    to completion; then the log is idle again and every block of the disk
    outside the log has the contents the updates, in order, give it. *)
Theorem transaction_durable {Ops : BlockOps} {Dev : BlockDev} c me d us :
  txn d me [] -> lh_n (log d) = 0 -> l_outstanding (log d) = 0 -> l_committing (log d) = 0 ->
  Forall (update_ok d) us -> Z.of_nat (length us) < l_size (log d) ->
  exists d', runs c (Some me) [] (transaction us) d tt d' [] /\
    txn d' me [] /\ lh_n (log d') = 0 /\ l_outstanding (log d') = 0 /\ l_committing (log d') = 0 /\
    forall y, ~ in_log (log d) y -> disk_block d' y = updated us (disk_block d) y.
Proof.
  intros Htx En Eo Ec Hus Hlen.
  set (f := fun lg : logstate => lg <|l_outstanding ::= fun n => n + 1|>).
  assert (txn (d <|log ::= f|>) me []) as Htx1 by by apply txn_set_log.
  destruct (runs_updates c me us (d <|log ::= f|>) Htx1) as (d2 & Hr2 & Htx2 & F1 & F2 & F3 & F4 & F5 & F6).
  { done. }
  { unfold f. getset. lia. }
  { unfold f. getset. lia. }
  unfold f in F1, F2, F3, F4. getset_in F1. getset_in F2. getset_in F3. getset_in F4.
  destruct (runs_end_op_last c me d2 Htx2) as (d3 & Hr3 & Htx3 & H1 & H2 & H3 & _ & _ & Hx).
  { congruence. }
  { rewrite F1. lia. }
  exists d3. split_and!; try done.
  - assert (lh_n (log d) + (l_outstanding (log d) + 1) * MAXOPBLOCKS <= LOGSIZE) as Hroom.
    { rewrite En, Eo. unfold LOGSIZE, MAXOPBLOCKS. lia. }
    unfold transaction. eapply runs_bind; [by apply runs_begin_op|].
    eapply runs_bind; [exact Hr2|exact Hr3].
  - intros y Hy. destruct (Hx y) as [-> _]. { unfold in_log in *. by rewrite F3, F4. }
    rewrite F6. apply updated_ext. intros x. change (view (d <|log ::= f|>) x) with (view d x).
    assert (blks (log d) = []) as Eb by (unfold blks; by rewrite En).
    apply (view_clean d me (blks (log d))); [apply Htx|]. rewrite Eb. apply not_elem_of_nil.
Qed.

(** An idle log, and two updates of one block *)
Definition ex_idle : data := ex_data inhabitant 0 {[1 := ex_sb]}.

Lemma ex_txn_ok m :
  (forall x bl, m !! x = Some bl -> length bl = 512%nat) ->
  head_n (disk_block (ex_data inhabitant 0 m) 2) = 0 -> txn (ex_data inhabitant 0 m) 0 [].
Proof.
  intros Hm Hh. split; [apply ex_log_wf|split; [by vm_compute| |constructor]|..].
  - intros x Hx. by apply not_elem_of_nil in Hx.
  - apply ex_cache_ok; [by right|done].
  - intros x Hx. by apply not_elem_of_nil in Hx.
  - exact Hh.
Qed.
Lemma ex_idle_txn : txn ex_idle 0 [].
Proof.
  apply ex_txn_ok; [|by vm_compute]. intros x bl. rewrite lookup_singleton.
  case_decide; intros; by simplify_eq.
Qed.

Lemma transaction_durable_witness :
  let us := [(40, fun _ => replicate 512 7); (41, fun bl => bl)] in
  updated us (disk_block ex_idle) 40 = replicate 512 7 /\
  exists d', runs 0 (Some 0%nat) [] (transaction us) ex_idle tt d' [] /\
    txn d' 0 [] /\ lh_n (log d') = 0 /\ l_outstanding (log d') = 0 /\ l_committing (log d') = 0 /\
    forall y, ~ in_log (log ex_idle) y -> disk_block d' y = updated us (disk_block ex_idle) y.
Proof.
  intros us. split; [reflexivity|].
  apply (transaction_durable 0 0 ex_idle us);
    [apply ex_idle_txn|reflexivity|reflexivity|reflexivity| |reflexivity].
  repeat constructor; simpl; try done; vm_compute; by intros [_ ?].
Defined.

(** ** More operations than the log has room for *)

(** A full log: [l] are the blocks in it. *)
Record filled (d : data) (l : list Z) : Prop := {
  fi_n : lh_n (log d) = Z.of_nat (length l);
  fi_blks : take (length l) (lh_block (log d)) = l;
  fi_len : length (lh_block (log d)) = Z.to_nat LOGSIZE;
  fi_size : l_size (log d) = LOGSIZE;
  fi_out : 1 <= l_outstanding (log d)
}.

Lemma runs_log_write_new c me b d l :
  filled d l -> Forall (fun x => 0 <= x < two31) l -> 0 <= b_blockno (bufs d b) < two31 ->
  b_blockno (bufs d b) ∉ l -> Z.of_nat (length l) < LOGSIZE - 1 ->
  exists d', runs c (Some me) [] (log_write b) d tt d' [] /\
    filled d' (l ++ [b_blockno (bufs d b)]) /\ forall x, b_blockno (bufs d' x) = b_blockno (bufs d x).
Proof.
  intros [Hn Hb Hl Hs Ho] Hr Hbn Hni Hlt. unfold LOGSIZE in *.
  assert (Z.to_nat (lh_n (log d)) = length l) as En by lia.
  assert (log_slot 0 l (b_blockno (bufs d b)) = length l) as Ei.
  { destruct (log_slot_spec l (b_blockno (bufs d b)) 0) as [[_ ->]|(k & Hk & _)]; [|lia|].
    - intros x Hx. rewrite Forall_forall in Hr. apply u32_small. specialize (Hr x Hx).
      unfold two31, two32 in *. lia.
    - by apply list_elem_of_lookup_2 in Hk. }
  exists (log_written b d). unfold log_written, log_joined. rewrite En, Hb, Ei, Hn, Z.eqb_refl.
  split_and!.
  - unfold log_write. rstep. rewrite Hn, Hs. unfold LOGSIZE.
    rewrite (proj2 (Z.leb_gt _ _)) by lia. rewrite (proj2 (Z.leb_gt _ _)) by lia. cbn [orb].
    rewrite (proj2 (Z.ltb_ge _ _)) by lia. rstep. rstep. rstep. rewrite En, Hb, Ei, Hn, Z.eqb_refl.
    eapply runs_bind; [apply runs_setd|]. eapply runs_bind; [apply runs_setd|]. rstep. apply runs_release.
  - unfold upd_buf. split; getset; rewrite ?length_app, ?length_insert; try done; simpl; try lia.
    rewrite Nat.add_1_r, (take_S_r _ _ (b_blockno (bufs d b))).
    + by rewrite take_insert_ge, Hb by lia.
    + rewrite i32_small by (unfold two31 in *; lia). apply list_lookup_insert_eq. lia.
  - intros x. unfold bufs, upd_buf. getset.
    rewrite list_lookup_total_alter. case_decide as H; [|done]. by destruct H as [-> _].
Qed.

Lemma panics_log_write_full c me b d l :
  filled d l -> LOGSIZE - 1 <= Z.of_nat (length l) ->
  panics c (Some me) [] (log_write b) d "too big a transaction".
Proof.
  intros [Hn _ _ Hs _] Hge. unfold log_write. pstep. rewrite Hn, Hs.
  rewrite (proj2 (Z.leb_le (_ - 1) _)) by lia. rewrite orb_true_r. apply panics_panic.
Qed.

Lemma panics_log_writes c me bs : forall d l,
  filled d l -> Forall (fun x => 0 <= x < two31) (l ++ (b_blockno ∘ bufs d <$> bs)) ->
  NoDup (l ++ (b_blockno ∘ bufs d <$> bs)) -> LOGSIZE <= Z.of_nat (length l + length bs) ->
  Z.of_nat (length l) < LOGSIZE ->
  panics c (Some me) [] (iter bs log_write) d "too big a transaction".
Proof.
  induction bs as [|b bs IH]; intros d l Hf Hr Hnd Hlen Hlt; simpl in Hlen; [lia|].
  cbn [iter]. destruct (decide (LOGSIZE - 1 <= Z.of_nat (length l))).
  { by eapply panics_bind, panics_log_write_full. }
  simpl in Hr, Hnd. apply Forall_app in Hr as Hr'. destruct Hr' as [Hr1 [Hr2 _]%Forall_cons].
  apply NoDup_app in Hnd as Hnd'. destruct Hnd' as (_ & Hni & _).
  destruct (runs_log_write_new c me b d l) as (d' & Hrun & Hf' & Hb'); try done; [|lia|].
  { intros Hin. apply (Hni _ Hin). left. }
  eapply runs_panics; [exact Hrun|].
  assert (b_blockno ∘ bufs d' <$> bs = b_blockno ∘ bufs d <$> bs) as Eb.
  { apply list_fmap_ext. intros i x _. apply Hb'. }
  apply (IH d' _ Hf'); rewrite ?Eb, <- ?app_assoc; try done; rewrite length_app; simpl; lia.
Qed.

(** A log with nothing in it, and nobody using it *)
Definition idle_log (lg : logstate) : Prop :=
  lh_n lg = 0 /\ l_outstanding lg = 0 /\ l_committing lg = 0.

(** C35: The room that [begin_op] reserves is not there.  On an idle log of
    LOGSIZE blocks, one of them for the header, three operations are let in
    although they may write LOGSIZE blocks between them: when they do,
    [log_write] panics. *)
Theorem log_overcommit c me d bs :
  idle_log (log d) -> l_size (log d) = LOGSIZE -> length (lh_block (log d)) = Z.to_nat LOGSIZE ->
  length bs = (3 * Z.to_nat MAXOPBLOCKS)%nat ->
  NoDup (b_blockno ∘ bufs d <$> bs) -> Forall (fun b => 0 <= b_blockno (bufs d b) < two31) bs ->
  panics c (Some me) [] (begin_op;; begin_op;; begin_op;; iter bs log_write) d "too big a transaction".
Proof.
  intros (Hn & Ho & Hc) Hs Hl Hlen Hnd Hr.
  assert (forall d k, lh_n (log d) = 0 -> l_committing (log d) = 0 -> l_outstanding (log d) = k -> k <= 2 ->
    runs c (Some me) [] begin_op d tt (d <|log ::= fun lg => lg <|l_outstanding ::= fun n => n + 1|>|>) [])
    as Hb.
  { intros e k E1 E2 E3 Hk. apply runs_begin_op; [done|]. unfold LOGSIZE, MAXOPBLOCKS. lia. }
  eapply runs_panics; [by eapply (Hb _ 0)|]. eapply runs_panics; [eapply (Hb _ 1); getset; lia|].
  eapply runs_panics; [eapply (Hb _ 2); getset; lia|].
  apply (panics_log_writes c me bs _ []); try done.
  - split; getset; try done. lia.
  - rewrite app_nil_l. apply Forall_fmap. exact Hr.
  - unfold LOGSIZE, MAXOPBLOCKS in *. simpl. lia.
Qed.

(** Thirty buffers with blocks of their own *)
Definition ex_full : data :=
  ex_idle <|bcache ::= imap (fun i b => b <|b_blockno := Z.of_nat i|>)|>.

Lemma log_overcommit_witness :
  panics 0 (Some 0%nat) [] (begin_op;; begin_op;; begin_op;; iter (seq 0 NBUF) log_write) ex_full
    "too big a transaction".
Proof.
  apply (log_overcommit 0 0 ex_full (seq 0 NBUF)); try reflexivity.
  - by split_and!.
  - apply (bool_decide_unpack _); vm_compute; exact I.
  - apply (bool_decide_unpack _); vm_compute; exact I.
Defined.
