(* ===== verification/Fs.v ===== *)
(** * The file system (fs.c)

    Disk blocks, inodes, directories and path names, over the log and the
    buffer cache.  The device switch of file.h is an interface: the console
    is the only device. *)

From S2P Require Import Prelude Params State CString Spinlock Printk Sched Sleeplock.
From S2P Require Import Kalloc Vm Usercopy Bio Log.

Definition i16 (z : Z) : Z := (z + 32768) mod 65536 - 32768.

Definition inodes (d : data) (i : nat) : inode := icache d !!! i.
Definition get_inode (ip : nat) : K inode := getd (fun d => inodes d ip).
Definition upd_inode (ip : nat) (f : inode -> inode) (d : data) : data :=
  d <|icache ::= alter f ip|>.
Definition set_inode (ip : nat) (f : inode -> inode) : K unit := setd (upd_inode ip f).

(** Where [readi] puts the bytes and [writei] takes them from: a user address
    or a kernel buffer. *)
Inductive dest : Type := ToUser (a : Z) | ToKernel.
Inductive source : Type := FromUser (a : Z) | FromKernel (bs : list Z).

Definition dest_adv (t : dest) (m : Z) : dest :=
  match t with ToUser a => ToUser (u32 (a + m)) | ToKernel => ToKernel end.
Definition source_adv (s : source) (m : Z) : source :=
  match s with
  | FromUser a => FromUser (u32 (a + m))
  | FromKernel bs => FromKernel (drop (Z.to_nat m) bs)
  end.

(** [struct devsw]: a device's entries may be null.  A read returns the count
    and, for a kernel buffer, the bytes. *)
Class DevOps := {
  dev_read : Z -> option (nat -> dest -> Z -> K (Z * list Z));
  dev_write : Z -> option (nat -> source -> Z -> K Z)
}.

(** ** On-disk inodes and bitmap *)

Record dinode := Dinode {
  d_type : Z; d_major : Z; d_minor : Z; d_nlink : Z; d_size : Z; d_addrs : list Z
}.

Definition word_at (bl : block) (off : Z) (i : nat) : Z := get32 bl (off + 4 * Z.of_nat i).

Definition decode_dinode (bl : block) (slot : Z) : dinode :=
  let o := slot * DINODESIZE in
  Dinode (i16 (get16 bl o)) (i16 (get16 bl (o + 2))) (i16 (get16 bl (o + 4)))
    (i16 (get16 bl (o + 6))) (get32 bl (o + 8))
    (word_at bl (o + 12) <$> seq 0 (Z.to_nat (NDIRECT + 1))).

Definition encode_dinode (di : dinode) : list Z :=
  le16 (d_type di) ++ le16 (d_major di) ++ le16 (d_minor di) ++ le16 (d_nlink di)
  ++ le32 (d_size di) ++ mjoin (le32 <$> d_addrs di).

Definition dinode_of (ip : inode) : dinode :=
  Dinode (itype ip) (imajor ip) (iminor ip) (inlink ip) (isize ip) (iaddrs ip).

Definition IBLOCK (i : Z) (s : superblock) : Z := u32 (i / IPB + sb_inodestart s).
Definition BBLOCK (b : Z) (s : superblock) : Z := u32 (b / BPB + sb_bmapstart s).

Definition bit_mask (bi : Z) : Z := Z.shiftl 1 (bi mod 8).
Definition bit_free (bl : block) (bi : Z) : bool :=
  Z.land (bl !!! Z.to_nat (bi / 8)) (bit_mask bi) =? 0.
Definition set_bit (bi : Z) : block -> block :=
  alter (fun v => u8 (Z.lor v (bit_mask bi))) (Z.to_nat (bi / 8)).
Definition clear_bit (bi : Z) : block -> block :=
  alter (fun v => u8 (Z.land v (Z.lnot (bit_mask bi)))) (Z.to_nat (bi / 8)).

(** The first [bi < n] whose bit is clear. *)
Fixpoint find_bit (bl : block) (bi : Z) (n : nat) : option Z :=
  match n with
  | O => None
  | S n => if bit_free bl bi then Some bi else find_bit bl (bi + 1) n
  end.

Section Fs.
Context `{BlockOps, DevOps}.

Definition bzero (dev bno : Z) : K unit :=
  bp <- bread dev (u32 bno);;
  set_buf bp (fun x => x <|b_data := zero_block|>);;
  log_write bp;;
  brelse bp.

(** The round of [balloc] for the bits from block [b] on *)
Definition balloc_round (dev : Z) (s : superblock) (b : Z) : K (option Z) :=
  bp <- bread dev (BBLOCK b s);;
  bf <- get_buf bp;;
  match find_bit (b_data bf) 0 (Z.to_nat (Z.min BPB (sb_size s - b))) with
  | Some bi =>
      set_buf bp (fun x => x <|b_data ::= set_bit bi|>);;
      log_write bp;;
      brelse bp;;
      bzero dev (b + bi);;
      ret (Some (b + bi))
  | None => brelse bp;; ret None
  end.

Definition balloc (dev : Z) : K Z :=
  s <- getd sb;;
  r <- foreach (seq 0 (Z.to_nat ((sb_size s + BPB - 1) / BPB))) (fun k =>
         balloc_round dev s (BPB * Z.of_nat k));;
  match r with
  | Some b => ret b
  | None => panic "balloc: out of blocks"
  end.

Definition bfree (dev b : Z) : K unit :=
  s <- getd sb;;
  bp <- bread dev (BBLOCK b s);;
  let bi := b mod BPB in
  bf <- get_buf bp;;
  if bit_free (b_data bf) bi then panic "freeing free block" else
  set_buf bp (fun x => x <|b_data ::= clear_bit bi|>);;
  log_write bp;;
  brelse bp.

(** ** Inodes *)

Definition iinit (dev : Z) : K unit :=
  initlock LIcache "icache";;
  iter (seq 0 NINODE) (fun i => initsleeplock (SInode i) "inode");;
  s <- readsb dev;;
  setd (fun d => d <|sb := s|>);;
  cprintf (lit "sb: size %d nblocks %d ninodes %d nlog %d logstart %d inodestart %d bmap start %d"
           ++ [NEWLINE])
    [AInt (sb_size s); AInt (sb_nblocks s); AInt (sb_ninodes s); AInt (sb_nlog s);
     AInt (sb_logstart s); AInt (sb_inodestart s); AInt (sb_bmapstart s)].

(** One pass over the cache, remembering the first empty slot. *)
(** One round of the scan for the inode; [empty] is the first free slot. *)
Definition iget_round (dev num : Z) : nat * option nat -> K ((nat * option nat) + (nat + option nat)) :=
  fun '(i, empty) =>
  if bool_decide (i < NINODE)%nat then
    ip <- get_inode i;;
    if (0 <? iref ip) && (idev ip =? dev) && (inum ip =? num) then
      set_inode i (fun ip => ip <|iref ::= fun n => n + 1|>);;
      release LIcache;;
      ret (inr (inl i))
    else
      let empty := match empty with
                   | None => if iref ip =? 0 then Some i else None
                   | Some e => Some e
                   end in
      ret (inl (Datatypes.S i, empty))
  else ret (inr (inr empty)).

Definition iget (dev num : Z) : K nat :=
  acquire LIcache;;
  r <- loop (Datatypes.S NINODE) (iget_round dev num) (0%nat, None);;
  match r with
  | inl i => ret i
  | inr None => panic "iget: no inodes"
  | inr (Some i) =>
      set_inode i (fun ip => ip <|idev := dev|>);;
      set_inode i (fun ip => ip <|inum := num|>);;
      set_inode i (fun ip => ip <|iref := 1|>);;
      set_inode i (fun ip => ip <|ivalid := 0|>);;
      release LIcache;;
      ret i
  end.

Definition ialloc (dev type : Z) : K nat :=
  s <- getd sb;;
  r <- foreach (seq 1 (Z.to_nat (sb_ninodes s - 1))) (fun num =>
         let num := Z.of_nat num in
         bp <- bread dev (IBLOCK num s);;
         bf <- get_buf bp;;
         if d_type (decode_dinode (b_data bf) (num mod IPB)) =? 0 then
           set_buf bp (fun x => x <|b_data ::= fun bl =>
             set_bytes bl (num mod IPB * DINODESIZE)
               (encode_dinode (Dinode type 0 0 0 0 (replicate 13 0)))|>);;
           log_write bp;;
           brelse bp;;
           ip <- iget dev num;;
           ret (Some ip)
         else brelse bp;; ret None);;
  match r with
  | Some ip => ret ip
  | None => panic "ialloc: no inodes"
  end.

Definition iupdate (ip : nat) : K unit :=
  i <- get_inode ip;; s <- getd sb;;
  bp <- bread (idev i) (IBLOCK (inum i) s);;
  i <- get_inode ip;;
  set_buf bp (fun x => x <|b_data ::= fun bl =>
    set_bytes bl (inum i mod IPB * DINODESIZE) (encode_dinode (dinode_of i))|>);;
  log_write bp;;
  brelse bp.

Definition idup (ip : nat) : K nat :=
  acquire LIcache;;
  set_inode ip (fun i => i <|iref ::= fun n => n + 1|>);;
  release LIcache;;
  ret ip.

Definition load_inode (di : dinode) (i : inode) : inode :=
  i <|itype := d_type di|> <|imajor := d_major di|> <|iminor := d_minor di|>
    <|inlink := d_nlink di|> <|isize := d_size di|> <|iaddrs := d_addrs di|>.

Definition ilock (ip : option nat) : K unit :=
  match ip with
  | None => panic "ilock"
  | Some ip =>
      i <- get_inode ip;;
      if iref i <? 1 then panic "ilock" else
      acquiresleep (SInode ip);;
      i <- get_inode ip;;
      if ivalid i =? 0 then
        s <- getd sb;;
        bp <- bread (idev i) (IBLOCK (inum i) s);;
        bf <- get_buf bp;;
        set_inode ip (load_inode (decode_dinode (b_data bf) (inum i mod IPB)));;
        brelse bp;;
        set_inode ip (fun i => i <|ivalid := 1|>);;
        i <- get_inode ip;;
        if itype i =? 0 then panic "ilock: no type" else ret tt
      else ret tt
  end.

Definition iunlock (ip : option nat) : K unit :=
  match ip with
  | None => panic "iunlock"
  | Some ip =>
      h <- holdingsleep (SInode ip);;
      if negb h then panic "iunlock" else
      i <- get_inode ip;;
      if iref i <? 1 then panic "iunlock" else
      releasesleep (SInode ip)
  end.

(** ** Inode contents *)

Definition bmap (ip : nat) (bn : Z) : K Z :=
  i <- get_inode ip;;
  if bn <? NDIRECT then
    let addr := iaddrs i !!! Z.to_nat bn in
    if addr =? 0 then
      addr <- balloc (idev i);;
      set_inode ip (fun i => i <|iaddrs ::= <[Z.to_nat bn := addr]>|>);;
      ret addr
    else ret addr
  else
    let bn := bn - NDIRECT in
    if bn <? NINDIRECT then
      let addr := iaddrs i !!! Z.to_nat NDIRECT in
      addr <- (if addr =? 0 then
                 addr <- balloc (idev i);;
                 set_inode ip (fun i => i <|iaddrs ::= <[Z.to_nat NDIRECT := addr]>|>);;
                 ret addr
               else ret addr);;
      bp <- bread (idev i) addr;;
      bf <- get_buf bp;;
      let addr := get32 (b_data bf) (4 * bn) in
      addr <- (if addr =? 0 then
                 addr <- balloc (idev i);;
                 set_buf bp (fun x => x <|b_data ::= fun bl => set32 bl (4 * bn) addr|>);;
                 log_write bp;;
                 ret addr
               else ret addr);;
      brelse bp;;
      ret addr
    else panic "bmap: out of range".

Definition itrunc (ip : nat) : K unit :=
  iter (seq 0 (Z.to_nat NDIRECT)) (fun k =>
    i <- get_inode ip;;
    when (negb (iaddrs i !!! k =? 0))
      (bfree (idev i) (iaddrs i !!! k);;
       set_inode ip (fun i => i <|iaddrs ::= <[k := 0]>|>)));;
  i <- get_inode ip;;
  let ind := iaddrs i !!! Z.to_nat NDIRECT in
  when (negb (ind =? 0))
    (bp <- bread (idev i) ind;;
     iter (seq 0 (Z.to_nat NINDIRECT)) (fun j =>
       bf <- get_buf bp;;
       let a := get32 (b_data bf) (4 * Z.of_nat j) in
       when (negb (a =? 0)) (bfree (idev i) a));;
     brelse bp;;
     i <- get_inode ip;;
     bfree (idev i) (iaddrs i !!! Z.to_nat NDIRECT);;
     set_inode ip (fun i => i <|iaddrs ::= <[Z.to_nat NDIRECT := 0]>|>));;
  set_inode ip (fun i => i <|isize := 0|>);;
  iupdate ip.

Definition iput (ip : nat) : K unit :=
  acquiresleep (SInode ip);;
  i <- get_inode ip;;
  when (negb (ivalid i =? 0) && (inlink i =? 0))
    (acquire LIcache;;
     i <- get_inode ip;;
     let r := iref i in
     release LIcache;;
     when (r =? 1)
       (itrunc ip;;
        set_inode ip (fun i => i <|itype := 0|>);;
        iupdate ip;;
        set_inode ip (fun i => i <|ivalid := 0|>)));;
  releasesleep (SInode ip);;
  acquire LIcache;;
  set_inode ip (fun i => i <|iref ::= fun n => n - 1|>);;
  release LIcache.

Definition iunlockput (ip : nat) : K unit :=
  iunlock (Some ip);;
  iput ip.

(** [struct stat] is filled in field by field at a user address. *)
Definition stati (ip : nat) (st : Z) : K unit :=
  i <- get_inode ip;;
  store_user (u32 (st + 4)) (le32 (idev i));;
  store_user (u32 (st + 8)) (le32 (inum i));;
  store_user st (le16 (itype i));;
  store_user (u32 (st + 12)) (le16 (inlink i));;
  store_user (u32 (st + 16)) (le32 (isize i)).

Definition slice (l : list Z) (off n : Z) : list Z := take (Z.to_nat n) (drop (Z.to_nat off) l).

(** A round of [readi]'s loop: its variables are [tot], [off], [dst] and the
    bytes that went to the destination so far. *)
Definition readi_round (ip : nat) (n : Z)
    : Z * Z * dest * list Z -> K ((Z * Z * dest * list Z) + (Z * list Z)) := fun '(tot, off, dst, acc) =>
  if tot <? n then
    bn <- bmap ip (off / BSIZE);;
    i <- get_inode ip;;
    bp <- bread (idev i) bn;;
    let m := Z.min (n - tot) (BSIZE - off mod BSIZE) in
    bf <- get_buf bp;;
    let bs := slice (b_data bf) (off mod BSIZE) m in
    ok <- match dst with
          | ToUser a => if m =? 0 then ret true else copy_to_user a bs
          | ToKernel => ret true
          end;;
    brelse bp;;
    if (ok : bool) then
      ret (inl (u32 (tot + m), u32 (off + m), dest_adv dst m, acc ++ bs))
    else ret (inr (-1, acc))
  else ret (inr (i32 n, acc)).

(** The result and the bytes that went to the destination; each round takes a
    byte at least. *)
Definition readi (ip : nat) (dst : dest) (off n : Z) : K (Z * list Z) :=
  i <- get_inode ip;;
  if itype i =? T_DEV then
    if (imajor i <? 0) || (NDEV <=? imajor i) then ret (-1, []) else
    match dev_read (imajor i) with
    | None => ret (-1, [])
    | Some rd => rd ip dst (i32 n)
    end
  else
  if (isize i <? off) || (u32 (off + n) <? off) then ret (-1, []) else
  let n := if isize i <? u32 (off + n) then isize i - off else n in
  loop (Z.to_nat (n / BSIZE) + 3) (readi_round ip n) (0, off, dst, []).

Definition writei_round (ip : nat) (n : Z)
    : Z * Z * source -> K ((Z * Z * source) + option Z) := fun '(tot, off, src) =>
  if tot <? n then
    bn <- bmap ip (off / BSIZE);;
    i <- get_inode ip;;
    bp <- bread (idev i) bn;;
    let m := Z.min (n - tot) (BSIZE - off mod BSIZE) in
    let store bs :=
      set_buf bp (fun x => x <|b_data ::= fun bl => set_bytes bl (off mod BSIZE) bs|>) in
    ok <- match src with
          | FromUser a => if m =? 0 then ret true else copy_from_user store a m
          | FromKernel bs => store (take (Z.to_nat m) bs);; ret true
          end;;
    if (ok : bool) then
      log_write bp;;
      brelse bp;;
      ret (inl (u32 (tot + m), u32 (off + m), source_adv src m))
    else brelse bp;; ret (inr None)
  else ret (inr (Some off)).

Definition writei (ip : nat) (src : source) (off n : Z) : K Z :=
  i <- get_inode ip;;
  if itype i =? T_DEV then
    if (imajor i <? 0) || (NDEV <=? imajor i) then ret (-1) else
    match dev_write (imajor i) with
    | None => ret (-1)
    | Some wr => wr ip src (i32 n)
    end
  else
  if (isize i <? off) || (u32 (off + n) <? off) then ret (-1) else
  if MAXFILE * BSIZE <? u32 (off + n) then ret (-1) else
  r <- loop (Z.to_nat (n / BSIZE) + 3) (writei_round ip n) (0, off, src);;
  match r with
  | None => ret (-1)
  | Some off =>
      i <- get_inode ip;;
      when ((0 <? n) && (isize i <? off))
        (set_inode ip (fun i => i <|isize := off|>);;
         iupdate ip);;
      ret (i32 n)
  end.

(** ** Directories *)

Definition namecmp (s t : cstr) : Z := strncmp s t DIRSIZ.

(** [struct dirent] *)
Definition de_inum (de : list Z) : Z := get16 de 0.
Definition de_name (de : list Z) : list Z := drop 2 de.

Definition dirlookup_round (dp : nat) (nm : list Z) (off : Z) : K (Z + option (nat * Z)) :=
  i <- get_inode dp;;
  if off <? isize i then
    ' (r, de) <- readi dp ToKernel off DIRENTSIZE;;
    if negb (r =? DIRENTSIZE) then panic "dirlookup read" else
    if de_inum de =? 0 then ret (inl (u32 (off + DIRENTSIZE))) else
    if namecmp (of_bytes nm) (of_bytes (de_name de)) =? 0 then
      ip <- iget (idev i) (de_inum de);;
      ret (inr (Some (ip, off)))
    else ret (inl (u32 (off + DIRENTSIZE)))
  else ret (inr None).

(** The entry's inode and its offset [*poff]. *)
Definition dirlookup (dp : nat) (nm : list Z) : K (option (nat * Z)) :=
  i <- get_inode dp;;
  if negb (itype i =? T_DIR) then panic "dirlookup not DIR" else
  loop (Z.to_nat (isize i / DIRENTSIZE) + 2) (dirlookup_round dp nm) 0.

Definition dirlink (dp : nat) (nm : list Z) (num : Z) : K Z :=
  r <- dirlookup dp nm;;
  match r with
  | Some (ip, _) => iput ip;; ret (-1)
  | None =>
      i <- get_inode dp;;
      off <- loop (Z.to_nat (isize i / DIRENTSIZE) + 2) (fun off =>
        i <- get_inode dp;;
        if off <? isize i then
          ' (r, de) <- readi dp ToKernel off DIRENTSIZE;;
          if negb (r =? DIRENTSIZE) then panic "dirlink read" else
          if de_inum de =? 0 then ret (inr off) else ret (inl (u32 (off + DIRENTSIZE)))
        else ret (inr off)) 0;;
      let de := le16 num ++ strncpy (of_bytes nm) DIRSIZ in
      r <- writei dp (FromKernel de) off DIRENTSIZE;;
      if negb (r =? DIRENTSIZE) then panic "dirlink" else ret 0
  end.

(** ** Path names

    A path is the rest of its buffer; [None] means that the code reads past
    the end of the buffer. *)

Definition SLASH : Z := 47.

Fixpoint skip_slashes (path : list Z) : option (list Z) :=
  match path with
  | [] => None
  | c :: p => if c =? SLASH then skip_slashes p else Some path
  end.

(** The element and what follows it. *)
Fixpoint split_elem (path : list Z) : option (list Z * list Z) :=
  match path with
  | [] => None
  | c :: p =>
      if (c =? SLASH) || (c =? 0) then Some ([], path)
      else match split_elem p with
           | Some (s, rest) => Some (c :: s, rest)
           | None => None
           end
  end.

(** The buffer [name] after the bytes [bs] have been written to its start. *)
Definition overlay (bs nm : list Z) : list Z := bs ++ drop (length bs) nm.

Definition skipelem (path nm : list Z) : option (option (list Z * list Z)) :=
  match skip_slashes path with
  | None => None
  | Some p =>
      if p !!! 0%nat =? 0 then Some None else
      match split_elem p with
      | None => None
      | Some (s, p) =>
          let nm := if DIRSIZ <=? Z.of_nat (length s)
                    then overlay (take (Z.to_nat DIRSIZ) s) nm
                    else overlay (s ++ [0]) nm in
          match skip_slashes p with
          | None => None
          | Some p => Some (Some (p, nm))
          end
      end
  end.

(** The inode and the contents of [name].  Every round shortens the path. *)
Definition namex (path : list Z) (nameiparent : bool) (nm : list Z)
    : K (option nat * list Z) :=
  myproc;;
  c <- deref (head path);;
  ip <- (if c =? SLASH then iget ROOTDEV ROOTINO
         else
           g <- leader;;
           acquire (LCwd g);;
           pr <- get_proc g;;
           release (LCwd g);;
           cwd <- deref (cwd pr);;
           idup cwd);;
  loop (length path + 1) (fun '(ip, path, nm) =>
    r <- deref (skipelem path nm);;
    match r with
    | None =>
        if nameiparent then iput ip;; ret (inr (None, nm)) else ret (inr (Some ip, nm))
    | Some (path, nm) =>
        ilock (Some ip);;
        i <- get_inode ip;;
        if negb (itype i =? T_DIR) then iunlockput ip;; ret (inr (None, nm)) else
        if nameiparent && (path !!! 0%nat =? 0) then
          iunlock (Some ip);; ret (inr (Some ip, nm))
        else
          next <- dirlookup ip nm;;
          match next with
          | None => iunlockput ip;; ret (inr (None, nm))
          | Some (next, _) => iunlockput ip;; ret (inl (next, path, nm))
          end
    end) (ip, path, nm).

(** The local [name] of [namei] is not initialised. *)
Definition namei (path : list Z) : K (option nat) :=
  nm <- getd junk;;
  r <- namex path false (take (Z.to_nat DIRSIZ) nm);;
  ret r.1.

Definition nameiparent (path nm : list Z) : K (option nat * list Z) := namex path true nm.
End Fs.
