(* ===== verification/Blocks.v ===== *)
(** * Disk blocks in use (fs.c: balloc, bfree, bzero, continued)

    The bitmap is a set of blocks in use; [balloc] adds the least block that is
    not in it and clears its contents, [bfree] removes one. *)

From S2P Require Import Prelude Params State CString Spinlock Printk Sched Sleeplock Bio Cache Log.
From S2P Require Import Commit Crash Txn Fs.

(** ** Bits *)

Lemma land_mask v j : 0 <= j -> (Z.land v (Z.shiftl 1 j) =? 0) = negb (Z.testbit v j).
Proof.
  intros Hj. rewrite Z.shiftl_1_l. destruct (Z.testbit v j) eqn:E; cbn [negb].
  - apply Z.eqb_neq. intros H0. apply (f_equal (fun z => Z.testbit z j)) in H0.
    rewrite Z.land_spec, E, Z.pow2_bits_true, Z.bits_0 in H0 by done. done.
  - apply Z.eqb_eq. apply Z.bits_inj'. intros k Hk. rewrite Z.land_spec, Z.bits_0.
    destruct (decide (k = j)) as [->|Hne]; [by rewrite E|].
    rewrite (Z.pow2_bits_false j k) by done. by rewrite andb_false_r.
Qed.

Lemma u8_bit v j : 0 <= j < 8 -> Z.testbit (u8 v) j = Z.testbit v j.
Proof. intros H. unfold u8. change 256 with (2 ^ 8). apply Z.mod_pow2_bits_low. lia. Qed.

Lemma mask_bit b j : Z.testbit (bit_mask b) j = bool_decide (j = b mod 8).
Proof.
  pose proof (Z.mod_pos_bound b 8 eq_refl). unfold bit_mask. rewrite Z.shiftl_1_l.
  case_bool_decide as E; [subst; apply Z.pow2_bits_true; lia|]. apply Z.pow2_bits_false. congruence.
Qed.

Lemma bit_free_bit bl bi :
  bit_free bl bi = negb (Z.testbit (bl !!! Z.to_nat (bi / 8)) (bi mod 8)).
Proof. unfold bit_free, bit_mask. apply land_mask, Z.mod_pos_bound. done. Qed.

Section Bits.
Context (bl : block) (bi x : Z).
Hypothesis Hlen : length bl = 512%nat.
Hypothesis Hbi : 0 <= bi < BPB.
Hypothesis Hx : 0 <= x < BPB.

Lemma bit_alter (f : Z -> Z) :
  bit_free (alter (fun v => u8 (f v)) (Z.to_nat (bi / 8)) bl) x
  = if decide (x / 8 = bi / 8) then negb (Z.testbit (f (bl !!! Z.to_nat (bi / 8))) (x mod 8))
    else bit_free bl x.
Proof.
  unfold BPB, BSIZE in *. rewrite !bit_free_bit, list_lookup_total_alter.
  assert (0 <= x / 8 < 512 /\ 0 <= bi / 8 < 512) as [H1 H2] by (Z.div_mod_to_equations; lia).
  pose proof (Z.mod_pos_bound x 8 eq_refl). destruct (decide (x / 8 = bi / 8)) as [E|E].
  - rewrite decide_True by (rewrite E, Hlen; lia). by rewrite u8_bit.
  - rewrite decide_False; [done|]. lia.
Qed.

Lemma same_bit : x / 8 = bi / 8 -> x mod 8 = bi mod 8 <-> x = bi.
Proof. Z.div_mod_to_equations. lia. Qed.

Lemma bit_free_set : bit_free (set_bit bi bl) x = bit_free bl x && negb (bool_decide (x = bi)).
Proof.
  unfold set_bit. rewrite bit_alter. case_decide as E.
  - rewrite Z.lor_spec, mask_bit, bit_free_bit, E, negb_orb. f_equal. f_equal.
    apply bool_decide_ext. by apply same_bit.
  - rewrite bool_decide_false by (intros ->; done). by rewrite andb_true_r.
Qed.

Lemma bit_free_clear : bit_free (clear_bit bi bl) x = bit_free bl x || bool_decide (x = bi).
Proof.
  unfold clear_bit. rewrite bit_alter. case_decide as E.
  - rewrite Z.land_spec, Z.lnot_spec, mask_bit, bit_free_bit, E, negb_andb, negb_involutive
      by (by apply Z.mod_pos_bound).
    f_equal. apply bool_decide_ext. by apply same_bit.
  - rewrite bool_decide_false by (intros ->; done). by rewrite orb_false_r.
Qed.
End Bits.

Lemma find_bit_spec bl n : forall bi,
  match find_bit bl bi n with
  | Some x => bi <= x < bi + Z.of_nat n /\ bit_free bl x = true /\
              forall y, bi <= y < x -> bit_free bl y = false
  | None => forall y, bi <= y < bi + Z.of_nat n -> bit_free bl y = false
  end.
Proof.
  induction n as [|n IH]; intros bi; cbn [find_bit]; [intros; lia|].
  destruct (bit_free bl bi) eqn:E; [split_and!; [lia|lia|done|lia]|].
  specialize (IH (bi + 1)). destruct (find_bit bl (bi + 1) n) as [x|].
  - destruct IH as (H1 & H2 & H3). split_and!; [lia|lia|done|]. intros y Hy.
    destruct (decide (y = bi)) as [->|]; [done|]. apply H3. lia.
  - intros y Hy. destruct (decide (y = bi)) as [->|]; [done|]. apply IH. lia.
Qed.

Lemma length_set_bit bi bl : length (set_bit bi bl) = length bl.
Proof. apply length_alter. Qed.
Lemma length_clear_bit bi bl : length (clear_bit bi bl) = length bl.
Proof. apply length_alter. Qed.

(** ** Looking at a block *)

(** What reading leaves as it is: the transaction and the contents *)
Record peeked (d : data) (me : nat) (H : list nat) (d' : data) : Prop := {
  pk_txn : txn d' me H;
  pk_rest : same_rest d d';
  pk_disk : disk d' = disk d;
  pk_held : forall j, j ∈ H -> b_blockno (bufs d' j) = b_blockno (bufs d j);
  pk_view : forall y, view d' y = view d y
}.

Lemma runs_look {Ops : BlockOps} {Dev : BlockDev} c me d H x :
  txn d me H -> (Z.of_nat (length H) + lh_n (log d) < Z.of_nat NBUF) ->
  (forall j, j ∈ H -> b_blockno (bufs d j) <> x) -> 0 <= x < disksize d ->
  exists b d1, runs c (Some me) [] (bread 1 x) d b d1 [] /\ b_data (bufs d1 b) = view d x /\
    same_rest d d1 /\ cache d1 me (b :: H) (blks (log d)) /\ peeked d me H (released b d1).
Proof.
  intros Htx Hroom Hheld Hx. pose proof (tx_cache _ _ _ Htx) as Hc.
  destruct (txn_len d (tx_log _ _ _ Htx) (tx_wf _ _ _ Htx)) as [Hn El].
  destruct (runs_bread c me d H (blks (log d)) x Hc Hx) as (b & d1 & Hr & Ho).
  { intros b Hb [_ Hb']. by apply (Hheld b). }
  { right. pose proof (tw_n _ (tx_wf _ _ _ Htx)). lia. }
  pose proof (op_cache _ _ _ _ _ _ _ Ho) as Hc1. pose proof (op_has _ _ _ _ _ _ _ Ho) as Hh.
  destruct (held_facts d1 me b (b :: H) (blks (log d)) Hc1 ltac:(left)) as (_ & Hlt & _ & _ & _ & _).
  destruct (cache_released d1 me b H (blks (log d)) Hc1) as [Hc2 Hcl].
  { intros Hfl. rewrite (op_data _ _ _ _ _ _ _ Ho). destruct Hh as [Hd Hbn]. rewrite Hbn.
    rewrite (disk_block_eq d d1 (op_disk _ _ _ _ _ _ _ Ho)).
    assert (x ∉ blks (log d)) as Hnb.
    { intros Hin. destruct (proj2 (op_pinned _ _ _ _ _ _ _ Ho x) (tx_pinned _ _ _ Htx x Hin))
        as (j & Hj & Hhj & Hfj).
      assert (j = b) as -> by (by apply (ca_uniq _ _ _ _ Hc1 j b x)). by rewrite Hfl in Hfj. }
    by apply (view_unheld d me H (blks (log d))). }
  exists b, d1. split; [done|]. split; [apply Ho|]. split; [apply Ho|]. split; [done|].
  assert (same_rest d (released b d1)) as Hsr by (etrans; [apply Ho|apply Hcl]).
  assert (disk (released b d1) = disk d) as Hd by (rewrite (cl_disk _ _ Hcl); apply Ho).
  split; [|done|done| |intros y; rewrite (cl_view _ _ Hcl); apply Ho].
  - apply (txn_same d _ me H); try done. intros y. rewrite (pinned_closed _ _ _ Hcl). apply Ho.
  - intros j Hj. destruct (held_facts d1 me j (b :: H) _ Hc1 ltac:(by right)) as (_ & Hlt' & _).
    destruct (cl_bufs _ _ Hcl j Hlt') as (_ & _ & -> & _). by rewrite (op_held _ _ _ _ _ _ _ Ho).
Qed.

Lemma nil_room d me : txn d me [] -> Z.of_nat (@length nat []) + lh_n (log d) < Z.of_nat NBUF.
Proof.
  intros T. pose proof (tw_n _ (tx_wf _ _ _ T)). pose proof (lw_size _ (tx_log _ _ _ T)).
  unfold LOGSIZE, MAXOPBLOCKS, NBUF in *. simpl. lia.
Qed.

Lemma peeked_refl d me H : txn d me H -> peeked d me H d.
Proof. by split. Qed.
Lemma peeked_trans d me H d1 d2 : peeked d me H d1 -> peeked d1 me H d2 -> peeked d me H d2.
Proof.
  intros [P1 P2 P3 P4 P5] [Q1 Q2 Q3 Q4 Q5]. split; [done|by etrans|congruence| |].
  - intros j Hj. by rewrite Q4, P4.
  - intros y. by rewrite Q5.
Qed.

(** ** The bitmap *)

Definition used (d : data) (b : Z) : Prop :=
  bit_free (view d (BBLOCK b (sb d))) (b mod BPB) = false.
#[global] Instance used_dec d b : Decision (used d b).
Proof. unfold used. apply _. Defined.

(** The bitmap lies on the disk outside the log, and it has the log and itself
    in use. *)
Record bitmap_wf (d : data) : Prop := {
  bw_size : 0 <= sb_size (sb d) <= disksize d;
  bw_start : 0 <= sb_bmapstart (sb d);
  bw_end : sb_bmapstart (sb d) + sb_size (sb d) / BPB < disksize d;
  bw_log : forall b, 0 <= b < sb_size (sb d) -> ~ in_log (log d) (BBLOCK b (sb d));
  bw_meta : forall b, 0 <= b < sb_size (sb d) ->
    in_log (log d) b \/ (exists x, 0 <= x < sb_size (sb d) /\ b = BBLOCK x (sb d)) -> used d b
}.

(** [d'] is [d] with block [b] taken into use; the buffers [H] are held. *)
Record allocated (d : data) (me : nat) (H : list nat) (b : Z) (d' : data) : Prop := {
  al_txn : txn d' me H;
  al_same : same_but_log d d';
  al_grows : grows [BBLOCK b (sb d); b] (log d) (log d');
  al_disk : disk d' = disk d;
  al_held : forall j, j ∈ H -> b_blockno (bufs d' j) = b_blockno (bufs d j);
  al_used : forall x, 0 <= x < sb_size (sb d) -> used d' x <-> used d x \/ x = b;
  al_zero : view d' b = zero_block;
  al_other : forall y, y <> b -> y <> BBLOCK b (sb d) -> view d' y = view d y
}.

(** Buffers that are held while the bitmap is searched: their blocks are in
    use and not in the bitmap. *)
Definition held_data (d : data) (H : list nat) : Prop :=
  (length H <= 1)%nat /\
  forall j, j ∈ H -> used d (b_blockno (bufs d j)) /\
    forall x, 0 <= x < sb_size (sb d) -> b_blockno (bufs d j) <> BBLOCK x (sb d).

Lemma held_nil d : held_data d [].
Proof. split; [simpl; lia|]. by intros j ?%not_elem_of_nil. Qed.
#[export] Hint Resolve held_nil : runs.

Section Balloc.
Context {Ops : BlockOps} {Dev : BlockDev} (c me : nat) (d : data) (H : list nat).
Local Abbreviation s := (sb d).
Local Abbreviation lg := (log d).
Hypothesis Htx : txn d me H.
Hypothesis Hheld : held_data d H.
Hypothesis Hbw : bitmap_wf d.

Lemma BBLOCK_eq x : 0 <= x < sb_size s -> BBLOCK x s = x / BPB + sb_bmapstart s.
Proof.
  intros Hx. destruct Hbw. unfold BBLOCK. pose proof (lw_disk d (tx_log _ _ _ Htx)).
  assert (0 <= x / BPB <= sb_size s / BPB).
  { split; [apply Z.div_pos; unfold BPB, BSIZE; lia|]. apply Z.div_le_mono; [done|lia]. }
  apply u32_small. unfold two31, two32 in *. lia.
Qed.

Lemma BBLOCK_range x : 0 <= x < sb_size s -> 0 <= BBLOCK x s < disksize d.
Proof.
  intros Hx. rewrite BBLOCK_eq by done. destruct Hbw.
  assert (0 <= x / BPB <= sb_size s / BPB).
  { split; [apply Z.div_pos; unfold BPB, BSIZE; lia|]. apply Z.div_le_mono; [done|lia]. }
  lia.
Qed.

Lemma BBLOCK_same x y : 0 <= x < sb_size s -> 0 <= y < sb_size s ->
  BBLOCK x s = BBLOCK y s <-> x / BPB = y / BPB.
Proof. intros Hx Hy. rewrite !BBLOCK_eq by done. lia. Qed.

(** The bits that round [k] of the scan looks at *)
Lemma round_bit k bi : 0 <= k -> 0 <= bi < BPB -> BPB * k + bi < sb_size s ->
  BBLOCK (BPB * k) s = BBLOCK (BPB * k + bi) s /\ (BPB * k + bi) mod BPB = bi.
Proof.
  intros Hk Hbi Hlt. unfold BBLOCK, BPB, BSIZE in *.
  split; [|Z.div_mod_to_equations; lia]. do 2 f_equal. Z.div_mod_to_equations. lia.
Qed.

(** The scan of one block of the bitmap *)
Lemma find_round k : 0 <= k -> BPB * k < sb_size s ->
  match find_bit (view d (BBLOCK (BPB * k) s)) 0 (Z.to_nat (Z.min BPB (sb_size s - BPB * k))) with
  | Some bi => 0 <= bi < BPB /\ BPB * k + bi < sb_size s /\ ~ used d (BPB * k + bi) /\
               forall x, BPB * k <= x < BPB * k + bi -> used d x
  | None => forall x, 0 <= x < sb_size s -> x / BPB = k -> used d x
  end.
Proof.
  intros Hk Hlt. pose proof (find_bit_spec (view d (BBLOCK (BPB * k) s))
    (Z.to_nat (Z.min BPB (sb_size s - BPB * k))) 0) as Hf.
  assert (0 < BPB) as HB by done.
  assert (forall x, BPB * k <= x < BPB * k + BPB -> x < sb_size s ->
    used d x <-> bit_free (view d (BBLOCK (BPB * k) s)) (x - BPB * k) = false) as Hu.
  { intros x Hx Hs. destruct (round_bit k (x - BPB * k)) as [E1 E2]; [lia..|].
    replace (BPB * k + (x - BPB * k)) with x in * by lia. unfold used. by rewrite E1, E2. }
  destruct (find_bit _ 0 _) as [bi|].
  - destruct Hf as (H1 & H2 & H3). split_and!; [lia|lia|lia| |].
    + rewrite Hu by lia. replace (BPB * k + bi - BPB * k) with bi by lia. by rewrite H2.
    + intros x Hx. apply Hu; [lia|lia|]. apply H3. lia.
  - intros x Hx Hd. assert (BPB * k <= x < BPB * k + BPB) as Hx'.
    { subst k. pose proof (Z.div_mod x BPB ltac:(lia)). pose proof (Z.mod_pos_bound x BPB HB). lia. }
    apply Hu; [done|lia|]. apply Hf. lia.
Qed.

(** A round that finds nothing *)
Lemma runs_round_full k :
  lh_n lg + 1 < l_size lg -> 0 <= k -> BPB * k < sb_size s -> (forall x, 0 <= x < sb_size s -> x / BPB = k -> used d x) ->
  exists d', runs c (Some me) [] (balloc_round 1 s (BPB * k)) d None d' [] /\ peeked d me H d'.
Proof.
  intros Hroom Hk Hlt Hu.
  destruct (runs_look c me d H (BBLOCK (BPB * k) s) Htx) as (b & d1 & Hr1 & Hb & _ & Hc1 & Hp).
  { pose proof (lw_size _ (tx_log _ _ _ Htx)). destruct Hheld. unfold LOGSIZE, MAXOPBLOCKS, NBUF in *. lia. }
  { intros j Hj. apply Hheld; [done|]. unfold BPB, BSIZE in *. lia. }
  { apply BBLOCK_range. unfold BPB, BSIZE in *. lia. }
  exists (released b d1). split; [|done].
  unfold balloc_round. eapply runs_bind; [exact Hr1|]. rstep. rewrite Hb.
  pose proof (find_round k Hk Hlt) as Hf. destruct (find_bit _ 0 _) as [bi|].
  - destruct Hf as (F1 & F2 & F3 & _). destruct F3. apply Hu; [unfold BPB, BSIZE in *; lia|].
    unfold BPB, BSIZE in *. Z.div_mod_to_equations. lia.
  - eapply runs_bind; [eapply runs_brelse; [exact Hc1|left]|]. apply runs_ret.
Qed.

(** The two updates of [balloc] *)
Lemma runs_take b :
  1 <= l_outstanding lg -> lh_n lg + 2 < l_size lg -> 0 <= b < sb_size s -> ~ used d b ->
  exists bp d1 d2 d3,
    runs c (Some me) [] (bread 1 (BBLOCK b s)) d bp d1 [] /\
    b_data (bufs d1 bp) = view d (BBLOCK b s) /\
    runs c (Some me) [] (set_buf bp (fun y => y <|b_data ::= set_bit (b mod BPB)|>);;
      log_write bp;; brelse bp) d1 tt d2 [] /\
    runs c (Some me) [] (bzero 1 b) d2 tt d3 [] /\ allocated d me H b d3.
Proof.
  intros Ho Hn Hb Hfree. pose proof (tx_cache _ _ _ Htx) as Hc. destruct Hbw as [W1 W2 W3 W4 W5].
  assert (forall x, 0 <= x < sb_size s -> BBLOCK x s <> b) as Hne.
  { intros x Hx <-. apply Hfree, W5; [done|]. right. by exists x. }
  assert (~ in_log lg b) as Hlog by (intros Hl; apply Hfree, W5; [done|by left]).
  destruct (runs_update_parts c me d H (BBLOCK b s) (set_bit (b mod BPB)) Htx)
    as (bp & d1 & d2 & Hr1 & Hbd & _ & Hr2 & Htx2 & G & Hs2 & Hd2 & Hk2 & Hv2).
  { apply Hheld. }
  { intros j Hj. by apply Hheld. }
  { by apply BBLOCK_range. }
  { by apply W4. }
  { lia. }
  { done. }
  { intros bl <-. apply length_set_bit. }
  pose proof (grows_n _ _ _ _ _ _ Htx Htx2 G) as Hn2. simpl in Hn2. pose proof G as [G1 G2 G3 _ _].
  destruct (runs_update_block c me d2 H b (fun _ => zero_block) Htx2)
    as (d3 & Hr3 & Htx3 & K & Hs3 & Hd3 & Hk3 & Hv3).
  { apply Hheld. }
  { intros j Hj. rewrite Hk2 by done. intros E. apply Hfree. rewrite <- E. by apply Hheld. }
  { rewrite (sl_disksize _ _ Hs2). lia. }
  { unfold in_log. by rewrite G1, G2. }
  { rewrite G2. lia. }
  { by rewrite G3. }
  { done. }
  assert (u32 b = b) as Eb.
  { pose proof (lw_disk d (tx_log _ _ _ Htx)). apply u32_small. unfold two31, two32 in *. lia. }
  assert (same_but_log d d3) as Hs by by etrans.
  exists bp, d1, d2, d3. split; [done|]. split; [done|]. split; [done|].
  split; [unfold bzero; rewrite Eb; exact Hr3|].
  split; try congruence.
  - eapply grows_trans; [exact G|exact K|set_solver..].
  - intros j Hj. by rewrite Hk3, Hk2.
  - intros x Hx. unfold used. rewrite (sl_sb _ _ Hs), Hv3, decide_False by (by apply Hne).
    pose proof (Z.mod_pos_bound b BPB eq_refl). pose proof (Z.mod_pos_bound x BPB eq_refl).
    rewrite Hv2. case_decide as E.
    + rewrite bit_free_set by (done || by eapply view_length).
      rewrite andb_false_iff, negb_false_iff, bool_decide_eq_true, E.
      apply BBLOCK_same in E; [|done..].
      assert (x mod BPB = b mod BPB <-> x = b) as ->; [|done].
      pose proof (Z.div_mod x BPB ltac:(done)). pose proof (Z.div_mod b BPB ltac:(done)).
      split; [intros; rewrite E in *; lia|by intros ->].
    + split; [by left|]. intros [?| ->]; [done|]. done.
  - by rewrite Hv3, decide_True.
  - intros y Hy Hy'. by rewrite Hv3, decide_False, Hv2, decide_False by done.
Qed.

(** The round that finds the block *)
Lemma runs_round_found k b :
  1 <= l_outstanding lg -> lh_n lg + 2 < l_size lg ->
  0 <= b < sb_size s -> b / BPB = k -> ~ used d b -> (forall x, 0 <= x < b -> used d x) ->
  exists d', runs c (Some me) [] (balloc_round 1 s (BPB * k)) d (Some b) d' [] /\ allocated d me H b d'.
Proof.
  intros Ho Hn Hb <- Hfree Hless.
  pose proof (Z.div_mod b BPB ltac:(done)) as Eb. pose proof (Z.mod_pos_bound b BPB eq_refl).
  assert (0 <= b / BPB) by (apply Z.div_pos; unfold BPB, BSIZE; lia).
  destruct (round_bit (b / BPB) (b mod BPB)) as [E _]; [done..|lia|]. rewrite <- Eb in E.
  destruct (runs_take b Ho Hn Hb Hfree) as (bp & d1 & d2 & d3 & Hr1 & Hbd & Hr2 & Hr3 & Hal).
  pose proof (find_round (b / BPB) ltac:(done) ltac:(lia)) as Hf. rewrite E in *.
  exists d3. split; [|done]. unfold balloc_round. rewrite E.
  eapply runs_bind; [exact Hr1|]. rstep. rewrite Hbd.
  destruct (find_bit _ 0 _) as [bi|]; [|by destruct Hfree; apply Hf].
  destruct Hf as (F1 & F2 & F3 & F4).
  assert (BPB * (b / BPB) + bi = b) as Ebi.
  { destruct (Z.lt_trichotomy (BPB * (b / BPB) + bi) b) as [Hlt|[?|Hgt]]; [|done|].
    - destruct F3. apply Hless. unfold BPB, BSIZE in *. lia.
    - destruct Hfree. apply F4. lia. }
  rewrite Ebi. assert (bi = b mod BPB) as -> by lia.
  eapply runs_then; [exact Hr2|]. eapply runs_bind; [exact Hr3|]. apply runs_ret.
Qed.
End Balloc.

Lemma peeked_used d me H d' x : peeked d me H d' -> used d' x <-> used d x.
Proof. intros [_ P2 _ _ P4]. unfold used. by rewrite (sr_sb _ _ P2), P4. Qed.

Lemma peeked_bitmap d me H d' : peeked d me H d' -> bitmap_wf d -> bitmap_wf d'.
Proof.
  intros Hp [W1 W2 W3 W4 W5]. pose proof (pk_rest _ _ _ _ Hp) as P2.
  split; rewrite ?(sr_sb _ _ P2), ?(sr_disksize _ _ P2), ?(sr_log _ _ P2); try done.
  intros b Hb Hm. rewrite (peeked_used d me H) by done. by apply W5.
Qed.

Lemma peeked_held d me H d' : peeked d me H d' -> held_data d H -> held_data d' H.
Proof.
  intros Hp [H1 H2]. split; [done|]. intros j Hj.
  rewrite (pk_held _ _ _ _ Hp), (sr_sb _ _ (pk_rest _ _ _ _ Hp)), (peeked_used d me H) by done. by apply H2.
Qed.

Lemma peeked_allocated d me H d1 b d' : peeked d me H d1 -> allocated d1 me H b d' -> allocated d me H b d'.
Proof.
  intros Hp [A1 A2 A3 A4 A5 A6 A7 A8]. pose proof Hp as [_ P2 P3 P4 P5].
  rewrite ?(sr_sb _ _ P2), ?(sr_log _ _ P2) in *. split; try done.
  - etrans; [apply sl_same_rest, P2|done].
  - congruence.
  - intros j Hj. by rewrite A5, P4.
  - intros x Hx. rewrite A6, (peeked_used d me H d1) by done. done.
  - intros y Hy Hy'. by rewrite A8, P5.
Qed.

Section Scan.
Context {Ops : BlockOps} {Dev : BlockDev} (c me : nat) (d : data) (H : list nat).
Hypothesis Htx : txn d me H.
Hypothesis Hheld : held_data d H.
Hypothesis Hbw : bitmap_wf d.

Lemma runs_skip k e :
  lh_n (log d) + 1 < l_size (log d) -> peeked d me H e -> 0 <= k -> BPB * k < sb_size (sb d) ->
  (forall x, 0 <= x < sb_size (sb d) -> x / BPB = k -> used d x) ->
  exists e', runs c (Some me) [] (balloc_round 1 (sb d) (BPB * k)) e None e' [] /\ peeked d me H e'.
Proof.
  intros Hroom He Hk Hlt Hu. pose proof (sr_sb _ _ (pk_rest _ _ _ _ He)) as Es.
  destruct (runs_round_full c me e H (pk_txn _ _ _ _ He) (peeked_held _ _ _ _ He Hheld)
    (peeked_bitmap _ _ _ _ He Hbw) k) as (e' & Hr & Hp).
  { by rewrite (sr_log _ _ (pk_rest _ _ _ _ He)). }
  { done. }
  { by rewrite Es. }
  { intros x Hx Hd. rewrite Es in Hx. apply (peeked_used d me H e x He). by apply Hu. }
  rewrite Es in Hr. exists e'. split; [done|by eapply peeked_trans].
Qed.

Lemma runs_balloc b :
  1 <= l_outstanding (log d) -> lh_n (log d) + 2 < l_size (log d) ->
  0 <= b < sb_size (sb d) -> ~ used d b -> (forall x, 0 <= x < b -> used d x) ->
  exists d', runs c (Some me) [] (balloc 1) d b d' [] /\ allocated d me H b d'.
Proof.
  intros Ho Hn Hb Hfree Hless.
  destruct (runs_scan_inv c (Some me) [] (Z.to_nat ((sb_size (sb d) + BPB - 1) / BPB)) (Z.to_nat (b / BPB))
    (fun k => balloc_round 1 (sb d) (BPB * Z.of_nat k)) (peeked d me H) (allocated d me H b) d b)
    as (d' & Hr & Hal).
  - unfold BPB, BSIZE in *. Z.div_mod_to_equations. lia.
  - by apply peeked_refl.
  - intros j e Hj He. apply runs_skip; [lia|done|lia| |].
    + unfold BPB, BSIZE in *. Z.div_mod_to_equations. lia.
    + intros x Hx Hd. apply Hless. unfold BPB, BSIZE in *. Z.div_mod_to_equations. lia.
  - intros e He. pose proof (pk_rest _ _ _ _ He) as P2. cbv zeta.
    assert (0 <= b / BPB) as H0 by (apply Z.div_pos; unfold BPB, BSIZE; lia).
    rewrite Z2Nat.id, <- (sr_sb _ _ P2) by done.
    destruct (runs_round_found c me e H (pk_txn _ _ _ _ He) (peeked_held _ _ _ _ He Hheld)
      (peeked_bitmap _ _ _ _ He Hbw) (b / BPB) b)
      as (e' & Hr & Hal); rewrite ?(sr_log _ _ P2), ?(sr_sb _ _ P2), ?(peeked_used d me H e) by done; try done.
    { intros x Hx. apply (peeked_used d me H e x He). by apply Hless. }
    exists e'. split; [|by eapply peeked_allocated]. by rewrite (sr_sb _ _ P2) in *.
  - exists d'. split; [|done]. unfold balloc. rstep. eapply runs_bind; [exact Hr|]. apply runs_ret.
Qed.

Lemma panics_balloc :
  lh_n (log d) + 1 < l_size (log d) -> (forall x, 0 <= x < sb_size (sb d) -> used d x) ->
  panics c (Some me) [] (balloc 1) d "balloc: out of blocks".
Proof.
  intros Hroom Hall.
  destruct (runs_scan_inv_none c (Some me) [] (Z.to_nat ((sb_size (sb d) + BPB - 1) / BPB))
    (fun k => balloc_round 1 (sb d) (BPB * Z.of_nat k)) (peeked d me H) d) as (d' & Hr & _).
  - by apply peeked_refl.
  - intros j e Hj He. apply runs_skip; [done|done|lia| |].
    + unfold BPB, BSIZE in *. Z.div_mod_to_equations. lia.
    + intros x Hx _. by apply Hall.
  - unfold balloc. pstep. eapply runs_panics; [exact Hr|]. apply panics_panic.
Qed.

(** C22: [balloc] takes the least block that is not in use: it marks that block
    and no other, clears its contents, leaves all other blocks outside the
    bitmap alone, and needs room for two blocks in the log.  When every block
    is in use it panics. *)
Theorem balloc_least :
  1 <= l_outstanding (log d) -> lh_n (log d) + 2 < l_size (log d) ->
  (forall b, 0 <= b < sb_size (sb d) -> ~ used d b -> (forall x, 0 <= x < b -> used d x) ->
     exists d', runs c (Some me) [] (balloc 1) d b d' [] /\ allocated d me H b d') /\
  ((forall x, 0 <= x < sb_size (sb d) -> used d x) ->
     panics c (Some me) [] (balloc 1) d "balloc: out of blocks").
Proof. intros Ho Hn. split; [intros b; by apply runs_balloc|apply panics_balloc; lia]. Qed.

(** [d'] is [d] with block [b] given back. *)
Record freed (b : Z) (d' : data) : Prop := {
  fr_txn : txn d' me H;
  fr_same : same_but_log d d';
  fr_grows : grows [BBLOCK b (sb d)] (log d) (log d');
  fr_disk : disk d' = disk d;
  fr_held : forall j, j ∈ H -> b_blockno (bufs d' j) = b_blockno (bufs d j);
  fr_used : forall x, 0 <= x < sb_size (sb d) -> used d' x <-> used d x /\ x <> b;
  fr_other : forall y, y <> BBLOCK b (sb d) -> view d' y = view d y
}.

(** C23: [bfree] takes exactly the given block out of use and changes nothing
    but the bitmap; a block that is not in use makes it panic. *)
Theorem bfree_frees b :
  1 <= l_outstanding (log d) -> lh_n (log d) + 1 < l_size (log d) -> 0 <= b < sb_size (sb d) ->
  (used d b -> exists d', runs c (Some me) [] (bfree 1 b) d tt d' [] /\ freed b d') /\
  (~ used d b -> panics c (Some me) [] (bfree 1 b) d "freeing free block").
Proof.
  intros Ho Hn Hb. pose proof (tx_cache _ _ _ Htx) as Hc.
  pose proof (Z.mod_pos_bound b BPB eq_refl) as Hbi.
  destruct (runs_update_parts c me d H (BBLOCK b (sb d)) (clear_bit (b mod BPB)) Htx)
    as (bp & d1 & d2 & Hr1 & Hbd & _ & Hr2 & Htx2 & Hg & Hs2 & Hd2 & Hk2 & Hv2).
  { apply Hheld. }
  { intros j Hj. by apply Hheld. }
  { by apply (BBLOCK_range me d H). }
  { by apply Hbw. }
  { lia. }
  { done. }
  { intros bl <-. apply length_clear_bit. }
  split.
  - intros Hu. exists d2. split.
    { unfold bfree. rstep. eapply runs_bind; [exact Hr1|]. cbv zeta. rstep. rewrite Hbd.
      unfold used in Hu. rewrite Hu. exact Hr2. }
    split; try done; [|intros y Hy; by rewrite Hv2, decide_False].
    intros x Hx. unfold used. rewrite (sl_sb _ _ Hs2), Hv2.
    pose proof (Z.mod_pos_bound x BPB eq_refl). case_decide as E.
    + rewrite bit_free_clear by (done || by eapply view_length).
      rewrite orb_false_iff, bool_decide_eq_false, E. apply (BBLOCK_same me d H) in E; [|done..].
      assert (x mod BPB = b mod BPB <-> x = b) as ->; [|done].
      pose proof (Z.div_mod x BPB ltac:(done)). pose proof (Z.div_mod b BPB ltac:(done)).
      split; [intros; rewrite E in *; lia|by intros ->].
    + split; [|by intros []]. intros. split; [done|]. by intros ->.
  - intros Hu. unfold bfree. pstep. eapply runs_panics; [exact Hr1|]. cbv zeta. pstep. rewrite Hbd.
    unfold used in Hu. destruct (bit_free _ _); [apply panics_panic|by destruct Hu].
Qed.
End Scan.

(** ** A small file system: the log in blocks 2 to 31, the bitmap in block 33,
    blocks 34 to 39 not in use *)

Definition ex_bits : block := replicate 4 255 ++ [3] ++ replicate 507 0.
Definition ex_map : data :=
  (ex_data inhabitant 0 (<[33 := ex_bits]> {[1 := ex_sb]}))
    <|sb := Superblock 40 6 8 30 2 32 33|> <|log ::= fun lg => lg <|l_outstanding := 1|>|>.

Lemma ex_map_txn : txn ex_map 0 [].
Proof.
  apply (txn_set_log 0 ((ex_data inhabitant 0 (<[33 := ex_bits]> {[1 := ex_sb]}))
    <|sb := Superblock 40 6 8 30 2 32 33|>)); try done.
  apply (txn_frame (ex_data inhabitant 0 (<[33 := ex_bits]> {[1 := ex_sb]}))); try done.
  apply ex_txn_ok; [|by vm_compute]. intros x bl. rewrite lookup_insert, lookup_singleton.
  repeat case_decide; intros; by simplify_eq.
Qed.

Lemma ex_map_used b : 0 <= b < 34 -> used ex_map b.
Proof.
  assert (Forall (used ex_map) (seqZ 0 34)) as H by (apply (bool_decide_unpack _); by vm_compute).
  rewrite Forall_forall in H. intros Hb. apply H. apply elem_of_seqZ. lia.
Qed.

Lemma ex_map_wf : bitmap_wf ex_map.
Proof.
  assert (forall b, 0 <= b < 40 -> BBLOCK b (sb ex_map) = 33) as E.
  { intros b Hb. unfold BBLOCK. change (sb_bmapstart (sb ex_map)) with 33.
    by rewrite (Z.div_small b BPB) by (unfold BPB, BSIZE; lia). }
  change (sb_size (sb ex_map)) with 40 in *.
  split; change (sb_size (sb ex_map)) with 40; [by vm_compute|by vm_compute|by vm_compute| |].
  - intros b Hb. rewrite E by done. vm_compute. by intros [_ ?].
  - intros b Hb [Hl|(x & Hx & ->)]; [|rewrite E by done; apply ex_map_used; lia].
    apply ex_map_used. destruct Hl as [Hl1 Hl2].
    change (l_start (log ex_map)) with 2 in *. change (l_size (log ex_map)) with 30 in *. lia.
Qed.

Lemma balloc_least_witness :
  exists d', runs 0 (Some 0%nat) [] (balloc 1) ex_map 34 d' [] /\ allocated ex_map 0 [] 34 d'.
Proof.
  apply (balloc_least 0 0 ex_map [] ex_map_txn (held_nil _) ex_map_wf);
    [done|done|done|by vm_compute|intros; apply ex_map_used; done].
Defined.

Lemma bfree_frees_witness :
  exists d', runs 0 (Some 0%nat) [] (bfree 1 5) ex_map tt d' [] /\ freed 0 ex_map [] 5 d'.
Proof.
  apply (bfree_frees 0 0 ex_map [] ex_map_txn (held_nil _) ex_map_wf 5);
    [done|done|done|apply ex_map_used; done].
Defined.
