(* ===== verification/Inodes.v ===== *)
(** * Inodes on disk (fs.c: iupdate, ilock, continued)

    The inode cache is write-through: [iupdate] stores the fields of an inode
    in its slot of the inode blocks, [ilock] brings them back. *)

From S2P Require Import Prelude Params State CString Spinlock Printk Sched Sleeplock Bio Cache Log.
From S2P Require Import Commit Crash Txn Fs Blocks.

(** ** Words in byte arrays *)

Section Words.
Context (l bs : list Z) (off o : Z).
Hypothesis Hoff : 0 <= off.
Hypothesis Hfit : off + Z.of_nat (length bs) <= Z.of_nat (length l).

Lemma get32_in : off <= o -> o + 4 <= off + Z.of_nat (length bs) ->
  get32 (set_bytes l off bs) o = get32 bs (o - off).
Proof.
  intros H1 H2. unfold get32, load32. rewrite !set_bytes_lookup by lia. byte_cases; try lia.
  do 3 f_equal; try (f_equal; f_equal; lia).
Qed.
Lemma get16_in : off <= o -> o + 2 <= off + Z.of_nat (length bs) ->
  get16 (set_bytes l off bs) o = get16 bs (o - off).
Proof.
  intros H1 H2. unfold get16. rewrite !set_bytes_lookup by lia. byte_cases; try lia.
  do 3 f_equal; lia.
Qed.
Lemma get32_out : 0 <= o -> o + 4 <= off \/ off + Z.of_nat (length bs) <= o ->
  get32 (set_bytes l off bs) o = get32 l o.
Proof. intros H1 H2. unfold get32, load32. rewrite !set_bytes_lookup by lia. by byte_cases. Qed.
Lemma get16_out : 0 <= o -> o + 2 <= off \/ off + Z.of_nat (length bs) <= o ->
  get16 (set_bytes l off bs) o = get16 l o.
Proof. intros H1 H2. unfold get16. rewrite !set_bytes_lookup by lia. by byte_cases. Qed.
End Words.

Lemma get32_app_r a b o : Z.of_nat (length a) <= o -> get32 (a ++ b) o = get32 b (o - Z.of_nat (length a)).
Proof.
  intros H. unfold get32, load32. rewrite !lookup_total_app_r by lia. do 3 f_equal; try (f_equal; f_equal; lia).
Qed.
Lemma get32_le32 v r : get32 (le32 v ++ r) 0 = u32 v.
Proof. unfold get32, load32, le32. simpl. unfold u8, u32, two32. Z.div_mod_to_equations. lia. Qed.

Lemma get32_words l i : (i < length l)%nat -> get32 (mjoin (le32 <$> l)) (4 * Z.of_nat i) = u32 (l !!! i).
Proof.
  revert i. induction l as [|v l IH]; intros i Hi; simpl in Hi; [lia|].
  cbn [fmap list_fmap mjoin list_join]. destruct i as [|i]; [apply get32_le32|].
  rewrite get32_app_r by (simpl length; lia). simpl length. 
  replace (4 * Z.of_nat (S i) - Z.of_nat 4) with (4 * Z.of_nat i) by lia. rewrite IH by lia. done.
Qed.

Lemma length_words l : length (mjoin (le32 <$> l)) = (4 * length l)%nat.
Proof.
  induction l as [|v l IH]; [done|]. rewrite fmap_cons. cbn [mjoin list_join].
  rewrite length_app. etrans; [apply (f_equal (Nat.add 4)), IH|]. simpl. lia.
Qed.

(** ** The layout of an inode *)

Record dinode_ok (di : dinode) : Prop := {
  dk_type : i16 (d_type di) = d_type di;
  dk_major : i16 (d_major di) = d_major di;
  dk_minor : i16 (d_minor di) = d_minor di;
  dk_nlink : i16 (d_nlink di) = d_nlink di;
  dk_size : u32 (d_size di) = d_size di;
  dk_len : length (d_addrs di) = Z.to_nat (NDIRECT + 1);
  dk_addrs : Forall (fun a => u32 a = a) (d_addrs di)
}.

Lemma length_encode di : length (d_addrs di) = Z.to_nat (NDIRECT + 1) ->
  length (encode_dinode di) = Z.to_nat DINODESIZE.
Proof. intros H. unfold encode_dinode. rewrite !length_app, length_words, H. done. Qed.

Lemma i16_le16 v : i16 (u8 v + 256 * u8 (v / 256)) = i16 v.
Proof. unfold i16, u8. Z.div_mod_to_equations. lia. Qed.

Lemma decode_encode bl slot di :
  dinode_ok di -> length bl = 512%nat -> 0 <= slot < IPB ->
  decode_dinode (set_bytes bl (slot * DINODESIZE) (encode_dinode di)) slot = di.
Proof.
  intros [D1 D2 D3 D4 D5 D6 D7] Hl Hs. pose proof (length_encode di D6) as Hle.
  unfold IPB, BSIZE, DINODESIZE in *.
  assert (0 <= slot * 64 /\ slot * 64 + 64 <= 512) as [H1 H2].
  { change (512 / 64) with 8 in Hs. lia. }
  unfold decode_dinode. unfold DINODESIZE.
  rewrite !get16_in, get32_in by (rewrite ?Hle, ?Hl; lia).
  replace (slot * 64 - slot * 64) with 0 by lia. replace (slot * 64 + 2 - slot * 64) with 2 by lia.
  replace (slot * 64 + 4 - slot * 64) with 4 by lia. replace (slot * 64 + 6 - slot * 64) with 6 by lia.
  replace (slot * 64 + 8 - slot * 64) with 8 by lia.
  assert (forall i, (i < 13)%nat ->
    word_at (set_bytes bl (slot * 64) (encode_dinode di)) (slot * 64 + 12) i = d_addrs di !!! i) as Hw.
  { intros i Hi. unfold word_at. rewrite get32_in by (rewrite ?Hle, ?Hl; lia).
    replace (slot * 64 + 12 + 4 * Z.of_nat i - slot * 64) with (12 + 4 * Z.of_nat i) by lia.
    change (encode_dinode di) with
      ((le16 (d_type di) ++ le16 (d_major di) ++ le16 (d_minor di) ++ le16 (d_nlink di)
        ++ le32 (d_size di)) ++ mjoin (le32 <$> d_addrs di)).
    rewrite get32_app_r by (simpl length; lia). simpl length.
    replace (12 + 4 * Z.of_nat i - Z.of_nat 12) with (4 * Z.of_nat i) by lia.
    assert (i < length (d_addrs di))%nat as Hi' by (rewrite D6; unfold NDIRECT; lia).
    rewrite get32_words by done. rewrite Forall_lookup in D7. apply (D7 i).
    by apply list_lookup_lookup_total_lt. }
  destruct di as [ty ma mi nl sz ad]. cbn [d_type d_major d_minor d_nlink d_size d_addrs] in *.
  f_equal.
  - etrans; [apply i16_le16|done].
  - etrans; [apply i16_le16|done].
  - etrans; [apply i16_le16|done].
  - etrans; [apply i16_le16|done].
  - etrans; [|exact D5]. apply (get32_le32 sz (mjoin (le32 <$> ad))).
  - apply (list_eq_same_length _ _ 13); [by rewrite D6|by rewrite length_fmap, length_seq|].
    intros i a b Hi Ha Hb. apply list_lookup_fmap_Some in Ha as (k & -> & Hk).
    apply lookup_seq in Hk as [-> _]. simpl. rewrite Hw by done. by apply list_lookup_total_correct.
Qed.

Lemma decode_other bl slot slot' bs :
  length bs = Z.to_nat DINODESIZE -> length bl = 512%nat -> 0 <= slot < IPB -> 0 <= slot' ->
  slot' <> slot ->
  decode_dinode (set_bytes bl (slot * DINODESIZE) bs) slot' = decode_dinode bl slot'.
Proof.
  intros Hb Hl Hs Hs' Hne. unfold IPB, BSIZE, DINODESIZE in *. change (512 / 64) with 8 in Hs.
  unfold decode_dinode, DINODESIZE.
  rewrite !get16_out, get32_out by (rewrite ?Hb, ?Hl; lia). f_equal.
  apply list_fmap_ext. intros k i Hi%lookup_seq. unfold word_at, NDIRECT in *.
  rewrite get32_out by (rewrite ?Hb, ?Hl; lia). done.
Qed.

(** ** Reading and writing inodes *)

(** The inode with number [n] on the disk, seen through the cache *)
Definition on_disk (d : data) (n : Z) : dinode :=
  decode_dinode (view d (IBLOCK n (sb d))) (n mod IPB).

(** The inode blocks lie on the disk outside the log. *)
Record inodes_wf (d : data) : Prop := {
  iw_start : 0 <= sb_inodestart (sb d);
  iw_end : sb_inodestart (sb d) + sb_ninodes (sb d) / IPB < disksize d;
  iw_log : forall n, 0 <= n < sb_ninodes (sb d) -> ~ in_log (log d) (IBLOCK n (sb d))
}.

Lemma inodes_upd d ip f j :
  (ip < length (icache d))%nat ->
  inodes (upd_inode ip f d) j = if decide (j = ip) then f (inodes d j) else inodes d j.
Proof.
  intros H. unfold inodes, upd_inode. getset. rewrite list_lookup_total_alter.
  destruct (decide (j = ip)) as [->|Hne]; [by rewrite decide_True|].
  rewrite decide_False; [done|]. by intros [-> _].
Qed.

Lemma runs_get_inode c me L ip d : runs c me L (get_inode ip) d (inodes d ip) d L.
Proof. exact (runs_getd c me L (fun d => inodes d ip) d). Qed.
Lemma runs_set_inode c me L ip f d : runs c me L (set_inode ip f) d tt (upd_inode ip f d) L.
Proof. apply runs_setd. Qed.
#[export] Hint Resolve runs_get_inode runs_set_inode : runs.

Lemma txn_upd_inode d me H ip f : txn d me H -> txn (upd_inode ip f d) me H.
Proof. by apply txn_frame. Qed.

Section Inode.
Context {Ops : BlockOps} {Dev : BlockDev} (c me ip : nat) (d : data).
Local Abbreviation i := (inodes d ip).
Hypothesis Htx : txn d me [].
Hypothesis Hiw : inodes_wf d.
Hypothesis Hdev : idev i = 1.
Hypothesis Hnum : 0 <= inum i < sb_ninodes (sb d).

Lemma IBLOCK_eq n : 0 <= n < sb_ninodes (sb d) -> IBLOCK n (sb d) = n / IPB + sb_inodestart (sb d).
Proof.
  intros Hn. destruct Hiw. unfold IBLOCK. pose proof (lw_disk d (tx_log _ _ _ Htx)).
  assert (0 <= n / IPB <= sb_ninodes (sb d) / IPB).
  { split; [apply Z.div_pos; [lia|done]|]. apply Z.div_le_mono; [done|lia]. }
  apply u32_small. unfold two31, two32 in *. lia.
Qed.
Lemma IBLOCK_range n : 0 <= n < sb_ninodes (sb d) -> 0 <= IBLOCK n (sb d) < disksize d.
Proof.
  intros Hn. rewrite IBLOCK_eq by done. destruct Hiw.
  assert (0 <= n / IPB <= sb_ninodes (sb d) / IPB).
  { split; [apply Z.div_pos; [lia|done]|]. apply Z.div_le_mono; [done|lia]. }
  lia.
Qed.

Lemma runs_iupdate :
  dinode_ok (dinode_of i) -> 1 <= l_outstanding (log d) -> lh_n (log d) + 1 < l_size (log d) ->
  exists d', runs c (Some me) [] (iupdate ip) d tt d' [] /\ txn d' me [] /\ same_but_log d d' /\
    grows [IBLOCK (inum i) (sb d)] (log d) (log d') /\ on_disk d' (inum i) = dinode_of i /\
    (forall n, 0 <= n < sb_ninodes (sb d) -> n <> inum i -> on_disk d' n = on_disk d n) /\
    (forall y, y <> IBLOCK (inum i) (sb d) -> view d' y = view d y).
Proof.
  intros Hok Ho Hn. pose proof (length_encode _ (dk_len _ Hok)) as Hle.
  pose proof (Z.mod_pos_bound (inum i) IPB eq_refl) as Hslot.
  assert (length (view d (IBLOCK (inum i) (sb d))) = 512%nat) as Hvl.
  { eapply view_length, (tx_cache _ _ _ Htx). }
  destruct (runs_update_parts c me d [] (IBLOCK (inum i) (sb d)) (fun bl =>
      set_bytes bl (inum i mod IPB * DINODESIZE) (encode_dinode (dinode_of i))) Htx)
    as (bp & d1 & d2 & Hr1 & Hbd & Hsr & Hr2 & Htx2 & Hg & Hs2 & Hd2 & _ & Hv2).
  { simpl. lia. }
  { by intros j ?%not_elem_of_nil. }
  { by apply IBLOCK_range. }
  { by apply Hiw. }
  { lia. }
  { done. }
  { intros bl <-. apply length_set_bytes. }
  exists d2. split_and!; try done.
  - unfold iupdate. rstep. rstep. rewrite Hdev. eapply runs_bind; [exact Hr1|]. rstep.
    assert (inodes d1 ip = i) as -> by (unfold inodes; by rewrite (sr_icache _ _ Hsr)). exact Hr2.
  - unfold on_disk. rewrite (sl_sb _ _ Hs2), Hv2, decide_True by done. by apply decode_encode.
  - intros n Hn' Hne. unfold on_disk. rewrite (sl_sb _ _ Hs2), Hv2. case_decide as E; [|done].
    rewrite E. pose proof (Z.mod_pos_bound n IPB eq_refl). apply decode_other; try done; [lia|].
    rewrite !IBLOCK_eq in E by done. intros Em. apply Hne.
    rewrite (Z.div_mod n IPB), (Z.div_mod (inum i) IPB) by done. lia.
  - intros y Hy. by rewrite Hv2, decide_False.
Qed.

(** C24: [iupdate] stores the in-memory inode: afterwards the inode on disk has
    the fields of the one in memory, and every other inode and every other
    block is as before. *)
Theorem iupdate_writes :
  dinode_ok (dinode_of i) -> 1 <= l_outstanding (log d) -> lh_n (log d) + 1 < l_size (log d) ->
  exists d', runs c (Some me) [] (iupdate ip) d tt d' [] /\ txn d' me [] /\ same_but_log d d' /\
    grows [IBLOCK (inum i) (sb d)] (log d) (log d') /\ on_disk d' (inum i) = dinode_of i /\
    (forall n, 0 <= n < sb_ninodes (sb d) -> n <> inum i -> on_disk d' n = on_disk d n) /\
    (forall y, y <> IBLOCK (inum i) (sb d) -> view d' y = view d y).
Proof. exact runs_iupdate. Qed.

(** The state with the inode locked *)
Local Abbreviation d0 := (upd_sl (SInode ip) (lock_by (pid (procs d me))) d).

Lemma locked_txn : txn d0 me [].
Proof. apply (txn_frame d); try done. intros b. by apply sl_upd_other. Qed.

(** Reading the inode block *)
Lemma runs_read_inode :
  exists bp d1, runs c (Some me) [] (bread 1 (IBLOCK (inum i) (sb d))) d0 bp d1 [] /\
    decode_dinode (b_data (bufs d1 bp)) (inum i mod IPB) = on_disk d (inum i) /\
    peeked d0 me [] (released bp d1) /\
    forall f, runs c (Some me) [] (brelse bp) (upd_inode ip f d1) tt (upd_inode ip f (released bp d1)) [].
Proof.
  destruct (runs_look c me d0 [] (IBLOCK (inum i) (sb d)) locked_txn (nil_room _ _ locked_txn)
    (no_held d0 _) (IBLOCK_range _ Hnum))
    as (bp & d1 & Hr1 & Hb & Hsr & Hc & Hp).
  exists bp, d1. split; [done|]. split; [by rewrite Hb|]. split; [done|].
  intros f. eapply runs_eq; [|reflexivity]. eapply runs_brelse; [|left].
  by apply (cache_frame d1).
Qed.

Lemma runs_ilock_start d' :
  1 <= iref i -> s_locked (sl d (SInode ip)) = 0 ->
  runs c (Some me) [] (i <- get_inode ip;;
    if ivalid i =? 0 then
      s <- getd sb;;
      bp <- bread (idev i) (IBLOCK (inum i) s);;
      bf <- get_buf bp;;
      set_inode ip (load_inode (decode_dinode (b_data bf) (inum i mod IPB)));;
      brelse bp;;
      set_inode ip (fun i => i <|ivalid := 1|>);;
      i <- get_inode ip;;
      if itype i =? 0 then panic "ilock: no type" else ret tt
    else ret tt) d0 tt d' [] ->
  runs c (Some me) [] (ilock (Some ip)) d tt d' [].
Proof.
  intros Href Hl Hr. unfold ilock. rstep. rewrite (proj2 (Z.ltb_ge _ _)) by lia.
  eapply runs_bind; [apply runs_acquiresleep; [apply not_elem_of_nil|done]|]. exact Hr.
Qed.

(** The lock is free and the copy in memory is not valid. *)
Section Load.
Hypothesis Hlt : (ip < length (icache d))%nat.
Hypothesis Href : 1 <= iref i.
Hypothesis Hl : s_locked (sl d (SInode ip)) = 0.
Hypothesis Hv : ivalid i = 0.
Local Abbreviation f := (load_inode (on_disk d (inum i))).
Local Abbreviation done_ e := (upd_inode ip (fun i => i <|ivalid := 1|>) (upd_inode ip f e)).

Lemma inodes_loaded e j : icache e = icache d ->
  inodes (done_ e) j = if decide (j = ip) then (f (inodes d j)) <|ivalid := 1|> else inodes d j.
Proof.
  intros Ei. rewrite inodes_upd by (unfold upd_inode; getset; by rewrite length_alter, Ei).
  rewrite inodes_upd by (by rewrite Ei). unfold inodes. rewrite Ei. by case_decide.
Qed.

Lemma runs_ilock_load : d_type (on_disk d (inum i)) <> 0 ->
  exists d', runs c (Some me) [] (ilock (Some ip)) d tt d' [] /\ txn d' me [] /\
    inodes d' ip = (f i) <|ivalid := 1|> /\
    (forall j, j <> ip -> inodes d' j = inodes d j) /\ (forall y, view d' y = view d y) /\
    sl d' (SInode ip) = lock_by (pid (procs d me)) (sl d (SInode ip)) /\
    sb d' = sb d /\ disksize d' = disksize d.
Proof.
  intros Hty. destruct runs_read_inode as (bp & d1 & Hr1 & Hdec & Hp & Hr2). set (e := released bp d1) in *.
  pose proof (pk_rest _ _ _ _ Hp) as Hsr. pose proof (sr_icache _ _ Hsr) as Ei. change (icache d0) with (icache d) in Ei.
  exists (done_ e). split_and!.
  - apply runs_ilock_start; [done|done|]. rstep. change (inodes d0 ip) with i. rewrite Hv, Hdev.
    cbn [Z.eqb]. rstep. eapply runs_bind; [exact Hr1|]. rstep. rewrite Hdec. rstep.
    eapply runs_bind; [apply Hr2|]. fold e. rstep. rstep.
    rewrite (inodes_loaded e ip Ei), decide_True by done. change (itype ((f i) <|ivalid := 1|>)) with (d_type (on_disk d (inum i))).
    rewrite (proj2 (Z.eqb_neq _ _) Hty). apply runs_ret.
  - apply txn_upd_inode, txn_upd_inode, Hp.
  - by rewrite (inodes_loaded e ip Ei), decide_True.
  - intros j Hj. by rewrite (inodes_loaded e j Ei), decide_False.
  - intros y. etrans; [by apply (view_frame e)|]. rewrite (pk_view _ _ _ _ Hp). by apply (view_frame d).
  - change (sl (done_ e) (SInode ip)) with (sl e (SInode ip)). rewrite (sr_inode _ _ Hsr). apply sl_upd_same.
  - apply (sr_sb _ _ Hsr).
  - apply (sr_disksize _ _ Hsr).
Qed.

Lemma panics_ilock_free : d_type (on_disk d (inum i)) = 0 ->
  panics c (Some me) [] (ilock (Some ip)) d "ilock: no type".
Proof.
  intros Hty. destruct runs_read_inode as (bp & d1 & Hr1 & Hdec & Hp & Hr2). set (e := released bp d1) in *.
  pose proof (sr_icache _ _ (pk_rest _ _ _ _ Hp)) as Ei. change (icache d0) with (icache d) in Ei.
  unfold ilock. pstep. rewrite (proj2 (Z.ltb_ge _ _)) by lia.
  eapply runs_panics; [apply runs_acquiresleep; [apply not_elem_of_nil|done]|]. pstep.
  change (inodes d0 ip) with i. rewrite Hv, Hdev. cbn [Z.eqb]. pstep.
  eapply runs_panics; [exact Hr1|]. pstep. rewrite Hdec. pstep. eapply runs_panics; [apply Hr2|].
  fold e. pstep. pstep. rewrite (inodes_loaded e ip Ei), decide_True by done.
  change (itype ((f i) <|ivalid := 1|>)) with (d_type (on_disk d (inum i))). rewrite Hty. apply panics_panic.
Qed.
End Load.

(** C25: [ilock] on an inode that nobody has locked gives the caller its lock
    and makes the copy in memory valid: the fields come from the disk when the
    cache entry was not valid and stay as they are otherwise.  A free inode
    makes it panic. *)
Theorem ilock_reads :
  (ip < length (icache d))%nat -> 1 <= iref i -> s_locked (sl d (SInode ip)) = 0 ->
  (ivalid i <> 0 ->
     runs c (Some me) [] (ilock (Some ip)) d tt
       (upd_sl (SInode ip) (lock_by (pid (procs d me))) d) []) /\
  (ivalid i = 0 -> d_type (on_disk d (inum i)) <> 0 ->
     exists d', runs c (Some me) [] (ilock (Some ip)) d tt d' [] /\ txn d' me [] /\
       inodes d' ip = (load_inode (on_disk d (inum i)) i) <|ivalid := 1|> /\
       (forall j, j <> ip -> inodes d' j = inodes d j) /\ (forall y, view d' y = view d y) /\
       sl d' (SInode ip) = lock_by (pid (procs d me)) (sl d (SInode ip))) /\
  (ivalid i = 0 -> d_type (on_disk d (inum i)) = 0 ->
     panics c (Some me) [] (ilock (Some ip)) d "ilock: no type").
Proof.
  intros Hlt Href Hl. split_and!.
  - intros Hv. apply runs_ilock_start; [done|done|]. rstep. change (inodes d0 ip) with i.
    rewrite (proj2 (Z.eqb_neq _ _) Hv). apply runs_ret.
  - intros Hv Hty. destruct (runs_ilock_load Hlt Href Hl Hv Hty) as (d' & H1 & H2 & H3 & H4 & H5 & H6 & _).
    by exists d'.
  - by apply panics_ilock_free.
Qed.
End Inode.

(** ** Inode 3 of a small file system, cached but not read yet *)

Definition ex_dinode : dinode := Dinode T_FILE 0 0 1 100 (35 :: replicate 12 0).
Definition ex_iblock : block := set_bytes zero_block (3 * DINODESIZE) (encode_dinode ex_dinode).
Definition ex_disk : gmap Z block := <[32 := ex_iblock]> (<[33 := ex_bits]> {[1 := ex_sb]}).
Definition ex_cached (i : inode) : data :=
  (ex_data inhabitant 0 ex_disk) <|sb := Superblock 40 6 8 30 2 32 33|> <|icache := i :: replicate 49 inhabitant|>
    <|log ::= fun lg => lg <|l_outstanding := 1|>|>.

Lemma ex_cached_txn i : txn (ex_cached i) 0 [].
Proof.
  apply (txn_set_log 0 ((ex_data inhabitant 0 ex_disk) <|sb := Superblock 40 6 8 30 2 32 33|>
    <|icache := i :: replicate 49 inhabitant|>)); try done.
  apply (txn_frame (ex_data inhabitant 0 ex_disk)); try done.
  apply ex_txn_ok; [|by vm_compute]. intros x bl. unfold ex_disk. rewrite !lookup_insert, lookup_singleton.
  repeat case_decide; intros; by simplify_eq.
Qed.

Lemma ex_cached_wf i : inodes_wf (ex_cached i).
Proof.
  split; [by vm_compute|by vm_compute|]. intros n Hn. change (sb_ninodes _) with 8 in Hn.
  unfold IBLOCK. change (sb_inodestart _) with 32. rewrite Z.div_small by (change IPB with 8; lia).
  vm_compute. by intros [_ ?].
Qed.

Lemma iupdate_writes_witness :
  let i := Inode 1 3 1 1 T_FILE 0 0 2 200 (35 :: replicate 12 0) in
  exists d', runs 0 (Some 0%nat) [] (iupdate 0) (ex_cached i) tt d' [] /\ txn d' 0 [] /\
    same_but_log (ex_cached i) d' /\ grows [32] (log (ex_cached i)) (log d') /\ on_disk d' 3 = dinode_of i /\
    (forall n, 0 <= n < 8 -> n <> 3 -> on_disk d' n = on_disk (ex_cached i) n) /\
    (forall y, y <> IBLOCK 3 (sb (ex_cached i)) -> view d' y = view (ex_cached i) y).
Proof.
  intros i. apply (iupdate_writes 0 0 0 (ex_cached i) (ex_cached_txn i) (ex_cached_wf i));
    [reflexivity|by vm_compute| |by vm_compute|by vm_compute].
  split; try reflexivity. repeat constructor.
Defined.

Lemma ilock_reads_witness :
  let i := Inode 1 3 1 0 0 0 0 0 0 (replicate 13 0) in
  exists d', runs 0 (Some 0%nat) [] (ilock (Some 0%nat)) (ex_cached i) tt d' [] /\ txn d' 0 [] /\
    inodes d' 0 = (load_inode ex_dinode i) <|ivalid := 1|> /\
    (forall j, j <> 0%nat -> inodes d' j = inodes (ex_cached i) j) /\
    (forall y, view d' y = view (ex_cached i) y) /\
    sl d' (SInode 0) = lock_by (pid (procs (ex_cached i) 0)) (sl (ex_cached i) (SInode 0)).
Proof.
  intros i. assert (on_disk (ex_cached i) 3 = ex_dinode) as E by by vm_compute.
  assert (inodes (ex_cached i) 0 = i) as Ei by reflexivity.
  pose proof (ilock_reads 0 0 0 (ex_cached i) (ex_cached_txn i) (ex_cached_wf i)) as H.
  rewrite Ei in H. change (inum i) with 3 in H. rewrite E in H.
  assert (0 <= 3 < sb_ninodes (sb (ex_cached i))) as H1 by (split; [lia|by vm_compute]).
  assert (0 < length (icache (ex_cached i)))%nat as H2 by (vm_compute; lia).
  assert (s_locked (sl (ex_cached i) (SInode 0)) = 0) as H3 by by vm_compute.
  apply (proj1 (proj2 (H eq_refl H1 H2 ltac:(done) H3))); [reflexivity|by vm_compute].
Defined.
