(* ===== verification/Files.v ===== *)
(** * The contents of files (fs.c: bmap, readi, writei, continued)

    The blocks of a file are listed in its inode, the first NDIRECT ones
    directly and the others in an indirect block.  [readi] delivers and
    [writei] replaces and extends the bytes these blocks hold. *)

From S2P Require Import Prelude Params State CString Spinlock Printk Sched Sleeplock Bio Cache Log.
From S2P Require Import Commit Crash Txn Fs Blocks Inodes.

(** ** Files as byte sequences; [g] gives the contents of the blocks *)

Definition file_block (g : Z -> block) (addrs : list Z) (k : Z) : Z :=
  if k <? NDIRECT then addrs !!! Z.to_nat k
  else if addrs !!! Z.to_nat NDIRECT =? 0 then 0
  else get32 (g (addrs !!! Z.to_nat NDIRECT)) (4 * (k - NDIRECT)).

Definition file_byte (g : Z -> block) (addrs : list Z) (o : Z) : Z :=
  g (file_block g addrs (o / BSIZE)) !!! Z.to_nat (o mod BSIZE).

Definition bytes_at (g : Z -> block) (addrs : list Z) (o n : Z) : list Z :=
  (fun j => file_byte g addrs (o + Z.of_nat j)) <$> seq 0 (Z.to_nat n).

Definition contents (g : Z -> block) (addrs : list Z) (size : Z) : list Z := bytes_at g addrs 0 size.

Lemma file_block_ext g g' addrs k :
  (forall y, g' y = g y) -> file_block g' addrs k = file_block g addrs k.
Proof. intros E. unfold file_block. by rewrite E. Qed.
Lemma bytes_at_ext g g' addrs o n :
  (forall y, g' y = g y) -> bytes_at g' addrs o n = bytes_at g addrs o n.
Proof.
  intros E. apply list_fmap_ext. intros i j _. unfold file_byte.
  by rewrite (file_block_ext g g'), E.
Qed.

Lemma length_bytes_at g addrs o n : length (bytes_at g addrs o n) = Z.to_nat n.
Proof. unfold bytes_at. by rewrite length_fmap, length_seq. Qed.
Lemma bytes_at_lookup g addrs o n j : (j < Z.to_nat n)%nat ->
  bytes_at g addrs o n !! j = Some (file_byte g addrs (o + Z.of_nat j)).
Proof. intros H. unfold bytes_at. by rewrite list_lookup_fmap, lookup_seq_lt by done. Qed.

Lemma bytes_at_app g addrs o m n : 0 <= m -> 0 <= n ->
  bytes_at g addrs o (m + n) = bytes_at g addrs o m ++ bytes_at g addrs (o + m) n.
Proof.
  intros Hm Hn. unfold bytes_at. rewrite Z2Nat.inj_add, seq_app, fmap_app by done. f_equal.
  simpl. rewrite <- (Nat.add_0_r (Z.to_nat m)) at 1. rewrite <- fmap_add_seq, <- list_fmap_compose.
  apply list_fmap_ext. intros i j _. simpl. f_equal. lia.
Qed.

Lemma slice_lookup_Z (l : list Z) o n j : 0 <= o -> (j < Z.to_nat n)%nat ->
  slice l o n !! j = l !! (Z.to_nat o + j)%nat.
Proof. intros Ho Hj. unfold slice. by rewrite lookup_take_lt, lookup_drop by done. Qed.

Lemma slice_contents g addrs size o n : 0 <= o -> 0 <= n -> o + n <= size ->
  slice (contents g addrs size) o n = bytes_at g addrs o n.
Proof.
  intros Ho Hn Hs. apply (list_eq_same_length _ _ (Z.to_nat n)).
  - apply length_bytes_at.
  - unfold slice. rewrite length_take, length_drop. unfold contents. rewrite length_bytes_at. lia.
  - intros j x y Hj Hx Hy. rewrite slice_lookup_Z in Hx by done. unfold contents in Hx.
    rewrite bytes_at_lookup in Hx, Hy by lia. simplify_eq. f_equal. lia.
Qed.

(** The part of a block that a round of the copy loops moves *)
Lemma slice_block g addrs o n : 0 <= o -> 0 <= n -> o mod BSIZE + n <= BSIZE ->
  length (g (file_block g addrs (o / BSIZE))) = 512%nat ->
  slice (g (file_block g addrs (o / BSIZE))) (o mod BSIZE) n = bytes_at g addrs o n.
Proof.
  intros Ho Hn Hle Hl. pose proof (Z.mod_pos_bound o BSIZE eq_refl) as Hm.
  apply (list_eq_same_length _ _ (Z.to_nat n)).
  - apply length_bytes_at.
  - unfold slice. rewrite length_take, length_drop, Hl. unfold BSIZE in *. lia.
  - intros j x y Hj Hx Hy. rewrite slice_lookup_Z in Hx by lia. rewrite bytes_at_lookup in Hy by done.
    injection Hy as <-. unfold file_byte.
    assert ((o + Z.of_nat j) / BSIZE = o / BSIZE /\ (o + Z.of_nat j) mod BSIZE = o mod BSIZE + Z.of_nat j)
      as [-> ->] by (unfold BSIZE in *; Z.div_mod_to_equations; lia).
    symmetry. apply list_lookup_total_correct. rewrite <- Hx. f_equal. lia.
Qed.

(** ** Reading *)

(** The file of the inode [ip] of the cache *)
Abbreviation blocks_of d ip := (file_block (view d) (iaddrs (inodes d ip))).
Abbreviation bytes_of d ip := (bytes_at (view d) (iaddrs (inodes d ip))).
Abbreviation file_of d ip := (contents (view d) (iaddrs (inodes d ip)) (isize (inodes d ip))).

(** All bytes have their places on the disk. *)
Record readable (d : data) (ip : nat) : Prop := {
  rd_dev : idev (inodes d ip) = 1;
  rd_size : 0 <= isize (inodes d ip) <= MAXFILE * BSIZE;
  rd_blocks : forall k, 0 <= k -> k * BSIZE < isize (inodes d ip) -> 0 < blocks_of d ip k < disksize d;
  rd_ind : NDIRECT * BSIZE < isize (inodes d ip) ->
    0 < iaddrs (inodes d ip) !!! Z.to_nat NDIRECT < disksize d
}.

Lemma peeked_readable d me H d' ip : peeked d me H d' -> readable d ip -> readable d' ip.
Proof.
  intros [_ P2 _ _ P5] [R1 R2 R3 R4].
  assert (inodes d' ip = inodes d ip) as Ei by (unfold inodes; by rewrite (sr_icache _ _ P2)).
  split; rewrite ?Ei, ?(sr_disksize _ _ P2); try done.
  intros k Hk Hlt. rewrite (file_block_ext (view d)) by done. by apply R3.
Qed.

Lemma peeked_inode d me H d' ip : peeked d me H d' -> inodes d' ip = inodes d ip.
Proof. intros P. unfold inodes. by rewrite (sr_icache _ _ (pk_rest _ _ _ _ P)). Qed.

Section Read.
Context {Ops : BlockOps} {Dev : BlockDev} {Devs : DevOps} (c me ip : nat).

(** A block of the file, with the buffer released again *)
Lemma runs_bmap_look d k :
  txn d me [] -> readable d ip -> 0 <= k -> k * BSIZE < isize (inodes d ip) ->
  exists d', runs c (Some me) [] (bmap ip k) d (blocks_of d ip k) d' [] /\ peeked d me [] d'.
Proof.
  intros Htx Hr H0 Hk. destruct Hr as [R1 R2 R3 R4]. pose proof (R3 k H0 Hk) as Hb.
  unfold bmap. unfold file_block in *. destruct (Z.ltb_spec k NDIRECT) as [Hlt|Hge].
  - exists d. split; [|by apply peeked_refl]. rstep.
    cbv zeta. rewrite (proj2 (Z.eqb_neq _ _)) by lia. apply runs_ret.
  - assert (k < MAXFILE) as Hmax by (unfold MAXFILE, BSIZE, NDIRECT in *; nia).
    destruct R4 as [I1 I2]; [unfold BSIZE in *; lia|].
    rewrite (proj2 (Z.eqb_neq (_ !!! _) 0)) in Hb |- * by lia.
    destruct (runs_look c me d [] (iaddrs (inodes d ip) !!! Z.to_nat NDIRECT) Htx (nil_room _ _ Htx)
      (no_held d _)) as (b & d1 & Hr1 & Hd1 & Hsr & Hc1 & Hp); [lia|].
    exists (released b d1). split; [|done]. rstep. cbv zeta.
    rewrite (proj2 (Z.ltb_lt _ _)) by (unfold MAXFILE in *; lia).
    rewrite (proj2 (Z.eqb_neq (_ !!! _) 0)) by lia. rstep. rewrite R1.
    eapply runs_bind; [exact Hr1|]. rstep. rewrite Hd1.
    rewrite (proj2 (Z.eqb_neq _ 0)) by lia. rstep.
    eapply runs_bind; [eapply runs_brelse; [exact Hc1|left]|]. apply runs_ret.
Qed.

(** Rounds that are left: the blocks from offset [o] to [e] *)
Definition rounds_left (o e : Z) : nat := if o <? e then Z.to_nat ((e - 1) / BSIZE - o / BSIZE + 1) else 0.

Lemma rounds_less o e m : 0 <= o -> o < e -> m = Z.min (e - o) (BSIZE - o mod BSIZE) ->
  0 < m <= BSIZE /\ rounds_left o e = S (rounds_left (o + m) e).
Proof.
  intros H0 Hlt ->. unfold rounds_left. rewrite (proj2 (Z.ltb_lt o e)) by done.
  pose proof (Z.mod_pos_bound o BSIZE eq_refl). destruct (Z.min_spec (e - o) (BSIZE - o mod BSIZE)) as [[Hm ->]|[Hm ->]].
  - split; [lia|]. rewrite (proj2 (Z.ltb_ge _ _)) by lia. unfold BSIZE in *. Z.div_mod_to_equations. lia.
  - split; [lia|]. destruct (Z.ltb_spec (o + (BSIZE - o mod BSIZE)) e); unfold BSIZE in *;
      Z.div_mod_to_equations; lia.
Qed.

Lemma runs_read_round d off n tot acc :
  txn d me [] -> readable d ip -> 0 <= off -> off + n <= isize (inodes d ip) -> 0 <= tot < n ->
  let m := Z.min (n - tot) (BSIZE - (off + tot) mod BSIZE) in
  exists d', runs c (Some me) [] (readi_round ip n (tot, off + tot, ToKernel, acc)) d
      (inl (tot + m, off + tot + m, ToKernel, acc ++ bytes_of d ip (off + tot) m)) d' [] /\ peeked d me [] d'.
Proof.
  intros Htx Hr Ho Hs Ht m. pose proof Hr as [R1 R2 R3 _].
  set (o := off + tot) in *. assert (0 <= o) as Ho' by (unfold o; lia).
  destruct (rounds_less o (off + n) m Ho') as [Hm _]; [unfold o; lia|unfold m, o; f_equal; lia|].
  assert (0 <= o / BSIZE /\ o / BSIZE * BSIZE < isize (inodes d ip)) as [Hk Hk'].
  { unfold BSIZE in *. Z.div_mod_to_equations. lia. }
  destruct (runs_bmap_look d (o / BSIZE) Htx Hr Hk Hk') as (d1 & Hr1 & P1).
  pose proof (R3 _ Hk Hk') as Hb. set (b := blocks_of d ip (o / BSIZE)) in *.
  pose proof (pk_txn _ _ _ _ P1) as Htx1.
  destruct (runs_look c me d1 [] b Htx1 (nil_room _ _ Htx1) (no_held d1 _)) as (bp & d2 & Hr2 & Hd2 & Hsr & Hc2 & P2).
  { rewrite (sr_disksize _ _ (pk_rest _ _ _ _ P1)). lia. }
  exists (released bp d2). split; [|by eapply peeked_trans].
  assert (length (view d b) = 512%nat) as Hl by (eapply view_length, (tx_cache _ _ _ Htx)).
  unfold readi_round. rewrite (proj2 (Z.ltb_lt _ _)) by lia. eapply runs_bind; [exact Hr1|].
  rstep. rewrite (peeked_inode _ _ _ _ ip P1), R1. eapply runs_bind; [exact Hr2|]. cbv zeta. rstep. rstep.
  eapply runs_bind; [eapply runs_brelse; [exact Hc2|left]|].
  rewrite Hd2, (pk_view _ _ _ _ P1). fold m. unfold b. rewrite slice_block;
    [|done|lia|unfold m in *; lia|done].
  assert (MAXFILE * BSIZE < two31) by done.
  rewrite !u32_small by (unfold two31, two32, o in *; lia). apply runs_ret.
Qed.

Lemma runs_read_loop off n fuel : forall tot acc d,
  txn d me [] -> readable d ip -> 0 <= off -> off + n <= isize (inodes d ip) -> 0 <= tot <= n ->
  (rounds_left (off + tot) (off + n) < fuel)%nat ->
  exists d', runs c (Some me) [] (loop fuel (readi_round ip n) (tot, off + tot, ToKernel, acc)) d
      (n, acc ++ bytes_of d ip (off + tot) (n - tot)) d' [] /\ peeked d me [] d'.
Proof.
  induction fuel as [|fuel IH]; intros tot acc d Htx Hr Ho Hs Ht Hf; [lia|].
  destruct (decide (tot = n)) as [->|Hne].
  - exists d. split; [|by apply peeked_refl]. apply runs_loop_stop. unfold readi_round.
    rewrite (proj2 (Z.ltb_ge _ _)) by lia. pose proof (rd_size _ _ Hr).
    assert (MAXFILE * BSIZE < two31) by done.
    rewrite i32_small by lia. replace (n - n) with 0 by lia.
    change (bytes_of d ip (off + n) 0) with (@nil Z). rewrite app_nil_r. apply runs_ret.
  - destruct (runs_read_round d off n tot acc Htx Hr Ho Hs) as (d1 & Hr1 & P1); [lia|].
    set (m := Z.min (n - tot) (BSIZE - (off + tot) mod BSIZE)) in *.
    destruct (rounds_less (off + tot) (off + n) m) as [Hm Hl]; [lia|lia|unfold m; f_equal; lia|].
    rewrite <- Z.add_assoc in Hr1.
    destruct (IH (tot + m) (acc ++ bytes_of d ip (off + tot) m) d1 (pk_txn _ _ _ _ P1)) as (d2 & Hr2 & P2).
    { by eapply peeked_readable. }
    { done. }
    { by rewrite (peeked_inode _ _ _ _ ip P1). }
    { unfold m in *. lia. }
    { rewrite Z.add_assoc. lia. }
    exists d2. split; [|by eapply peeked_trans]. eapply runs_loop_more; [exact Hr1|].
    replace (acc ++ bytes_of d ip (off + tot) (n - tot))
      with ((acc ++ bytes_of d ip (off + tot) m) ++ bytes_of d1 ip (off + (tot + m)) (n - (tot + m))); [done|].
    rewrite <- app_assoc. f_equal. rewrite (peeked_inode _ _ _ _ ip P1).
    rewrite (bytes_at_ext (view d) (view d1)) by apply P1. rewrite Z.add_assoc, <- bytes_at_app by (unfold m in *; lia).
    f_equal. lia.
Qed.

Lemma runs_readi d off n :
  txn d me [] -> readable d ip -> itype (inodes d ip) <> T_DEV -> 0 <= off <= isize (inodes d ip) -> 0 <= n ->
  off + n < two32 ->
  let k := Z.min n (isize (inodes d ip) - off) in
  exists d', runs c (Some me) [] (readi ip ToKernel off n) d (k, slice (file_of d ip) off k) d' [] /\
    peeked d me [] d'.
Proof.
  intros Htx Hr Hty Ho Hn Hw k. pose proof (rd_size _ _ Hr) as Hsz.
  destruct (runs_read_loop off k (Z.to_nat (k / BSIZE) + 3) 0 [] d Htx Hr) as (d' & Hrun & P).
  { lia. }
  { lia. }
  { lia. }
  { unfold rounds_left. rewrite Z.add_0_r. case_match; [|lia]. unfold BSIZE in *. Z.div_mod_to_equations. lia. }
  exists d'. split; [|done]. unfold readi. rstep. rewrite (proj2 (Z.eqb_neq _ _)) by done.
  rewrite (proj2 (Z.ltb_ge _ _)) by lia. rewrite u32_small by lia. rewrite (proj2 (Z.ltb_ge _ _)) by lia.
  cbn [orb]. cbv zeta.
  replace (if isize (inodes d ip) <? off + n then isize (inodes d ip) - off else n) with k
    by (unfold k; case_match; lia).
  rewrite Z.add_0_r in Hrun. rewrite slice_contents by lia. rewrite Z.sub_0_r in Hrun. exact Hrun.
Qed.

(** C26: [readi] delivers the contents of the file: the [n] bytes from offset
    [off] on, or fewer at the end of the file, and none beyond it.  Neither the
    contents of the disk nor the state of the log change.  An offset beyond the
    end, or one that wraps around, is an error. *)
Theorem readi_reads d off n :
  txn d me [] -> readable d ip -> itype (inodes d ip) <> T_DEV -> 0 <= off < two32 -> 0 <= n < two32 ->
  (off <= isize (inodes d ip) -> off + n < two32 ->
   let k := Z.min n (isize (inodes d ip) - off) in
   exists d', runs c (Some me) [] (readi ip ToKernel off n) d (k, slice (file_of d ip) off k) d' [] /\
     peeked d me [] d') /\
  (isize (inodes d ip) < off \/ two32 <= off + n ->
   runs c (Some me) [] (readi ip ToKernel off n) d (-1, []) d []).
Proof.
  intros Htx Hr Hty Ho Hn. split; [intros Hle Hw; apply runs_readi; [done..|lia|lia|done]|].
  intros Hbad. unfold readi. rstep. rewrite (proj2 (Z.eqb_neq _ _)) by done.
  replace ((isize (inodes d ip) <? off) || (u32 (off + n) <? off)) with true; [apply runs_ret|].
  symmetry. apply orb_true_iff. destruct Hbad as [?|?]; [left; lia|right].
  unfold u32. rewrite <- (Z.mod_add _ (-1)) by done. rewrite Z.mod_small by (unfold two32 in *; lia).
  unfold two32 in *. lia.
Qed.
End Read.

(** ** Free blocks *)

(** A block that may belong to a file: in use, and outside the log, the bitmap
    and the inode blocks *)
Record data_block (d : data) (b : Z) : Prop := {
  db_range : 0 < b < sb_size (sb d);
  db_used : used d b;
  db_log : ~ in_log (log d) b;
  db_map : b <> sb_bmapstart (sb d);
  db_ino : forall n, 0 <= n < sb_ninodes (sb d) -> b <> IBLOCK n (sb d)
}.

(** A file system whose bitmap is one block, as mkfs makes them *)
Record fs_wf (d : data) : Prop := {
  fw_bitmap : bitmap_wf d;
  fw_inodes : inodes_wf d;
  fw_one : 0 < sb_size (sb d) <= BPB;
  fw_boot : used d 0;
  fw_iblocks : forall n, 0 <= n < sb_ninodes (sb d) ->
    0 <= IBLOCK n (sb d) < sb_size (sb d) /\ used d (IBLOCK n (sb d)) /\ IBLOCK n (sb d) <> sb_bmapstart (sb d)
}.

Lemma BBLOCK_one d x : fs_wf d -> disksize d < two31 -> 0 <= x < sb_size (sb d) -> BBLOCK x (sb d) = sb_bmapstart (sb d).
Proof.
  intros W Hd Hx. pose proof (fw_one _ W). destruct (fw_bitmap _ W) as [? ? ? _ _].
  unfold BBLOCK. rewrite Z.div_small by lia. apply u32_small. unfold two31, two32 in *.
  assert (0 <= sb_size (sb d) / BPB) by (apply Z.div_pos; [lia|done]). lia.
Qed.

(** What stays when blocks are taken into use *)
Record more_used (d d' : data) : Prop := {
  mu_sb : sb d' = sb d;
  mu_disk : disksize d' = disksize d;
  mu_start : l_start (log d') = l_start (log d);
  mu_lsize : l_size (log d') = l_size (log d);
  mu_used : forall x, 0 <= x < sb_size (sb d) -> used d x -> used d' x
}.
#[global] Instance more_used_preorder : PreOrder more_used.
Proof.
  split; [by split|]. intros d1 d2 d3 [A1 A2 A3 A4 A5] [B1 B2 B3 B4 B5]. split; try congruence.
  intros x Hx Hu. apply B5; [by rewrite A1|auto].
Qed.

Lemma data_block_more d d' b : more_used d d' -> data_block d b -> data_block d' b.
Proof.
  intros [M1 M2 M3 M4 M5] [B1 B2 B3 B4 B5]. split; rewrite ?M1; try done.
  - apply M5; [lia|done].
  - unfold in_log. by rewrite M3, M4.
Qed.
Lemma fs_wf_more d d' : more_used d d' -> fs_wf d -> fs_wf d'.
Proof.
  intros [M1 M2 M3 M4 M5] [[W1 W2 W3 W4 W5] [I1 I2 I3] O B I].
  assert (forall x, in_log (log d') x <-> in_log (log d) x) as El by (intros x; unfold in_log; by rewrite M3, M4).
  split; [split|split|..]; rewrite ?M1, ?M2; try done.
  - intros b Hb. rewrite El. by apply W4.
  - intros b Hb Hm. apply M5; [done|]. apply W5; [done|]. by rewrite El in Hm.
  - intros n Hn. rewrite El. by apply I3.
  - apply M5; [lia|done].
  - intros n Hn. destruct (I n Hn) as (? & ? & ?). auto.
Qed.

Lemma allocated_more d me H b d' : allocated d me H b d' -> more_used d d'.
Proof.
  intros [A1 A2 A3 A4 A5 A6 A7 A8].
  split; [apply (sl_sb _ _ A2)|apply (sl_disksize _ _ A2)|apply A3|apply A3|].
  intros x Hx Hu. apply A6; [done|by left].
Qed.

Lemma allocated_block d me H b d' :
  fs_wf d -> disksize d < two31 -> 0 <= b < sb_size (sb d) -> ~ used d b -> allocated d me H b d' -> data_block d' b.
Proof.
  intros W Hd Hb Hu Ha. pose proof (allocated_more _ _ _ _ _ Ha) as [M1 M2 M3 M4 M5].
  pose proof (fw_bitmap _ W) as Wb. split; rewrite ?M1.
  - assert (b <> 0) by (intros ->; apply Hu, (fw_boot _ W)). lia.
  - apply Ha; [done|by right].
  - unfold in_log. rewrite M3, M4. intros Hl. apply Hu, (bw_meta _ Wb); [done|by left].
  - intros ->. apply Hu, (bw_meta _ Wb); [done|right]. exists 0. pose proof (fw_one _ W). split; [lia|].
    symmetry. apply BBLOCK_one; [done|done|lia].
  - intros n Hn ->. apply Hu, (fw_iblocks _ W n Hn).
Qed.

Lemma filter_ext_in {A} (P Q : A -> Prop) `{!forall x, Decision (P x), !forall x, Decision (Q x)} (l : list A) :
  (forall x, x ∈ l -> P x <-> Q x) -> filter P l = filter Q l.
Proof.
  induction l as [|x l IH]; intros Hl; [done|]. rewrite !filter_cons.
  rewrite IH by (intros y Hy; apply Hl; by right). pose proof (Hl x ltac:(left)) as Hx.
  repeat case_decide; tauto.
Qed.

Definition free_blocks (d : data) : list Z := filter (fun b => ~ used d b) (seqZ 0 (sb_size (sb d))).

Lemma elem_free d b : b ∈ free_blocks d <-> 0 <= b < sb_size (sb d) /\ ~ used d b.
Proof. unfold free_blocks. rewrite list_elem_of_filter, elem_of_seqZ. naive_solver lia. Qed.
Lemma NoDup_free d : NoDup (free_blocks d).
Proof. apply NoDup_filter, NoDup_seqZ. Qed.

Lemma least_free d : free_blocks d <> [] ->
  exists b, b ∈ free_blocks d /\ forall x, 0 <= x < b -> used d x.
Proof.
  intros Hne. destruct (least_index (fun n => ~ used d (Z.of_nat n)) (Z.to_nat (sb_size (sb d))))
    as [Hall|(n & Hn & Hu & Hl)].
  { destruct (free_blocks d) as [|b l] eqn:E; [done|].
    assert (b ∈ free_blocks d) as Hb by (rewrite E; left). apply elem_free in Hb as [Hr Hu].
    destruct (Hall (Z.to_nat b)); [lia|]. by rewrite Z2Nat.id by lia. }
  exists (Z.of_nat n). rewrite elem_free. split; [split; [lia|done]|].
  intros x Hx. destruct (decide (used d x)) as [?|Hx']; [done|]. destruct (Hl (Z.to_nat x)); [lia|].
  by rewrite Z2Nat.id by lia.
Qed.

Lemma free_taken d d' b :
  sb d' = sb d -> (forall x, 0 <= x < sb_size (sb d) -> used d' x <-> used d x \/ x = b) ->
  b ∈ free_blocks d -> length (free_blocks d) = S (length (free_blocks d')).
Proof.
  intros Es Hu Hb. rewrite <- (length_cons b). apply Permutation_length.
  assert (forall x, x ∈ free_blocks d' <-> x ∈ free_blocks d /\ x <> b) as E.
  { intros x. rewrite !elem_free, Es. split.
    - intros [Hr Hx]. rewrite Hu in Hx by done. naive_solver.
    - intros [[Hr Hx] Hne]. split; [done|]. rewrite Hu by done. naive_solver. }
  apply NoDup_Permutation; [apply NoDup_free|apply NoDup_cons; split; [|apply NoDup_free]|].
  - rewrite E. by intros [_ ?].
  - intros x. rewrite elem_of_cons, E. destruct (decide (x = b)) as [->|]; naive_solver.
Qed.

(** ** Taking blocks into a file *)

Abbreviation ind_of d ip := (iaddrs (inodes d ip) !!! Z.to_nat NDIRECT).

(** A file of a file system in order: its blocks are its own. *)
Record file_ok (d : data) (me ip : nat) : Prop := {
  fk_txn : txn d me [];
  fk_fs : fs_wf d;
  fk_out : 1 <= l_outstanding (log d);
  fk_lt : (ip < length (icache d))%nat;
  fk_dev : idev (inodes d ip) = 1;
  fk_num : 0 <= inum (inodes d ip) < sb_ninodes (sb d);
  fk_din : dinode_ok (dinode_of (inodes d ip));
  fk_size : 0 <= isize (inodes d ip) <= MAXFILE * BSIZE;
  fk_dense : forall k, 0 <= k -> k * BSIZE < isize (inodes d ip) -> blocks_of d ip k <> 0;
  fk_blocks : forall k, 0 <= k < MAXFILE -> blocks_of d ip k <> 0 ->
    data_block d (blocks_of d ip k) /\ blocks_of d ip k <> ind_of d ip;
  fk_ind : ind_of d ip <> 0 -> data_block d (ind_of d ip);
  fk_inj : forall j k, 0 <= j < MAXFILE -> 0 <= k < MAXFILE ->
    blocks_of d ip j <> 0 -> blocks_of d ip j = blocks_of d ip k -> j = k
}.

Lemma fk_disk d me ip : file_ok d me ip -> disksize d < two31.
Proof. intros F. apply (lw_disk _ (tx_log _ _ _ (fk_txn _ _ _ F))). Qed.
Lemma fk_len d me ip : file_ok d me ip -> length (iaddrs (inodes d ip)) = 13%nat.
Proof. intros F. apply (dk_len _ (fk_din _ _ _ F)). Qed.
Lemma block_bound k s : 0 <= k -> k * BSIZE < s -> s <= MAXFILE * BSIZE -> 0 <= k < MAXFILE.
Proof. unfold MAXFILE, BSIZE, NDIRECT, NINDIRECT in *. intros. lia. Qed.
Lemma data_block_disk d b : fs_wf d -> data_block d b -> 0 < b < disksize d.
Proof. intros W B. pose proof (db_range _ _ B). destruct (bw_size _ (fw_bitmap _ W)). lia. Qed.

Lemma file_readable d me ip : file_ok d me ip -> readable d ip.
Proof.
  intros F. pose proof (fk_fs _ _ _ F) as W. split; try apply F.
  - intros k H0 Hk. pose proof (block_bound k _ H0 Hk (proj2 (fk_size _ _ _ F))).
    apply data_block_disk; [done|]. apply F; [done|]. by apply F.
  - intros Hlt. apply data_block_disk; [done|]. apply F. intros E.
    apply (fk_dense _ _ _ F NDIRECT); [done|done|]. unfold file_block. by rewrite E.
Qed.

(** [d'] is [d] with blocks added to the file. *)
Record extends (d : data) (ip : nat) (d' : data) : Prop := {
  ex_more : more_used d d';
  ex_out : l_outstanding (log d') = l_outstanding (log d);
  ex_com : l_committing (log d') = l_committing (log d);
  ex_inode : exists l, inodes d' ip = (inodes d ip) <|iaddrs := l|>;
  ex_inodes : forall j, j <> ip -> inodes d' j = inodes d j;
  ex_locks : forall n, sl d' (SInode n) = sl d (SInode n);
  ex_old : forall k, 0 <= k < MAXFILE -> blocks_of d ip k <> 0 -> blocks_of d' ip k = blocks_of d ip k;
  ex_new : forall k, 0 <= k < MAXFILE -> blocks_of d ip k = 0 -> blocks_of d' ip k <> 0 ->
    blocks_of d' ip k ∈ free_blocks d /\ view d' (blocks_of d' ip k) = zero_block;
  ex_ind : ind_of d ip <> 0 -> ind_of d' ip = ind_of d ip;
  ex_indnew : ind_of d ip = 0 -> ind_of d' ip <> 0 -> ind_of d' ip ∈ free_blocks d;
  ex_view : forall y, y ∉ free_blocks d -> y <> sb_bmapstart (sb d) ->
    (ind_of d ip <> 0 -> y <> ind_of d ip) -> view d' y = view d y;
  ex_blks : forall x, x ∈ blks (log d') -> x ∈ blks (log d) \/ x = sb_bmapstart (sb d) \/
    (x = ind_of d' ip /\ x <> 0) \/
    exists k, 0 <= k < MAXFILE /\ blocks_of d ip k = 0 /\ x = blocks_of d' ip k /\ x <> 0
}.

Lemma extends_refl d ip : extends d ip d.
Proof.
  split; try done. { by exists (iaddrs (inodes d ip)); destruct (inodes d ip). }
  by left.
Qed.

Lemma free_more d d' b : more_used d d' -> b ∈ free_blocks d' -> b ∈ free_blocks d.
Proof. intros M. rewrite !elem_free, (mu_sb _ _ M). intros [Hr Hu]. split; [done|]. intros ?. by apply Hu, M. Qed.
Lemma data_not_free d b : data_block d b -> b ∉ free_blocks d.
Proof. intros B. rewrite elem_free. intros [_ Hu]. apply Hu, B. Qed.

Lemma extends_trans d me ip d1 d2 :
  file_ok d1 me ip -> extends d ip d1 -> extends d1 ip d2 -> extends d ip d2.
Proof.
  intros F [A1 A2 A3 [la A4] A5 A6 A7 A8 A9 A10 A11 A12] [B1 B2 B3 [lb B4] B5 B6 B7 B8 B9 B10 B11 B12].
  pose proof (mu_sb _ _ A1) as Es. split; try congruence; try (by etrans).
  - exists lb. by rewrite B4, A4.
  - intros j Hj. rewrite B5, A5 by done. done.
  - intros k Hk Hn. rewrite B7, A7 by (done || by rewrite A7). done.
  - intros k Hk Hz Hn. destruct (decide (blocks_of d1 ip k = 0)) as [E|E].
    + destruct (B8 k Hk E Hn) as [Hf Hv]. split; [by eapply free_more|done].
    + rewrite B7 in Hn |- * by done. destruct (A8 k Hk Hz E) as [Hf Hv]. split; [done|].
      destruct (fk_blocks _ _ _ F k Hk E) as [D1 D2].
      rewrite B11; [done|by apply data_not_free|apply D1|done].
  - intros Hn. rewrite B9, A9 by (done || by rewrite A9). done.
  - intros Hz Hn. destruct (decide (ind_of d1 ip = 0)) as [E|E].
    + eapply free_more; [exact A1|]. by apply B10.
    + rewrite B9 in Hn |- * by done. by apply A10.
  - intros y Hf Hm Hi. assert (ind_of d1 ip <> 0 -> y <> ind_of d1 ip) as Hi1.
    { intros Hn. destruct (decide (ind_of d ip = 0)) as [E|E].
      - intros ->. by apply Hf, A10.
      - rewrite A9 by done. by apply Hi. }
    rewrite B11, A11; [done|done|done|done| |by rewrite Es|done].
    intros Hf'. apply Hf. by eapply free_more.
  - intros x Hx. destruct (B12 x Hx) as [Hx'|[Hx'|[[Hx' Hn]|(k & Hk & Hz & Hx' & Hn)]]].
    + destruct (A12 x Hx') as [?|[?|[[Hy Hn]|(k & Hk & Hz & Hy & Hn)]]]; [by left|by right; left| |].
      * right; right; left. split; [|done]. rewrite B9; [done|congruence].
      * right; right; right. exists k. split; [done|]. split; [done|]. split; [|done].
        rewrite B7; [done|done|congruence].
    + right; left. by rewrite <- Es.
    + by right; right; left.
    + right; right; right. exists k. split; [done|]. split; [|done].
      destruct (decide (blocks_of d ip k = 0)) as [?|Hb]; [done|]. by rewrite A7 in Hz.
Qed.

Lemma get32_zero o : 0 <= o -> o + 4 <= 512 -> get32 zero_block o = 0.
Proof.
  intros H0 H1. unfold get32, load32, zero_block.
  rewrite !lookup_total_replicate_2 by (unfold BSIZE; lia). done.
Qed.
Lemma ind_offset k : NDIRECT <= k < MAXFILE -> 0 <= 4 * (k - NDIRECT) /\ 4 * (k - NDIRECT) + 4 <= 512.
Proof. unfold MAXFILE, NDIRECT, NINDIRECT. intros. change (BSIZE / 4) with 128 in *. lia. Qed.

Lemma free_nz d b : fs_wf d -> b ∈ free_blocks d -> 0 < b < sb_size (sb d).
Proof.
  intros W [Hr Hu]%elem_free. assert (b <> 0); [|lia]. intros ->. apply Hu, (fw_boot _ W).
Qed.

(** A block taken for a slot of the inode *)
Section Slot.
Context (me ip s : nat) (d : data) (b : Z) (d1 : data).
Hypothesis F : file_ok d me ip.
Hypothesis Hs : (s <= Z.to_nat NDIRECT)%nat.
Hypothesis Hz : iaddrs (inodes d ip) !!! s = 0.
Hypothesis Hb : b ∈ free_blocks d.
Hypothesis Ha : allocated d me [] b d1.
Local Abbreviation d2 := (upd_inode ip (fun i => i <|iaddrs ::= <[s := b]>|>) d1).

Lemma slot_view y : view d2 y = view d1 y.
Proof. by apply (view_frame d1). Qed.
Lemma slot_used x : used d2 x <-> used d1 x.
Proof. unfold used. by rewrite slot_view. Qed.
Lemma slot_more : more_used d d2.
Proof. etrans; [by eapply allocated_more|]. by split. Qed.
Lemma slot_inode j : inodes d2 j =
  if decide (j = ip) then (inodes d j) <|iaddrs ::= <[s := b]>|> else inodes d j.
Proof.
  pose proof (sl_icache _ _ (al_same _ _ _ _ _ Ha)) as E.
  rewrite inodes_upd by (rewrite E; exact (fk_lt _ _ _ F)). unfold inodes. by rewrite E.
Qed.
Lemma slot_fresh y : y ∉ free_blocks d -> y <> sb_bmapstart (sb d) -> view d2 y = view d y.
Proof.
  intros Hf Hm. rewrite slot_view. apply (al_other _ _ _ _ _ Ha); [by intros ->|].
  rewrite BBLOCK_one; [done|apply F|by eapply fk_disk|by apply elem_free].
Qed.
Lemma slot_ind : ind_of d2 ip = if decide (s = Z.to_nat NDIRECT) then b else ind_of d ip.
Proof.
  rewrite slot_inode, decide_True by done. getset. case_decide as E.
  - rewrite E. apply list_lookup_total_insert_eq. rewrite (fk_len _ _ _ F). unfold NDIRECT. lia.
  - by apply list_lookup_total_insert_ne.
Qed.

Lemma slot_blocks k : 0 <= k < MAXFILE ->
  blocks_of d2 ip k = if decide (k = Z.of_nat s /\ k < NDIRECT) then b else blocks_of d ip k.
Proof.
  intros Hk. unfold file_block. pose proof slot_ind as Ei. rewrite Ei.
  assert (iaddrs (inodes d2 ip) = <[s := b]> (iaddrs (inodes d ip))) as El.
  { by rewrite slot_inode, decide_True by done. }
  destruct (Z.ltb_spec k NDIRECT) as [Hlt|Hge].
  - rewrite El. destruct (decide (k = Z.of_nat s /\ k < NDIRECT)) as [E|E].
    + replace (Z.to_nat k) with s by lia. apply list_lookup_total_insert_eq.
      rewrite (fk_len _ _ _ F). unfold NDIRECT in *. lia.
    + apply list_lookup_total_insert_ne. intros ->. apply E. lia.
  - rewrite (decide_False (P := k = Z.of_nat s /\ k < NDIRECT)) by lia.
    destruct (ind_offset k) as [O1 O2]; [lia|]. case_decide as E.
    + rewrite E in Hz. rewrite Hz. cbn [Z.eqb]. pose proof (free_nz _ _ (fk_fs _ _ _ F) Hb).
      rewrite (proj2 (Z.eqb_neq _ _)) by lia. rewrite slot_view, (al_zero _ _ _ _ _ Ha). by apply get32_zero.
    + destruct (Z.eqb_spec (ind_of d ip) 0) as [|Hn]; [done|].
      pose proof (fk_ind _ _ _ F Hn) as D. rewrite slot_fresh; [done|by apply data_not_free|apply D].
Qed.

Lemma slot_extends : extends d ip d2.
Proof.
  pose proof (al_grows _ _ _ _ _ Ha) as G. pose proof (free_nz _ _ (fk_fs _ _ _ F) Hb) as Hbz. split.
  - apply slot_more.
  - apply G.
  - apply G.
  - exists (<[s := b]> (iaddrs (inodes d ip))). by rewrite slot_inode, decide_True.
  - intros j Hj. by rewrite slot_inode, decide_False.
  - intros n. apply (sl_inode _ _ (al_same _ _ _ _ _ Ha)).
  - intros k Hk Hn. rewrite slot_blocks by done. case_decide as E; [|done]. destruct E as [E1 E2].
    destruct Hn. unfold file_block. rewrite (proj2 (Z.ltb_lt _ _)) by done. by rewrite E1, Nat2Z.id.
  - intros k Hk Hz' Hn. rewrite slot_blocks in Hn |- * by done. case_decide; [|done].
    split; [done|]. rewrite slot_view. apply Ha.
  - intros Hn. rewrite slot_ind. case_decide as E; [by rewrite E in Hz|done].
  - intros E Hn. rewrite slot_ind in Hn |- *. by case_decide.
  - intros y Hf Hm _. by apply slot_fresh.
  - intros x Hx. apply (gr_blks _ _ _ G) in Hx as [?|Hx]; [by left|right].
    rewrite BBLOCK_one in Hx; [|apply F|by eapply fk_disk|lia].
    apply elem_of_cons in Hx as [?|Hx]; [by left|right]. apply list_elem_of_singleton in Hx as ->.
    destruct (decide (s = Z.to_nat NDIRECT)) as [E|E].
    + left. rewrite slot_ind, decide_True by done. split; [done|lia].
    + right. exists (Z.of_nat s). assert (0 <= Z.of_nat s < MAXFILE) as Hr.
      { unfold MAXFILE, NDIRECT, NINDIRECT in *. change (BSIZE / 4) with 128. lia. }
      split; [done|]. split; [|rewrite slot_blocks, decide_True; [split; [done|lia]|unfold NDIRECT in *; lia|done]].
      unfold file_block. rewrite (proj2 (Z.ltb_lt _ _)) by (unfold NDIRECT in *; lia). by rewrite Nat2Z.id.
Qed.

Lemma slot_ok : file_ok d2 me ip.
Proof.
  pose proof slot_more as M. pose proof (free_nz _ _ (fk_fs _ _ _ F) Hb) as Hbz. pose proof (mu_sb _ _ M) as Es.
  pose proof (fk_fs _ _ _ F) as W. pose proof (fk_disk _ _ _ F) as Hd.
  assert (data_block d2 b) as Db.
  { apply (data_block_more d1); [split; try done; intros; by apply slot_used|].
    apply elem_free in Hb as [? ?]. by eapply allocated_block. }
  assert (forall x, data_block d x -> x <> b) as Hne.
  { intros x D ->. by apply (data_not_free _ _ D). }
  destruct F as [F1 F2 F3 F4 F5 F6 F7 F8 F9 F10 F11 F12].
  assert (inodes d2 ip = (inodes d ip) <|iaddrs ::= <[s := b]>|>) as Ei by (by rewrite slot_inode, decide_True).
  split.
  - apply txn_upd_inode, Ha.
  - by eapply fs_wf_more.
  - change (log d2) with (log d1). by rewrite (gr_out _ _ _ (al_grows _ _ _ _ _ Ha)).
  - unfold upd_inode. getset. rewrite length_alter. by rewrite (sl_icache _ _ (al_same _ _ _ _ _ Ha)).
  - by rewrite Ei.
  - by rewrite Ei, Es.
  - rewrite Ei. destruct F7 as [D1 D2 D3 D4 D5 D6 D7]. split; try done.
    + etrans; [apply length_insert|done].
    + apply Forall_insert; [done|]. apply u32_small. destruct (bw_size _ (fw_bitmap _ W)).
      unfold two31, two32 in *. lia.
  - by rewrite Ei.
  - intros k H0 Hk. rewrite Ei in Hk. pose proof (block_bound _ _ H0 Hk (proj2 F8)).
    rewrite slot_blocks by done. case_decide; [lia|by apply F9].
  - intros k Hk Hn. rewrite slot_ind. rewrite slot_blocks in Hn |- * by done. case_decide as E.
    + split; [done|]. case_decide; [unfold NDIRECT in *; lia|]. intros E'.
      destruct (decide (ind_of d ip = 0)) as [?|Hi]; [lia|]. by apply (Hne _ (F11 Hi)).
    + destruct (F10 k Hk Hn) as [D1 D2]. split; [by eapply data_block_more|].
      case_decide; [by apply Hne|done].
  - intros Hn. rewrite slot_ind in Hn |- *. case_decide; [done|]. eapply data_block_more; [done|auto].
  - intros j k Hj Hk Hn E. rewrite !slot_blocks in * by done. repeat case_decide; try lia; auto.
    + destruct (F10 k Hk) as [D _]; [lia|]. by destruct (Hne _ D).
    + destruct (F10 j Hj Hn) as [D _]. by destruct (Hne _ D).
Qed.
End Slot.

Lemma used_same d d' x : sb d' = sb d -> (forall y, view d' y = view d y) -> used d' x <-> used d x.
Proof. intros Es Ev. unfold used. by rewrite Es, Ev. Qed.
Lemma free_same d d' : sb d' = sb d -> (forall y, view d' y = view d y) -> free_blocks d' = free_blocks d.
Proof.
  intros Es Ev. unfold free_blocks. rewrite Es. apply list_filter_iff. intros x.
  by rewrite (used_same d d').
Qed.
Lemma opened_more d d1 me b x H D : opened d d1 me b x H D -> more_used d d1.
Proof.
  intros Ho. pose proof (op_rest _ _ _ _ _ _ _ Ho) as Hs.
  split; rewrite ?(sr_log _ _ Hs); [apply (sr_sb _ _ Hs)|apply (sr_disksize _ _ Hs)|done|done|].
  intros y _. apply used_same; [apply (sr_sb _ _ Hs)|apply Ho].
Qed.

(** A block taken for an entry of the indirect block, whose buffer is held *)
Section Entry.
Context (me ip bp : nat) (d d1 d2 d' : data) (k b : Z).
Hypothesis F : file_ok d me ip.
Hypothesis Hk : NDIRECT <= k < MAXFILE.
Hypothesis Hi : ind_of d ip <> 0.
Hypothesis Hz : blocks_of d ip k = 0.
Hypothesis Ho : opened d d1 me bp (ind_of d ip) [] (blks (log d)).
Hypothesis Hb : b ∈ free_blocks d.
Hypothesis Ha : allocated d1 me [bp] b d2.
Hypothesis Htx : txn d' me [].
Hypothesis Hg : grows [ind_of d ip] (log d2) (log d').
Hypothesis Hs : same_but_log d2 d'.
Hypothesis Hv : forall y, view d' y =
  if decide (y = ind_of d ip) then set32 (view d2 (ind_of d ip)) (4 * (k - NDIRECT)) b else view d2 y.

Lemma entry_ind : data_block d (ind_of d ip).
Proof. by apply (fk_ind _ _ _ F). Qed.
Lemma entry_sb : sb d' = sb d.
Proof.
  rewrite (sl_sb _ _ Hs), (sl_sb _ _ (al_same _ _ _ _ _ Ha)). apply (sr_sb _ _ (op_rest _ _ _ _ _ _ _ Ho)).
Qed.
Lemma entry_inode j : inodes d' j = inodes d j.
Proof.
  unfold inodes. rewrite (sl_icache _ _ Hs), (sl_icache _ _ (al_same _ _ _ _ _ Ha)).
  by rewrite (sr_icache _ _ (op_rest _ _ _ _ _ _ _ Ho)).
Qed.
Lemma entry_log : log d1 = log d.
Proof. apply (sr_log _ _ (op_rest _ _ _ _ _ _ _ Ho)). Qed.
Lemma entry_view2 y : y ∉ free_blocks d -> y <> sb_bmapstart (sb d) -> view d2 y = view d y.
Proof.
  intros Hf Hm. rewrite (al_other _ _ _ _ _ Ha), (op_view _ _ _ _ _ _ _ Ho); [done|by intros ->|].
  rewrite (sr_sb _ _ (op_rest _ _ _ _ _ _ _ Ho)), BBLOCK_one; [done|apply F|by eapply fk_disk|by apply elem_free].
Qed.
Lemma entry_used x : 0 <= x < sb_size (sb d) -> used d' x <-> used d x \/ x = b.
Proof.
  intros Hx. pose proof (sr_sb _ _ (op_rest _ _ _ _ _ _ _ Ho)) as E1.
  unfold used at 1. rewrite entry_sb, Hv, decide_False.
  - rewrite <- E1, <- (sl_sb _ _ (al_same _ _ _ _ _ Ha)). change (used d2 x <-> used d x \/ x = b).
    rewrite (al_used _ _ _ _ _ Ha) by (by rewrite E1). rewrite (used_same d d1); [done|done|apply Ho].
  - rewrite BBLOCK_one; [|apply F|by eapply fk_disk|done]. intros E. by apply (db_map _ _ entry_ind).
Qed.
Lemma entry_more : more_used d d'.
Proof.
  pose proof (al_grows _ _ _ _ _ Ha) as G. pose proof entry_log as El. split.
  - apply entry_sb.
  - rewrite (sl_disksize _ _ Hs), (sl_disksize _ _ (al_same _ _ _ _ _ Ha)).
    apply (sr_disksize _ _ (op_rest _ _ _ _ _ _ _ Ho)).
  - rewrite (gr_start _ _ _ Hg), (gr_start _ _ _ G). by rewrite El.
  - rewrite (gr_size _ _ _ Hg), (gr_size _ _ _ G). by rewrite El.
  - intros x Hx Hu. apply entry_used; [done|by left].
Qed.

Lemma entry_blocks j : 0 <= j < MAXFILE ->
  blocks_of d' ip j = if decide (j = k) then b else blocks_of d ip j.
Proof.
  intros Hj. unfold file_block. rewrite entry_inode.
  destruct (Z.ltb_spec j NDIRECT) as [Hlt|Hge]; [by rewrite decide_False by lia|].
  rewrite (proj2 (Z.eqb_neq _ _) Hi), Hv, decide_True by done.
  pose proof entry_ind as D. rewrite entry_view2 by (by apply data_not_free || apply D).
  destruct (ind_offset k Hk), (ind_offset j); [lia|].
  assert (length (view d (ind_of d ip)) = 512%nat) as Hl.
  { eapply view_length, (tx_cache _ _ _ (fk_txn _ _ _ F)). }
  case_decide as E.
  - rewrite E. apply get32_set32; [done|lia|]. pose proof (free_nz _ _ (fk_fs _ _ _ F) Hb).
    pose proof (fk_disk _ _ _ F).
    destruct (bw_size _ (fw_bitmap _ (fk_fs _ _ _ F))). unfold two31, two32 in *. lia.
  - apply get32_set32_other; lia.
Qed.

Lemma entry_extends : extends d ip d'.
Proof.
  pose proof (al_grows _ _ _ _ _ Ha) as G. pose proof (free_nz _ _ (fk_fs _ _ _ F) Hb) as Hbz. pose proof entry_log as El.
  pose proof entry_ind as D. split.
  - apply entry_more.
  - rewrite (gr_out _ _ _ Hg), (gr_out _ _ _ G). by rewrite El.
  - rewrite (gr_com _ _ _ Hg), (gr_com _ _ _ G). by rewrite El.
  - exists (iaddrs (inodes d ip)). rewrite entry_inode. by destruct (inodes d ip).
  - intros j _. apply entry_inode.
  - intros n. rewrite (sl_inode _ _ Hs), (sl_inode _ _ (al_same _ _ _ _ _ Ha)).
    apply (sr_inode _ _ (op_rest _ _ _ _ _ _ _ Ho)).
  - intros j Hj Hn. rewrite entry_blocks by done. case_decide as E; [|done]. by rewrite E in Hn.
  - intros j Hj Hz' Hn. rewrite entry_blocks in Hn |- * by done. case_decide; [|done].
    split; [done|]. rewrite Hv, decide_False; [apply Ha|].
    intros ->. by apply (data_not_free _ _ D).
  - intros _. by rewrite entry_inode.
  - done.
  - intros y Hf Hm Hy. rewrite Hv, decide_False by auto. by apply entry_view2.
  - intros x Hx. apply (gr_blks _ _ _ Hg) in Hx as [Hx|Hx].
    + apply (gr_blks _ _ _ G) in Hx as [Hx|Hx]; [left; by rewrite El in Hx|right].
      rewrite (sr_sb _ _ (op_rest _ _ _ _ _ _ _ Ho)), BBLOCK_one in Hx; [|apply F|by eapply fk_disk|lia].
      apply elem_of_cons in Hx as [?|Hx]; [by left|right; right].
      apply list_elem_of_singleton in Hx as ->. exists k. assert (0 <= k < MAXFILE) as Hr by (unfold NDIRECT in *; lia).
      split; [done|]. split; [done|]. rewrite entry_blocks, decide_True by done. split; [done|lia].
    + apply list_elem_of_singleton in Hx as ->. right; right; left. by rewrite entry_inode.
Qed.

Lemma entry_ok : file_ok d' me ip.
Proof.
  pose proof entry_more as M. pose proof (free_nz _ _ (fk_fs _ _ _ F) Hb) as Hbz. pose proof (mu_sb _ _ M) as Es.
  pose proof entry_ind as D. pose proof (fk_fs _ _ _ F) as W. pose proof (fk_disk _ _ _ F) as Hd.
  assert (data_block d' b) as Db.
  { pose proof (op_rest _ _ _ _ _ _ _ Ho) as Hr. pose proof (opened_more _ _ _ _ _ _ _ Ho) as M1.
    apply elem_free in Hb as [Hb1 Hb2]. apply (data_block_more d2).
    - pose proof (al_same _ _ _ _ _ Ha) as Hs2. split; try apply Hg.
      + by rewrite (sl_sb _ _ Hs).
      + by rewrite (sl_disksize _ _ Hs).
      + rewrite (sl_sb _ _ Hs2), (sr_sb _ _ Hr). intros x Hx Hu. apply entry_used; [done|].
        rewrite (al_used _ _ _ _ _ Ha) in Hu by (by rewrite (sr_sb _ _ Hr)).
        rewrite (used_same d d1) in Hu; [done|apply (sr_sb _ _ Hr)|apply Ho].
    - apply (allocated_block d1 me [bp]); [by eapply fs_wf_more| | | |done].
      + by rewrite (sr_disksize _ _ Hr).
      + by rewrite (sr_sb _ _ Hr).
      + rewrite (used_same d d1); [done|apply (sr_sb _ _ Hr)|apply Ho]. }
  assert (forall x, data_block d x -> x <> b) as Hne.
  { intros x Dx ->. by apply (data_not_free _ _ Dx). }
  destruct F as [F1 F2 F3 F4 F5 F6 F7 F8 F9 F10 F11 F12].
  split; rewrite ?entry_inode, ?Es; try done.
  - by eapply fs_wf_more.
  - by rewrite (gr_out _ _ _ Hg), (gr_out _ _ _ (al_grows _ _ _ _ _ Ha)), entry_log.
  - by rewrite (sl_icache _ _ Hs), (sl_icache _ _ (al_same _ _ _ _ _ Ha)),
      (sr_icache _ _ (op_rest _ _ _ _ _ _ _ Ho)).
  - intros j H0 Hj. pose proof (block_bound _ _ H0 Hj (proj2 F8)).
    rewrite <- (entry_inode ip), entry_blocks by done. case_decide; [lia|by apply F9].
  - intros j Hj Hn. rewrite <- (entry_inode ip) in Hn |- * at 1 2. rewrite entry_blocks in Hn |- * by done.
    case_decide as E.
    + split; [done|]. intros E'. by apply (Hne _ D).
    + destruct (F10 j Hj Hn) as [D1 D2]. split; [by eapply data_block_more|done].
  - intros _. by eapply data_block_more.
  - intros i j Hi' Hj Hn E. rewrite <- (entry_inode ip) in Hn, E. rewrite !entry_blocks in * by done.
    repeat case_decide; try lia; auto.
    + destruct (F10 j Hj) as [D1 _]; [lia|]. by destruct (Hne _ D1).
    + destruct (F10 i Hi' Hn) as [D1 _]. by destruct (Hne _ D1).
Qed.
End Entry.

Lemma peeked_extends d me ip d' : peeked d me [] d' -> extends d ip d'.
Proof.
  intros P. pose proof (peeked_inode _ _ _ _ ip P) as Ei. destruct P as [_ P2 _ _ P5].
  pose proof (sr_sb _ _ P2) as Es. pose proof (sr_log _ _ P2) as El.
  assert (forall k, file_block (view d') (iaddrs (inodes d ip)) k = blocks_of d ip k) as Ek.
  { intros k. by apply file_block_ext. }
  split; rewrite ?El, ?Ei; try done.
  - split; rewrite ?El; try done; [apply (sr_disksize _ _ P2)|]. intros x _. by apply used_same.
  - exists (iaddrs (inodes d ip)). by destruct (inodes d ip).
  - intros j _. unfold inodes. by rewrite (sr_icache _ _ P2).
  - apply P2.
  - intros k _ Hz Hn. by rewrite Ek in Hn.
  - by left.
Qed.

Lemma peeked_file d me ip d' : peeked d me [] d' -> file_ok d me ip -> file_ok d' me ip.
Proof.
  intros P F. pose proof (ex_more _ _ _ (peeked_extends _ _ ip _ P)) as M.
  pose proof (peeked_inode _ _ _ _ ip P) as Ei. pose proof (pk_rest _ _ _ _ P) as P2.
  assert (forall k, file_block (view d') (iaddrs (inodes d ip)) k = blocks_of d ip k) as Ek.
  { intros k. apply file_block_ext, P. }
  destruct F as [F1 F2 F3 F4 F5 F6 F7 F8 F9 F10 F11 F12].
  split; rewrite ?Ei, ?(sr_sb _ _ P2), ?(sr_log _ _ P2), ?(sr_icache _ _ P2); try done.
  - apply P.
  - by eapply fs_wf_more.
  - intros k. rewrite Ek. apply F9.
  - intros k. rewrite Ek. intros Hk Hn. destruct (F10 k Hk Hn). split; [by eapply data_block_more|done].
  - intros Hn. eapply data_block_more; [done|auto].
  - intros j k. rewrite !Ek. apply F12.
Qed.

Section Bmap.
Context {Ops : BlockOps} {Dev : BlockDev} {Devs : DevOps} (c me ip : nat).

Lemma runs_alloc d H :
  txn d me H -> held_data d H -> fs_wf d -> 1 <= l_outstanding (log d) -> lh_n (log d) + 2 < l_size (log d) ->
  free_blocks d <> [] ->
  exists b d', b ∈ free_blocks d /\ runs c (Some me) [] (balloc 1) d b d' [] /\ allocated d me H b d'.
Proof.
  intros Htx Hh W Ho Hn Hf. destruct (least_free d Hf) as (b & Hb & Hl). pose proof Hb as [Hr Hu]%elem_free.
  destruct (runs_balloc c me d H Htx Hh (fw_bitmap _ W) b Ho Hn Hr Hu Hl) as (d' & Hrun & Ha).
  by exists b, d'.
Qed.

(** [bmap] for a slot of the inode that is empty *)
Lemma runs_slot d (s : nat) :
  file_ok d me ip -> (s <= Z.to_nat NDIRECT)%nat -> iaddrs (inodes d ip) !!! s = 0 ->
  lh_n (log d) + 2 < l_size (log d) -> free_blocks d <> [] ->
  exists b d', runs c (Some me) [] (addr <- balloc 1;;
      set_inode ip (fun i => i <|iaddrs ::= <[s := addr]>|>);; ret addr) d b d' [] /\
    file_ok d' me ip /\ extends d ip d' /\ b <> 0 /\ iaddrs (inodes d' ip) !!! s = b /\
    grows [sb_bmapstart (sb d); b] (log d) (log d') /\
    (forall j, 0 <= j < MAXFILE -> (Z.to_nat j <> s \/ NDIRECT <= j) -> blocks_of d' ip j = blocks_of d ip j) /\
    (s <> Z.to_nat NDIRECT -> ind_of d' ip = ind_of d ip) /\
    length (free_blocks d) = S (length (free_blocks d')).
Proof.
  intros F Hs Hz Hn Hf. pose proof (fk_fs _ _ _ F) as W.
  destruct (runs_alloc d [] (fk_txn _ _ _ F) (held_nil d) W (fk_out _ _ _ F) Hn Hf) as (b & d1 & Hb & Hr & Ha).
  pose proof (free_nz _ _ W Hb).
  exists b, (upd_inode ip (fun i => i <|iaddrs ::= <[s := b]>|>) d1). split_and!.
  - eapply runs_bind; [exact Hr|]. rstep. apply runs_ret.
  - by eapply slot_ok.
  - by eapply slot_extends.
  - lia.
  - rewrite (slot_inode me ip s d b d1 F Ha), decide_True by done. getset.
    apply list_lookup_total_insert_eq. rewrite (fk_len _ _ _ F). unfold NDIRECT in *. lia.
  - rewrite <- (BBLOCK_one d b); [apply Ha|done|by eapply fk_disk|lia].
  - intros j Hj Hne. rewrite (slot_blocks me ip s d b d1), decide_False; try done. lia.
  - intros Hne. by rewrite (slot_ind me ip s d b d1), decide_False.
  - apply (free_taken _ _ b); [|apply Ha|done]. apply (sl_sb _ _ (al_same _ _ _ _ _ Ha)).
Qed.

(** [bmap] for a block listed in the indirect block, which is there *)
Lemma runs_indirect d k :
  file_ok d me ip -> NDIRECT <= k < MAXFILE -> ind_of d ip <> 0 ->
  lh_n (log d) + 2 < l_size (log d) -> free_blocks d <> [] ->
  (forall d2 b H, txn d2 me H -> grows [sb_bmapstart (sb d); b] (log d) (log d2) ->
     lh_n (log d2) + 1 < l_size (log d)) ->
  exists b d', runs c (Some me) [] (bp <- bread 1 (ind_of d ip);;
      bf <- get_buf bp;;
      let addr := get32 (b_data bf) (4 * (k - NDIRECT)) in
      addr <- (if addr =? 0 then
                 addr <- balloc 1;;
                 set_buf bp (fun x => x <|b_data ::= fun bl => set32 bl (4 * (k - NDIRECT)) addr|>);;
                 log_write bp;;
                 ret addr
               else ret addr);;
      brelse bp;;
      ret addr) d b d' [] /\
    file_ok d' me ip /\ extends d ip d' /\ b <> 0 /\ blocks_of d' ip k = b /\
    (forall j, 0 <= j < MAXFILE -> j <> k -> blocks_of d' ip j = blocks_of d ip j) /\
    (length (free_blocks d) <= S (length (free_blocks d')))%nat.
Proof.
  intros F Hk Hi Hn Hf Hafter. pose proof (fk_fs _ _ _ F) as W. pose proof (fk_txn _ _ _ F) as Htx.
  pose proof (fk_ind _ _ _ F Hi) as D. pose proof (data_block_disk _ _ W D) as Hdk.
  destruct (runs_hold c me d [] (ind_of d ip) Htx) as (bp & d1 & Hr1 & Htx1 & Ho);
    [simpl; lia|apply no_held|lia|lia|].
  pose proof (op_rest _ _ _ _ _ _ _ Ho) as Hsr. pose proof (sr_log _ _ Hsr) as El.
  pose proof (sr_sb _ _ Hsr) as Es. pose proof (op_has _ _ _ _ _ _ _ Ho) as [_ Ebn].
  assert (blocks_of d ip k = get32 (view d (ind_of d ip)) (4 * (k - NDIRECT))) as Ek.
  { unfold file_block. rewrite (proj2 (Z.ltb_ge _ _)) by lia. by rewrite (proj2 (Z.eqb_neq _ _) Hi). }
  destruct (decide (blocks_of d ip k = 0)) as [Hz|Hz].
  - (* the entry is empty *)
    destruct (runs_alloc d1 [bp]) as (b & d2 & Hb & Hr2 & Ha); rewrite ?El; try done; try apply F.
    { split; [simpl; lia|]. intros j ->%list_elem_of_singleton. rewrite Ebn. split.
      - rewrite (used_same d d1); [apply D|done|apply Ho].
      - rewrite Es. intros x Hx. rewrite BBLOCK_one; [apply D|done|by eapply fk_disk|done]. }
    { eapply fs_wf_more; [by eapply opened_more|done]. }
    { rewrite (free_same d d1); [done|done|apply Ho]. }
    rewrite (free_same d d1) in Hb by (done || apply Ho). pose proof (al_txn _ _ _ _ _ Ha) as Htx2.
    pose proof (al_grows _ _ _ _ _ Ha) as G. pose proof (free_nz _ _ W Hb).
    rewrite El, Es, BBLOCK_one in G; [|done|by eapply fk_disk|lia].
    assert (b_blockno (bufs d2 bp) = ind_of d ip) as Eb2 by (rewrite (al_held _ _ _ _ _ Ha) by left; done).
    set (f := fun bl : block => set32 bl (4 * (k - NDIRECT)) b).
    destruct (runs_held_write c me d2 [] bp f Htx2) as (Hr3 & Hr4 & Htx4 & Hg & Hs4 & _ & _ & Hv4).
    { rewrite Eb2. unfold in_log. rewrite (gr_start _ _ _ G), (gr_size _ _ _ G). apply D. }
    { rewrite (gr_size _ _ _ G). pose proof (Hafter d2 b [bp] Htx2 G). lia. }
    { rewrite (gr_out _ _ _ G). apply F. }
    { intros bl <-. apply length_set32. }
    rewrite Eb2 in Hg, Hv4. exists b, (released bp (logged d2 bp f)). split_and!.
    + eapply runs_bind; [exact Hr1|]. rstep. cbv zeta. rewrite (op_data _ _ _ _ _ _ _ Ho), <- Ek, Hz.
      cbn [Z.eqb]. eapply runs_bind.
      { eapply runs_bind; [exact Hr2|]. rstep. eapply runs_bind; [exact Hr3|]. apply runs_ret. }
      eapply runs_bind; [exact Hr4|]. apply runs_ret.
    + by eapply (entry_ok me ip bp d d1 d2 _ k b).
    + by eapply (entry_extends me ip bp d d1 d2 _ k b).
    + lia.
    + rewrite (entry_blocks me ip bp d d1 d2 _ k b), decide_True; try done. unfold NDIRECT in *. lia.
    + intros j Hj Hne. by rewrite (entry_blocks me ip bp d d1 d2 _ k b), decide_False.
    + rewrite (free_taken d (released bp (logged d2 bp f)) b); [lia|..|done].
      * by eapply (entry_sb me ip bp d d1 d2).
      * intros x Hx. by eapply (entry_used me ip bp d d1 d2 _ k).
  - (* the entry is there *)
    destruct (runs_look c me d [] (ind_of d ip) Htx (nil_room _ _ Htx) (no_held d _))
      as (bp' & d1' & Hr1' & Hd1 & _ & Hc1 & P); [lia|].
    exists (blocks_of d ip k), (released bp' d1'). split.
    { eapply runs_bind; [exact Hr1'|]. rstep. cbv zeta. rewrite Hd1, <- Ek.
      rewrite (proj2 (Z.eqb_neq _ _) Hz). rstep.
      eapply runs_bind; [eapply runs_brelse; [exact Hc1|left]|]. apply runs_ret. }
    pose proof (peeked_extends _ _ ip _ P). pose proof (peeked_file _ _ ip _ P F).
    assert (forall j, blocks_of (released bp' d1') ip j = blocks_of d ip j) as Ej.
    { intros j. rewrite (peeked_inode _ _ _ _ ip P). by apply file_block_ext, P. }
    split_and!; try done. rewrite (free_same d (released bp' d1')); [lia|apply (sr_sb _ _ (pk_rest _ _ _ _ P))|apply P].
Qed.

(** [bmap] gives the number of the block, a new one when the file has none
    there. *)
Lemma runs_bmap d k :
  file_ok d me ip -> 0 <= k < MAXFILE -> lh_n (log d) + 4 < l_size (log d) ->
  (2 <= length (free_blocks d))%nat ->
  exists b d', runs c (Some me) [] (bmap ip k) d b d' [] /\ file_ok d' me ip /\ extends d ip d' /\
    b <> 0 /\ blocks_of d' ip k = b /\
    (forall j, 0 <= j < MAXFILE -> j <> k -> blocks_of d' ip j = blocks_of d ip j) /\
    (k < NDIRECT -> ind_of d' ip = ind_of d ip) /\
    (length (free_blocks d) <= 2 + length (free_blocks d'))%nat.
Proof.
  intros F Hk Hn Hf. pose proof (fk_dev _ _ _ F) as Hdev.
  assert (free_blocks d <> []) as Hne by (by destruct (free_blocks d); simpl in Hf; [lia|]).
  unfold bmap. destruct (Z.ltb_spec k NDIRECT) as [Hlt|Hge].
  - assert (blocks_of d ip k = iaddrs (inodes d ip) !!! Z.to_nat k) as Ek.
    { unfold file_block. by rewrite (proj2 (Z.ltb_lt _ _)). }
    destruct (decide (blocks_of d ip k = 0)) as [Hz|Hz]; rewrite Ek in Hz.
    + destruct (runs_slot d (Z.to_nat k)) as (b & d' & Hr & F' & E & Hb & Hs & _ & Hj & Hi & Hl);
        [done|lia|done|lia|done|].
      exists b, d'. split; [rstep; cbv zeta; rewrite Hz, Hdev; exact Hr|].
      split; [done|]. split; [done|]. split; [done|]. split; [|split; [|split; [|lia]]].
      * unfold file_block. by rewrite (proj2 (Z.ltb_lt _ _)).
      * intros j Hj' Hne'. apply Hj; [done|]. left. lia.
      * intros _. apply Hi. lia.
    + exists (iaddrs (inodes d ip) !!! Z.to_nat k), d.
      split; [rstep; cbv zeta; rewrite (proj2 (Z.eqb_neq _ _) Hz); apply runs_ret|].
      split; [done|]. split; [apply extends_refl|]. split; [done|]. split; [done|]. split; [done|].
      split; [done|lia].
  - destruct (decide (ind_of d ip = 0)) as [Hi|Hi].
    + destruct (runs_slot d (Z.to_nat NDIRECT)) as (b & d1 & Hr & F1 & E1 & Hb & Hs & G1 & Hj & _ & Hl);
        [done|done|done|lia|done|].
      pose proof (ex_inode _ _ _ E1) as [l Ei].
      assert (idev (inodes d1 ip) = 1) as Hdev1 by apply F1.
      destruct (runs_indirect d1 k F1) as (b2 & d2 & Hr2 & F2 & E2 & Hb2 & Hk2 & Hj2 & Hl2).
      { lia. }
      { by rewrite Hs. }
      { pose proof (grows_n _ _ _ _ _ _ (fk_txn _ _ _ F) (fk_txn _ _ _ F1) G1) as Hn1. simpl in Hn1.
        rewrite (gr_size _ _ _ G1). lia. }
      { destruct (free_blocks d1); simpl in *; [lia|done]. }
      { intros d3 b3 H3 T3 G3. rewrite (gr_size _ _ _ G1). rewrite (mu_sb _ _ (ex_more _ _ _ E1)) in G3.
        assert (grows [sb_bmapstart (sb d); b; b3] (log d) (log d3)) as G.
        { eapply grows_trans; [exact G1|exact G3|set_solver..]. }
        pose proof (grows_n _ _ _ _ _ _ (fk_txn _ _ _ F) T3 G) as Hn3. simpl in Hn3. lia. }
      exists b2, d2. split_and!; try done.
      * rstep. cbv zeta. rewrite (proj2 (Z.ltb_lt _ _)) by (unfold MAXFILE in *; lia).
        rewrite Hi, Hdev. eapply runs_bind; [exact Hr|]. rewrite <- Hs. exact Hr2.
      * eapply extends_trans; [exact F1|exact E1|exact E2].
      * intros j Hj' Hne'. rewrite Hj2 by done. apply Hj; [done|]. lia.
      * lia.
      * lia.
    + destruct (runs_indirect d k F) as (b & d' & Hr & F' & E & Hb & Hk' & Hj & Hl).
      { lia. }
      { done. }
      { lia. }
      { done. }
      { intros d3 b3 H3 T3 G3.
        pose proof (grows_n _ _ _ _ _ _ (fk_txn _ _ _ F) T3 G3) as Hn3. simpl in Hn3. lia. }
      exists b, d'. split_and!; try done; [|lia|lia].
      rstep. cbv zeta. rewrite (proj2 (Z.ltb_lt _ _)) by (unfold MAXFILE in *; lia).
      rewrite (proj2 (Z.eqb_neq _ _) Hi), Hdev. rstep. exact Hr.
Qed.
End Bmap.

(** ** Writing *)

(** A block that holds neither the bitmap nor addresses of the file is stored. *)
Section Store.
Context (me ip : nat) (d d' : data) (b : Z) (bl : block).
Hypothesis F : file_ok d me ip.
Hypothesis Hm : b <> sb_bmapstart (sb d).
Hypothesis Hi : ind_of d ip <> 0 -> b <> ind_of d ip.
Hypothesis Htx : txn d' me [].
Hypothesis Hg : grows [b] (log d) (log d').
Hypothesis Hs : same_but_log d d'.
Hypothesis Hv : forall y, view d' y = if decide (y = b) then bl else view d y.

Lemma store_inode j : inodes d' j = inodes d j.
Proof. unfold inodes. by rewrite (sl_icache _ _ Hs). Qed.
Lemma store_used x : 0 <= x < sb_size (sb d) -> used d' x <-> used d x.
Proof.
  intros Hx. unfold used. rewrite (sl_sb _ _ Hs), Hv, decide_False; [done|].
  rewrite BBLOCK_one; [by apply not_eq_sym|apply F|by eapply fk_disk|done].
Qed.
Lemma store_more : more_used d d'.
Proof.
  split; [apply (sl_sb _ _ Hs)|apply (sl_disksize _ _ Hs)|apply Hg|apply Hg|].
  intros x Hx. by apply store_used.
Qed.
Lemma store_blocks j : blocks_of d' ip j = blocks_of d ip j.
Proof.
  rewrite store_inode. unfold file_block. destruct (j <? NDIRECT); [done|].
  destruct (Z.eqb_spec (ind_of d ip) 0) as [|Hn]; [done|]. rewrite Hv, decide_False; [done|]. by apply not_eq_sym, Hi.
Qed.
Lemma store_free : free_blocks d' = free_blocks d.
Proof.
  unfold free_blocks. rewrite (sl_sb _ _ Hs). apply filter_ext_in.
  intros x Hx%elem_of_seqZ. by rewrite store_used by lia.
Qed.
Lemma store_ok : file_ok d' me ip.
Proof.
  pose proof store_more as M. destruct F as [F1 F2 F3 F4 F5 F6 F7 F8 F9 F10 F11 F12].
  split; try done.
  - by eapply fs_wf_more.
  - by rewrite (gr_out _ _ _ Hg).
  - by rewrite (sl_icache _ _ Hs).
  - by rewrite store_inode.
  - by rewrite store_inode, (sl_sb _ _ Hs).
  - by rewrite store_inode.
  - by rewrite store_inode.
  - intros k. rewrite store_blocks, store_inode. apply F9.
  - intros k Hk. rewrite store_blocks, store_inode. intros Hn. destruct (F10 k Hk Hn).
    split; [by eapply data_block_more|done].
  - rewrite store_inode. intros Hn. eapply data_block_more; [done|auto].
  - intros j k. rewrite !store_blocks. apply F12.
Qed.
Lemma store_contents :
  (forall k, 0 <= k < MAXFILE -> blocks_of d ip k <> 0 -> b <> blocks_of d ip k) -> file_of d' ip = file_of d ip.
Proof.
  intros Hb. rewrite store_inode. apply list_fmap_ext. intros i j [-> Hj]%lookup_seq. simpl.
  pose proof (fk_size _ _ _ F) as Hsz. set (k := Z.of_nat i / BSIZE).
  assert (0 <= k /\ k * BSIZE < isize (inodes d ip)) as [Hk Hks].
  { unfold k, BSIZE in *. Z.div_mod_to_equations. lia. }
  pose proof (store_blocks k) as Eb. rewrite store_inode in Eb.
  unfold file_byte. rewrite Z.add_0_l. fold k. rewrite Eb, Hv, decide_False; [done|]. apply not_eq_sym, Hb.
  - apply (block_bound k (isize (inodes d ip))); [done|done|apply Hsz].
  - by apply (fk_dense _ _ _ F).
Qed.
End Store.

(** The file after [bs] has been written at [off], [t] blocks of it touched *)
Record written (d : data) (me ip : nat) (off : Z) (bs : list Z) (t : nat) (e : data) : Prop := {
  wn_ok : file_ok e me ip;
  wn_more : more_used d e;
  wn_out : l_outstanding (log e) = l_outstanding (log d);
  wn_com : l_committing (log e) = l_committing (log d);
  wn_inode : exists l, inodes e ip = (inodes d ip) <|iaddrs := l|>;
  wn_inodes : forall j, j <> ip -> inodes e j = inodes d j;
  wn_locks : forall n, sl e (SInode n) = sl d (SInode n);
  wn_old : forall k, 0 <= k < MAXFILE -> blocks_of d ip k <> 0 -> blocks_of e ip k = blocks_of d ip k;
  wn_new : forall k, 0 <= k < MAXFILE -> blocks_of d ip k = 0 -> blocks_of e ip k <> 0 ->
    blocks_of e ip k ∈ free_blocks d;
  wn_ind : ind_of d ip <> 0 -> ind_of e ip = ind_of d ip;
  wn_indnew : ind_of d ip = 0 -> ind_of e ip <> 0 -> ind_of e ip ∈ free_blocks d;
  wn_mapped : forall x, off <= x < off + Z.of_nat (length bs) -> blocks_of e ip (x / BSIZE) <> 0;
  wn_byte : forall x, 0 <= x < MAXFILE * BSIZE -> blocks_of e ip (x / BSIZE) <> 0 ->
    file_byte (view e) (iaddrs (inodes e ip)) x =
      if decide (off <= x < off + Z.of_nat (length bs)) then bs !!! Z.to_nat (x - off)
      else if decide (blocks_of d ip (x / BSIZE) = 0) then 0
      else file_byte (view d) (iaddrs (inodes d ip)) x;
  wn_view : forall y, y ∉ free_blocks d -> y <> sb_bmapstart (sb d) ->
    (ind_of d ip <> 0 -> y <> ind_of d ip) ->
    (forall k, 0 <= k < MAXFILE -> blocks_of d ip k <> 0 -> y <> blocks_of d ip k) -> view e y = view d y;
  wn_blks : forall x, x ∈ blks (log e) -> x ∈ blks (log d) \/ x = sb_bmapstart (sb d) \/
    (x = ind_of e ip /\ x <> 0) \/
    exists k, off / BSIZE <= k < off / BSIZE + Z.of_nat t /\ x = blocks_of e ip k /\ x <> 0;
  wn_only : forall k, 0 <= k < MAXFILE -> ~ (off / BSIZE <= k < off / BSIZE + Z.of_nat t) ->
    blocks_of e ip k = blocks_of d ip k;
  wn_direct : off / BSIZE + Z.of_nat t <= NDIRECT -> ind_of e ip = ind_of d ip;
  wn_free : (length (free_blocks d) <= length (free_blocks e) + 2 * t)%nat
}.

Lemma written_nil d me ip off : file_ok d me ip -> 0 <= off -> written d me ip off [] 0 d.
Proof.
  intros F H0. split; try done.
  - exists (iaddrs (inodes d ip)). by destruct (inodes d ip).
  - simpl. lia.
  - intros x Hx Hn. rewrite decide_False by (simpl; lia). by rewrite decide_False.
  - by left.
  - lia.
Qed.

Lemma written_n d me ip off bs t e :
  txn d me [] -> written d me ip off bs t e -> lh_n (log e) <= lh_n (log d) + Z.of_nat t + 2.
Proof.
  intros T Wn. assert (grows (sb_bmapstart (sb d) :: ind_of e ip ::
    (blocks_of e ip <$> seqZ (off / BSIZE) (Z.of_nat t))) (log d) (log e)) as G.
  { destruct (wn_more _ _ _ _ _ _ _ Wn) as [M1 M2 M3 M4 M5].
    split; [done|done|by eapply wn_out|by eapply wn_com|].
    intros x Hx. apply (wn_blks _ _ _ _ _ _ _ Wn) in Hx as [?|[->|[[-> _]|(k & Hk & -> & _)]]]; [by left|right..].
    - left.
    - right; left.
    - right; right. apply list_elem_of_fmap. exists k. split; [done|]. apply elem_of_seqZ. lia. }
  pose proof (grows_n _ _ _ _ _ _ T (fk_txn _ _ _ (wn_ok _ _ _ _ _ _ _ Wn)) G) as H.
  simpl in H. rewrite length_fmap, length_seqZ in H. lia.
Qed.

Lemma offset_block x : 0 <= x < MAXFILE * BSIZE -> 0 <= x / BSIZE < MAXFILE.
Proof. unfold BSIZE. intros. Z.div_mod_to_equations. lia. Qed.

(** New blocks read as zeros, old ones as before. *)
Lemma extends_byte d me ip e x : file_ok d me ip -> extends d ip e -> 0 <= x < MAXFILE * BSIZE ->
  blocks_of e ip (x / BSIZE) <> 0 ->
  file_byte (view e) (iaddrs (inodes e ip)) x =
    if decide (blocks_of d ip (x / BSIZE) = 0) then 0 else file_byte (view d) (iaddrs (inodes d ip)) x.
Proof.
  intros F E Hx Hn. pose proof (offset_block x Hx) as Hk. unfold file_byte. case_decide as Hz.
  - destruct (ex_new _ _ _ E _ Hk Hz Hn) as [_ ->]. unfold zero_block.
    apply lookup_total_replicate_2. pose proof (Z.mod_pos_bound x BSIZE eq_refl). unfold BSIZE in *. lia.
  - rewrite (ex_old _ _ _ E _ Hk Hz). destruct (fk_blocks _ _ _ F _ Hk Hz) as [D1 D2].
    rewrite (ex_view _ _ _ E); [done|by apply data_not_free|apply D1|done].
Qed.

Section Step.
Context (d : data) (me ip : nat) (off : Z) (bs bs2 : list Z) (t : nat) (e e1 d' : data) (b : Z).
Local Abbreviation o := (off + Z.of_nat (length bs)).
Local Abbreviation k := ((off + Z.of_nat (length bs)) / BSIZE).
Hypothesis Wn : written d me ip off bs t e.
Hypothesis F1 : file_ok e1 me ip.
Hypothesis E1 : extends e ip e1.
Hypothesis Hoff : 0 <= off.
Hypothesis Hk : k = off / BSIZE + Z.of_nat t.
Hypothesis Ho : o < MAXFILE * BSIZE.
Hypothesis Hlen : (0 < length bs2)%nat.
Hypothesis Hfit : o mod BSIZE + Z.of_nat (length bs2) <= BSIZE.
Hypothesis Hb : b <> 0.
Hypothesis Ek : blocks_of e1 ip k = b.
Hypothesis Ej : forall j, 0 <= j < MAXFILE -> j <> k -> blocks_of e1 ip j = blocks_of e ip j.
Hypothesis Edir : k < NDIRECT -> ind_of e1 ip = ind_of e ip.
Hypothesis Hfree : (length (free_blocks e) <= 2 + length (free_blocks e1))%nat.
Hypothesis Htx : txn d' me [].
Hypothesis Hg : grows [b] (log e1) (log d').
Hypothesis Hs : same_but_log e1 d'.
Hypothesis Hv : forall y, view d' y =
  if decide (y = b) then set_bytes (view e1 b) (o mod BSIZE) bs2 else view e1 y.

Lemma step_range : 0 <= k < MAXFILE.
Proof. apply offset_block. lia. Qed.
Lemma step_data : data_block e1 b /\ b <> ind_of e1 ip.
Proof. rewrite <- Ek. apply F1; [apply step_range|by rewrite Ek]. Qed.
Lemma step_ok : file_ok d' me ip.
Proof. destruct step_data as [D1 D2]. eapply (store_ok me ip e1 d' b); try done. apply D1. Qed.
Lemma step_blocks j : blocks_of d' ip j = blocks_of e1 ip j.
Proof. destruct step_data as [D1 D2]. by eapply (store_blocks ip e1 d' b). Qed.
Lemma step_inode j : inodes d' j = inodes e1 j.
Proof. by eapply store_inode. Qed.

Lemma step_byte x : 0 <= x < MAXFILE * BSIZE -> blocks_of d' ip (x / BSIZE) <> 0 ->
  file_byte (view d') (iaddrs (inodes d' ip)) x =
    if decide (o <= x < o + Z.of_nat (length bs2)) then bs2 !!! Z.to_nat (x - o)
    else file_byte (view e1) (iaddrs (inodes e1 ip)) x.
Proof.
  intros Hx Hn. unfold file_byte. rewrite step_blocks in Hn |- *. rewrite Hv.
  pose proof (offset_block x Hx) as Hkx. pose proof (Z.mod_pos_bound x BSIZE eq_refl) as Hmx.
  pose proof (Z.mod_pos_bound o BSIZE eq_refl) as Hmo.
  destruct (decide (x / BSIZE = k)) as [Ex|Ex].
  - rewrite Ex, Ek, decide_True by done.
    rewrite set_bytes_lookup; [|lia| |lia].
    + assert (x - o = x mod BSIZE - o mod BSIZE) as Ed.
      { rewrite (Z.div_mod x BSIZE), (Z.div_mod o BSIZE) at 1 by done. rewrite Ex. lia. }
      case_decide as Hin; byte_cases; try lia; try done. by rewrite <- Ed.
    + erewrite view_length by apply (tx_cache _ _ _ (fk_txn _ _ _ F1)). unfold BSIZE in *. lia.
  - rewrite decide_False.
    + rewrite decide_False; [done|]. unfold BSIZE in *. Z.div_mod_to_equations. lia.
    + intros E. apply Ex. apply (fk_inj _ _ _ F1); [done|apply step_range|done|by rewrite Ek].
Qed.

Lemma step_blks x : x ∈ blks (log e1) -> x ∈ blks (log d) \/ x = sb_bmapstart (sb d) \/
  (x = ind_of d' ip /\ x <> 0) \/
  exists j, off / BSIZE <= j < off / BSIZE + Z.of_nat (S t) /\ x = blocks_of d' ip j /\ x <> 0.
Proof.
  intros Hx. pose proof step_range as Hkr. apply (ex_blks _ _ _ E1) in Hx as [Hx|[->|[[-> Hn]|(j & Hj & Hz & -> & Hn)]]].
  - apply (wn_blks _ _ _ _ _ _ _ Wn) in Hx as [?|[?|[[-> Hn]|(j & Hj & -> & Hn)]]];
      [by left|by right; left|right; right; left|right; right; right].
    + rewrite step_inode, (ex_ind _ _ _ E1) by done. done.
    + exists j. split; [lia|]. rewrite step_blocks, (ex_old _ _ _ E1); try done.
      assert (0 <= off / BSIZE) by (apply Z.div_pos; [lia|done]). lia.
  - right; left. by rewrite (mu_sb _ _ (wn_more _ _ _ _ _ _ _ Wn)).
  - right; right; left. by rewrite step_inode.
  - right; right; right. exists k. split; [lia|]. rewrite step_blocks.
    destruct (decide (j = k)) as [->|Hne]; [done|]. by rewrite Ej in Hn.
Qed.

Lemma step_written : written d me ip off (bs ++ bs2) (S t) d'.
Proof.
  pose proof step_ok as F'. pose proof step_range as Hkr. destruct step_data as [D1 D2].
  destruct Wn as [W1 W2 W3 W4 [l W5] W6 W7 W8 W9 W10 W11 W12 W13 W14 W15 W16 W17 W18].
  pose proof (mu_sb _ _ W2) as Es. pose proof (ex_more _ _ _ E1) as M1. destruct (ex_inode _ _ _ E1) as [l1 E2].
  assert (forall x, x ∈ free_blocks e -> x ∈ free_blocks d) as Hfr by (intros x; by apply free_more).
  split.
  - done.
  - etrans; [exact W2|]. etrans; [exact M1|]. by eapply store_more; [exact F1|apply D1|..].
  - by rewrite (gr_out _ _ _ Hg), (ex_out _ _ _ E1).
  - by rewrite (gr_com _ _ _ Hg), (ex_com _ _ _ E1).
  - exists l1. rewrite step_inode, E2, W5. done.
  - intros j Hj. rewrite step_inode, (ex_inodes _ _ _ E1) by done. by apply W6.
  - intros n. by rewrite (sl_inode _ _ Hs), (ex_locks _ _ _ E1).
  - intros j Hj Hn. rewrite step_blocks, (ex_old _ _ _ E1) by (done || by rewrite W8). by apply W8.
  - intros j Hj Hz Hn. rewrite step_blocks in Hn |- *. destruct (decide (blocks_of e ip j = 0)) as [E|E].
    + apply Hfr. by apply (ex_new _ _ _ E1).
    + rewrite (ex_old _ _ _ E1) by done. by apply W9.
  - intros Hn. rewrite step_inode, (ex_ind _ _ _ E1) by (by rewrite W10). by apply W10.
  - intros Hz Hn. rewrite step_inode in Hn |- *. destruct (decide (ind_of e ip = 0)) as [E|E].
    + apply Hfr. by apply (ex_indnew _ _ _ E1).
    + rewrite (ex_ind _ _ _ E1) by done. by apply W11.
  - intros x Hx. rewrite length_app, Nat2Z.inj_add in Hx. rewrite step_blocks.
    destruct (decide (x < o)) as [Hlt|Hge].
    + destruct (decide (x / BSIZE = k)) as [->|Hne]; [by rewrite Ek|].
      rewrite Ej; [apply W12; lia|apply offset_block; lia|done].
    + assert (x / BSIZE = k) as -> by (unfold BSIZE in *; Z.div_mod_to_equations; lia). by rewrite Ek.
  - intros x Hx Hn. rewrite step_byte by done. rewrite step_blocks in Hn.
    rewrite length_app, Nat2Z.inj_add. case_decide as Hin.
    + rewrite decide_True by lia. rewrite lookup_total_app_r by lia. f_equal. lia.
    + rewrite (extends_byte e me) by done. case_decide as Hz.
      * rewrite decide_False.
        -- rewrite decide_True; [done|]. destruct (decide (blocks_of d ip (x / BSIZE) = 0)) as [?|Hd]; [done|].
           rewrite W8 in Hz; [done|by apply offset_block|done].
        -- intros Hr. destruct (decide (x < o)); [by apply (W12 x); [lia|]|lia].
      * rewrite W13 by done. repeat case_decide; try lia; try done.
        rewrite lookup_total_app_l by lia. done.
  - intros y Hf Hm Hi Hy. rewrite Hv, decide_False.
    + rewrite (ex_view _ _ _ E1); [by apply W14|by intros ?%Hfr|by rewrite Es|].
      intros Hn ->. destruct (decide (ind_of d ip = 0)) as [E|E]; [by apply Hf, W11|].
      apply Hi; [done|]. by apply W10.
    + intros ->. destruct (decide (blocks_of e ip k = 0)) as [E|E].
      * destruct (ex_new _ _ _ E1 k Hkr E) as [Hf' _]; [by rewrite Ek|]. rewrite Ek in Hf'. by apply Hf, Hfr.
      * rewrite (ex_old _ _ _ E1) in Ek by done. destruct (decide (blocks_of d ip k = 0)) as [E'|E'].
        -- apply Hf. rewrite <- Ek. by apply W9.
        -- apply (Hy k Hkr E'). rewrite <- W8 by done. done.
  - intros x Hx. apply (gr_blks _ _ _ Hg) in Hx as [Hx|Hx].
    + by apply step_blks.
    + apply list_elem_of_singleton in Hx as ->. right; right; right. exists k. split; [lia|].
      by rewrite step_blocks.
  - intros j Hj Hne. rewrite step_blocks, Ej by (done || lia). apply W16; [done|lia].
  - intros Hle. rewrite step_inode, Edir by lia. apply W17. lia.
  - rewrite (store_free me ip e1 d' b (set_bytes (view e1 b) (o mod BSIZE) bs2)); try done; [lia|apply D1].
Qed.
End Step.

Lemma extends_n d me ip e k : file_ok d me ip -> file_ok e me ip -> extends d ip e ->
  (forall j, 0 <= j < MAXFILE -> j <> k -> blocks_of e ip j = blocks_of d ip j) ->
  lh_n (log e) <= lh_n (log d) + 3.
Proof.
  intros F F' E Ej.
  assert (grows [sb_bmapstart (sb d); ind_of e ip; blocks_of e ip k] (log d) (log e)) as G.
  { destruct (ex_more _ _ _ E) as [M1 M2 M3 M4 M5]. split; [done|done|by eapply ex_out|by eapply ex_com|].
    intros x Hx. apply (ex_blks _ _ _ E) in Hx as [?|[->|[[-> _]|(j & Hj & Hz & -> & Hn)]]]; [by left|right..].
    - left.
    - right; left.
    - destruct (decide (j = k)) as [->|Hne]; [right; right; left|]. by rewrite Ej in Hn. }
  apply (grows_n _ _ _ _ _ _ (fk_txn _ _ _ F) (fk_txn _ _ _ F') G).
Qed.

Section Writei.
Context {Ops : BlockOps} {Dev : BlockDev} {Devs : DevOps} (c me ip : nat).

Lemma runs_write_round d off bs t e n rest :
  let o := off + Z.of_nat (length bs) in
  let m := Z.min (n - Z.of_nat (length bs)) (BSIZE - o mod BSIZE) in
  written d me ip off bs t e -> 0 <= off -> o / BSIZE = off / BSIZE + Z.of_nat t ->
  off + n <= MAXFILE * BSIZE -> Z.of_nat (length bs) < n -> Z.of_nat (length rest) = n - Z.of_nat (length bs) ->
  lh_n (log e) + 4 < l_size (log e) -> (2 <= length (free_blocks e))%nat ->
  exists d', runs c (Some me) [] (writei_round ip n (Z.of_nat (length bs), o, FromKernel rest)) e
      (inl (Z.of_nat (length bs) + m, o + m, FromKernel (drop (Z.to_nat m) rest))) d' [] /\
    written d me ip off (bs ++ take (Z.to_nat m) rest) (S t) d'.
Proof.
  intros o m Wn H0 Hk Hmax Hlt Hrest Hroom Hfree. pose proof (wn_ok _ _ _ _ _ _ _ Wn) as F.
  destruct (rounds_less o (off + n) m) as [Hm _]; [lia|lia|unfold m, o; f_equal; lia|].
  destruct (runs_bmap c me ip e (o / BSIZE) F) as (b & e1 & Hr1 & F1 & E1 & Hb & Ek & Ej & Edir & Hl);
    [apply offset_block; lia|done|done|].
  pose proof (offset_block o ltac:(lia)) as Hkr.
  destruct (fk_blocks _ _ _ F1 (o / BSIZE) Hkr) as [D1 D2]; [by rewrite Ek|]. rewrite Ek in D1, D2.
  pose proof (data_block_disk _ _ (fk_fs _ _ _ F1) D1) as Hbd.
  pose proof (ex_more _ _ _ E1) as M1.
  assert (lh_n (log e1) + 1 < l_size (log e1)) as Hroom1.
  { rewrite (mu_lsize _ _ M1). pose proof (extends_n e me ip e1 (o / BSIZE) F F1 E1 Ej). lia. }
  destruct (runs_hold c me e1 [] b (fk_txn _ _ _ F1)) as (bp & e2 & Hr2 & Htx2 & Hop);
    [simpl; lia|apply no_held|lia|lia|].
  pose proof (op_rest _ _ _ _ _ _ _ Hop) as Hsr. pose proof (op_has _ _ _ _ _ _ _ Hop) as [_ Ebn].
  set (f := fun bl : block => set_bytes bl (o mod BSIZE) (take (Z.to_nat m) rest)).
  destruct (runs_held_write c me e2 [] bp f Htx2) as (Hr3 & Hr4 & Htx4 & Hg & Hs4 & _ & _ & Hv4);
    rewrite ?Ebn, ?(sr_log _ _ Hsr) in *.
  { apply D1. }
  { lia. }
  { apply F1. }
  { intros bl <-. apply length_set_bytes. }
  exists (released bp (logged e2 bp f)). split.
  - unfold writei_round. rewrite (proj2 (Z.ltb_lt _ _)) by done. eapply runs_bind; [exact Hr1|]. rstep.
    rewrite (fk_dev _ _ _ F1). eapply runs_bind; [exact Hr2|]. cbv zeta. fold m.
    eapply runs_bind; [rstep; apply runs_ret|]. eapply runs_bind; [exact Hr3|].
    eapply runs_bind; [exact Hr4|].
    assert (MAXFILE * BSIZE < two31) by done.
    rewrite !u32_small by (unfold two31, two32, m in *; lia). apply runs_ret.
  - assert (length (take (Z.to_nat m) rest) = Z.to_nat m) as Hlen.
    { rewrite length_take. unfold m in *. lia. }
    eapply (step_written d me ip off bs (take (Z.to_nat m) rest) t e e1 _ b); try done.
    + lia.
    + rewrite Hlen. lia.
    + rewrite Hlen. fold o. assert (m <= BSIZE - o mod BSIZE) by (unfold m; lia). lia.
    + etrans; [apply sl_same_rest, Hsr|done].
    + intros y. rewrite Hv4, !(op_view _ _ _ _ _ _ _ Hop). done.
Qed.

Lemma runs_write_loop d off all T fuel : forall bs rest t e,
  let n := Z.of_nat (length all) in
  let o := off + Z.of_nat (length bs) in
  written d me ip off bs t e -> all = bs ++ rest -> 0 <= off -> off + n <= MAXFILE * BSIZE ->
  txn d me [] -> T = rounds_left off (off + n) -> (t + rounds_left o (off + n))%nat = T ->
  (rounds_left o (off + n) < fuel)%nat ->
  lh_n (log d) + Z.of_nat T + 5 < l_size (log d) -> (2 * T <= length (free_blocks d))%nat ->
  exists d', runs c (Some me) [] (loop fuel (writei_round ip n) (Z.of_nat (length bs), o, FromKernel rest)) e
      (Some (off + n)) d' [] /\ written d me ip off all T d'.
Proof.
  induction fuel as [|fuel IH]; intros bs rest t e n o Wn Hall H0 Hmax Htx HT Ht Hf Hroom Hfree; [lia|].
  assert (n = Z.of_nat (length bs) + Z.of_nat (length rest)) as Hn.
  { unfold n. rewrite Hall, length_app. lia. }
  destruct rest as [|x rest'] eqn:Er.
  - simpl in Hn. exists e. assert (o = off + n) as Eo by (unfold o; lia). split.
    + apply runs_loop_stop. unfold writei_round. rewrite (proj2 (Z.ltb_ge _ _)) by lia.
      rewrite Eo. apply runs_ret.
    + rewrite Hall, app_nil_r. replace T with t; [done|]. rewrite <- Ht, Eo. unfold rounds_left.
      rewrite (proj2 (Z.ltb_ge _ _)) by lia. lia.
  - rewrite <- Er in *. assert (0 < length rest)%nat as Hpos by (rewrite Er; simpl; lia). clear Er.
    pose proof (written_n _ _ _ _ _ _ _ Htx Wn) as Hln. pose proof (wn_free _ _ _ _ _ _ _ Wn) as Hfr.
    set (m := Z.min (n - Z.of_nat (length bs)) (BSIZE - o mod BSIZE)).
    destruct (rounds_less o (off + n) m) as [Hm Hl]; [unfold o; lia|unfold o; lia|unfold m, o; f_equal; lia|].
    assert (o / BSIZE = off / BSIZE + Z.of_nat t) as Hk.
    { unfold rounds_left in HT, Ht. rewrite (proj2 (Z.ltb_lt off _)) in HT by lia.
      rewrite (proj2 (Z.ltb_lt o _)) in Ht by (unfold o; lia).
      assert (off / BSIZE <= o / BSIZE <= (off + n - 1) / BSIZE) by (split; apply Z.div_le_mono; unfold o; lia || done).
      lia. }
    destruct (runs_write_round d off bs t e n rest Wn) as (d1 & Hr1 & Wn1); try done; try lia.
    { rewrite (mu_lsize _ _ (wn_more _ _ _ _ _ _ _ Wn)). lia. }
    fold o m in Hr1, Wn1.
    assert (length (take (Z.to_nat m) rest) = Z.to_nat m) as Hlm by (rewrite length_take; unfold m in *; lia).
    destruct (IH (bs ++ take (Z.to_nat m) rest) (drop (Z.to_nat m) rest) (S t) d1) as (d2 & Hr2 & Wn2); try done.
    { by rewrite <- app_assoc, take_drop. }
    { rewrite length_app, Hlm. fold n. replace (off + Z.of_nat (length bs + Z.to_nat m)) with (o + m) by (unfold o; lia).
      lia. }
    { rewrite length_app, Hlm. fold n. replace (off + Z.of_nat (length bs + Z.to_nat m)) with (o + m) by (unfold o; lia).
      lia. }
    exists d2. split; [|done]. eapply runs_loop_more; [exact Hr1|].
    rewrite length_app, Hlm in Hr2. fold n in Hr2.
    replace (Z.of_nat (length bs + Z.to_nat m)) with (Z.of_nat (length bs) + m) in Hr2 by lia.
    by rewrite Z.add_assoc in Hr2.
Qed.

(** The file after a write: [bs] at offset [off], at the end or before it *)
Record wrote (d : data) (off : Z) (bs : list Z) (d' : data) : Prop := {
  wr_ok : file_ok d' me ip;
  wr_inode : exists l, inodes d' ip = (inodes d ip) <|iaddrs := l|>
    <|isize := Z.max (isize (inodes d ip)) (off + Z.of_nat (length bs))|>;
  wr_bytes : file_of d' ip = take (Z.to_nat off) (file_of d ip) ++ bs
    ++ drop (Z.to_nat off + length bs) (file_of d ip);
  wr_disk : on_disk d (inum (inodes d ip)) = dinode_of (inodes d ip) ->
    on_disk d' (inum (inodes d ip)) = dinode_of (inodes d' ip);
  wr_inodes : forall n, 0 <= n < sb_ninodes (sb d) -> n <> inum (inodes d ip) -> on_disk d' n = on_disk d n;
  wr_more : more_used d d';
  wr_view : forall y, y ∉ free_blocks d -> y <> sb_bmapstart (sb d) -> y <> IBLOCK (inum (inodes d ip)) (sb d) ->
    (ind_of d ip <> 0 -> y <> ind_of d ip) ->
    (forall k, 0 <= k < MAXFILE -> blocks_of d ip k <> 0 -> y <> blocks_of d ip k) -> view d' y = view d y;
  wr_log : lh_n (log d') <= lh_n (log d) + Z.of_nat (rounds_left off (off + Z.of_nat (length bs))) + 3
}.

Lemma dense_mapped d off bs t e j :
  file_ok d me ip -> written d me ip off bs t e -> 0 <= j ->
  j < Z.max (isize (inodes d ip)) (off + Z.of_nat (length bs)) -> off <= isize (inodes d ip) ->
  blocks_of e ip (j / BSIZE) <> 0.
Proof.
  intros F Wn Hj Hlt Hoff. destruct (wn_inode _ _ _ _ _ _ _ Wn) as [l El].
  destruct (decide (j < isize (inodes d ip))).
  - apply (fk_dense _ _ _ (wn_ok _ _ _ _ _ _ _ Wn)); [apply Z.div_pos; [done|done]|].
    rewrite El. change (isize ((inodes d ip) <|iaddrs := l|>)) with (isize (inodes d ip)).
    unfold BSIZE in *. Z.div_mod_to_equations. lia.
  - apply (wn_mapped _ _ _ _ _ _ _ Wn). lia.
Qed.

Lemma written_contents d off bs t e :
  file_ok d me ip -> written d me ip off bs t e -> 0 <= off <= isize (inodes d ip) ->
  off + Z.of_nat (length bs) <= MAXFILE * BSIZE ->
  contents (view e) (iaddrs (inodes e ip)) (Z.max (isize (inodes d ip)) (off + Z.of_nat (length bs))) =
    take (Z.to_nat off) (file_of d ip) ++ bs ++ drop (Z.to_nat off + length bs) (file_of d ip).
Proof.
  intros F Wn Hoff Hmax. set (sz := isize (inodes d ip)) in *. set (n := Z.of_nat (length bs)).
  pose proof (fk_size _ _ _ F) as Hsz. fold sz in Hsz.
  set (old := contents (view d) (iaddrs (inodes d ip)) sz).
  assert (length old = Z.to_nat sz) as Hl by apply length_bytes_at.
  apply (list_eq_same_length _ _ (Z.to_nat (Z.max sz (off + n)))).
  - rewrite !length_app, length_take, length_drop, Hl. lia.
  - apply length_bytes_at.
  - intros j x y Hj Hx Hy. unfold contents in Hx. rewrite bytes_at_lookup in Hx by done. injection Hx as <-.
    simpl. rewrite (wn_byte _ _ _ _ _ _ _ Wn); [|lia|eapply dense_mapped; try done; lia].
    assert (forall i, (i < Z.to_nat sz)%nat -> old !! i = Some (file_byte (view d) (iaddrs (inodes d ip)) (Z.of_nat i)))
      as Hold by (intros i Hi; by apply bytes_at_lookup).
    assert (Z.of_nat j < sz -> blocks_of d ip (Z.of_nat j / BSIZE) <> 0) as Hd.
    { intros Hlt. apply (fk_dense _ _ _ F); [apply Z.div_pos; [lia|done]|]. fold sz. unfold BSIZE. Z.div_mod_to_equations. lia. }
    case_decide as Hin.
    + rewrite lookup_app_r, length_take, Hl in Hy by (rewrite length_take, Hl; lia).
      rewrite lookup_app_l in Hy by lia. apply list_lookup_total_correct in Hy. rewrite <- Hy. f_equal. lia.
    + rewrite decide_False by (apply Hd; lia). destruct (decide (Z.of_nat j < off)).
      * rewrite lookup_app_l in Hy by (rewrite length_take, Hl; lia). rewrite lookup_take_lt, Hold in Hy by lia.
        by injection Hy as <-.
      * rewrite lookup_app_r, length_take, Hl in Hy by (rewrite length_take, Hl; lia).
        rewrite lookup_app_r, lookup_drop, Hold in Hy by lia. injection Hy as <-. f_equal. lia.
Qed.

(** An inode block is none of the file's. *)
Lemma iblock_apart d n : file_ok d me ip -> 0 <= n < sb_ninodes (sb d) ->
  let y := IBLOCK n (sb d) in
  y ∉ free_blocks d /\ y <> sb_bmapstart (sb d) /\ (ind_of d ip <> 0 -> y <> ind_of d ip) /\
  (forall k, 0 <= k < MAXFILE -> blocks_of d ip k <> 0 -> y <> blocks_of d ip k).
Proof.
  intros F Hn y. destruct (fw_iblocks _ (fk_fs _ _ _ F) n Hn) as (I1 & I2 & I3). split_and!.
  - rewrite elem_free. by intros [_ ?].
  - done.
  - intros Hi E. by apply (db_ino _ _ (fk_ind _ _ _ F Hi) n).
  - intros k Hk Hb E. destruct (fk_blocks _ _ _ F k Hk Hb) as [D _]. by apply (db_ino _ _ D n).
Qed.

Lemma written_iblock d off bs t e n :
  file_ok d me ip -> written d me ip off bs t e -> 0 <= n < sb_ninodes (sb d) -> on_disk e n = on_disk d n.
Proof.
  intros F Wn Hn. destruct (iblock_apart d n F Hn) as (A1 & A2 & A3 & A4).
  unfold on_disk. rewrite (mu_sb _ _ (wn_more _ _ _ _ _ _ _ Wn)).
  by rewrite (wn_view _ _ _ _ _ _ _ Wn).
Qed.

(** A write inside the file leaves the inode as it is. *)
Lemma written_inside d off bs t e :
  file_ok d me ip -> written d me ip off bs t e -> 0 <= off -> off + Z.of_nat (length bs) <= isize (inodes d ip) ->
  t = rounds_left off (off + Z.of_nat (length bs)) -> inodes e ip = inodes d ip.
Proof.
  intros F Wn H0 Hle Ht. destruct (wn_inode _ _ _ _ _ _ _ Wn) as [l El].
  pose proof (fk_size _ _ _ F) as Hsz.
  assert (forall k, 0 <= k < MAXFILE -> blocks_of e ip k = blocks_of d ip k) as Eb.
  { intros k Hk. destruct (decide (off / BSIZE <= k < off / BSIZE + Z.of_nat t)) as [Hin|Hout].
    - apply (wn_old _ _ _ _ _ _ _ Wn); [done|]. apply (fk_dense _ _ _ F); [lia|]. subst t. unfold rounds_left in Hin.
      case_match; [|lia]. unfold BSIZE in *. Z.div_mod_to_equations. lia.
    - by apply (wn_only _ _ _ _ _ _ _ Wn). }
  assert (ind_of e ip = ind_of d ip) as Ei.
  { destruct (decide (ind_of d ip = 0)) as [Hz|Hn]; [|by apply (wn_ind _ _ _ _ _ _ _ Wn)].
    destruct (decide (off / BSIZE + Z.of_nat t <= NDIRECT)) as [|Hgt]; [by apply (wn_direct _ _ _ _ _ _ _ Wn)|].
    exfalso. set (k := off / BSIZE + Z.of_nat t - 1).
    apply (fk_dense _ _ _ F k); [unfold k, NDIRECT in *; lia| |].
    - subst t k. unfold rounds_left in *. case_match; unfold BSIZE, NDIRECT in *; Z.div_mod_to_equations; lia.
    - unfold file_block. rewrite (proj2 (Z.ltb_ge _ _)) by (unfold k; lia). by rewrite Hz. }
  assert (l = iaddrs (inodes d ip)) as ->.
  { pose proof (fk_len _ _ _ F) as L1. pose proof (fk_len _ _ _ (wn_ok _ _ _ _ _ _ _ Wn)) as L2.
    assert (iaddrs (inodes e ip) = l) as Ea by (by rewrite El). rewrite Ea in L2.
    apply (list_eq_same_length _ _ 13); [done|done|]. intros i x y Hi Hx Hy.
    apply list_lookup_total_correct in Hx, Hy. rewrite <- Hx, <- Hy, <- Ea.
    destruct (decide (i = 12%nat)) as [->|Hne]; [exact Ei|].
    specialize (Eb (Z.of_nat i)). unfold file_block in Eb.
    rewrite !(proj2 (Z.ltb_lt _ _)), !Nat2Z.id in Eb by (unfold NDIRECT; lia). apply Eb.
    unfold MAXFILE, NDIRECT, NINDIRECT. change (BSIZE / 4) with 128. lia. }
  rewrite El. by destruct (inodes d ip).
Qed.

Local Abbreviation resized sz e := (upd_inode ip (fun i => i <|isize := sz|>) e).

Lemma resized_inode e sz j : file_ok e me ip ->
  inodes (resized sz e) j = if decide (j = ip) then (inodes e j) <|isize := sz|> else inodes e j.
Proof. intros F. apply inodes_upd, F. Qed.

Lemma resized_ok e sz :
  file_ok e me ip -> 0 <= sz <= MAXFILE * BSIZE ->
  (forall k, 0 <= k -> k * BSIZE < sz -> blocks_of e ip k <> 0) -> file_ok (resized sz e) me ip.
Proof.
  intros F Hsz Hd. pose proof (resized_inode e sz ip F) as Ei. rewrite decide_True in Ei by done.
  assert (forall y, view (resized sz e) y = view e y) as Ev by (intros y; by apply (view_frame e)).
  assert (iaddrs (inodes (resized sz e) ip) = iaddrs (inodes e ip)) as Ea by by rewrite Ei.
  assert (forall k, blocks_of (resized sz e) ip k = blocks_of e ip k) as Eb.
  { intros k. rewrite Ea. by apply file_block_ext. }
  assert (more_used e (resized sz e)) as M.
  { by split. }
  destruct F as [F1 F2 F3 F4 F5 F6 F7 F8 F9 F10 F11 F12]. split; try done.
  - by apply txn_upd_inode.
  - by eapply fs_wf_more.
  - unfold upd_inode. getset. by rewrite length_alter.
  - by rewrite Ei.
  - by rewrite Ei.
  - rewrite Ei. destruct F7 as [D1 D2 D3 D4 D5 D6 D7]. split; try done.
    apply u32_small. assert (MAXFILE * BSIZE < two32) by done. simpl. lia.
  - by rewrite Ei.
  - intros k Hk Hlt. rewrite Eb. apply Hd; [done|]. by rewrite Ei in Hlt.
  - intros k Hk. rewrite Eb, Ea. intros Hn. destruct (F10 k Hk Hn). split; [by eapply data_block_more|done].
  - rewrite Ea. intros Hn. eapply data_block_more; [done|auto].
  - intros j k. rewrite !Eb. apply F12.
Qed.

(** The end of a write that makes the file longer *)
Lemma runs_write_end d off bs t e :
  let sz := off + Z.of_nat (length bs) in
  file_ok d me ip -> written d me ip off bs t e -> 0 <= off <= isize (inodes d ip) -> sz <= MAXFILE * BSIZE ->
  isize (inodes d ip) < sz -> t = rounds_left off sz -> lh_n (log d) + Z.of_nat t + 5 < l_size (log d) ->
  exists d', runs c (Some me) [] (set_inode ip (fun i => i <|isize := sz|>);; iupdate ip) e tt d' [] /\
    wrote d off bs d'.
Proof.
  intros sz F Wn Hoff Hmax Hlt Ht Hroom. pose proof (wn_ok _ _ _ _ _ _ _ Wn) as Fe.
  pose proof (wn_more _ _ _ _ _ _ _ Wn) as Me. destruct (wn_inode _ _ _ _ _ _ _ Wn) as [l El].
  assert (file_ok (resized sz e) me ip) as F1.
  { apply resized_ok; [done|lia|]. intros k Hk Hks.
    replace k with ((k * BSIZE) / BSIZE) by (by apply Z.div_mul). 
    apply (dense_mapped d off bs t e); [done|done|unfold BSIZE in *; lia|lia|lia]. }
  pose proof (resized_inode e sz ip Fe) as Ei. rewrite decide_True, El in Ei by done.
  set (d1 := resized sz e) in *. set (b := IBLOCK (inum (inodes d1 ip)) (sb d1)).
  pose proof (written_n _ _ _ _ _ _ _ (fk_txn _ _ _ F) Wn) as Hn.
  destruct (runs_iupdate c me ip d1 (fk_txn _ _ _ F1) (fw_inodes _ (fk_fs _ _ _ F1)) (fk_dev _ _ _ F1)
    (fk_num _ _ _ F1) (fk_din _ _ _ F1) (fk_out _ _ _ F1)) as (d' & Hr & Htx & Hs & Hg & Hd & Hdo & Hv).
  { change (log d1) with (log e). rewrite (mu_lsize _ _ Me). lia. }
  destruct (iblock_apart d1 (inum (inodes d1 ip)) F1 (fk_num _ _ _ F1)) as (A1 & A2 & A3 & A4). fold b in A1, A2, A3, A4.
  assert (forall y, view d' y = if decide (y = b) then view d' b else view d1 y) as Hv'.
  { intros y. case_decide as E; [by rewrite E|by apply Hv]. }
  assert (forall y, view d1 y = view e y) as Ev by (intros y; by apply (view_frame e)).
  assert (inum (inodes d1 ip) = inum (inodes d ip)) as En by by rewrite Ei.
  assert (sb d1 = sb d) as Es by apply (mu_sb _ _ Me).
  assert (inodes d' ip = inodes d1 ip) as Ei' by (by apply store_inode).
  exists d'. split; [rstep; exact Hr|]. split.
  - by eapply (store_ok me ip d1 d' b).
  - exists l. rewrite Ei', Ei. fold sz. by rewrite Z.max_r by lia.
  - rewrite <- (written_contents d off bs t e F Wn Hoff Hmax).
    rewrite (store_contents me ip d1 d' b (view d' b) F1 A3 Hs Hv' A4). fold sz.
    replace (isize (inodes d1 ip)) with (Z.max (isize (inodes d ip)) sz)
      by (rewrite Ei; change (Z.max (isize (inodes d ip)) sz = sz); lia).
    rewrite Ei. change (iaddrs _) with l at 1. replace (iaddrs (inodes e ip)) with l by (by rewrite El).
    by apply bytes_at_ext.
  - intros _. rewrite <- En, Hd, Ei'. done.
  - intros n Hn' Hne. rewrite Hdo by (rewrite ?En, ?Es; done).
    etrans; [|by eapply written_iblock]. unfold on_disk. by rewrite Ev.
  - etrans; [exact Me|]. etrans; [|by eapply (store_more me ip d1 d' b)]. by split.
  - intros y Y1 Y2 Y3 Y4 Y5. rewrite Hv, Ev; [by apply (wn_view _ _ _ _ _ _ _ Wn)|]. by rewrite En, Es.
  - pose proof (grows_n _ _ _ _ _ _ (fk_txn _ _ _ F1) Htx Hg) as Hn'. cbn [length] in Hn'.
    change (log d1) with (log e) in Hn'. fold sz. rewrite <- Ht. lia.
Qed.

Lemma wrote_inside d off bs t e :
  file_ok d me ip -> written d me ip off bs t e -> 0 <= off ->
  off + Z.of_nat (length bs) <= isize (inodes d ip) -> t = rounds_left off (off + Z.of_nat (length bs)) ->
  wrote d off bs e.
Proof.
  intros F Wn H0 Hle Ht. pose proof (written_inside d off bs t e F Wn H0 Hle Ht) as Ei.
  pose proof (fk_size _ _ _ F). split.
  - apply Wn.
  - exists (iaddrs (inodes d ip)). rewrite Ei, Z.max_l by lia. by destruct (inodes d ip).
  - rewrite <- (written_contents d off bs t e F Wn) by lia. rewrite Ei. f_equal. lia.
  - intros E. rewrite Ei, <- E. eapply written_iblock; [done|done|apply F].
  - intros n Hn _. by eapply written_iblock.
  - apply Wn.
  - intros y Y1 Y2 _ Y4 Y5. by apply (wn_view _ _ _ _ _ _ _ Wn).
  - pose proof (written_n _ _ _ _ _ _ _ (fk_txn _ _ _ F) Wn). lia.
Qed.

Lemma runs_writei d off bs :
  let n := Z.of_nat (length bs) in
  let t := rounds_left off (off + n) in
  file_ok d me ip -> itype (inodes d ip) <> T_DEV -> 0 <= off <= isize (inodes d ip) -> off + n <= MAXFILE * BSIZE ->
  lh_n (log d) + Z.of_nat t + 5 < l_size (log d) -> (2 * t <= length (free_blocks d))%nat ->
  exists d', runs c (Some me) [] (writei ip (FromKernel bs) off n) d n d' [] /\ wrote d off bs d'.
Proof.
  intros n t F Hty Hoff Hmax Hroom Hfree. assert (MAXFILE * BSIZE < two31) as Hbig by done.
  destruct (runs_write_loop d off bs t (Z.to_nat (n / BSIZE) + 3) [] bs 0 d) as (e & Hr & Wn); try done; try lia.
  { apply written_nil; [done|lia]. }
  { apply F. }
  { fold n. by replace (off + Z.of_nat (length (@nil Z))) with off by (simpl; lia). }
  { fold n. replace (off + Z.of_nat (length (@nil Z))) with off by (simpl; lia).
    unfold rounds_left. case_match; [|lia]. unfold BSIZE. Z.div_mod_to_equations. lia. }
  fold n in Hr. simpl in Hr. rewrite Z.add_0_r in Hr. destruct (wn_inode _ _ _ _ _ _ _ Wn) as [l El].
  assert (isize (inodes e ip) = isize (inodes d ip)) as Ez by (by rewrite El).
  assert (forall m d', runs c (Some me) [] (when ((0 <? n) && (isize (inodes e ip) <? off + n)) m) e tt d' [] ->
    m = (set_inode ip (fun i => i <|isize := off + n|>);; iupdate ip) ->
    runs c (Some me) [] (writei ip (FromKernel bs) off n) d n d' []) as Hrun.
  { intros m d' Hm ->. unfold writei. rstep. rewrite (proj2 (Z.eqb_neq _ _)) by done.
    rewrite (proj2 (Z.ltb_ge (isize _) _)) by lia. rewrite u32_small by (unfold two31, two32 in *; lia).
    rewrite !(proj2 (Z.ltb_ge _ _)) by lia. cbn [orb]. eapply runs_bind; [exact Hr|]. rstep.
    eapply runs_bind; [exact Hm|]. rewrite i32_small by (unfold two31 in *; lia). apply runs_ret. }
  destruct (decide (isize (inodes d ip) < off + n)) as [Hlt|Hge].
  - destruct (runs_write_end d off bs t e F Wn Hoff Hmax Hlt eq_refl Hroom) as (d' & Hr' & Hw).
    exists d'. split; [|done]. eapply Hrun; [|done]. rewrite Ez.
    rewrite (proj2 (Z.ltb_lt 0 _)), (proj2 (Z.ltb_lt _ (off + n))) by lia. exact Hr'.
  - exists e. split; [|apply (wrote_inside d off bs t e); [done|done|lia|lia|done]]. eapply Hrun; [|done]. rewrite Ez.
    rewrite (proj2 (Z.ltb_ge _ (off + n))) by lia. rewrite andb_false_r. apply runs_ret.
Qed.

(** C27: [writei] puts [bs] at offset [off] of the file, which grows when the
    bytes go beyond its end; all other bytes of the file are as before, and so
    are all other inodes, and all blocks in use but those of this file, its
    inode block and the bitmap.  It needs room in the log for the blocks it
    touches and three more, of which the bitmap is one however many blocks it
    takes into use.  An offset beyond the end and a file that would be too
    large are errors that change nothing. *)
Theorem writei_writes d off bs :
  let n := Z.of_nat (length bs) in
  let t := rounds_left off (off + n) in
  file_ok d me ip -> itype (inodes d ip) <> T_DEV -> 0 <= off < two32 -> n < two32 ->
  (off <= isize (inodes d ip) -> off + n <= MAXFILE * BSIZE ->
   lh_n (log d) + Z.of_nat t + 5 < l_size (log d) -> (2 * t <= length (free_blocks d))%nat ->
   exists d', runs c (Some me) [] (writei ip (FromKernel bs) off n) d n d' [] /\ wrote d off bs d') /\
  (isize (inodes d ip) < off \/ MAXFILE * BSIZE < off + n ->
   runs c (Some me) [] (writei ip (FromKernel bs) off n) d (-1) d []).
Proof.
  intros n t F Hty Hoff Hn. split; [intros; apply runs_writei; [done|done|lia|done..]|].
  intros Hbad. unfold writei. rstep. rewrite (proj2 (Z.eqb_neq _ _)) by done.
  destruct ((isize (inodes d ip) <? off) || (u32 (off + n) <? off)) eqn:E; [apply runs_ret|].
  apply orb_false_iff in E as [E1 E2]. apply Z.ltb_ge in E1, E2.
  assert (u32 (off + n) = off + n) as Eu.
  { destruct (decide (off + n < two32)); [apply u32_small; lia|]. exfalso. revert E2.
    unfold u32. rewrite <- (Z.mod_add _ (-1)) by done. rewrite Z.mod_small by (unfold two32 in *; lia).
    unfold two32 in *. lia. }
  rewrite Eu, (proj2 (Z.ltb_lt _ _)) by lia. apply runs_ret.
Qed.

(** C28: What is written can be read back: after a write at [off], reading as
    many bytes there gives the bytes that were written. *)
Theorem writei_readi d off bs :
  let n := Z.of_nat (length bs) in
  let t := rounds_left off (off + n) in
  file_ok d me ip -> itype (inodes d ip) <> T_DEV -> 0 <= off <= isize (inodes d ip) -> off + n <= MAXFILE * BSIZE ->
  lh_n (log d) + Z.of_nat t + 5 < l_size (log d) -> (2 * t <= length (free_blocks d))%nat ->
  exists d', runs c (Some me) [] (writei ip (FromKernel bs) off n;; readi ip ToKernel off n) d (n, bs) d' [] /\
    file_of d' ip = take (Z.to_nat off) (file_of d ip) ++ bs ++ drop (Z.to_nat off + length bs) (file_of d ip).
Proof.
  intros n t F Hty Hoff Hmax Hroom Hfree.
  destruct (runs_writei d off bs F Hty Hoff Hmax Hroom Hfree) as (d1 & Hr1 & Hw). fold n in Hr1.
  destruct (wr_inode _ _ _ _ Hw) as [l El]. fold n in El. pose proof (wr_ok _ _ _ _ Hw) as F1.
  assert (isize (inodes d1 ip) = Z.max (isize (inodes d ip)) (off + n)) as Ez by (by rewrite El).
  assert (MAXFILE * BSIZE < two32) by done.
  destruct (runs_readi c me ip d1 off n (fk_txn _ _ _ F1) (file_readable _ _ _ F1)) as (d2 & Hr2 & P);
    [by rewrite El|lia|lia|lia|].
  exists d2. split.
  - eapply runs_bind; [exact Hr1|]. rewrite Z.min_l in Hr2 by lia. rewrite (wr_bytes _ _ _ _ Hw) in Hr2.
    replace (slice (take (Z.to_nat off) (file_of d ip) ++ bs ++ drop (Z.to_nat off + length bs) (file_of d ip)) off n)
      with bs in Hr2; [exact Hr2|].
    assert (length (take (Z.to_nat off) (file_of d ip)) = Z.to_nat off) as Hl.
    { rewrite length_take. etrans; [apply Nat.min_l|done]. unfold contents. rewrite length_bytes_at. lia. }
    unfold slice. rewrite drop_app_length' by done. rewrite take_app_length' by (unfold n; lia). done.
  - rewrite <- (wr_bytes _ _ _ _ Hw), (peeked_inode _ _ _ _ ip P). by apply bytes_at_ext, P.
Qed.
End Writei.

(** ** Inode 3 of the small file system, with and without a block *)

Definition ex_empty : inode := Inode 1 3 1 1 T_FILE 0 0 1 0 (replicate 13 0).
Definition ex_short : inode := Inode 1 3 1 1 T_FILE 0 0 1 100 (35 :: replicate 12 0).

Lemma ex_cached_used i b : 0 <= b < 34 -> used (ex_cached i) b.
Proof.
  assert (Forall (used (ex_cached i)) (seqZ 0 34)) as H by (apply (bool_decide_unpack _); by vm_compute).
  rewrite Forall_forall in H. intros Hb. apply H. apply elem_of_seqZ. lia.
Qed.

Lemma ex_cached_fs i : fs_wf (ex_cached i).
Proof.
  assert (forall b, 0 <= b < 40 -> BBLOCK b (sb (ex_cached i)) = 33) as E.
  { intros b Hb. unfold BBLOCK. change (sb_bmapstart _) with 33.
    by rewrite (Z.div_small b BPB) by (unfold BPB, BSIZE; lia). }
  split; [split|apply ex_cached_wf|by vm_compute|apply ex_cached_used; lia|];
    change (sb_size (sb (ex_cached i))) with 40; [by vm_compute|by vm_compute|by vm_compute|..].
  - intros b Hb. rewrite E by done. vm_compute. by intros [_ ?].
  - intros b Hb [Hl|(x & Hx & ->)]; [|rewrite E by done; apply ex_cached_used; lia].
    apply ex_cached_used. destruct Hl as [Hl1 Hl2].
    change (l_start (log (ex_cached i))) with 2 in *. change (l_size (log (ex_cached i))) with 30 in *. lia.
  - intros n Hn. change (sb_ninodes _) with 8 in Hn. assert (IBLOCK n (sb (ex_cached i)) = 32) as ->.
    { unfold IBLOCK. change (sb_inodestart _) with 32. by rewrite Z.div_small by (change IPB with 8; lia). }
    split; [lia|]. split; [apply ex_cached_used; lia|done].
Qed.

Lemma ex_empty_block g k : 0 <= k -> file_block g (replicate 13 0) k = 0.
Proof.
  intros Hk. unfold file_block. destruct (Z.ltb_spec k NDIRECT); [|done].
  apply lookup_total_replicate_2. unfold NDIRECT in *. lia.
Qed.

Lemma ex_empty_ok : file_ok (ex_cached ex_empty) 0 0.
Proof.
  assert (inodes (ex_cached ex_empty) 0 = ex_empty) as Ei by reflexivity.
  split; rewrite ?Ei; try done.
  - apply ex_cached_txn.
  - apply ex_cached_fs.
  - simpl. lia.
  - split; try reflexivity. repeat constructor.
  - intros k H0 Hk. simpl in Hk. unfold BSIZE in *. lia.
  - intros k Hk Hn. simpl in Hn. by rewrite ex_empty_block in Hn by lia.
  - intros j k Hj Hk Hn. simpl in Hn. by rewrite ex_empty_block in Hn by lia.
Qed.

Lemma ex_short_readable : readable (ex_cached ex_short) 0.
Proof.
  assert (inodes (ex_cached ex_short) 0 = ex_short) as Ei by reflexivity.
  split; rewrite ?Ei; try done. intros k H0 Hk. simpl in Hk.
  replace k with 0 by (unfold BSIZE in *; lia). by vm_compute.
Qed.

#[local] Instance no_devs : DevOps := {| dev_read := fun _ => None; dev_write := fun _ => None |}.

Lemma readi_reads_witness :
  exists d', runs 0 (Some 0%nat) [] (readi 0 ToKernel 90 20) (ex_cached ex_short) (10, replicate 10 0) d' [] /\
    peeked (ex_cached ex_short) 0 [] d'.
Proof.
  assert (slice (file_of (ex_cached ex_short) 0) 90 10 = replicate 10 0) as <- by by vm_compute.
  apply (readi_reads 0 0 0 (ex_cached ex_short) 90 20 (ex_cached_txn _) ex_short_readable); done.
Defined.

Lemma writei_writes_witness :
  exists d', runs 0 (Some 0%nat) [] (writei 0 (FromKernel (replicate 600 7)) 0 600) (ex_cached ex_empty) 600 d' [] /\
    wrote 0 0 (ex_cached ex_empty) 0 (replicate 600 7) d'.
Proof.
  apply (writei_writes 0 0 0 (ex_cached ex_empty) 0 (replicate 600 7) ex_empty_ok); try done.
  apply (bool_decide_unpack _); by vm_compute.
Defined.

Lemma writei_readi_witness :
  exists d', runs 0 (Some 0%nat) [] (writei 0 (FromKernel (replicate 600 7)) 0 600;; readi 0 ToKernel 0 600)
      (ex_cached ex_empty) (600, replicate 600 7) d' [] /\
    file_of d' 0 = replicate 600 7.
Proof.
  destruct (writei_readi 0 0 0 (ex_cached ex_empty) 0 (replicate 600 7) ex_empty_ok) as (d' & Hr & Hf); try done.
  { apply (bool_decide_unpack _); by vm_compute. }
  exists d'. split; [exact Hr|]. rewrite Hf. by vm_compute.
Defined.
