(* ===== verification/Dirs.v ===== *)
(** * Directories (fs.c: iget, dirlookup, continued)

    [iget] finds the cache entry of an inode or takes a free one;
    [dirlookup] scans the entries of a directory for a name. *)

From S2P Require Import Prelude Params State CString Spinlock Printk Sched Sleeplock Bio Cache Log.
From S2P Require Import Commit Crash Txn Fs Blocks Inodes Files.

(** ** The inode cache *)

(** The entry is in use for the inode. *)
Definition names (dev num : Z) (i : inode) : Prop := 0 < iref i /\ idev i = dev /\ inum i = num.
#[global] Instance names_dec dev num i : Decision (names dev num i).
Proof. unfold names. apply _. Defined.

(** The entry that [iget] returns, and what it does to it *)
Definition iget_choice (dev num : Z) (l : list inode) : option (nat * (inode -> inode)) :=
  match list_find (names dev num) l with
  | Some (k, _) => Some (k, fun i => i <|iref ::= fun n => n + 1|>)
  | None =>
      match list_find (fun i => iref i = 0) l with
      | Some (k, _) => Some (k, fun i => i <|idev := dev|> <|inum := num|> <|iref := 1|> <|ivalid := 0|>)
      | None => None
      end
  end.

Lemma upd_inode_twice i f g d : upd_inode i g (upd_inode i f d) = upd_inode i (fun x => g (f x)) d.
Proof.
  transitivity (d <|icache := alter g i (alter f i (icache d))|>); [done|].
  by rewrite (list_alter_alter_eq g f).
Qed.

Section Iget.
Context (c : nat) (me : option nat) (dev num : Z) (d : data).
Hypothesis Hlen : length (icache d) = NINODE.
Local Abbreviation free := (fun i : inode => iref i = 0).

Lemma names_test i : (0 <? iref i) && (idev i =? dev) && (inum i =? num) = bool_decide (names dev num i).
Proof.
  unfold names. destruct (Z.ltb_spec 0 (iref i)), (Z.eqb_spec (idev i) dev), (Z.eqb_spec (inum i) num);
    symmetry; (apply bool_decide_true || apply bool_decide_false); tauto || lia.
Qed.

(** The scan from slot [k] on: the slots before have been rejected. *)
Lemma runs_iget_scan n : forall k empty,
  (k + n = NINODE)%nat ->
  list_find (names dev num) (take k (icache d)) = None ->
  empty = fst <$> list_find free (take k (icache d)) ->
  match list_find (names dev num) (icache d) with
  | Some (i, _) => runs c me [LIcache] (loop (S n) (iget_round dev num) (k, empty)) d (inl i)
      (upd_inode i (fun i => i <|iref ::= fun n => n + 1|>) d) []
  | None => runs c me [LIcache] (loop (S n) (iget_round dev num) (k, empty)) d
      (inr (fst <$> list_find free (icache d))) d [LIcache]
  end.
Proof.
  induction n as [|n IH]; intros k empty Hk Hn He.
  - assert (take k (icache d) = icache d) as Et by (apply take_ge; lia). rewrite Et in *. rewrite Hn.
    apply runs_loop_stop. unfold iget_round. rewrite bool_decide_false by lia. rewrite He. apply runs_ret.
  - destruct (lookup_lt_is_Some_2 (icache d) k) as [i Hi]; [lia|].
    assert (inodes d k = i) as Ei by (by apply list_lookup_total_correct).
    assert (take (S k) (icache d) = take k (icache d) ++ [i]) as Et by by apply take_S_r.
    destruct (decide (names dev num i)) as [Hc|Hc].
    + assert (list_find (names dev num) (icache d) = Some (k, i)) as ->.
      { apply list_find_Some. split_and!; [done|done|]. intros j y Hj Hlt.
        apply (list_find_None (names dev num)) in Hn. rewrite Forall_lookup in Hn. apply (Hn j).
        by rewrite lookup_take_lt. }
      apply runs_loop_stop. unfold iget_round. rewrite bool_decide_true by lia. rstep. rewrite Ei, names_test, bool_decide_true by done.
      rstep. rstep. apply runs_ret.
    + set (empty' := match empty with Some e => Some e | None => if iref i =? 0 then Some k else None end).
      assert (fst <$> list_find free (take (S k) (icache d)) = empty') as Ef.
      { unfold empty'. rewrite Et, He. destruct (list_find free (take k (icache d))) as [[j y]|] eqn:E.
        - by rewrite (list_find_app_l _ _ _ _ _ E).
        - rewrite (list_find_app_r _ _ _ E). simpl. rewrite length_take.
          destruct (Z.eqb_spec (iref i) 0); [rewrite decide_True by done|rewrite decide_False by done]; simpl; f_equal. lia. }
      assert (list_find (names dev num) (take (S k) (icache d)) = None) as Hn'.
      { rewrite Et, (list_find_app_r _ _ _ Hn). simpl. by rewrite decide_False. }
      specialize (IH (S k) _ ltac:(lia) Hn' (eq_sym Ef)).
      assert (runs c me [LIcache] (iget_round dev num (k, empty)) d (inl (S k, empty')) d [LIcache]) as Hr.
      { unfold iget_round. rewrite bool_decide_true by lia. rstep. rewrite Ei, names_test, bool_decide_false by done.
        cbv zeta. apply runs_ret. }
      destruct (list_find (names dev num) (icache d)) as [[j y]|]; (eapply runs_loop_more; [exact Hr|exact IH]).
Qed.

Lemma runs_iget : LIcache ∉ @nil lockid ->
  match iget_choice dev num (icache d) with
  | Some (i, f) => runs c me [] (iget dev num) d i (upd_inode i f d) []
  | None => panics c me [] (iget dev num) d "iget: no inodes"
  end.
Proof.
  intros HL. pose proof (runs_iget_scan NINODE 0 None eq_refl eq_refl eq_refl) as Hs. unfold iget_choice.
  destruct (list_find (names dev num) (icache d)) as [[i y]|].
  - unfold iget. rstep. eapply runs_bind; [exact Hs|]. apply runs_ret.
  - destruct (list_find free (icache d)) as [[i y]|] eqn:E.
    + unfold iget. rstep. eapply runs_bind; [exact Hs|]. cbn [fmap option_fmap option_map fst].
      do 5 rstep. eapply runs_eq; [apply runs_ret|]. by rewrite !upd_inode_twice.
    + unfold iget. pstep. eapply runs_panics; [exact Hs|]. apply panics_panic.
Qed.
End Iget.

(** ** The entries of a directory *)

Section Dirlookup.
Context `{!DevOps}.
Context (c : nat) (me dp : nat) (nm : list Z).
Local Abbreviation entry d k := (slice (file_of d dp) (DIRENTSIZE * k) DIRENTSIZE).

(** The entry is in use and has the name. *)
Definition entry_is (de : list Z) : bool :=
  negb (de_inum de =? 0) && (namecmp (of_bytes nm) (of_bytes (de_name de)) =? 0).

Lemma peeked_same_file d d' : peeked d me [] d' -> file_of d' dp = file_of d dp.
Proof. intros P. rewrite (peeked_inode _ _ _ _ dp P). apply bytes_at_ext, P. Qed.

Section Lookup.
Context (d : data).
Hypothesis Htx : txn d me [].
Hypothesis Hr : readable d dp.
Hypothesis Hty : itype (inodes d dp) = T_DIR.
Hypothesis Hlen : length (icache d) = NINODE.
Local Abbreviation size := (isize (inodes d dp)).

(** One entry is read; the state may have another cache. *)
Lemma runs_dirent d1 k : peeked d me [] d1 -> 0 <= k -> DIRENTSIZE * k < size ->
  let r := Z.min DIRENTSIZE (size - DIRENTSIZE * k) in
  exists d2, runs c (Some me) [] (readi dp ToKernel (DIRENTSIZE * k) DIRENTSIZE) d1
      (r, slice (file_of d dp) (DIRENTSIZE * k) r) d2 [] /\ peeked d me [] d2.
Proof.
  intros P Hk Hs r. pose proof (peeked_inode _ _ _ _ dp P) as Ei. pose proof (rd_size _ _ Hr) as Hsz.
  assert (MAXFILE * BSIZE < two31) as Hm by done. assert (DIRENTSIZE = 16) as E16 by done.
  destruct (runs_readi c me dp d1 (DIRENTSIZE * k) DIRENTSIZE) as (d2 & R & P2); rewrite ?Ei, ?Hty; try done.
  - apply P.
  - by eapply peeked_readable.
  - lia.
  - unfold two31, two32 in *. lia.
  - exists d2. split; [|by eapply peeked_trans]. rewrite (peeked_same_file _ _ P), Ei in R. exact R.
Qed.

(** An entry that is not the one *)
Lemma runs_lookup_skip d1 k : peeked d me [] d1 -> 0 <= k -> DIRENTSIZE * (k + 1) <= size -> entry_is (entry d k) = false ->
  exists d2, runs c (Some me) [] (dirlookup_round dp nm (DIRENTSIZE * k)) d1 (inl (DIRENTSIZE * (k + 1))) d2 [] /\
    peeked d me [] d2.
Proof.
  intros P Hk Hs He. assert (DIRENTSIZE = 16) as E16 by done. pose proof (rd_size _ _ Hr) as Hsz.
  assert (MAXFILE * BSIZE < two31) as Hm by done.
  destruct (runs_dirent d1 k P Hk) as (d2 & R & P2); [lia|]. exists d2. split; [|done].
  rewrite Z.min_l in R by lia. unfold dirlookup_round. rstep. rewrite (peeked_inode _ _ _ _ dp P).
  rewrite (proj2 (Z.ltb_lt _ _)) by lia. eapply runs_bind; [exact R|]. cbv beta iota.
  rewrite Z.eqb_refl. cbn [negb]. rewrite u32_small by (unfold two31, two32 in *; lia).
  replace (DIRENTSIZE * k + DIRENTSIZE) with (DIRENTSIZE * (k + 1)) by lia.
  unfold entry_is in He. destruct (de_inum _ =? 0); [apply runs_ret|]. cbn [negb andb] in He. rewrite He. apply runs_ret.
Qed.

(** The entries before [k] are skipped. *)
Lemma runs_lookup_to k n : (forall j, 0 <= j < k -> entry_is (entry d j) = false) -> DIRENTSIZE * k <= size ->
  forall j d1, 0 <= j <= k -> peeked d me [] d1 ->
  exists d2, peeked d me [] d2 /\
    (forall b d3, runs c (Some me) [] (loop n (dirlookup_round dp nm) (DIRENTSIZE * k)) d2 b d3 [] ->
       runs c (Some me) [] (loop (Z.to_nat (k - j) + n) (dirlookup_round dp nm) (DIRENTSIZE * j)) d1 b d3 []) /\
    (forall msg, panics c (Some me) [] (loop n (dirlookup_round dp nm) (DIRENTSIZE * k)) d2 msg ->
       panics c (Some me) [] (loop (Z.to_nat (k - j) + n) (dirlookup_round dp nm) (DIRENTSIZE * j)) d1 msg).
Proof.
  intros Hno Hs j d1 Hj. remember (Z.to_nat (k - j)) as m eqn:Em. revert j d1 Hj Em.
  assert (DIRENTSIZE = 16) as E16 by done.
  induction m as [|m IH]; intros j d1 Hj Em P.
  - exists d1. replace j with k by lia. done.
  - destruct (runs_lookup_skip d1 j P) as (d2 & R & P2); [lia|lia|apply Hno; lia|].
    destruct (IH (j + 1) d2) as (d3 & P3 & R3 & X3); [lia|lia|done|]. exists d3. split; [done|]. split.
    + intros b d4 R4. eapply runs_loop_more; [exact R|]. by apply R3.
    + intros msg X4. cbn [Nat.add loop]. eapply runs_panics; [exact R|]. by apply X3.
Qed.

(** Enough rounds for the entries before [k] and one more *)
Lemma lookup_fuel k : 0 <= k -> DIRENTSIZE * k <= size ->
  exists n, (Z.to_nat (size / DIRENTSIZE) + 2)%nat = (Z.to_nat (k - 0) + S n)%nat.
Proof.
  intros Hk Hs. exists (Z.to_nat (size / DIRENTSIZE) + 2 - Z.to_nat k - 1)%nat.
  assert (k <= size / DIRENTSIZE) by (apply Z.div_le_lower_bound; [done|lia]). lia.
Qed.

(** C29: [dirlookup] returns the cache entry and the offset of the first entry
    of the directory that is in use and has the name, as [iget] hands it out;
    without such an entry it returns none, and the disk, the log and the other
    inodes are as before.  A full inode cache and a size that is not a whole
    number of entries make it panic. *)
Theorem dirlookup_finds :
  (forall k, 0 <= k -> DIRENTSIZE * (k + 1) <= size -> entry_is (entry d k) = true ->
     (forall j, 0 <= j < k -> entry_is (entry d j) = false) ->
     exists d1, peeked d me [] d1 /\
       match iget_choice 1 (de_inum (entry d k)) (icache d) with
       | Some (ip, f) =>
           runs c (Some me) [] (dirlookup dp nm) d (Some (ip, DIRENTSIZE * k)) (upd_inode ip f d1) []
       | None => panics c (Some me) [] (dirlookup dp nm) d "iget: no inodes"
       end) /\
  ((forall j, 0 <= j < size / DIRENTSIZE -> entry_is (entry d j) = false) ->
     (size mod DIRENTSIZE = 0 -> exists d1, peeked d me [] d1 /\ runs c (Some me) [] (dirlookup dp nm) d None d1 []) /\
     (size mod DIRENTSIZE <> 0 -> panics c (Some me) [] (dirlookup dp nm) d "dirlookup read")).
Proof.
  pose proof (rd_size _ _ Hr) as Hsz. assert (DIRENTSIZE = 16) as E16 by done. split.
  - intros k Hk Hks He Hno. destruct (lookup_fuel k) as [n En]; [lia|lia|].
    destruct (runs_lookup_to k (S n) Hno ltac:(lia) 0 d) as (d1 & P1 & R1 & X1); [lia|by apply peeked_refl|].
    destruct (runs_dirent d1 k P1) as (d2 & R & P2); [lia|lia|]. rewrite Z.min_l in R by lia.
    exists d2. split; [done|]. apply andb_true_iff in He as [He1%negb_true_iff He2].
    pose proof (runs_iget c (Some me) 1 (de_inum (entry d k)) d2) as Hg.
    rewrite (sr_icache _ _ (pk_rest _ _ _ _ P2)) in Hg. specialize (Hg Hlen (not_elem_of_nil _)).
    destruct (iget_choice 1 _ (icache d)) as [[ip f]|].
    + unfold dirlookup. rstep. rewrite Hty. cbn [Z.eqb negb]. rewrite En. apply R1. apply runs_loop_stop.
      unfold dirlookup_round. rstep. rewrite (peeked_inode _ _ _ _ dp P1), (rd_dev _ _ Hr).
      rewrite (proj2 (Z.ltb_lt _ _)) by lia. eapply runs_bind; [exact R|]. cbv beta iota.
      rewrite Z.eqb_refl, He1, He2. cbn [negb]. eapply runs_bind; [exact Hg|]. apply runs_ret.
    + unfold dirlookup. pstep. rewrite Hty. cbn [Z.eqb negb]. rewrite En. apply X1. cbn [loop]. apply panics_bind.
      unfold dirlookup_round. pstep. rewrite (peeked_inode _ _ _ _ dp P1), (rd_dev _ _ Hr).
      rewrite (proj2 (Z.ltb_lt _ _)) by lia. eapply runs_panics; [exact R|]. cbv beta iota.
      rewrite Z.eqb_refl, He1, He2. cbn [negb]. apply panics_bind. exact Hg.
  - intros Hno. set (k := size / DIRENTSIZE) in *. pose proof (Z.div_mod size DIRENTSIZE ltac:(done)) as Hdm. fold k in Hdm.
    pose proof (Z.mod_pos_bound size DIRENTSIZE eq_refl) as Hmb. assert (0 <= k) as Hk by (unfold k; apply Z.div_pos; lia).
    destruct (lookup_fuel k) as [n En]; [lia|lia|]. fold k in En.
    destruct (runs_lookup_to k (S n) Hno ltac:(lia) 0 d) as (d1 & P1 & R1 & X1); [lia|by apply peeked_refl|]. split.
    + intros Hz. exists d1. split; [done|]. unfold dirlookup. rstep. rewrite Hty. cbn [Z.eqb negb]. fold k. rewrite En.
      apply R1, runs_loop_stop. unfold dirlookup_round. rstep. rewrite (peeked_inode _ _ _ _ dp P1).
      rewrite (proj2 (Z.ltb_ge _ _)) by lia. apply runs_ret.
    + intros Hnz. destruct (runs_dirent d1 k P1) as (d2 & R & P2); [lia|lia|]. rewrite Z.min_r in R by lia.
      unfold dirlookup. pstep. rewrite Hty. cbn [Z.eqb negb]. fold k. rewrite En. apply X1. cbn [loop]. apply panics_bind.
      unfold dirlookup_round. pstep. rewrite (peeked_inode _ _ _ _ dp P1).
      rewrite (proj2 (Z.ltb_lt _ _)) by lia. eapply runs_panics; [exact R|]. cbv beta iota.
      rewrite (proj2 (Z.eqb_neq _ _)) by lia. apply panics_panic.
Qed.
End Lookup.
End Dirlookup.

(** ** A directory with a free entry and one for inode 3 *)

Definition ex_dir : inode := Inode 1 1 1 1 T_DIR 0 0 1 32 (35 :: replicate 12 0).
Definition ex_dir_block : block := set_bytes zero_block 16 [3; 0; 97; 98].
Definition ex_dir_data : data :=
  (ex_data inhabitant 0 (<[35 := ex_dir_block]> ex_disk)) <|sb := Superblock 40 6 8 30 2 32 33|>
    <|icache := ex_dir :: replicate 49 inhabitant|>.

Lemma ex_dir_txn : txn ex_dir_data 0 [].
Proof.
  apply (txn_frame (ex_data inhabitant 0 (<[35 := ex_dir_block]> ex_disk))); try done.
  apply ex_txn_ok; [|by vm_compute]. intros x bl. unfold ex_disk. rewrite !lookup_insert, lookup_singleton.
  repeat case_decide; intros; by simplify_eq.
Qed.
Lemma ex_dir_readable : readable ex_dir_data 0.
Proof.
  assert (inodes ex_dir_data 0 = ex_dir) as Ei by reflexivity.
  split; rewrite ?Ei; try done. intros k H0 Hk. simpl in Hk.
  replace k with 0 by (unfold BSIZE in *; lia). by vm_compute.
Qed.

#[local] Instance no_devs : DevOps := {| dev_read := fun _ => None; dev_write := fun _ => None |}.

Lemma dirlookup_finds_witness :
  exists d1, peeked ex_dir_data 0 [] d1 /\
    runs 0 (Some 0%nat) [] (dirlookup 0 [97; 98; 0]) ex_dir_data (Some (1%nat, 16))
      (upd_inode 1 (fun i => i <|idev := 1|> <|inum := 3|> <|iref := 1|> <|ivalid := 0|>) d1) [].
Proof.
  destruct (proj1 (dirlookup_finds 0 0 0 [97; 98; 0] ex_dir_data ex_dir_txn ex_dir_readable eq_refl eq_refl) 1)
    as (d1 & P & R).
  - lia.
  - by vm_compute.
  - by vm_compute.
  - intros j Hj. replace j with 0 by lia. by vm_compute.
  - exists d1. split; [exact P|].
    assert (de_inum (slice (file_of ex_dir_data 0) (DIRENTSIZE * 1) DIRENTSIZE) = 3) as E by by vm_compute.
    rewrite E in R. exact R.
Defined.
