(* ===== verification/Mkfs.v ===== *)
(** * The file-system builder (mkfs.c)

    mkfs runs on the build host and writes the initial disk image: the super
    block, the root directory and one file per argument.  The host's files
    are the program's input, as the pieces that [read] delivers; the image is
    a map from sector numbers to sectors, which has the sectors written so
    far.  The host's byte order is that of the target. *)

From S2P Require Import Prelude Params State CString Spinlock Printk Sched Sleeplock Bio Cache Log.
From S2P Require Import Commit Crash Txn Fs Blocks Inodes Files.

Definition NINODES : Z := 200.
Definition nbitmap : Z := FSSIZE / (BSIZE * 8) + 1.
Definition ninodeblocks : Z := NINODES / IPB + 1.
Definition nlog : Z := LOGSIZE.
Definition nmeta : Z := 2 + nlog + ninodeblocks + nbitmap.
Definition nblocks : Z := FSSIZE - nmeta.

Record mkfs := Mkfs { image : gmap Z block; freeinode : Z; freeblock : Z }.
#[export] Instance eta_mkfs : Eta mkfs := fun s => Mkfs (image s) (freeinode s) (freeblock s).

Local Abbreviation MK := (M mkfs).

(** The bytes of a number in the target's order, read as a number *)
Definition xshort (x : Z) : Z := get16 (le16 x) 0.
Definition xint (x : Z) : Z := get32 (le32 x) 0.

Definition mksb : superblock :=
  Superblock (xint FSSIZE) (xint nblocks) (xint NINODES) (xint nlog) (xint 2) (xint (2 + nlog))
    (xint (2 + nlog + ninodeblocks)).

(** [assert] aborts the program, a failed read or write ends it. *)
Definition assert_ (b : bool) : MK unit := if b then ret tt else panic "assert".

Definition wsect (sec : Z) (buf : block) : MK unit := modify (fun s => s <|image ::= <[sec := buf]>|>).
Definition rsect (sec : Z) : MK block :=
  o <- gets (fun s => image s !! sec);;
  match o with Some b => ret b | None => stop Exited end.

Definition winode (inum : Z) (ip : dinode) : MK unit :=
  let bn := IBLOCK inum mksb in
  buf <- rsect bn;;
  wsect bn (set_bytes buf (inum mod IPB * DINODESIZE) (encode_dinode ip)).

Definition rinode (inum : Z) : MK dinode :=
  let bn := IBLOCK inum mksb in
  buf <- rsect bn;;
  ret (decode_dinode buf (inum mod IPB)).

Definition mk_ialloc (type : Z) : MK Z :=
  inum <- gets freeinode;;
  modify (fun s => s <|freeinode := u32 (inum + 1)|>);;
  winode inum (Dinode (i16 (xshort type)) 0 0 (i16 (xshort 1)) (xint 0) (replicate 13 0));;
  ret inum.

Definition mk_balloc (used : Z) : MK unit :=
  assert_ (used <? BSIZE * 8);;
  wsect (sb_bmapstart mksb) (foldl (fun buf i => set_bit i buf) zero_block (seqZ 0 used)).

(** [freeblock++] *)
Definition next_block : MK Z :=
  b <- gets freeblock;;
  modify (fun s => s <|freeblock := u32 (b + 1)|>);;
  ret b.

(** The block for [fbn], and the addresses with it *)
Definition append_block (addrs : list Z) (fbn : Z) : MK (list Z * Z) :=
  if fbn <? NDIRECT then
    addrs <- (if xint (addrs !!! Z.to_nat fbn) =? 0 then
                b <- next_block;; ret (<[Z.to_nat fbn := xint b]> addrs)
              else ret addrs);;
    ret (addrs, xint (addrs !!! Z.to_nat fbn))
  else
    addrs <- (if xint (addrs !!! Z.to_nat NDIRECT) =? 0 then
                b <- next_block;; ret (<[Z.to_nat NDIRECT := xint b]> addrs)
              else ret addrs);;
    let ind := xint (addrs !!! Z.to_nat NDIRECT) in
    indirect <- rsect ind;;
    let i := 4 * (fbn - NDIRECT) in
    indirect <- (if get32 indirect i =? 0 then
                   b <- next_block;;
                   let indirect := set32 indirect i (xint b) in
                   wsect ind indirect;;
                   ret indirect
                 else ret indirect);;
    ret (addrs, xint (get32 indirect i)).

Definition iappend_round : Z * Z * list Z * list Z -> MK ((Z * Z * list Z * list Z) + (Z * list Z)) :=
  fun '(n, off, p, addrs) =>
  if 0 <? n then
    let fbn := off / BSIZE in
    assert_ (fbn <? MAXFILE);;
    ' (addrs, x) <- append_block addrs fbn;;
    let n1 := Z.min n ((fbn + 1) * BSIZE - off) in
    buf <- rsect x;;
    wsect x (set_bytes buf (off - fbn * BSIZE) (take (Z.to_nat n1) p));;
    ret (inl (n - n1, u32 (off + n1), drop (Z.to_nat n1) p, addrs))
  else ret (inr (off, addrs)).

Definition iappend (inum : Z) (p : list Z) (n : Z) : MK unit :=
  din <- rinode inum;;
  ' (off, addrs) <- loop (Z.to_nat (n / BSIZE) + 3) iappend_round (n, xint (d_size din), p, d_addrs din);;
  winode inum (Dinode (d_type din) (d_major din) (d_minor din) (d_nlink din) (xint off) addrs).

(** A directory entry for a name given without its terminator *)
Definition mk_dirent (inum : Z) (name : list Z) : list Z :=
  le16 (xshort inum) ++ strncpy (of_bytes (name ++ [0])) DIRSIZ.

(** One argument: the name of a host file and the pieces it is read in *)
Definition mk_file (rootino : Z) (f : list Z * list (list Z)) : MK unit :=
  let '(name, pieces) := f in
  assert_ (negb (bool_decide (SLASH ∈ name)));;
  let name := if bool_decide (head name = Some 95) then tail name else name in
  inum <- mk_ialloc T_FILE;;
  iappend rootino (mk_dirent inum name) DIRENTSIZE;;
  iter pieces (fun buf => iappend inum buf (Z.of_nat (length buf))).

Definition encode_sb (s : superblock) : list Z :=
  le32 (sb_size s) ++ le32 (sb_nblocks s) ++ le32 (sb_ninodes s) ++ le32 (sb_nlog s)
  ++ le32 (sb_logstart s) ++ le32 (sb_inodestart s) ++ le32 (sb_bmapstart s).

Definition mkfs_main (files : list (list Z * list (list Z))) : MK unit :=
  modify (fun s => s <|freeblock := nmeta|>);;
  iter (seqZ 0 FSSIZE) (fun i => wsect i zero_block);;
  wsect 1 (set_bytes zero_block 0 (encode_sb mksb));;
  rootino <- mk_ialloc T_DIR;;
  assert_ (rootino =? ROOTINO);;
  iappend rootino (mk_dirent rootino [46]) DIRENTSIZE;;
  iappend rootino (mk_dirent rootino [46; 46]) DIRENTSIZE;;
  iter files (mk_file rootino);;
  din <- rinode rootino;;
  let off := u32 ((xint (d_size din) / BSIZE + 1) * BSIZE) in
  winode rootino (Dinode (d_type din) (d_major din) (d_minor din) (d_nlink din) (xint off) (d_addrs din));;
  used <- gets freeblock;;
  mk_balloc (i32 used).

(** The program starts with [freeinode] 1 and an empty file. *)
Definition mkfs0 : mkfs := Mkfs ∅ 1 0.

(** ** The image *)

Lemma xint_u32 x : xint x = u32 x.
Proof. exact (get32_le32 x []). Qed.
Lemma xint_small x : 0 <= x < two32 -> xint x = x.
Proof. intros Hx. rewrite xint_u32. by apply u32_small. Qed.

(** Sectors that were not written yet read as zeros here; the program never
    reads one. *)
Definition img (s : mkfs) (y : Z) : block := default zero_block (image s !! y).

Definition img_ok (s : mkfs) : Prop :=
  forall y, 0 <= y < FSSIZE -> exists bl, image s !! y = Some bl /\ length bl = 512%nat.

Lemma img_length s y : img_ok s -> 0 <= y < FSSIZE -> length (img s y) = 512%nat.
Proof. intros Hs Hy. destruct (Hs y Hy) as (bl & E & Hl). unfold img. by rewrite E. Qed.

Lemma does_rsect s y : img_ok s -> 0 <= y < FSSIZE -> does (rsect y) s (img s y) s.
Proof.
  intros Hs Hy. destruct (Hs y Hy) as (bl & E & _). unfold rsect, img. dstep. rewrite E. apply does_ret.
Qed.

Definition put_sect (y : Z) (bl : block) (s : mkfs) : mkfs := s <|image ::= <[y := bl]>|>.
Lemma does_wsect s y bl : does (wsect y bl) s tt (put_sect y bl s).
Proof. apply does_modify. Qed.

Lemma img_put s y bl z : img (put_sect y bl s) z = if decide (z = y) then bl else img s z.
Proof.
  unfold img, put_sect. getset. rewrite lookup_insert. repeat case_decide; congruence || done.
Qed.
Lemma img_ok_put s y bl : img_ok s -> length bl = 512%nat -> img_ok (put_sect y bl s).
Proof.
  intros Hs Hl z Hz. unfold put_sect. getset. rewrite lookup_insert. case_decide; [by exists bl|]. by apply Hs.
Qed.

(** ** The blocks of one file

    mkfs takes blocks in order: the file has exactly the blocks its size needs,
    all of them below [fb]. *)

Definition nblk (size : Z) : Z := (size + BSIZE - 1) / BSIZE + (if NDIRECT * BSIZE <? size then 1 else 0).

Record own (g : Z -> block) (fb : Z) (addrs : list Z) (size : Z) : Prop := {
  ow_len : length addrs = 13%nat;
  ow_size : 0 <= size <= MAXFILE * BSIZE;
  ow_blk : forall k, 0 <= k < MAXFILE -> k * BSIZE < size -> nmeta <= file_block g addrs k < fb;
  ow_end : forall k, 0 <= k < MAXFILE -> size <= k * BSIZE -> file_block g addrs k = 0;
  ow_ind : NDIRECT * BSIZE < size -> nmeta <= addrs !!! Z.to_nat NDIRECT < fb;
  ow_noind : size <= NDIRECT * BSIZE -> addrs !!! Z.to_nat NDIRECT = 0;
  ow_ne : forall k, 0 <= k < MAXFILE -> k * BSIZE < size -> file_block g addrs k <> addrs !!! Z.to_nat NDIRECT;
  ow_inj : forall j k, 0 <= j < MAXFILE -> 0 <= k < MAXFILE -> j * BSIZE < size ->
    file_block g addrs j = file_block g addrs k -> j = k
}.

Definition in_file (g : Z -> block) (addrs : list Z) (size y : Z) : Prop :=
  (exists k, 0 <= k < MAXFILE /\ k * BSIZE < size /\ y = file_block g addrs k) \/
  (NDIRECT * BSIZE < size /\ y = addrs !!! Z.to_nat NDIRECT).

(** The bytes of the last block after the end of the file are zero. *)
Definition pad (g : Z -> block) (addrs : list Z) (size : Z) : Prop :=
  forall x, size <= x -> x / BSIZE * BSIZE < size -> file_byte g addrs x = 0.

(** [bs] has been appended at [off]. *)
Record appended (g : Z -> block) (fb : Z) (addrs : list Z) (off : Z) (bs : list Z)
    (g' : Z -> block) (fb' : Z) (addrs' : list Z) : Prop := {
  ap_own : own g' fb' addrs' (off + Z.of_nat (length bs));
  ap_fb : fb' = fb + (nblk (off + Z.of_nat (length bs)) - nblk off);
  ap_fresh : forall y, fb' <= y -> g' y = g y;
  ap_byte : forall x, 0 <= x < off + Z.of_nat (length bs) -> file_byte g' addrs' x =
    if decide (x < off) then file_byte g addrs x else bs !!! Z.to_nat (x - off);
  ap_frame : forall y, y < fb -> ~ in_file g addrs off y -> g' y = g y;
  ap_new : forall y, in_file g' addrs' (off + Z.of_nat (length bs)) y ->
    in_file g addrs off y \/ fb <= y < fb';
  ap_pad : pad g addrs off -> pad g' addrs' (off + Z.of_nat (length bs))
}.

Lemma nblk_mono a b : 0 <= a <= b -> nblk a <= nblk b.
Proof.
  intros Hab. unfold nblk. assert ((a + BSIZE - 1) / BSIZE <= (b + BSIZE - 1) / BSIZE) by (apply Z.div_le_mono; [done|lia]).
  destruct (Z.ltb_spec (NDIRECT * BSIZE) a), (Z.ltb_spec (NDIRECT * BSIZE) b); lia.
Qed.

Lemma appended_nil g fb addrs off : own g fb addrs off -> appended g fb addrs off [] g fb addrs.
Proof.
  intros O. split; simpl length; rewrite ?Z.add_0_r; try done; try lia; [|by left].
  intros x Hx. by rewrite decide_True by (simpl in Hx; lia).
Qed.

Lemma appended_trans g fb addrs off bs g1 fb1 addrs1 bs2 g2 fb2 addrs2 :
  0 <= off -> appended g fb addrs off bs g1 fb1 addrs1 ->
  appended g1 fb1 addrs1 (off + Z.of_nat (length bs)) bs2 g2 fb2 addrs2 ->
  appended g fb addrs off (bs ++ bs2) g2 fb2 addrs2.
Proof.
  intros H0 [A1 A2 A3 A4 A5 A6 A7] [B1 B2 B3 B4 B5 B6 B7].
  assert (off + Z.of_nat (length bs) + Z.of_nat (length bs2) = off + Z.of_nat (length (bs ++ bs2))) as El
    by (rewrite length_app; lia).
  rewrite El in *.
  pose proof (nblk_mono off (off + Z.of_nat (length bs)) ltac:(lia)).
  pose proof (nblk_mono (off + Z.of_nat (length bs)) (off + Z.of_nat (length (bs ++ bs2))) ltac:(lia)).
  split; try done.
  - lia.
  - intros y Hy. rewrite B3, A3 by lia. done.
  - intros x Hx. rewrite B4 by done. case_decide.
    + rewrite A4 by lia. case_decide; [done|]. rewrite lookup_total_app_l by lia. done.
    + rewrite decide_False by lia. rewrite lookup_total_app_r by lia. f_equal. lia.
  - intros y Hy Hn. rewrite B5; [by apply A5|lia|]. intros [?|?]%A6; [done|lia].
  - intros y [[?|?]%A6|?]%B6; [by left|right; lia|right; lia].
  - auto.
Qed.

Lemma nblk_same s s' : 0 < s -> 0 < s' -> (s - 1) / BSIZE = (s' - 1) / BSIZE -> nblk s' = nblk s.
Proof.
  intros Hs Hs' E. unfold nblk. assert ((s' + BSIZE - 1) / BSIZE = (s + BSIZE - 1) / BSIZE) as ->.
  { unfold BSIZE in *. Z.div_mod_to_equations. lia. }
  destruct (Z.ltb_spec (NDIRECT * BSIZE) s'), (Z.ltb_spec (NDIRECT * BSIZE) s);
    unfold BSIZE in *; Z.div_mod_to_equations; lia.
Qed.
Lemma nblk_next k : nblk (k * BSIZE + 1) - nblk (k * BSIZE) = if k =? NDIRECT then 2 else 1.
Proof.
  unfold nblk. assert ((k * BSIZE + 1 + BSIZE - 1) / BSIZE = (k * BSIZE + BSIZE - 1) / BSIZE + 1) as ->.
  { unfold BSIZE. Z.div_mod_to_equations. lia. }
  destruct (Z.eqb_spec k NDIRECT), (Z.ltb_spec (NDIRECT * BSIZE) (k * BSIZE + 1)),
    (Z.ltb_spec (NDIRECT * BSIZE) (k * BSIZE)); unfold BSIZE, NDIRECT in *; lia.
Qed.

(** The same blocks serve all sizes that end in the same block. *)
Lemma own_size g fb addrs s s' :
  own g fb addrs s -> 0 < s -> 0 < s' <= MAXFILE * BSIZE -> (s - 1) / BSIZE = (s' - 1) / BSIZE ->
  own g fb addrs s' /\ nblk s' = nblk s /\ (forall y, in_file g addrs s' y <-> in_file g addrs s y).
Proof.
  intros [O1 O2 O3 O4 O5 O6 O7 O8] Hs Hs' E.
  assert (forall k, k * BSIZE < s' <-> k * BSIZE < s) as Ek.
  { intros k. unfold BSIZE in *. Z.div_mod_to_equations. lia. }
  assert (forall k, s' <= k * BSIZE <-> s <= k * BSIZE) as Ek' by (intros k; specialize (Ek k); lia).
  split; [|split].
  - split; try done; [lia|..].
    + intros k Hk. rewrite Ek. by apply O3.
    + intros k Hk. rewrite Ek'. by apply O4.
    + rewrite Ek. apply O5.
    + rewrite Ek'. apply O6.
    + intros k Hk. rewrite Ek. by apply O7.
    + intros j k Hj Hk. rewrite Ek. by apply O8.
  - apply nblk_same; [done|lia|done].
  - intros y. unfold in_file. setoid_rewrite Ek. done.
Qed.

(** A block [b] is added at the end of a file whose last block is full. *)
Record added (g : Z -> block) (fb : Z) (addrs : list Z) (k : Z)
    (g1 : Z -> block) (fb1 : Z) (addrs1 : list Z) (b : Z) : Prop := {
  ad_len : length addrs1 = 13%nat;
  ad_blk : forall j, 0 <= j < MAXFILE ->
    file_block g1 addrs1 j = if decide (j = k) then b else file_block g addrs j;
  ad_b : fb <= b < fb1;
  ad_fb : fb1 = fb + (if k =? NDIRECT then 2 else 1);
  ad_ind : addrs1 !!! Z.to_nat NDIRECT = (if k =? NDIRECT then fb else addrs !!! Z.to_nat NDIRECT);
  ad_indb : k = NDIRECT -> b = fb + 1;
  ad_view : forall y, (NDIRECT < k -> y <> addrs !!! Z.to_nat NDIRECT) -> (k = NDIRECT -> y <> fb) -> g1 y = g y
}.

Lemma added_own g fb addrs k g1 fb1 addrs1 b :
  nmeta <= fb -> 0 <= k < MAXFILE -> own g fb addrs (k * BSIZE) -> added g fb addrs k g1 fb1 addrs1 b ->
  own g1 fb1 addrs1 (k * BSIZE + 1) /\ fb1 = fb + (nblk (k * BSIZE + 1) - nblk (k * BSIZE)) /\
  (forall y, in_file g1 addrs1 (k * BSIZE + 1) y -> in_file g addrs (k * BSIZE) y \/ fb <= y < fb1).
Proof.
  intros Hfb Hk [O1 O2 O3 O4 O5 O6 O7 O8] [A1 A2 A3 A4 A5 A6 A7].
  assert (0 < nmeta) as Hpos by done.
  assert (forall j, j * BSIZE < k * BSIZE + 1 <-> j * BSIZE < k * BSIZE \/ j = k) as Ej.
  { intros j. unfold BSIZE. lia. }
  assert (forall j, 0 <= j < MAXFILE -> j * BSIZE < k * BSIZE -> file_block g addrs j < fb) as Hlt.
  { intros j Hj Hjk. destruct (O3 j Hj Hjk). lia. }
  assert (k = NDIRECT \/ k <> NDIRECT /\ (NDIRECT * BSIZE < k * BSIZE <-> NDIRECT < k)) as Hn.
  { unfold BSIZE, NDIRECT. lia. }
  split; [split|split].
  - done.
  - unfold BSIZE, MAXFILE, NINDIRECT, NDIRECT in *. lia.
  - intros j Hj Hjs. rewrite A2 by done. case_decide; [lia|]. apply Ej in Hjs as [Hjs|]; [|done].
    destruct (O3 j Hj Hjs). lia.
  - intros j Hj Hjs. rewrite A2 by done. rewrite decide_False by (intros ->; lia). apply O4; [done|lia].
  - intros Hi. rewrite A5. destruct (Z.eqb_spec k NDIRECT); [lia|].
    destruct O5; [unfold BSIZE, NDIRECT in *; lia|]. lia.
  - intros Hi. rewrite A5. destruct (Z.eqb_spec k NDIRECT); [subst; lia|]. apply O6. lia.
  - intros j Hj Hjs. rewrite A2, A5 by done. case_decide as E.
    + destruct (Z.eqb_spec k NDIRECT) as [E'|]; [rewrite A6 by done; lia|].
      destruct (decide (NDIRECT < k)).
      * destruct O5; [unfold BSIZE; lia|]. lia.
      * rewrite O6 by (unfold BSIZE; lia). lia.
    + apply Ej in Hjs as [Hjs|]; [|done]. specialize (Hlt j Hj Hjs).
      destruct (Z.eqb_spec k NDIRECT); [lia|]. by apply O7.
  - intros i j Hi Hj His. rewrite !A2 by done. repeat case_decide; subst; try done.
    + intros E. destruct (decide (j * BSIZE < k * BSIZE)) as [Hjk|Hjk]; [specialize (Hlt j Hj Hjk); lia|].
      rewrite O4 in E by (done || lia). lia.
    + intros E. apply Ej in His as [His|]; [|done]. specialize (Hlt i Hi His). lia.
    + intros E. apply Ej in His as [His|]; [|done]. by apply O8.
  - by rewrite A4, nblk_next.
  - intros y [(j & Hj & Hjs & ->)|[Hi ->]].
    + rewrite A2 by done. case_decide as E; [right; lia|]. apply Ej in Hjs as [Hjs|]; [|done].
      left; left. by exists j.
    + rewrite A5. destruct (Z.eqb_spec k NDIRECT); [right; lia|]. left; right. split; [|done].
      unfold BSIZE, NDIRECT in *. lia.
Qed.

Lemma meta_bounds : 0 < nmeta < FSSIZE /\ FSSIZE < two31 /\ MAXFILE * BSIZE < two31.
Proof. by vm_compute. Qed.

Lemma xint_addr x : 0 <= x < FSSIZE -> xint x = x.
Proof. intros Hx. apply xint_small. pose proof meta_bounds. unfold two31, two32 in *. lia. Qed.

Lemma does_next_block s : 0 <= freeblock s < FSSIZE ->
  does next_block s (freeblock s) (s <|freeblock := freeblock s + 1|>).
Proof.
  intros Hf. unfold next_block. dstep. eapply does_bind; [apply does_modify|].
  rewrite u32_small by (pose proof meta_bounds; unfold two31, two32 in *; lia). apply does_ret.
Qed.

Section Append.
Context (s : mkfs) (addrs : list Z).
Hypothesis Hok : img_ok s.
Hypothesis Hfb : nmeta <= freeblock s.
Local Abbreviation fb := (freeblock s).

(** The block is there. *)
Lemma does_append_old k size :
  own (img s) fb addrs size -> fb <= FSSIZE -> 0 <= k < MAXFILE -> k * BSIZE < size ->
  does (append_block addrs k) s (addrs, file_block (img s) addrs k) s.
Proof.
  intros O Hle Hk Hks. pose proof meta_bounds as Hm. pose proof (ow_blk _ _ _ _ O k Hk Hks) as Hb.
  unfold append_block. unfold file_block in *. destruct (Z.ltb_spec k NDIRECT).
  - rewrite xint_addr by lia. rewrite (proj2 (Z.eqb_neq _ _)) by lia. dstep. rewrite xint_addr by lia. apply does_ret.
  - destruct (ow_ind _ _ _ _ O) as [I1 I2]; [unfold BSIZE, NDIRECT in *; lia|].
    rewrite xint_addr by lia. rewrite (proj2 (Z.eqb_neq _ _)) in Hb |- * by lia. dstep. rewrite xint_addr by lia. cbv zeta.
    eapply does_bind; [apply does_rsect; [done|lia]|]. rewrite (proj2 (Z.eqb_neq (get32 _ _) _)) by lia.
    dstep. rewrite xint_addr by lia. apply does_ret.
Qed.

Hypothesis Hfresh : forall y, fb <= y -> img s y = zero_block.

(** The first block that an indirect block lists, with the indirect block *)
Lemma append_first k :
  k = NDIRECT -> own (img s) fb addrs (k * BSIZE) -> fb + 2 <= FSSIZE ->
  exists s1 addrs1 b, does (append_block addrs k) s (addrs1, b) s1 /\ img_ok s1 /\
    freeinode s1 = freeinode s /\ added (img s) fb addrs k (img s1) (freeblock s1) addrs1 b.
Proof.
  intros -> O Hle. pose proof meta_bounds as Hm. pose proof (ow_noind _ _ _ _ O ltac:(lia)) as Hi.
  set (addrs1 := <[Z.to_nat NDIRECT := fb]> addrs).
  assert (addrs1 !!! Z.to_nat NDIRECT = fb) as Ei.
  { apply list_lookup_total_insert_eq. rewrite (ow_len _ _ _ _ O). unfold NDIRECT. lia. }
  set (s1 := put_sect fb (set32 zero_block 0 (fb + 1))
    ((s <|freeblock := fb + 1|>) <|freeblock := fb + 1 + 1|>)).
  exists s1, addrs1, (fb + 1). split_and!.
  - unfold append_block. rewrite (proj2 (Z.ltb_ge _ _)) by lia. rewrite Hi. cbn [xint].
    eapply does_bind; [eapply does_bind; [apply does_next_block; lia|]; rewrite xint_addr by lia; apply does_ret|].
    fold addrs1. rewrite Ei, xint_addr by lia. cbv zeta. rewrite Z.sub_diag.
    eapply does_bind; [apply (does_rsect (s <|freeblock := fb + 1|>)); [done|lia]|].
    change (img (s <|freeblock := fb + 1|>) fb) with (img s fb). rewrite Hfresh by lia.
    rewrite get32_zero by lia. cbn [Z.eqb].
    eapply does_bind.
    { eapply does_bind; [apply does_next_block; getset; lia|]. getset. rewrite xint_addr by lia.
      eapply does_bind; [apply does_wsect|]. apply does_ret. }
    rewrite Z.mul_0_r, get32_set32 by (simpl; unfold two31, two32 in *; lia). rewrite xint_addr by lia.
    apply does_ret.
  - apply img_ok_put; [done|]. apply length_set32.
  - done.
  - assert (forall y, img s1 y = if decide (y = fb) then set32 zero_block 0 (fb + 1) else img s y) as Ev.
    { intros y. unfold s1. by rewrite img_put. }
    split; try done.
    + unfold addrs1. rewrite length_insert. apply O.
    + intros j Hj. unfold file_block. rewrite Ei, Hi. cbn [Z.eqb].
      rewrite (proj2 (Z.eqb_neq fb 0)) by lia. rewrite Ev, decide_True by done.
      destruct (Z.ltb_spec j NDIRECT) as [Hlt|Hge].
      * rewrite decide_False by lia. apply list_lookup_total_insert_ne. lia.
      * destruct (ind_offset j) as [J1 J2]; [lia|]. case_decide as E.
        -- rewrite E, Z.sub_diag. apply get32_set32; simpl; unfold two31, two32 in *; lia.
        -- rewrite get32_set32_other by (simpl; lia). by apply get32_zero.
    + change (freeblock s1) with (fb + 1 + 1). lia.
    + change (fb + 1 + 1 = fb + 2). lia.
    + intros y _ Hy. rewrite Ev, decide_False by (by apply Hy). done.
Qed.

(** A block listed in the inode, or in an indirect block that is there *)
Lemma append_next k :
  0 <= k < MAXFILE -> k <> NDIRECT -> own (img s) fb addrs (k * BSIZE) -> fb + 1 <= FSSIZE ->
  exists s1 addrs1 b, does (append_block addrs k) s (addrs1, b) s1 /\ img_ok s1 /\
    freeinode s1 = freeinode s /\ added (img s) fb addrs k (img s1) (freeblock s1) addrs1 b.
Proof.
  intros Hk Hne O Hle. pose proof meta_bounds as Hm. pose proof (ow_end _ _ _ _ O k Hk ltac:(lia)) as Hz.
  set (s' := s <|freeblock := fb + 1|>).
  destruct (decide (k < NDIRECT)) as [Hlt|Hge].
  - exists s', (<[Z.to_nat k := fb]> addrs), fb. split_and!; try done.
    + unfold append_block. rewrite (proj2 (Z.ltb_lt _ _)) by done.
      unfold file_block in Hz. rewrite (proj2 (Z.ltb_lt _ _)) in Hz by done. rewrite Hz. cbn [xint].
      eapply does_bind; [eapply does_bind; [apply does_next_block; lia|]; rewrite xint_addr by lia; apply does_ret|].
      rewrite list_lookup_total_insert_eq by (rewrite (ow_len _ _ _ _ O); unfold NDIRECT in *; lia).
      rewrite xint_addr by lia. apply does_ret.
    + split; rewrite ?(proj2 (Z.eqb_neq _ _) Hne); try done.
      * rewrite length_insert. apply O.
      * intros j Hj. unfold file_block.
        rewrite (list_lookup_total_insert_ne addrs (Z.to_nat k) (Z.to_nat NDIRECT)) by lia.
        destruct (Z.ltb_spec j NDIRECT) as [Hj'|Hj'].
        -- case_decide as E; [rewrite E; apply list_lookup_total_insert_eq; rewrite (ow_len _ _ _ _ O);
             unfold NDIRECT in *; lia|]. apply list_lookup_total_insert_ne. lia.
        -- by rewrite decide_False by lia.
      * change (freeblock s') with (fb + 1). lia.
      * apply list_lookup_total_insert_ne. lia.
  - destruct (ow_ind _ _ _ _ O) as [I1 I2]; [unfold BSIZE, NDIRECT in *; lia|].
    set (ind := addrs !!! Z.to_nat NDIRECT) in *. destruct (ind_offset k) as [K1 K2]; [lia|].
    set (bl := set32 (img s ind) (4 * (k - NDIRECT)) fb).
    assert (length (img s ind) = 512%nat) as Hl by (apply img_length; [done|lia]).
    assert (file_block (img s) addrs k = get32 (img s ind) (4 * (k - NDIRECT))) as Ek.
    { unfold file_block. rewrite (proj2 (Z.ltb_ge _ _)) by lia. fold ind. by rewrite (proj2 (Z.eqb_neq ind 0)) by lia. }
    exists (put_sect ind bl s'), addrs, fb. split_and!.
    + unfold append_block. rewrite (proj2 (Z.ltb_ge _ _)) by lia. fold ind. rewrite xint_addr by lia.
      rewrite (proj2 (Z.eqb_neq ind 0)) by lia. dstep. fold ind. rewrite xint_addr by lia. cbv zeta.
      eapply does_bind; [apply does_rsect; [done|lia]|]. rewrite <- Ek, Hz. cbn [Z.eqb].
      eapply does_bind.
      { eapply does_bind; [apply does_next_block; lia|]. rewrite xint_addr by lia.
        eapply does_bind; [apply does_wsect|]. apply does_ret. }
      rewrite get32_set32 by (unfold two31, two32 in *; lia). rewrite xint_addr by lia. apply does_ret.
    + apply img_ok_put; [done|]. unfold bl. by rewrite length_set32.
    + done.
    + assert (forall y, img (put_sect ind bl s') y = if decide (y = ind) then bl else img s y) as Ev.
      { intros y. by rewrite img_put. }
      split; rewrite ?(proj2 (Z.eqb_neq _ _) Hne); try done.
      * apply O.
      * intros j Hj. unfold file_block. fold ind. rewrite Ev, decide_True by done.
        destruct (Z.ltb_spec j NDIRECT) as [Hj'|Hj']; [by rewrite decide_False by lia|].
        rewrite (proj2 (Z.eqb_neq ind 0)) by lia. destruct (ind_offset j) as [J1 J2]; [lia|]. unfold bl. case_decide as E.
        -- rewrite E. apply get32_set32; unfold two31, two32 in *; lia.
        -- apply get32_set32_other; lia.
      * change (freeblock (put_sect ind bl s')) with (fb + 1). lia.
      * intros y Hy _. rewrite Ev, decide_False; [done|]. apply Hy. lia.
Qed.
End Append.

Lemma zero_block_byte x : zero_block !!! Z.to_nat (x mod BSIZE) = 0.
Proof.
  apply lookup_total_replicate_2. pose proof (Z.mod_pos_bound x BSIZE eq_refl). unfold BSIZE in *. lia.
Qed.

(** A file with room in its last block, or with a new one, ends in a byte that
    is not written yet. *)
Lemma added_appended g fb addrs k g1 fb1 addrs1 b :
  nmeta <= fb -> 0 <= k < MAXFILE -> (forall y, fb <= y -> g y = zero_block) ->
  own g fb addrs (k * BSIZE) -> added g fb addrs k g1 fb1 addrs1 b ->
  appended g fb addrs (k * BSIZE) [file_byte g1 addrs1 (k * BSIZE)] g1 fb1 addrs1.
Proof.
  intros Hfb Hk Hfr O A. destruct (added_own _ _ _ _ _ _ _ _ Hfb Hk O A) as (O1 & E1 & N1).
  destruct A as [A1 A2 A3 A4 A5 A6 A7]. pose proof meta_bounds as Hm. split; simpl length; try done.
  - intros y Hy. apply A7; [intros Hl|lia]. destruct (ow_ind _ _ _ _ O); [unfold BSIZE; lia|]. lia.
  - intros x Hx. case_decide as Hlt; [|replace x with (k * BSIZE) by lia; by rewrite Z.sub_diag].
    assert (0 <= x / BSIZE < MAXFILE /\ x / BSIZE * BSIZE < k * BSIZE) as [Hj Hjk].
    { unfold BSIZE in *. Z.div_mod_to_equations. lia. }
    unfold file_byte. rewrite A2, decide_False by (done || lia). pose proof (ow_blk _ _ _ _ O _ Hj Hjk).
    rewrite A7; [done|intros _; by apply (ow_ne _ _ _ _ O)|lia].
  - intros y Hy Hn. apply A7; [|lia]. intros Hl ->. apply Hn. right. split; [|done]. unfold BSIZE. lia.
  - intros _ x Hx Hxk. assert (x / BSIZE = k) as Ek by (unfold BSIZE in *; Z.div_mod_to_equations; lia).
    unfold file_byte. rewrite Ek, A2, decide_True, A7, Hfr; [apply zero_block_byte|lia|..|done|done].
    + intros Hl. destruct (ow_ind _ _ _ _ O); [unfold BSIZE; lia|]. lia.
    + intros E. rewrite A6 by done. lia.
Qed.

Lemma full_appended g fb addrs off :
  own g fb addrs off -> 0 < off < MAXFILE * BSIZE -> off mod BSIZE <> 0 ->
  appended g fb addrs off [file_byte g addrs off] g fb addrs.
Proof.
  intros O Ho Hm. destruct (own_size g fb addrs off (off + 1) O) as (O1 & E1 & N1); [lia|lia| |].
  { unfold BSIZE in *. Z.div_mod_to_equations. lia. }
  split; simpl length; try done.
  - change (Z.of_nat 1) with 1. lia.
  - intros x Hx. case_decide; [done|]. replace x with off by lia. by rewrite Z.sub_diag.
  - intros y Hy. left. by apply N1.
  - intros P x Hx Hxb. apply P; [lia|]. unfold BSIZE in *. Z.div_mod_to_equations. lia.
Qed.

(** The bytes are stored in the last block. *)
Lemma appended_store g fb addrs off v g1 fb1 addrs1 g2 bs :
  let k := off / BSIZE in let b := file_block g1 addrs1 k in
  appended g fb addrs off [v] g1 fb1 addrs1 -> 0 <= off < MAXFILE * BSIZE ->
  (0 < length bs)%nat -> off mod BSIZE + Z.of_nat (length bs) <= BSIZE -> length (g1 b) = 512%nat ->
  (forall y, g2 y = if decide (y = b) then set_bytes (g1 b) (off mod BSIZE) bs else g1 y) ->
  appended g fb addrs off bs g2 fb1 addrs1.
Proof.
  intros k b [A1 A2 A3 A4 A5 A6 A7] Ho Hbs Hfit Hl Hg. simpl length in *. set (e := off + Z.of_nat (length bs)).
  assert (0 <= k < MAXFILE) as Hk by (by apply offset_block). pose proof (Z.mod_pos_bound off BSIZE eq_refl) as Hmod.
  destruct (own_size g1 fb1 addrs1 (off + Z.of_nat 1) e A1) as (O1 & E1 & N1).
  { lia. }
  { unfold e, BSIZE, MAXFILE, NDIRECT, NINDIRECT in *. Z.div_mod_to_equations. lia. }
  { unfold e, BSIZE in *. Z.div_mod_to_equations. lia. }
  assert (k * BSIZE < e) as Hke by (unfold e, k, BSIZE in *; Z.div_mod_to_equations; lia).
  pose proof (ow_ne _ _ _ _ O1 k Hk Hke) as Hne. fold b in Hne. pose proof (ow_blk _ _ _ _ O1 k Hk Hke) as Hb. fold b in Hb.
  pose proof meta_bounds as Hm.
  assert (forall j, file_block g2 addrs1 j = file_block g1 addrs1 j) as Ej.
  { intros j. unfold file_block. rewrite Hg. destruct (j <? NDIRECT); [done|].
    destruct (Z.eqb_spec (addrs1 !!! Z.to_nat NDIRECT) 0); [done|]. by rewrite decide_False by congruence. }
  assert (forall s y, in_file g2 addrs1 s y <-> in_file g1 addrs1 s y) as En.
  { intros s y. unfold in_file. by setoid_rewrite Ej. }
  split; fold e.
  - destruct O1 as [P1 P2 P3 P4 P5 P6 P7 P8]. split; try done; intros *; rewrite ?Ej; auto.
  - lia.
  - intros y Hy. rewrite Hg, decide_False by lia. by apply A3.
  - intros x Hx. unfold file_byte at 1. rewrite Ej, Hg.
    pose proof (Z.mod_pos_bound x BSIZE eq_refl) as Hmx.
    assert (0 <= x / BSIZE < MAXFILE /\ x / BSIZE * BSIZE < e) as [Hj Hje].
    { unfold e, BSIZE, MAXFILE, NDIRECT, NINDIRECT in *. Z.div_mod_to_equations. lia. }
    destruct (decide (x / BSIZE = k)) as [Ex|Ex].
    + rewrite Ex, decide_True by done. rewrite set_bytes_lookup; [|lia|unfold BSIZE in *; lia|lia].
      assert (x - off = x mod BSIZE - off mod BSIZE) as Ed.
      { rewrite (Z.div_mod x BSIZE), (Z.div_mod off BSIZE) at 1 by done. rewrite Ex. fold k. lia. }
      case_decide; byte_cases; unfold e in *; try lia.
      * rewrite <- (decide_True (P := x < off) (file_byte g addrs x) ([v] !!! Z.to_nat (x - off))) by done.
        rewrite <- A4 by lia. unfold file_byte. by rewrite Ex.
      * by rewrite Ed.
    + rewrite decide_False.
      * assert (x < off) by (unfold e, k, BSIZE in *; Z.div_mod_to_equations; lia).
        fold (file_byte g1 addrs1 x). rewrite A4 by lia. by rewrite !decide_True by done.
      * intros E. apply Ex. by apply (ow_inj _ _ _ _ O1).
  - intros y Hy Hn. rewrite Hg, decide_False; [by apply A5|]. intros ->.
    destruct (A6 b) as [?|?]; [|done|lia]. left. exists k. split; [done|]. split; [|done].
    unfold k, BSIZE in *. Z.div_mod_to_equations. lia.
  - intros y Hy%En. apply A6, N1, Hy.
  - intros P x Hx Hxe. assert (x / BSIZE = k) as Ex by (unfold e, k, BSIZE in *; Z.div_mod_to_equations; lia).
    pose proof (Z.mod_pos_bound x BSIZE eq_refl) as Hmx.
    rewrite <- (A7 P x) by (unfold e in *; lia || (unfold e, k, BSIZE in *; Z.div_mod_to_equations; lia)).
    unfold file_byte. rewrite Ej, Hg, Ex, decide_True by done.
    rewrite set_bytes_lookup; [|lia|unfold BSIZE in *; lia|lia]. byte_cases; try done;
    unfold e, k, BSIZE in *. Z.div_mod_to_equations. lia.
Qed.

Section Iappend.
Context (s : mkfs) (n off : Z) (p addrs : list Z).
Hypothesis Hok : img_ok s.
Hypothesis Hfb : nmeta <= freeblock s.
Hypothesis Hfresh : forall y, freeblock s <= y -> img s y = zero_block.
Hypothesis O : own (img s) (freeblock s) addrs off.
Local Abbreviation n1 := (Z.min n ((off / BSIZE + 1) * BSIZE - off)).

(** A round that appends *)
Lemma does_iappend_round :
  0 < n -> n = Z.of_nat (length p) -> off < MAXFILE * BSIZE ->
  freeblock s + (nblk (off + n1) - nblk off) <= FSSIZE ->
  exists s2 addrs1, does (iappend_round (n, off, p, addrs)) s
      (inl (n - n1, off + n1, drop (Z.to_nat n1) p, addrs1)) s2 /\
    img_ok s2 /\ freeinode s2 = freeinode s /\
    appended (img s) (freeblock s) addrs off (take (Z.to_nat n1) p) (img s2) (freeblock s2) addrs1.
Proof.
  intros Hn Hp Ho Hroom. set (m := n1) in *. assert (m = n1) as Em by done. clearbody m.
  set (k := off / BSIZE) in *. pose proof (ow_size _ _ _ _ O) as Hs.
  assert (0 <= k < MAXFILE) as Hk by (apply offset_block; lia). pose proof meta_bounds as Hm.
  pose proof (Z.mod_pos_bound off BSIZE eq_refl) as Hmod. pose proof (Z.div_mod off BSIZE ltac:(done)) as Hdm. fold k in Hdm.
  assert (0 < m /\ off mod BSIZE + m <= BSIZE) as [Hn1 Hfit] by (unfold BSIZE in *; lia).
  assert (nblk (off + m) = nblk (off + 1)) as En.
  { apply nblk_same; [lia|lia|]. unfold k, BSIZE in *. Z.div_mod_to_equations. lia. }
  assert (exists s1 addrs1, does (append_block addrs k) s (addrs1, file_block (img s1) addrs1 k) s1 /\ img_ok s1 /\
    freeinode s1 = freeinode s /\
    appended (img s) (freeblock s) addrs off [file_byte (img s1) addrs1 off] (img s1) (freeblock s1) addrs1)
    as (s1 & addrs1 & D & Hok1 & Hf1 & A).
  { destruct (decide (off mod BSIZE = 0)) as [E|E].
    - assert (off = k * BSIZE) as Eo by lia.
      assert (nblk (off + 1) - nblk off = if k =? NDIRECT then 2 else 1) as Enx by (rewrite Eo; apply nblk_next).
      rewrite En, Enx in Hroom. assert (own (img s) (freeblock s) addrs (k * BSIZE)) as O' by by rewrite <- Eo.
      assert (exists s1 addrs1 b, does (append_block addrs k) s (addrs1, b) s1 /\ img_ok s1 /\
        freeinode s1 = freeinode s /\ added (img s) (freeblock s) addrs k (img s1) (freeblock s1) addrs1 b)
        as (s1 & addrs1 & b & D & Hok1 & Hf1 & A).
      { destruct (Z.eqb_spec k NDIRECT); [by apply append_first|by apply append_next]. }
      assert (file_block (img s1) addrs1 k = b) as <-.
      { by rewrite (ad_blk _ _ _ _ _ _ _ _ A), decide_True. }
      exists s1, addrs1. split_and!; try done. rewrite Eo. by eapply (added_appended _ _ _ _ _ _ _ _ Hfb).
    - exists s, addrs. split_and!; try done.
      + apply (does_append_old s addrs Hok k off O); [|done|lia].
        pose proof (nblk_mono off (off + m) ltac:(lia)). lia.
      + apply full_appended; [done| |done]. assert (off <> 0) by (intros ->; done). lia. }
  pose proof (ap_own _ _ _ _ _ _ _ _ A) as O1. simpl length in O1. change (Z.of_nat 1) with 1 in O1.
  set (b := file_block (img s1) addrs1 k) in *.
  pose proof (ap_fb _ _ _ _ _ _ _ _ A) as Efb. simpl length in Efb. change (Z.of_nat 1) with 1 in Efb.
  assert (0 <= b < FSSIZE) as Hb by (pose proof (ow_blk _ _ _ _ O1 k Hk ltac:(unfold BSIZE in *; lia)); lia).
  assert (length (take (Z.to_nat m) p) = Z.to_nat m) as Hl by (rewrite length_take; lia).
  exists (put_sect b (set_bytes (img s1 b) (off - k * BSIZE) (take (Z.to_nat m) p)) s1), addrs1. split_and!.
  - unfold iappend_round. rewrite (proj2 (Z.ltb_lt _ _)) by done. cbv zeta. fold k. rewrite <- Em. unfold assert_.
    rewrite (proj2 (Z.ltb_lt _ _)) by lia. dstep. eapply does_bind; [exact D|]. fold b.
    eapply does_bind; [by apply does_rsect|]. eapply does_bind; [apply does_wsect|].
    assert (BSIZE <= 512) by done. rewrite u32_small by (unfold two31, two32 in *; lia). apply does_ret.
  - apply img_ok_put; [done|]. rewrite length_set_bytes. by apply img_length.
  - done.
  - eapply appended_store; [exact A|lia|rewrite Hl; lia|rewrite Hl; lia|by apply img_length|].
    intros y. rewrite img_put. fold k b. replace (off - k * BSIZE) with (off mod BSIZE) by lia. done.
Qed.
End Iappend.

Lemma does_iappend_loop fuel : forall s n off p addrs,
  img_ok s -> nmeta <= freeblock s -> (forall y, freeblock s <= y -> img s y = zero_block) ->
  own (img s) (freeblock s) addrs off -> n = Z.of_nat (length p) -> off + n <= MAXFILE * BSIZE ->
  freeblock s + (nblk (off + n) - nblk off) <= FSSIZE -> (rounds_left off (off + n) < fuel)%nat ->
  exists s2 addrs2, does (loop fuel iappend_round (n, off, p, addrs)) s (off + n, addrs2) s2 /\
    img_ok s2 /\ freeinode s2 = freeinode s /\
    appended (img s) (freeblock s) addrs off p (img s2) (freeblock s2) addrs2.
Proof.
  induction fuel as [|fuel IH]; intros s n off p addrs Hok Hfb Hfr O Hn Hmax Hroom Hf; [lia|].
  pose proof (ow_size _ _ _ _ O) as Hs. destruct (decide (n = 0)) as [E|E].
  - exists s, addrs. replace p with (@nil Z) by (destruct p; [done|simpl in Hn; lia]).
    split_and!; try done; [|by apply appended_nil].
    apply does_loop_stop. unfold iappend_round. rewrite E. cbn [Z.ltb]. rewrite Z.add_0_r. apply does_ret.
  - set (n1 := Z.min n ((off / BSIZE + 1) * BSIZE - off)).
    destruct (rounds_less off (off + n) n1) as [Hn1 Hl]; [lia|lia| |].
    { unfold n1. f_equal; [lia|]. pose proof (Z.div_mod off BSIZE ltac:(done)). lia. }
    pose proof (nblk_mono off (off + n1) ltac:(lia)). pose proof (nblk_mono (off + n1) (off + n) ltac:(lia)).
    destruct (does_iappend_round s n off p addrs) as (s1 & a1 & D1 & Hok1 & Hf1 & A1); try done; [lia|lia|fold n1; lia|].
    fold n1 in D1, A1. pose proof (ap_fb _ _ _ _ _ _ _ _ A1) as Efb.
    assert (length (take (Z.to_nat n1) p) = Z.to_nat n1) as Hl1 by (rewrite length_take; lia).
    assert (off + Z.of_nat (length (take (Z.to_nat n1) p)) = off + n1) as El by (rewrite Hl1; lia).
    pose proof (ap_own _ _ _ _ _ _ _ _ A1) as O1. rewrite El in *.
    destruct (IH s1 (n - n1) (off + n1) (drop (Z.to_nat n1) p) a1) as (s2 & a2 & D2 & Hok2 & Hf2 & A2); try done.
    + lia.
    + intros y Hy. rewrite (ap_fresh _ _ _ _ _ _ _ _ A1) by done. apply Hfr. lia.
    + rewrite length_drop. lia.
    + lia.
    + replace (off + n1 + (n - n1)) with (off + n) by lia. lia.
    + replace (off + n1 + (n - n1)) with (off + n) by lia. lia.
    + replace (off + n1 + (n - n1)) with (off + n) in D2 by lia. exists s2, a2. split_and!; [|done|congruence|].
      * eapply does_loop_more; [exact D1|exact D2].
      * rewrite <- (take_drop (Z.to_nat n1) p). eapply appended_trans; [lia|exact A1|]. by rewrite El.
Qed.

(** ** Other files are not touched *)

Lemma own_frame g fb addrs s g' fb' :
  own g fb addrs s -> fb <= fb' -> (forall y, in_file g addrs s y -> g' y = g y) ->
  own g' fb' addrs s /\ (forall k, 0 <= k < MAXFILE -> file_block g' addrs k = file_block g addrs k) /\
  (forall x, 0 <= x -> x / BSIZE * BSIZE < s -> file_byte g' addrs x = file_byte g addrs x) /\
  (forall y, in_file g' addrs s y <-> in_file g addrs s y).
Proof.
  intros O Hfb Hg.
  assert (forall k, 0 <= k < MAXFILE -> file_block g' addrs k = file_block g addrs k) as Ek.
  { intros k Hk. unfold file_block. destruct (k <? NDIRECT); [done|].
    destruct (Z.eqb_spec (addrs !!! Z.to_nat NDIRECT) 0) as [|Hn]; [done|].
    rewrite Hg; [done|]. right. split; [|done]. destruct (decide (NDIRECT * BSIZE < s)); [done|].
    destruct Hn. apply (ow_noind _ _ _ _ O). lia. }
  destruct O as [O1 O2 O3 O4 O5 O6 O7 O8]. split; [|split; [done|split]].
  - split; try done.
    + intros k Hk Hks. rewrite Ek by done. destruct (O3 k Hk Hks). lia.
    + intros k Hk. rewrite Ek by done. by apply O4.
    + intros Hi. destruct (O5 Hi). lia.
    + intros k Hk. rewrite Ek by done. by apply O7.
    + intros j k Hj Hk. rewrite !Ek by done. by apply O8.
  - intros x Hx Hks. assert (0 <= x / BSIZE < MAXFILE) as Hk.
    { unfold BSIZE in *. Z.div_mod_to_equations. lia. }
    unfold file_byte. rewrite Ek by done. rewrite Hg; [done|]. left. by exists (x / BSIZE).
  - intros y. unfold in_file. split; (intros [(k & Hk & Hks & ->)|?]; [left; exists k|by right]);
      (split; [done|]; split; [done|]); by rewrite Ek.
Qed.

Lemma contents_ext g addrs g' addrs' s :
  (forall x, 0 <= x -> x / BSIZE * BSIZE < s -> file_byte g' addrs' x = file_byte g addrs x) ->
  contents g' addrs' s = contents g addrs s.
Proof.
  intros Hx. apply list_fmap_ext. intros i j [-> Hj]%lookup_seq. apply Hx; [lia|].
  unfold BSIZE in *. Z.div_mod_to_equations. lia.
Qed.

(** ** The whole image *)

Definition inode_of (s : mkfs) (n : Z) : dinode := decode_dinode (img s (IBLOCK n mksb)) (n mod IPB).
Definition inblk (s : mkfs) (n : Z) : Z -> Prop := in_file (img s) (d_addrs (inode_of s n)) (d_size (inode_of s n)).

(** The files so far, by inode: their types and contents *)
Abbreviation mkfiles := (list (Z * list Z)).
Definition blocks_used (fs : mkfiles) : Z := foldr (fun f a => nblk (Z.of_nat (length f.2)) + a) 0 fs.

Record file_at (s : mkfs) (n : Z) (f : Z * list Z) : Prop := {
  fa_type : d_type (inode_of s n) = f.1;
  fa_nlink : d_nlink (inode_of s n) = 1;
  fa_size : d_size (inode_of s n) = Z.of_nat (length f.2);
  fa_ok : dinode_ok (inode_of s n);
  fa_own : own (img s) (freeblock s) (d_addrs (inode_of s n)) (Z.of_nat (length f.2));
  fa_bytes : contents (img s) (d_addrs (inode_of s n)) (Z.of_nat (length f.2)) = f.2;
  fa_pad : pad (img s) (d_addrs (inode_of s n)) (Z.of_nat (length f.2))
}.

Record built (s : mkfs) (fs : mkfiles) : Prop := {
  bt_img : img_ok s;
  bt_free : freeinode s = Z.of_nat (length fs) + 1;
  bt_max : Z.of_nat (length fs) < NINODES;
  bt_fb : freeblock s = nmeta + blocks_used fs;
  bt_fresh : forall y, freeblock s <= y -> img s y = zero_block;
  bt_file : forall i f, fs !! i = Some f -> file_at s (Z.of_nat i + 1) f;
  bt_apart : forall i j y, (i < length fs)%nat -> (j < length fs)%nat -> i <> j ->
    inblk s (Z.of_nat i + 1) y -> inblk s (Z.of_nat j + 1) y -> False;
  bt_none : forall n, n = 0 \/ Z.of_nat (length fs) < n < NINODES -> d_type (inode_of s n) = 0;
  bt_sb : img s 1 = set_bytes zero_block 0 (encode_sb mksb);
  bt_meta : forall y, y <> 1 -> ~ (sb_inodestart mksb <= y < sb_bmapstart mksb) -> y < nmeta -> img s y = zero_block
}.

Lemma iblock_mk n : 0 <= n < NINODES -> IBLOCK n mksb = n / IPB + 32 /\ 32 <= IBLOCK n mksb < 58.
Proof.
  intros Hn. unfold IBLOCK. change (sb_inodestart mksb) with 32. change IPB with 8. unfold NINODES in *.
  assert (0 <= n / 8 < 26) by (Z.div_mod_to_equations; lia). rewrite u32_small by (unfold two32; lia). lia.
Qed.

Definition put_inode (n : Z) (di : dinode) (s : mkfs) : mkfs :=
  put_sect (IBLOCK n mksb) (set_bytes (img s (IBLOCK n mksb)) (n mod IPB * DINODESIZE) (encode_dinode di)) s.

Section Inode.
Context (s : mkfs) (n : Z).
Hypothesis Hok : img_ok s.
Hypothesis Hn : 0 <= n < NINODES.

Lemma iblock_disk : 0 <= IBLOCK n mksb < FSSIZE.
Proof. destruct (iblock_mk n Hn) as [_ H]. change FSSIZE with 1000. lia. Qed.

Lemma does_rinode : does (rinode n) s (inode_of s n) s.
Proof. unfold rinode. eapply does_bind; [apply does_rsect; [done|apply iblock_disk]|]. apply does_ret. Qed.
Lemma does_winode di : does (winode n di) s tt (put_inode n di s).
Proof. unfold winode. eapply does_bind; [apply does_rsect; [done|apply iblock_disk]|]. apply does_wsect. Qed.

Lemma put_inode_ok di : img_ok (put_inode n di s).
Proof. apply img_ok_put; [done|]. rewrite length_set_bytes. apply img_length; [done|apply iblock_disk]. Qed.

Lemma put_inode_img di y : y <> IBLOCK n mksb -> img (put_inode n di s) y = img s y.
Proof. intros Hy. unfold put_inode. by rewrite img_put, decide_False. Qed.

Lemma put_inode_of di m : dinode_ok di -> 0 <= m < NINODES ->
  inode_of (put_inode n di s) m = if decide (m = n) then di else inode_of s m.
Proof.
  intros Hdi Hm. pose proof (img_length s _ Hok iblock_disk) as Hl.
  pose proof (Z.mod_pos_bound n IPB eq_refl) as Hsn. pose proof (Z.mod_pos_bound m IPB eq_refl) as Hsm.
  destruct (iblock_mk n Hn) as [En _], (iblock_mk m Hm) as [Em _].
  unfold inode_of, put_inode. rewrite img_put. case_decide as E.
  - rewrite E. destruct (decide (m = n)) as [->|Hne]; [by apply decode_encode|].
    apply decode_other; [by apply length_encode, dk_len|done|done|lia|].
    intros E'. apply Hne. rewrite (Z.div_mod m IPB), (Z.div_mod n IPB) by done. lia.
  - rewrite decide_False; [done|]. by intros ->.
Qed.
End Inode.

(** A change of one inode and of blocks that belong to no other file *)
Lemma file_at_frame s s' n f :
  0 <= n < NINODES -> file_at s n f -> inode_of s' n = inode_of s n -> freeblock s <= freeblock s' ->
  (forall y, inblk s n y -> img s' y = img s y) -> file_at s' n f /\ (forall y, inblk s' n y <-> inblk s n y).
Proof.
  intros Hn [A1 A2 A3 A4 A5 A6 A7] Ei Hfb Hy. unfold inblk in *. rewrite Ei, A3 in *.
  destruct (own_frame _ _ _ _ (img s') (freeblock s') A5 Hfb Hy) as (O & _ & C & N).
  split; [|done]. split; rewrite ?Ei; try done.
  - by rewrite (contents_ext _ _ _ _ _ C).
  - intros x Hx Hb. rewrite C by (done || lia). by apply A7.
Qed.

Lemma inblk_range s n f y : file_at s n f -> inblk s n y -> nmeta <= y < freeblock s.
Proof.
  intros [A1 A2 A3 A4 A5 A6 A7]. unfold inblk. rewrite A3. intros [(k & Hk & Hks & ->)|[Hi ->]].
  - by apply (ow_blk _ _ _ _ A5).
  - by apply (ow_ind _ _ _ _ A5).
Qed.

Lemma nblk_nonneg n : 0 <= n -> 0 <= nblk n.
Proof. intros Hn. etrans; [|by apply (nblk_mono 0)]. done. Qed.
Lemma blocks_used_app fs gs : blocks_used (fs ++ gs) = blocks_used fs + blocks_used gs.
Proof. induction fs as [|f fs IH]; [done|]. simpl. rewrite IH. lia. Qed.
Lemma blocks_used_nonneg fs : 0 <= blocks_used fs.
Proof. induction fs as [|f fs IH]; [done|]. simpl. pose proof (nblk_nonneg (Z.of_nat (length f.2))). lia. Qed.
Lemma blocks_used_insert fs i ty c p : fs !! i = Some (ty, c) ->
  blocks_used (<[i := (ty, c ++ p)]> fs) =
    blocks_used fs + (nblk (Z.of_nat (length c) + Z.of_nat (length p)) - nblk (Z.of_nat (length c))).
Proof.
  intros Hi. rewrite <- (take_drop_middle _ _ _ Hi) at 2.
  rewrite insert_take_drop by (by eapply lookup_lt_Some). rewrite !blocks_used_app. simpl.
  rewrite length_app, Nat2Z.inj_add. lia.
Qed.

Lemma own_empty g fb : own g fb (replicate 13 0) 0.
Proof.
  split; try done; try (unfold BSIZE, NDIRECT; lia).
  intros k Hk _. apply ex_empty_block. lia.
Qed.

Lemma does_mk_ialloc s fs ty :
  built s fs -> Z.of_nat (length fs) + 1 < NINODES -> 0 <= ty < 32768 ->
  exists s', does (mk_ialloc ty) s (Z.of_nat (length fs) + 1) s' /\ built s' (fs ++ [(ty, [])]).
Proof.
  intros [B1 B2 B3 B4 B5 B6 B7 B8 B9 B10] Hlen Hty. set (n := Z.of_nat (length fs) + 1) in *.
  set (di := Dinode ty 0 0 1 0 (replicate 13 0)). set (s1 := s <|freeinode := n + 1|>).
  assert (dinode_ok di) as Hdi.
  { split; try done; [|by repeat constructor]. simpl. unfold i16. rewrite Z.mod_small; lia. }
  assert (0 <= n < NINODES) as Hn by lia. destruct (iblock_mk n Hn) as [_ Hib]. change nmeta with 59 in *.
  pose proof (put_inode_of s1 n B1 Hn di) as Ei.
  assert (forall y, y <> IBLOCK n mksb -> img (put_inode n di s1) y = img s y) as Ev.
  { intros y Hy. by rewrite put_inode_img. }
  pose proof (blocks_used_nonneg fs) as Hbu.
  exists (put_inode n di s1). split.
  - unfold mk_ialloc. dstep. rewrite B2. fold n. eapply does_bind; [apply does_modify|].
    rewrite u32_small by (unfold NINODES, two32 in *; lia). fold s1.
    assert (i16 (xshort ty) = ty) as ->.
    { unfold xshort, get16, le16, i16. simpl. unfold u8. Z.div_mod_to_equations. lia. }
    eapply does_bind; [by apply does_winode|]. apply does_ret.
  - assert (forall i f, fs !! i = Some f -> file_at (put_inode n di s1) (Z.of_nat i + 1) f /\
      forall y, inblk (put_inode n di s1) (Z.of_nat i + 1) y <-> inblk s (Z.of_nat i + 1) y) as Hold.
    { intros i f Hi. pose proof (lookup_lt_Some _ _ _ Hi). assert (0 <= Z.of_nat i + 1 < NINODES) as Hi' by lia.
      apply file_at_frame; [done|by apply B6|by rewrite Ei, decide_False by (done || lia)|simpl; lia|].
      intros y Hy. apply Ev. pose proof (inblk_range _ _ _ _ (B6 _ _ Hi) Hy). change nmeta with 59 in *. lia. }
    assert (inode_of (put_inode n di s1) n = di) as En by by rewrite Ei, decide_True.
    assert (forall y, ~ inblk (put_inode n di s1) n y) as Hnew.
    { intros y. unfold inblk. rewrite En. change (d_size di) with 0.
      intros [(k & Hk & Hks & _)|[Hi _]]; unfold BSIZE, NDIRECT in *; lia. }
    assert (file_at (put_inode n di s1) n (ty, [])) as Hfn.
    { split; rewrite ?En; try done; [apply own_empty|]. intros x Hx Hb. cbn [length snd] in *.
      unfold BSIZE in *. Z.div_mod_to_equations. lia. }
    split.
    + by apply put_inode_ok.
    + change (freeinode (put_inode n di s1)) with (n + 1). rewrite length_app. simpl. lia.
    + rewrite length_app. simpl. lia.
    + rewrite blocks_used_app. change (blocks_used [(ty, [])]) with 0.
      change (freeblock (put_inode n di s1)) with (freeblock s). rewrite B4. change nmeta with 59. lia.
    + intros y Hy. change (freeblock (put_inode n di s1)) with (freeblock s) in Hy. rewrite Ev by lia. by apply B5.
    + intros i f [Hi|[Hi [Hi0 <-]%list_lookup_singleton_Some]]%lookup_app_Some; [by apply Hold|].
      by replace (Z.of_nat i + 1) with n by lia.
    + assert (forall i y, (i < length (fs ++ [(ty, [])]))%nat -> inblk (put_inode n di s1) (Z.of_nat i + 1) y ->
        (i < length fs)%nat /\ inblk s (Z.of_nat i + 1) y) as Hback.
      { intros i y Hi Hy. rewrite length_app in Hi. simpl in Hi. destruct (decide (i = length fs)) as [->|Hne].
        - by apply Hnew in Hy.
        - destruct (lookup_lt_is_Some_2 fs i) as [f Hf]; [lia|]. split; [lia|]. by apply (proj2 (Hold i f Hf)). }
      intros i j y Hi Hj Hne Hy1 Hy2. apply Hback in Hy1 as [? ?], Hy2 as [? ?]; try done. by apply (B7 i j y).
    + intros m Hm. rewrite length_app in Hm. simpl in Hm. unfold NINODES in *.
      rewrite Ei, decide_False by (done || lia). apply B8. lia.
    + rewrite Ev by lia. done.
    + intros y Y1 Y2 Y3. rewrite Ev; [by apply B10|]. intros ->. apply Y2. by destruct (iblock_mk n Hn).
Qed.

Lemma built_inum s fs j f : built s fs -> fs !! j = Some f -> 0 <= Z.of_nat j + 1 < NINODES.
Proof. intros B Hj%lookup_lt_Some. pose proof (bt_max _ _ B). lia. Qed.

Section AppendFile.
Context (s : mkfs) (fs : mkfiles) (i : nat) (ty : Z) (c p : list Z).
Local Abbreviation n := (Z.of_nat i + 1).
Local Abbreviation fs' := (<[i := (ty, c ++ p)]> fs).
Hypothesis B : built s fs.
Hypothesis Hi : fs !! i = Some (ty, c).
Hypothesis Hmax : Z.of_nat (length c) + Z.of_nat (length p) <= MAXFILE * BSIZE.
Hypothesis Hroom : nmeta + blocks_used fs' <= FSSIZE.

(** The state after the loop and the inode that is written *)
Context (s1 : mkfs) (addrs : list Z).
Local Abbreviation di := (Dinode (d_type (inode_of s n)) (d_major (inode_of s n)) (d_minor (inode_of s n))
  (d_nlink (inode_of s n)) (Z.of_nat (length c) + Z.of_nat (length p)) addrs).
Hypothesis Hok1 : img_ok s1.
Hypothesis Hfi : freeinode s1 = freeinode s.
Hypothesis A : appended (img s) (freeblock s) (d_addrs (inode_of s n)) (Z.of_nat (length c)) p
  (img s1) (freeblock s1) addrs.
Local Abbreviation s2 := (put_inode n di s1).

Lemma append_fb : freeblock s <= freeblock s1 <= FSSIZE.
Proof.
  pose proof (bt_fb _ _ B) as Efb. pose proof (ap_fb _ _ _ _ _ _ _ _ A) as E1.
  rewrite (blocks_used_insert fs i ty c p Hi) in Hroom.
  pose proof (nblk_mono (Z.of_nat (length c)) (Z.of_nat (length c) + Z.of_nat (length p)) ltac:(lia)). lia.
Qed.

Lemma append_meta y : y < nmeta -> img s1 y = img s y.
Proof.
  intros Hy. pose proof (bt_fb _ _ B). pose proof (blocks_used_nonneg fs).
  apply (ap_frame _ _ _ _ _ _ _ _ A); [lia|]. intros Hin.
  pose proof (bt_file _ _ B i _ Hi) as F. pose proof (inblk_range s n _ y F) as Hr. unfold inblk in Hr.
  rewrite (fa_size _ _ _ F) in Hr. apply Hr in Hin. lia.
Qed.

Lemma append_di : dinode_ok di.
Proof.
  pose proof (bt_file _ _ B i _ Hi) as F. destruct (fa_ok _ _ _ F) as [D1 D2 D3 D4 D5 D6 D7].
  pose proof (ap_own _ _ _ _ _ _ _ _ A) as O. pose proof meta_bounds as Hm. pose proof append_fb as Hfb.
  split; try done.
  - apply u32_small. simpl. unfold two31, two32 in *. lia.
  - cbn [d_addrs]. rewrite (ow_len _ _ _ _ O). done.
  - apply Forall_lookup. cbn [d_addrs]. intros k a Hk. apply lookup_lt_Some in Hk as Hlt. rewrite (ow_len _ _ _ _ O) in Hlt.
    assert (0 <= a < FSSIZE) as Ha; [|apply u32_small; unfold two31, two32 in *; lia].
    apply list_lookup_total_correct in Hk. subst a. destruct (decide (k = Z.to_nat NDIRECT)) as [->|Hne].
    + destruct (decide (NDIRECT * BSIZE < Z.of_nat (length c) + Z.of_nat (length p))) as [Hd|Hd].
      * pose proof (ow_ind _ _ _ _ O Hd). lia.
      * rewrite (ow_noind _ _ _ _ O) by lia. done.
    + assert (addrs !!! k = file_block (img s1) addrs (Z.of_nat k)) as ->.
      { unfold file_block. rewrite (proj2 (Z.ltb_lt _ _)) by (unfold NDIRECT in *; lia). by rewrite Nat2Z.id. }
      assert (0 <= Z.of_nat k < MAXFILE) as Hk by (unfold MAXFILE, NDIRECT, NINDIRECT in *; change (BSIZE / 4) with 128; lia).
      destruct (decide (Z.of_nat k * BSIZE < Z.of_nat (length c) + Z.of_nat (length p))) as [Hd|Hd].
      * pose proof (ow_blk _ _ _ _ O _ Hk Hd). lia.
      * rewrite (ow_end _ _ _ _ O _ Hk) by lia. done.
Qed.

Lemma append_inode m : 0 <= m < NINODES -> inode_of s2 m = if decide (m = n) then di else inode_of s m.
Proof.
  intros Hm. pose proof (built_inum s fs i _ B Hi) as Hn.
  rewrite (put_inode_of s1 n Hok1 Hn di m append_di Hm). case_decide; [done|].
  unfold inode_of. rewrite append_meta; [done|]. destruct (iblock_mk m Hm) as [_ ?]. change nmeta with 59. lia.
Qed.
Lemma append_img y : nmeta <= y -> img s2 y = img s1 y.
Proof.
  intros Hy. apply put_inode_img. destruct (iblock_mk n (built_inum s fs i _ B Hi)) as [_ ?]. change nmeta with 59 in *. lia.
Qed.

Lemma append_file : file_at s2 n (ty, c ++ p) /\
  (forall y, inblk s2 n y -> inblk s n y \/ freeblock s <= y).
Proof.
  pose proof (built_inum s fs i _ B Hi) as Hn. pose proof (bt_file _ _ B i _ Hi) as F.
  pose proof (ap_own _ _ _ _ _ _ _ _ A) as O. pose proof (append_inode n Hn) as En. rewrite decide_True in En by done.
  destruct (own_frame _ _ _ _ (img s2) (freeblock s2) O) as (O2 & _ & C2 & N2); [done|..].
  { intros y [(k & Hk & Hks & ->)|[Hd ->]]; apply append_img.
    - by apply (ow_blk _ _ _ _ O).
    - by apply (ow_ind _ _ _ _ O). }
  assert (Z.of_nat (length (c ++ p)) = Z.of_nat (length c) + Z.of_nat (length p)) as El by (rewrite length_app; lia).
  split.
  - split; rewrite ?En; try done; simpl snd; rewrite ?El; try done.
    + apply (fa_type _ _ _ F).
    + apply (fa_nlink _ _ _ F).
    + apply append_di.
    + cbn [d_addrs]. rewrite (contents_ext _ _ _ _ _ C2). apply (list_eq_same_length _ _ (length (c ++ p))); [done| |].
      { unfold contents. rewrite length_bytes_at. lia. }
      intros j x y Hj Hx Hy. unfold contents in Hx. rewrite bytes_at_lookup in Hx by lia. injection Hx as <-.
      rewrite Z.add_0_l, (ap_byte _ _ _ _ _ _ _ _ A) by lia. case_decide as Hlt.
      * rewrite lookup_app_l in Hy by lia. pose proof (fa_bytes _ _ _ F) as Ec. cbn [snd] in Ec.
        rewrite <- Ec in Hy. unfold contents in Hy. rewrite bytes_at_lookup in Hy by lia. by injection Hy as <-.
      * rewrite lookup_app_r in Hy by lia. apply list_lookup_total_correct in Hy. rewrite <- Hy. f_equal. lia.
    + intros x Hx Hb. cbn [d_addrs]. rewrite C2 by (done || lia). apply (ap_pad _ _ _ _ _ _ _ _ A); [|done|done].
      apply (fa_pad _ _ _ F).
  - intros y Hy. unfold inblk in Hy. rewrite En in Hy. apply N2, (ap_new _ _ _ _ _ _ _ _ A) in Hy as [Hy|?]; [left|right; lia].
    unfold inblk. rewrite (fa_size _ _ _ F). exact Hy.
Qed.

Lemma append_other j f : fs !! j = Some f -> j <> i ->
  file_at s2 (Z.of_nat j + 1) f /\ (forall y, inblk s2 (Z.of_nat j + 1) y <-> inblk s (Z.of_nat j + 1) y).
Proof.
  intros Hj Hne. pose proof (built_inum s fs j f B Hj) as Hjn. pose proof (bt_file _ _ B j f Hj) as Fj.
  apply file_at_frame; [done|done|by rewrite append_inode, decide_False by (done || lia)|apply append_fb|].
  intros y Hy. pose proof (inblk_range _ _ _ _ Fj Hy) as Hr. rewrite append_img by lia.
  apply (ap_frame _ _ _ _ _ _ _ _ A); [lia|]. intros Hin.
  apply (bt_apart _ _ B i j y); [by eapply lookup_lt_Some|by eapply lookup_lt_Some|done| |done].
  unfold inblk. by rewrite (fa_size _ _ _ (bt_file _ _ B i _ Hi)).
Qed.

Lemma append_built : built s2 fs'.
Proof.
  pose proof append_fb as Hfb. destruct append_file as [Fi Ni]. pose proof (built_inum s fs i _ B Hi) as Hn.
  assert (i < length fs)%nat as Hil by (by eapply lookup_lt_Some).
  split.
  - by apply put_inode_ok.
  - rewrite length_insert. etrans; [exact Hfi|apply B].
  - rewrite length_insert. apply B.
  - rewrite (blocks_used_insert fs i ty c p Hi). change (freeblock s2) with (freeblock s1).
    rewrite (ap_fb _ _ _ _ _ _ _ _ A), (bt_fb _ _ B). lia.
  - intros y Hy. change (freeblock s2) with (freeblock s1) in Hy. pose proof (bt_fb _ _ B). pose proof (blocks_used_nonneg fs).
    rewrite append_img by lia. rewrite (ap_fresh _ _ _ _ _ _ _ _ A) by done. apply B. lia.
  - intros j f [(<- & <- & _)|[Hne Hj]]%list_lookup_insert_Some; [done|]. by apply append_other.
  - assert (forall j y, (j < length fs')%nat -> inblk s2 (Z.of_nat j + 1) y ->
      inblk s (Z.of_nat j + 1) y \/ (j = i /\ freeblock s <= y)) as Hback.
    { intros j y Hj Hy. rewrite length_insert in Hj. destruct (decide (j = i)) as [->|Hne].
      - apply Ni in Hy as [?|?]; [by left|by right].
      - left. destruct (lookup_lt_is_Some_2 fs j Hj) as [f Hf]. by apply (proj2 (append_other j f Hf Hne)). }
    assert (forall j y, (j < length fs)%nat -> inblk s (Z.of_nat j + 1) y -> y < freeblock s) as Hlt.
    { intros j y Hj Hy. destruct (lookup_lt_is_Some_2 fs j Hj) as [f Hf].
      by apply (inblk_range _ _ _ _ (bt_file _ _ B j f Hf)). }
    intros j k y Hj Hk Hne Hy1 Hy2. pose proof (Hback j y Hj Hy1) as H1. pose proof (Hback k y Hk Hy2) as H2.
    rewrite length_insert in Hj, Hk. destruct H1 as [H1|[-> H1]], H2 as [H2|[-> H2]]; try done.
    + by apply (bt_apart _ _ B j k y).
    + specialize (Hlt j y Hj H1). lia.
    + specialize (Hlt k y Hk H2). lia.
  - intros m Hm. rewrite length_insert in Hm. unfold NINODES in *.
    rewrite append_inode, decide_False by (unfold NINODES; lia). by apply (bt_none _ _ B).
  - unfold put_inode. rewrite img_put, decide_False.
    + rewrite append_meta; [apply B|done].
    + destruct (iblock_mk n Hn) as [_ ?]. lia.
  - intros y Y1 Y2 Y3. unfold put_inode. rewrite img_put, decide_False.
    + rewrite append_meta by done. by apply (bt_meta _ _ B).
    + intros ->. apply Y2. by destruct (iblock_mk n Hn).
Qed.
End AppendFile.

Lemma does_iappend s fs i ty c p :
  built s fs -> fs !! i = Some (ty, c) -> Z.of_nat (length c) + Z.of_nat (length p) <= MAXFILE * BSIZE ->
  nmeta + blocks_used (<[i := (ty, c ++ p)]> fs) <= FSSIZE ->
  exists s', does (iappend (Z.of_nat i + 1) p (Z.of_nat (length p))) s tt s' /\
    built s' (<[i := (ty, c ++ p)]> fs).
Proof.
  intros B Hi Hmax Hroom. pose proof (bt_file _ _ B i _ Hi) as F. pose proof meta_bounds as Hm.
  pose proof (built_inum s fs i _ B Hi) as Hn. pose proof (fa_size _ _ _ F) as Esz. cbn [snd] in Esz.
  pose proof (bt_fb _ _ B) as Efb. pose proof (blocks_used_nonneg fs).
  destruct (does_iappend_loop (Z.to_nat (Z.of_nat (length p) / BSIZE) + 3) s (Z.of_nat (length p))
    (Z.of_nat (length c)) p (d_addrs (inode_of s (Z.of_nat i + 1)))) as (s1 & addrs & D & Hok1 & Hfi & A); try done.
  - apply B.
  - lia.
  - apply B.
  - apply F.
  - rewrite (blocks_used_insert fs i ty c p Hi) in Hroom. lia.
  - unfold rounds_left. case_match; [|lia]. unfold BSIZE. Z.div_mod_to_equations. lia.
  - eexists. split; [|by eapply append_built].
    unfold iappend. eapply does_bind; [apply does_rinode; [apply B|done]|].
    rewrite Esz, xint_small by (unfold two31, two32 in *; lia). eapply does_bind; [exact D|].
    cbv beta iota. rewrite xint_small by (unfold two31, two32 in *; lia). by apply does_winode.
Qed.

(** ** The image that the program builds *)

(** The name that the directory has for a host file *)
Definition image_name (name : list Z) : list Z := if bool_decide (head name = Some 95) then tail name else name.

Fixpoint entries (n : Z) (files : list (list Z * list (list Z))) : list Z :=
  match files with
  | [] => []
  | f :: files => mk_dirent n (image_name f.1) ++ entries (n + 1) files
  end.
Definition dir_of (files : list (list Z * list (list Z))) : list Z :=
  mk_dirent 1 [46] ++ mk_dirent 1 [46; 46] ++ entries 2 files.
Definition file_data (f : list Z * list (list Z)) : Z * list Z := (T_FILE, concat f.2).
Definition laid (files : list (list Z * list (list Z))) : mkfiles := (T_DIR, dir_of files) :: map file_data files.

Lemma length_strncpy_loop n : forall t, length (strncpy_loop n t) = n.
Proof. induction n as [|n IH]; intros t; simpl; [done|]. case_match; simpl; rewrite ?length_replicate, ?IH; done. Qed.
Lemma length_dirent n name : length (mk_dirent n name) = 16%nat.
Proof. unfold mk_dirent. rewrite length_app. unfold strncpy. by rewrite length_strncpy_loop. Qed.
Lemma length_entries files : forall n, length (entries n files) = (16 * length files)%nat.
Proof. induction files as [|f files IH]; intros n; [done|]. cbn [entries length]. rewrite length_app, length_dirent, IH. lia. Qed.

Lemma used_mono fs i ty c p : fs !! i = Some (ty, c) -> blocks_used fs <= blocks_used (<[i := (ty, c ++ p)]> fs).
Proof.
  intros Hi. rewrite (blocks_used_insert fs i ty c p Hi).
  pose proof (nblk_mono (Z.of_nat (length c)) (Z.of_nat (length c) + Z.of_nat (length p)) ltac:(lia)). lia.
Qed.

Lemma does_pieces i ty ps : forall s fs c,
  built s fs -> fs !! i = Some (ty, c) -> Z.of_nat (length (c ++ concat ps)) <= MAXFILE * BSIZE ->
  nmeta + blocks_used (<[i := (ty, c ++ concat ps)]> fs) <= FSSIZE ->
  exists s', does (iter ps (fun buf => iappend (Z.of_nat i + 1) buf (Z.of_nat (length buf)))) s tt s' /\
    built s' (<[i := (ty, c ++ concat ps)]> fs).
Proof.
  induction ps as [|p ps IH]; intros s fs c B Hi Hmax Hroom; simpl concat in *.
  - exists s. split; [apply does_ret|]. by rewrite app_nil_r, list_insert_id.
  - rewrite app_assoc in *. pose proof (lookup_lt_Some _ _ _ Hi) as Hl.
    assert (<[i := (ty, c ++ p)]> fs !! i = Some (ty, c ++ p)) as Hi1 by by apply list_lookup_insert_eq.
    pose proof (used_mono _ _ _ _ (concat ps) Hi1) as Hmono. rewrite list_insert_insert_eq in Hmono.
    destruct (does_iappend s fs i ty c p B Hi) as (s1 & D1 & B1).
    { rewrite !length_app in Hmax. lia. }
    { lia. }
    destruct (IH s1 _ _ B1 Hi1 Hmax) as (s2 & D2 & B2); [by rewrite list_insert_insert_eq|].
    rewrite list_insert_insert_eq in B2. exists s2. split; [|done]. simpl. by eapply does_bind.
Qed.

(** One argument of the program *)
Lemma does_mk_file s d fs f :
  built s ((T_DIR, d) :: fs) -> Z.of_nat (length fs) + 2 < NINODES -> SLASH ∉ f.1 ->
  Z.of_nat (length d) + 16 <= MAXFILE * BSIZE -> Z.of_nat (length (concat f.2)) <= MAXFILE * BSIZE ->
  let fs' := (T_DIR, d ++ mk_dirent (Z.of_nat (length fs) + 2) (image_name f.1)) :: fs ++ [file_data f] in
  nmeta + blocks_used fs' <= FSSIZE ->
  exists s', does (mk_file 1 f) s tt s' /\ built s' fs'.
Proof.
  destruct f as [name ps]. intros B Hlen Hsl Hd Hf fs' Hroom. cbn [fst snd] in *. set (de := mk_dirent _ _) in *.
  destruct (does_mk_ialloc s _ T_FILE B) as (s1 & D1 & B1); [simpl length; lia|done|].
  set (k := S (length fs)).
  assert (blocks_used fs' = blocks_used ((T_DIR, d ++ de) :: fs ++ [(T_FILE, [])]) + nblk (Z.of_nat (length (concat ps)))) as Eu.
  { unfold fs', file_data. simpl. rewrite !blocks_used_app. simpl. change (nblk (Z.of_nat 0)) with 0. lia. }
  pose proof (nblk_nonneg (Z.of_nat (length (concat ps))) ltac:(lia)) as Hnn.
  assert (length de = 16%nat) as Hde by apply length_dirent.
  destruct (does_iappend s1 _ 0 T_DIR d de B1 eq_refl) as (s2 & D2 & B2); [lia|change (nmeta + blocks_used ((T_DIR, d ++ de) :: fs ++ [(T_FILE, [])]) <= FSSIZE); lia|].
  change (built s2 ((T_DIR, d ++ de) :: fs ++ [(T_FILE, [])])) in B2.
  assert (((T_DIR, d ++ de) :: fs ++ [(T_FILE, [])]) !! k = Some (T_FILE, [])) as Hk.
  { unfold k. simpl. by rewrite lookup_app_r, Nat.sub_diag. }
  assert (<[k := (T_FILE, concat ps)]> ((T_DIR, d ++ de) :: fs ++ [(T_FILE, [])]) = fs') as Ek.
  { unfold k. simpl. rewrite insert_app_r_alt, Nat.sub_diag by done. done. }
  destruct (does_pieces k T_FILE ps s2 _ [] B2 Hk) as (s3 & D3 & B3); [done|simpl app; rewrite Ek; done|].
  simpl app in B3. rewrite Ek in B3. exists s3. split; [|done]. simpl length in D1.
  unfold mk_file, assert_. rewrite bool_decide_false by done. cbn [negb]. dstep. fold (image_name name).
  eapply does_bind; [exact D1|]. replace (Z.of_nat (S (length fs)) + 1) with (Z.of_nat (length fs) + 2) by lia. fold de.
  eapply does_bind; [|unfold k in D3; replace (Z.of_nat (S (length fs)) + 1) with (Z.of_nat (length fs) + 2) in D3 by lia; exact D3].
  rewrite Hde in D2. exact D2.
Qed.

Lemma does_mk_files files : forall s d fs,
  built s ((T_DIR, d) :: fs) -> Z.of_nat (length fs) + Z.of_nat (length files) + 1 < NINODES ->
  Forall (fun f => SLASH ∉ f.1 /\ Z.of_nat (length (concat f.2)) <= MAXFILE * BSIZE) files ->
  let fs' := (T_DIR, d ++ entries (Z.of_nat (length fs) + 2) files) :: fs ++ map file_data files in
  Z.of_nat (length d + 16 * length files) <= MAXFILE * BSIZE -> nmeta + blocks_used fs' <= FSSIZE ->
  exists s', does (iter files (mk_file 1)) s tt s' /\ built s' fs'.
Proof.
  induction files as [|f files IH]; intros s d fs B Hlen Hok fs' Hd Hroom.
  - exists s. split; [apply does_ret|]. unfold fs'. simpl. by rewrite !app_nil_r.
  - inversion Hok as [|? ? [Hsl Hf] Hok']; subst. set (de := mk_dirent (Z.of_nat (length fs) + 2) (image_name f.1)).
    assert (fs' = (T_DIR, (d ++ de) ++ entries (Z.of_nat (length (fs ++ [file_data f])) + 2) files)
      :: (fs ++ [file_data f]) ++ map file_data files) as Efs.
    { unfold fs', de. simpl. rewrite length_app, <- !app_assoc. simpl.
      by replace (Z.of_nat (length fs + 1) + 2) with (Z.of_nat (length fs) + 2 + 1) by lia. }
    simpl length in *. assert (length de = 16%nat) as Hde by apply length_dirent.
    destruct (does_mk_file s d fs f B) as (s1 & D1 & B1); [lia|done|lia|done| |].
    { assert (blocks_used ((T_DIR, d ++ de) :: fs ++ [file_data f]) <= blocks_used fs'); [|unfold de in *; lia].
      rewrite Efs. simpl. rewrite !blocks_used_app, (length_app (d ++ de)), Nat2Z.inj_add.
      pose proof (blocks_used_nonneg (map file_data files)).
      pose proof (nblk_mono (Z.of_nat (length (d ++ de))) (Z.of_nat (length (d ++ de)) +
        Z.of_nat (length (entries (Z.of_nat (length (fs ++ [file_data f])) + 2) files))) ltac:(lia)). lia. }
    fold de in B1. destruct (IH s1 (d ++ de) (fs ++ [file_data f]) B1) as (s2 & D2 & B2).
    + rewrite length_app. simpl. lia.
    + done.
    + rewrite length_app. lia.
    + by rewrite <- Efs.
    + rewrite <- Efs in B2. exists s2. split; [|done]. simpl. by eapply does_bind.
Qed.

Lemma does_zeroes l : forall s, exists s', does (iter l (fun i => wsect i zero_block)) s tt s' /\
  freeinode s' = freeinode s /\ freeblock s' = freeblock s /\
  forall y, image s' !! y = if decide (y ∈ l) then Some zero_block else image s !! y.
Proof.
  induction l as [|i l IH]; intros s.
  - exists s. split; [apply does_ret|]. split; [done|]. split; [done|]. intros y. by rewrite decide_False by set_solver.
  - destruct (IH (put_sect i zero_block s)) as (s' & D & E1 & E2 & E3). exists s'.
    split; [simpl; eapply does_bind; [apply does_wsect|exact D]|]. split_and!; try done.
    intros y. rewrite E3. unfold put_sect. getset. rewrite lookup_insert.
    repeat case_decide; set_solver.
Qed.

(** The image with the super block and nothing else *)
Lemma built_none s : freeinode s = 1 -> freeblock s = nmeta ->
  (forall y, image s !! y = if decide (y ∈ seqZ 0 FSSIZE) then Some zero_block else None) ->
  built (put_sect 1 (set_bytes zero_block 0 (encode_sb mksb)) s) [].
Proof.
  intros E1 E2 E3. assert (forall y, img s y = zero_block) as Hz.
  { intros y. unfold img. rewrite E3. by case_decide. }
  split; try done.
  - apply img_ok_put; [|done]. intros y Hy. exists zero_block. split; [|done].
    rewrite E3, decide_True; [done|]. apply elem_of_seqZ. lia.
  - intros y Hy. change (freeblock (put_sect _ _ s)) with (freeblock s) in Hy. rewrite E2 in Hy.
    change nmeta with 59 in Hy. rewrite img_put, decide_False by lia. apply Hz.
  - intros i j y Hi. simpl in Hi. lia.
  - intros n Hn. unfold inode_of. destruct (iblock_mk n) as [_ Hb]; [unfold NINODES in *; simpl in Hn; lia|].
    rewrite img_put, decide_False by lia. rewrite Hz. unfold decode_dinode.
    assert (exists j, n mod IPB = Z.of_nat j /\ (j < 8)%nat) as (j & -> & Hj).
    { exists (Z.to_nat (n mod IPB)). pose proof (Z.mod_pos_bound n IPB eq_refl) as Hm. change IPB with 8 in *. lia. }
    do 8 (destruct j as [|j]; [by vm_compute|]). lia.
  - by rewrite img_put, decide_True.
  - intros y Y1 Y2 Y3. by rewrite img_put, decide_False.
Qed.

Lemma length_bits l : forall bl, length (foldl (fun buf i => set_bit i buf) bl l) = length bl.
Proof. induction l as [|i l IH]; intros bl; [done|]. simpl. by rewrite IH, length_set_bit. Qed.
Lemma bits_set l : forall bl x, length bl = 512%nat -> Forall (fun i => 0 <= i < BPB) l -> 0 <= x < BPB ->
  bit_free (foldl (fun buf i => set_bit i buf) bl l) x = bit_free bl x && negb (bool_decide (x ∈ l)).
Proof.
  induction l as [|i l IH]; intros bl x Hl Hok Hx; simpl.
  - by rewrite andb_true_r.
  - inversion Hok; subst. rewrite IH, bit_free_set by (rewrite ?length_set_bit; done).
    rewrite <- andb_assoc, <- negb_orb, <- bool_decide_or. do 2 f_equal. apply bool_decide_ext. set_solver.
Qed.

(** The root directory: its entries, then zeros up to its size, a multiple of
    the block size *)
Record root_at (s : mkfs) (dir : list Z) : Prop := {
  ra_type : d_type (inode_of s 1) = T_DIR;
  ra_nlink : d_nlink (inode_of s 1) = 1;
  ra_size : d_size (inode_of s 1) = (Z.of_nat (length dir) / BSIZE + 1) * BSIZE;
  ra_own : own (img s) (freeblock s) (d_addrs (inode_of s 1)) (Z.of_nat (length dir));
  ra_bytes : contents (img s) (d_addrs (inode_of s 1)) (Z.of_nat (length dir)) = dir;
  ra_pad : pad (img s) (d_addrs (inode_of s 1)) (Z.of_nat (length dir))
}.

(** What the program leaves in the image *)
Record made (files : list (list Z * list (list Z))) (s : mkfs) : Prop := {
  md_img : img_ok s;
  md_sb : decode_sb (img s 1) = mksb;
  md_log : img s (sb_logstart mksb) = zero_block;
  md_fb : freeblock s = nmeta + blocks_used (laid files);
  md_bitmap : forall b, 0 <= b < FSSIZE -> bit_free (img s (sb_bmapstart mksb)) b = (freeblock s <=? b);
  md_root : root_at s (dir_of files);
  md_file : forall i f, files !! i = Some f -> file_at s (Z.of_nat i + 2) (file_data f);
  md_none : forall n, n = 0 \/ Z.of_nat (length files) + 1 < n < NINODES -> d_type (inode_of s n) = 0;
  md_apart : forall i j y, (i < length files)%nat -> (j < length files)%nat -> i <> j ->
    inblk s (Z.of_nat i + 2) y -> ~ inblk s (Z.of_nat j + 2) y;
  md_apart_root : forall i y, (i < length files)%nat -> inblk s (Z.of_nat i + 2) y ->
    ~ in_file (img s) (d_addrs (inode_of s 1)) (Z.of_nat (length (dir_of files))) y
}.

Section Finish.
Context (files : list (list Z * list (list Z))) (s : mkfs).
Hypothesis B : built s (laid files).
Hypothesis Hroom : nmeta + blocks_used (laid files) <= FSSIZE.
Local Abbreviation din := (inode_of s 1).
Local Abbreviation size := ((Z.of_nat (length (dir_of files)) / BSIZE + 1) * BSIZE).
Local Abbreviation root := (Dinode (d_type din) (d_major din) (d_minor din) (d_nlink din) size (d_addrs din)).
Local Abbreviation bits := (foldl (fun buf i => set_bit i buf) zero_block (seqZ 0 (freeblock s))).
Local Abbreviation s1 := (put_inode 1 root s).
Local Abbreviation s2 := (put_sect (sb_bmapstart mksb) bits s1).

Lemma root_ok : dinode_ok root.
Proof.
  pose proof (bt_file _ _ B 0 _ eq_refl) as F. destruct (fa_ok _ _ _ F) as [D1 D2 D3 D4 D5 D6 D7].
  split; try done. cbn [d_size]. pose proof (ow_size _ _ _ _ (fa_own _ _ _ F)) as Hs. cbn [snd] in Hs.
  pose proof meta_bounds as Hm. apply u32_small. unfold BSIZE, two31, two32 in *. Z.div_mod_to_equations. lia.
Qed.

Lemma finish_img y : y <> IBLOCK 1 mksb -> y <> sb_bmapstart mksb -> img s2 y = img s y.
Proof. intros Hy Hb. rewrite img_put, decide_False by done. by apply put_inode_img. Qed.

Lemma finish_inode m : 0 <= m < NINODES -> inode_of s2 m = if decide (m = 1) then root else inode_of s m.
Proof.
  intros Hm. rewrite <- (put_inode_of s 1 (bt_img _ _ B) ltac:(done) root m root_ok Hm). unfold inode_of.
  rewrite img_put, decide_False; [done|]. destruct (iblock_mk m Hm) as [_ ?]. change (sb_bmapstart mksb) with 58. lia.
Qed.

(** Blocks of files are neither the bitmap nor the root's inode block. *)
Lemma finish_data y : nmeta <= y -> img s2 y = img s y.
Proof.
  intros Hy. change nmeta with 59 in Hy. apply finish_img; [|change (sb_bmapstart mksb) with 58; lia].
  destruct (iblock_mk 1) as [_ ?]; [done|]. lia.
Qed.

Lemma finish_file i f : files !! i = Some f ->
  file_at s2 (Z.of_nat i + 2) (file_data f) /\ (forall y, inblk s2 (Z.of_nat i + 2) y <-> inblk s (Z.of_nat i + 2) y).
Proof.
  intros Hi. assert (laid files !! S i = Some (file_data f)) as Hl by (simpl; by rewrite list_lookup_fmap, Hi).
  pose proof (built_inum s _ _ _ B Hl) as Hn. pose proof (bt_file _ _ B _ _ Hl) as F.
  replace (Z.of_nat (S i) + 1) with (Z.of_nat i + 2) in * by lia.
  apply file_at_frame; [lia|done|rewrite finish_inode, decide_False by lia; done|done|].
  intros y Hy. apply finish_data. by apply (inblk_range _ _ _ _ F).
Qed.

Lemma finish_root : root_at s2 (dir_of files) /\
  (forall y, in_file (img s2) (d_addrs (inode_of s2 1)) (Z.of_nat (length (dir_of files))) y <-> inblk s 1 y).
Proof.
  pose proof (bt_file _ _ B 0 _ eq_refl) as F. change (Z.of_nat 0 + 1) with 1 in F.
  destruct F as [A1 A2 A3 A4 A5 A6 A7]. cbn [fst snd] in *.
  assert (inode_of s2 1 = root) as E by by rewrite finish_inode, decide_True.
  assert (forall y, inblk s 1 y <-> in_file (img s) (d_addrs din) (Z.of_nat (length (dir_of files))) y) as Eb.
  { intros y. unfold inblk. by rewrite A3. }
  destruct (own_frame _ _ _ _ (img s2) (freeblock s2) A5) as (O & _ & C & N); [done|..].
  { intros y Hy%Eb. apply finish_data. by apply (inblk_range s 1 (T_DIR, dir_of files)). }
  rewrite E. cbn [d_addrs]. split; [|intros y; by rewrite Eb, N].
  split; rewrite ?E; cbn [d_type d_nlink d_size d_addrs]; try done.
  - by rewrite (contents_ext _ _ _ _ _ C).
  - intros x Hx Hb. rewrite C by (done || lia). by apply A7.
Qed.

Lemma finish_made : made files s2.
Proof.
  pose proof (bt_fb _ _ B) as Efb. pose proof (blocks_used_nonneg (laid files)) as Hbu. pose proof meta_bounds as Hm.
  assert (length (laid files) = S (length files)) as El by (simpl; by rewrite length_map).
  assert (IBLOCK 1 mksb = 32) as E32 by done. destruct finish_root as [Hroot Hrb].
  assert (forall i, (i < length files)%nat -> exists f, files !! i = Some f) as Hsome by (intros; by apply lookup_lt_is_Some_2).
  split; try done.
  - apply img_ok_put; [apply put_inode_ok; [apply B|done]|]. by rewrite length_bits.
  - rewrite finish_img by done. rewrite (bt_sb _ _ B). by vm_compute.
  - rewrite finish_img by done. apply (bt_meta _ _ B); [done|vm_compute; tauto|done].
  - intros b Hb. rewrite img_put, decide_True by done. rewrite bits_set; [|done| |change BPB with 4096; change FSSIZE with 1000 in Hb; lia].
    + assert (bit_free zero_block b = true) as ->.
      { rewrite bit_free_bit. unfold zero_block. rewrite lookup_total_replicate_2; [by rewrite Z.testbit_0_l|].
        change FSSIZE with 1000 in Hb. Z.div_mod_to_equations. lia. }
      rewrite andb_true_l. change (freeblock s2) with (freeblock s).
      destruct (Z.leb_spec (freeblock s) b); case_bool_decide as Hin; rewrite elem_of_seqZ in Hin; lia || done.
    + apply Forall_forall. intros x Hx%elem_of_seqZ. change FSSIZE with 1000 in *. change BPB with 4096. lia.
  - intros i f Hf. by apply finish_file.
  - intros n Hn. rewrite finish_inode, decide_False by (unfold NINODES in *; lia).
    apply (bt_none _ _ B). rewrite El. lia.
  - intros i j y Hi Hj Hne Hy Hy'. destruct (Hsome i Hi) as [f Hf], (Hsome j Hj) as [f' Hf'].
    apply (finish_file i f Hf) in Hy. apply (finish_file j f' Hf') in Hy'.
    apply (bt_apart _ _ B (S i) (S j) y); [lia|lia|lia|..].
    + by replace (Z.of_nat (S i) + 1) with (Z.of_nat i + 2) by lia.
    + by replace (Z.of_nat (S j) + 1) with (Z.of_nat j + 2) by lia.
  - intros i y Hi Hy Hy'%Hrb. destruct (Hsome i Hi) as [f Hf]. apply (finish_file i f Hf) in Hy.
    apply (bt_apart _ _ B (S i) 0 y); [lia|lia|lia| |done].
    by replace (Z.of_nat (S i) + 1) with (Z.of_nat i + 2) by lia.
Qed.
End Finish.

(** The arguments that fit: plain names, files within the maximum size, enough
    inodes and blocks *)
Record fits (files : list (list Z * list (list Z))) : Prop := {
  ft_inodes : Z.of_nat (length files) + 1 < NINODES;
  ft_files : Forall (fun f => SLASH ∉ f.1 /\ Z.of_nat (length (concat f.2)) <= MAXFILE * BSIZE) files;
  ft_blocks : nmeta + blocks_used (laid files) <= FSSIZE
}.

Lemma does_mkfs_main files : fits files -> exists s, does (mkfs_main files) mkfs0 tt s /\ made files s.
Proof.
  intros [F1 F2 F3]. destruct (does_zeroes (seqZ 0 FSSIZE) (mkfs0 <|freeblock := nmeta|>)) as (z & Dz & E1 & E2 & E3).
  pose proof (built_none z E1 E2 E3) as B0.
  destruct (does_mk_ialloc _ _ T_DIR B0) as (s1 & D1 & B1); [done|done|].
  change (Z.of_nat (length (@nil (Z * list Z))) + 1) with 1 in D1.
  set (e1 := mk_dirent 1 [46]). set (e2 := mk_dirent 1 [46; 46]).
  assert (length e1 = 16%nat /\ length e2 = 16%nat) as [L1 L2] by done.
  destruct (does_iappend s1 _ 0 T_DIR [] e1 B1 eq_refl) as (s2 & D2 & B2); [done|done|].
  destruct (does_iappend s2 _ 0 T_DIR e1 e2 B2 eq_refl) as (s3 & D3 & B3); [done|done|].
  destruct (does_mk_files files s3 (e1 ++ e2) [] B3) as (s4 & D4 & B4); [simpl; lia|done|..].
  { rewrite length_app, L1, L2. unfold NINODES in F1. change (MAXFILE * BSIZE) with 71680. lia. }
  { change (Z.of_nat (length []) + 2) with 2. rewrite <- app_assoc. exact F3. }
  change (Z.of_nat (length []) + 2) with 2 in B4. rewrite <- app_assoc in B4. change (built s4 (laid files)) in B4.
  eexists. split; [|by apply finish_made].
  pose proof (bt_file _ _ B4 0 _ eq_refl) as F. change (Z.of_nat 0 + 1) with 1 in F.
  pose proof (fa_size _ _ _ F) as Esz. cbn [snd] in Esz. pose proof (ow_size _ _ _ _ (fa_own _ _ _ F)) as Hsz.
  cbn [snd] in Hsz. pose proof meta_bounds as Hm. pose proof (bt_fb _ _ B4) as Efb.
  assert (0 <= (Z.of_nat (length (dir_of files)) / BSIZE + 1) * BSIZE < two32) as Hr.
  { unfold BSIZE, two31, two32 in *. Z.div_mod_to_equations. lia. }
  pose proof (blocks_used_nonneg (laid files)) as Hbu.
  unfold mkfs_main. eapply does_bind; [apply does_modify|]. eapply does_bind; [exact Dz|].
  eapply does_bind; [apply does_wsect|]. eapply does_bind; [exact D1|]. eapply does_bind; [apply does_ret|].
  eapply does_bind; [exact D2|]. eapply does_bind; [exact D3|]. eapply does_bind; [exact D4|].
  eapply does_bind; [apply does_rinode; [apply B4|done]|]. rewrite Esz. cbv zeta.
  rewrite (xint_small (Z.of_nat _)) by (unfold two31, two32 in *; lia). rewrite u32_small, xint_small by done.
  eapply does_bind; [apply does_winode; [apply B4|done]|]. dstep.
  change (freeblock (put_inode _ _ s4)) with (freeblock s4). rewrite i32_small by (unfold two31 in *; lia).
  unfold mk_balloc. eapply does_bind; [|apply does_wsect]. unfold assert_.
  rewrite (proj2 (Z.ltb_lt _ _)) by (change FSSIZE with 1000 in *; change (BSIZE * 8) with 4096; lia). apply does_ret.
Qed.

(** C30: mkfs terminates on arguments that fit and leaves a complete file system:
    the kernel's [readsb] decodes the super block that was meant, the log is
    empty, the bitmap marks exactly the blocks below the first free one, the
    root directory lists the files under their names in order, inode [i + 2] is
    a regular file with the bytes of the [i]-th argument, no block belongs to
    two files and all other inodes are free. *)
Theorem mkfs_image files : fits files -> exists s, does (mkfs_main files) mkfs0 tt s /\ made files s.
Proof. apply does_mkfs_main. Qed.

Definition ex_files : list (list Z * list (list Z)) :=
  [([95; 99; 97; 116], [replicate 512 1; replicate 300 2]); ([82; 69; 65; 68; 77; 69], [[120; 121]])].
Lemma ex_files_fit : fits ex_files.
Proof.
  split; [done| |by vm_compute]. apply (bool_decide_unpack _). by vm_compute.
Qed.

Lemma mkfs_image_witness : exists s, does (mkfs_main ex_files) mkfs0 tt s /\ made ex_files s.
Proof. apply mkfs_image, ex_files_fit. Defined.
