(* ===== verification/Mount.v ===== *)
(** * A kernel on a fresh image

    The image that mkfs builds is a file system that the kernel's code accepts:
    it has the shape that the allocator, the inode layer and [writei] rely on,
    and [ilock] and [readi] deliver the host's files. *)

From S2P Require Import Prelude Params State CString Spinlock Printk Sched Sleeplock Bio Cache Log.
From S2P Require Import Commit Crash Txn Fs Blocks Inodes Files Mkfs.

(** The kernel's cached view of the disk is the image; [initlog] has read the
    super block. *)
Record mounted (s : mkfs) (d : data) : Prop := {
  mt_sb : sb d = decode_sb (img s 1);
  mt_view : forall y, 0 <= y < FSSIZE -> view d y = img s y;
  mt_disk : FSSIZE <= disksize d < two31;
  mt_start : l_start (log d) = sb_logstart (sb d);
  mt_lsize : l_size (log d) = sb_nlog (sb d)
}.

Section Mount.
Context (files : list (list Z * list (list Z))) (s : mkfs) (d : data).
Hypothesis Hfit : fits files.
Hypothesis Hs : made files s.
Hypothesis Hd : mounted s d.

Lemma mount_sb : sb d = mksb.
Proof. by rewrite (mt_sb _ _ Hd), (md_sb _ _ Hs). Qed.

Lemma mount_used b : 0 <= b < FSSIZE -> used d b <-> b < freeblock s.
Proof.
  intros Hb. unfold used. rewrite mount_sb. unfold BBLOCK. change FSSIZE with 1000 in Hb.
  rewrite Z.div_small, Z.mod_small by (change BPB with 4096; lia). change (u32 (0 + sb_bmapstart mksb)) with (sb_bmapstart mksb).
  rewrite (mt_view _ _ Hd) by done. rewrite (md_bitmap _ _ Hs) by done. rewrite Z.leb_gt. done.
Qed.

Lemma mount_log b : in_log (log d) b <-> 2 <= b < 32.
Proof.
  unfold in_log. rewrite (mt_start _ _ Hd), (mt_lsize _ _ Hd), mount_sb.
  change (sb_logstart mksb) with 2. change (sb_nlog mksb) with 30. lia.
Qed.

Lemma mount_free : nmeta <= freeblock s <= FSSIZE.
Proof. rewrite (md_fb _ _ Hs). pose proof (blocks_used_nonneg (laid files)). pose proof (ft_blocks _ Hfit). lia. Qed.

Lemma mount_BBLOCK b : 0 <= b < FSSIZE -> BBLOCK b mksb = 58.
Proof. intros Hb. unfold BBLOCK. change FSSIZE with 1000 in Hb. rewrite Z.div_small by (change BPB with 4096; lia). done. Qed.

Lemma mount_wf : fs_wf d.
Proof.
  pose proof mount_free as Hf. pose proof (mt_disk _ _ Hd) as Hdisk. change nmeta with 59 in *. change FSSIZE with 1000 in *.
  split.
  - split; rewrite mount_sb; change (sb_size mksb) with 1000; try done.
    + lia.
    + change (sb_bmapstart mksb + 1000 / BPB) with 58. lia.
    + intros b Hb. rewrite mount_BBLOCK by done. rewrite mount_log. lia.
    + intros b Hb Hm. apply mount_used; [done|]. destruct Hm as [Hl|(x & Hx & ->)].
      * apply mount_log in Hl. lia.
      * rewrite mount_BBLOCK by done. lia.
  - split; rewrite mount_sb; try done.
    + change (sb_inodestart mksb + sb_ninodes mksb / IPB) with 57. lia.
    + intros n Hn. destruct (iblock_mk n Hn) as [_ ?]. rewrite mount_log. lia.
  - by rewrite mount_sb.
  - apply mount_used; [done|lia].
  - rewrite mount_sb. intros n Hn. destruct (iblock_mk n Hn) as [_ Hb].
    split; [change (sb_size mksb) with 1000; lia|]. split; [apply mount_used; [change FSSIZE with 1000|]; lia|].
    change (sb_bmapstart mksb) with 58. lia.
Qed.

Section File.
Context (i : nat) (f : list Z * list (list Z)).
Hypothesis Hi : files !! i = Some f.
Local Abbreviation n := (Z.of_nat i + 2).
Local Abbreviation size := (Z.of_nat (length (concat f.2))).

Lemma mount_num : 0 <= n < sb_ninodes (sb d).
Proof.
  rewrite mount_sb. change (sb_ninodes mksb) with NINODES. apply lookup_lt_Some in Hi.
  pose proof (ft_inodes _ Hfit). lia.
Qed.

Lemma mount_inode : on_disk d n = inode_of s n.
Proof.
  pose proof mount_num as Hn. rewrite mount_sb in Hn. unfold on_disk, inode_of. rewrite mount_sb.
  destruct (iblock_mk n Hn) as [_ ?]. rewrite (mt_view _ _ Hd); [done|]. change FSSIZE with 1000. lia.
Qed.

Lemma mount_own d' : (forall y, view d' y = view d y) ->
  own (view d') (freeblock s) (d_addrs (inode_of s n)) size /\
  contents (view d') (d_addrs (inode_of s n)) size = concat f.2.
Proof.
  intros Hv. pose proof (md_file _ _ Hs i f Hi) as F. pose proof mount_free as Hf. pose proof meta_bounds as Hm.
  destruct (own_frame _ _ _ _ (view d') (freeblock s) (fa_own _ _ _ F)) as (O & _ & C & _); [done|..].
  - intros y Hy. rewrite Hv, (mt_view _ _ Hd); [done|].
    assert (inblk s n y) as Hy' by (unfold inblk; by rewrite (fa_size _ _ _ F)).
    pose proof (inblk_range _ _ _ _ F Hy'). lia.
  - split; [done|]. etrans; [apply (contents_ext _ _ _ _ _ C)|]. apply (fa_bytes _ _ _ F).
Qed.
End File.
End Mount.

Section Read.
Context `{!DevOps}.
Context (c : nat) (me : nat) (files : list (list Z * list (list Z))) (d : data).

(** C31: a kernel that comes up on the image of mkfs has a well-formed file
    system, and reading works from end to end: for the [i]-th argument of mkfs
    [ilock] on a fresh cache entry for inode [i + 2] and [readi] deliver the
    bytes of the host's file. *)
Theorem mkfs_readi s : fits files -> does (mkfs_main files) mkfs0 tt s -> mounted s d -> txn d me [] ->
  fs_wf d /\
  forall i f ip off n, files !! i = Some f -> (ip < length (icache d))%nat ->
    idev (inodes d ip) = 1 -> inum (inodes d ip) = Z.of_nat i + 2 -> 1 <= iref (inodes d ip) ->
    ivalid (inodes d ip) = 0 -> s_locked (sl d (SInode ip)) = 0 ->
    0 <= off <= Z.of_nat (length (concat f.2)) -> 0 <= n -> off + n < two32 ->
    let k := Z.min n (Z.of_nat (length (concat f.2)) - off) in
    exists d', runs c (Some me) [] (ilock (Some ip);; readi ip ToKernel off n) d (k, slice (concat f.2) off k) d' [] /\
      txn d' me [] /\ forall y, view d' y = view d y.
Proof.
  intros Hfit D Hd Htx. assert (made files s) as Hs.
  { destruct (does_mkfs_main files Hfit) as (s' & D' & Hs). by rewrite (does_fun _ _ _ _ _ _ D D'). }
  pose proof (mount_wf files s d Hfit Hs Hd) as W. split; [done|].
  intros i f ip off n Hi Hlt Hdev Hnum Href Hval Hl Ho Hn Hw k.
  pose proof (md_file _ _ Hs i f Hi) as F. pose proof (mount_inode files s d Hfit Hs Hd i f Hi) as Eo.
  pose proof (mount_num files s d Hfit Hs Hd i f Hi) as Hnr. rewrite <- Hnum in Eo, Hnr.
  destruct (runs_ilock_load c me ip d Htx (fw_inodes _ W) Hdev Hnr Hlt Href Hl Hval)
    as (d1 & R1 & T1 & Ei & _ & V1 & _ & _ & Ed).
  { rewrite Eo, Hnum, (fa_type _ _ _ F). done. }
  rewrite Eo, Hnum in Ei. destruct (mount_own files s d Hfit Hs Hd i f Hi d1 V1) as [O C].
  assert (isize (inodes d1 ip) = Z.of_nat (length (concat f.2))) as Esz.
  { rewrite Ei. apply (fa_size _ _ _ F). }
  assert (iaddrs (inodes d1 ip) = d_addrs (inode_of s (Z.of_nat i + 2))) as Ea by by rewrite Ei.
  pose proof (mt_disk _ _ Hd) as Hdk. pose proof (mount_free files s Hfit Hs) as Hf. pose proof meta_bounds as Hm.
  assert (readable d1 ip) as Hr.
  { split; rewrite ?Esz, ?Ea, ?Ed.
    - by rewrite Ei.
    - apply O.
    - intros j Hj Hjs. assert (0 <= j < MAXFILE) as Hjm by (pose proof (ow_size _ _ _ _ O); unfold BSIZE in *; lia).
      pose proof (ow_blk _ _ _ _ O j Hjm Hjs). lia.
    - intros Hd'. pose proof (ow_ind _ _ _ _ O Hd'). lia. }
  destruct (runs_readi c me ip d1 off n T1 Hr) as (d2 & R2 & P2); rewrite ?Esz; try done.
  { rewrite Ei. change (itype _) with (d_type (inode_of s (Z.of_nat i + 2))). by rewrite (fa_type _ _ _ F). }
  exists d2. split_and!.
  - eapply runs_bind; [exact R1|]. rewrite Esz, Ea, C in R2. exact R2.
  - apply P2.
  - intros y. by rewrite (pk_view _ _ _ _ P2), V1.
Qed.
End Read.

(** ** A kernel with an empty cache on an image *)

Definition ex_mount (i : inode) (s : mkfs) : data :=
  (ex_data inhabitant 0 (filter (fun p => 0 <= p.1 < FSSIZE) (image s)))
    <|sb := decode_sb (img s 1)|> <|icache := i :: replicate 49 inhabitant|>.

Lemma ex_mount_disk i s y : 0 <= y < FSSIZE -> disk_block (ex_mount i s) y = img s y.
Proof.
  intros Hy. unfold disk_block, img. f_equal. change (disk (ex_mount i s)) with (filter (fun p => 0 <= p.1 < FSSIZE) (image s)).
  rewrite map_lookup_filter. destruct (image s !! y); simpl; [|done]. by rewrite option_guard_True.
Qed.

Lemma ex_mounted i files s : made files s -> mounted s (ex_mount i s).
Proof.
  intros Hs. split; try done.
  - intros y Hy. rewrite <- (ex_mount_disk i s y Hy). unfold view.
    destruct (list_find _ _) as [[j b]|] eqn:E; [|done]. apply list_find_Some in E as (Hj & [Hdev _] & _).
    apply lookup_seq in Hj as [-> Hj]. rewrite Nat.add_0_l in Hdev.
    change (bufs (ex_mount i s) j) with (bufs (ex_data inhabitant 0 (filter (fun p => 0 <= p.1 < FSSIZE) (image s))) j) in Hdev.
    destruct j as [|j]; [done|]. by rewrite ex_other in Hdev by lia.
  - change (sb (ex_mount i s)) with (decode_sb (img s 1)). by rewrite (md_sb _ _ Hs).
  - change (sb (ex_mount i s)) with (decode_sb (img s 1)). by rewrite (md_sb _ _ Hs).
Qed.

Lemma ex_mount_txn i files s : made files s -> txn (ex_mount i s) 0 [].
Proof.
  intros Hs. apply (txn_frame (ex_data inhabitant 0 (filter (fun p => 0 <= p.1 < FSSIZE) (image s)))); try done.
  apply ex_txn_ok.
  - intros x bl [Hx Hr]%map_lookup_filter_Some. destruct (md_img _ _ Hs x Hr) as (bl' & E & Hl).
    by simplify_eq.
  - change (head_n (disk_block (ex_mount i s) 2) = 0). rewrite ex_mount_disk by done.
    change 2 with (sb_logstart mksb). by rewrite (md_log _ _ Hs).
Qed.

#[local] Instance no_devices : DevOps := {| dev_read := fun _ => None; dev_write := fun _ => None |}.

Lemma mkfs_readi_witness :
  exists s, does (mkfs_main ex_files) mkfs0 tt s /\
    let d := ex_mount (Inode 1 2 1 0 0 0 0 0 0 (replicate 13 0)) s in
    fs_wf d /\
    exists d', runs 0 (Some 0%nat) [] (ilock (Some 0%nat);; readi 0 ToKernel 510 4) d (4, [1; 1; 2; 2]) d' [].
Proof.
  destruct (does_mkfs_main ex_files ex_files_fit) as (s & D & Hs). exists s. split; [exact D|]. intros d.
  destruct (mkfs_readi 0 0 ex_files d s ex_files_fit D (ex_mounted _ _ _ Hs) (ex_mount_txn _ _ _ Hs)) as [W R].
  split; [exact W|].
  destruct (R 0%nat ([95; 99; 97; 116], [replicate 512 1; replicate 300 2]) 0%nat 510 4 eq_refl) as (d' & R' & _);
    [change (0 < 50)%nat; lia|reflexivity..|by vm_compute|done|done|].
  change (Z.min 4 _) with 4 in R'. change (slice _ 510 4) with [1; 1; 2; 2] in R'. exists d'. exact R'.
Defined.
