(* ===== verification/Pipe.v ===== *)
(** * Pipes (pipe.c)

    A pipe is a 512-byte ring in a page of its own; readers and writers copy
    chunks of it to and from user memory.  [pipealloc] is in [File]. *)

From S2P Require Import Prelude Params State CString Spinlock Sched Kalloc Vm Usercopy.

Definition pipe_at (d : data) (p : Z) : pipe := pipes d !!! p.
Definition get_pipe (p : Z) : K pipe := getd (fun d => pipe_at d p).
Definition upd_pipe (p : Z) (f : pipe -> pipe) (d : data) : data :=
  d <|pipes ::= fun m => <[p := f (m !!! p)]> m|>.
Definition set_pipe (p : Z) (f : pipe -> pipe) : K unit := setd (upd_pipe p f).

(** The page goes back to the allocator and the pipe in it is gone. *)
Definition pipe_free (p : Z) : K unit :=
  setd (fun d => d <|pipes ::= delete p|>);;
  kfree p.

Definition pipeclose (p : Z) (wr : Z) : K unit :=
  acquire (LPipe p);;
  (if negb (wr =? 0) then
     set_pipe p (fun x => x <|writeopen := 0|>);;
     wakeup (CPipeR p)
   else
     set_pipe p (fun x => x <|readopen := 0|>);;
     wakeup (CPipeW p));;
  x <- get_pipe p;;
  if (readopen x =? 0) && (writeopen x =? 0) then
    release (LPipe p);;
    pipe_free p
  else release (LPipe p).

(** [bytes] split at the end of the ring, for a transfer that starts at
    position [pos]. *)
Definition chunks (pos bytes : Z) : Z * Z :=
  let chunk1 := if PIPESIZE - pos mod PIPESIZE <? u32 bytes
                then PIPESIZE - pos mod PIPESIZE else bytes in
  (chunk1, bytes - chunk1).

(** [while(p->nwrite == p->nread + PIPESIZE)]: [false] when the call fails. *)
Definition pipewrite_wait (p : Z) (_ : unit) : K (unit + bool) :=
  x <- get_pipe p;;
  if nwrite x =? u32 (nread x + PIPESIZE) then
    i <- curproc;; pr <- get_proc i;;
    if (readopen x =? 0) || negb (killed pr =? 0) then
      release (LPipe p);; ret (inr false)
    else
      wakeup (CPipeR p);;
      sleep (CPipeW p) (LPipe p);;
      ret (inl tt)
  else ret (inr true).

Definition ring_store (p off : Z) (bs : list Z) : K unit :=
  set_pipe p (fun x => x <|pdata ::= fun l => set_bytes l off bs|>).

(** One transfer of [pipewrite], with [i] bytes written before it. *)
Definition pipewrite_put (p addr n i : Z) : K (Z + Z) :=
  x <- get_pipe p;;
  let bytes := i32 (Z.min (u32 (nread x + PIPESIZE - nwrite x)) (u32 (n - i))) in
  let '(chunk1, chunk2) := chunks (nwrite x) bytes in
  ok1 <- (if chunk1 =? 0 then ret true
          else copy_from_user (ring_store p (nwrite x mod PIPESIZE)) (u32 (addr + i)) chunk1);;
  if negb ok1 then release (LPipe p);; ret (inr (-1)) else
  ok2 <- (if chunk2 =? 0 then ret true
          else copy_from_user (ring_store p 0) (u32 (addr + i + chunk1)) chunk2);;
  if negb ok2 then release (LPipe p);; ret (inr (-1)) else
  set_pipe p (fun x => x <|nwrite ::= fun w => u32 (w + bytes)|>);;
  ret (inl (i + bytes)).

(** One round of the [for] loop of [pipewrite]. *)
Definition pipewrite_body (p addr n : Z) (i : Z) : K (Z + Z) :=
  if i <? n then
    ok <- retry (pipewrite_wait p);;
    if negb ok then ret (inr (-1)) else pipewrite_put p addr n i
  else
    wakeup (CPipeR p);;
    release (LPipe p);;
    ret (inr n).

(** Every round but the last transfers a byte at least. *)
Definition pipewrite (p addr n : Z) : K Z :=
  acquire (LPipe p);;
  loop (Z.to_nat n + 1) (pipewrite_body p addr n) 0.

Definition piperead_wait (p : Z) (_ : unit) : K (unit + bool) :=
  x <- get_pipe p;;
  if (nread x =? nwrite x) && negb (writeopen x =? 0) then
    i <- curproc;; pr <- get_proc i;;
    if negb (killed pr =? 0) then release (LPipe p);; ret (inr false)
    else
      sleep (CPipeR p) (LPipe p);;
      ret (inl tt)
  else ret (inr true).

Definition ring_slice (l : list Z) (off n : Z) : list Z :=
  take (Z.to_nat n) (drop (Z.to_nat off) l).

Definition piperead_get (p addr n : Z) : K Z :=
  x <- get_pipe p;;
  let bytes := i32 (Z.min (u32 (nwrite x - nread x)) (u32 n)) in
  let '(chunk1, chunk2) := chunks (nread x) bytes in
  ok1 <- (if chunk1 =? 0 then ret true
          else copy_to_user addr (ring_slice (pdata x) (nread x mod PIPESIZE) chunk1));;
  if negb ok1 then release (LPipe p);; ret (-1) else
  ok2 <- (if chunk2 =? 0 then ret true
          else copy_to_user (u32 (addr + chunk1)) (ring_slice (pdata x) 0 chunk2));;
  if negb ok2 then release (LPipe p);; ret (-1) else
  set_pipe p (fun x => x <|nread ::= fun r => u32 (r + bytes)|>);;
  wakeup (CPipeW p);;
  release (LPipe p);;
  ret bytes.

Definition piperead (p addr n : Z) : K Z :=
  acquire (LPipe p);;
  ok <- retry (piperead_wait p);;
  if negb ok then ret (-1) else piperead_get p addr n.

(** ** The ring as a queue of bytes *)

Record pipe_is (x : pipe) (q : list Z) : Prop := {
  pi_len : length (pdata x) = Z.to_nat PIPESIZE;
  pi_count : Z.of_nat (length q) <= PIPESIZE;
  pi_read : 0 <= nread x < two32;
  pi_write : nwrite x = u32 (nread x + Z.of_nat (length q));
  pi_data : forall i b, q !! i = Some b ->
    pdata x !!! Z.to_nat ((nread x + Z.of_nat i) mod PIPESIZE) = b
}.

Lemma u32_pipe z : u32 z mod PIPESIZE = z mod PIPESIZE.
Proof.
  unfold u32, PIPESIZE, two32. apply Z.mod_mod_divide. by exists 8388608.
Qed.

Section Ring.
Context (x : pipe) (q : list Z).
Hypothesis Hq : pipe_is x q.

Lemma pipe_room : u32 (nread x + PIPESIZE - nwrite x) = PIPESIZE - Z.of_nat (length q).
Proof.
  destruct Hq. rewrite pi_write0. unfold u32, PIPESIZE, two32 in *. Z.div_mod_to_equations. lia.
Qed.

Lemma pipe_used : u32 (nwrite x - nread x) = Z.of_nat (length q).
Proof.
  destruct Hq. rewrite pi_write0. unfold u32, PIPESIZE, two32 in *. Z.div_mod_to_equations. lia.
Qed.

Lemma pipe_full : nwrite x = u32 (nread x + PIPESIZE) <-> Z.of_nat (length q) = PIPESIZE.
Proof.
  destruct Hq. rewrite pi_write0. unfold u32, PIPESIZE, two32 in *. Z.div_mod_to_equations. lia.
Qed.

Lemma pipe_empty : nread x = nwrite x <-> q = [].
Proof.
  destruct Hq. rewrite pi_write0, <- length_zero_iff_nil.
  unfold u32, PIPESIZE, two32 in *. Z.div_mod_to_equations. lia.
Qed.

(** The two chunks of a transfer of [k] bytes at position [pos] *)
Lemma chunks_spec pos k :
  0 <= k <= PIPESIZE ->
  exists c1, chunks pos k = (c1, k - c1) /\ 0 <= c1 <= k /\ pos mod PIPESIZE + c1 <= PIPESIZE /\
    (c1 = k \/ pos mod PIPESIZE + c1 = PIPESIZE).
Proof.
  intros Hk. unfold chunks. rewrite (u32_small k) by (unfold PIPESIZE, two32 in *; lia).
  pose proof (Z.mod_pos_bound pos PIPESIZE eq_refl).
  destruct (Z.ltb_spec (PIPESIZE - pos mod PIPESIZE) k).
  - exists (PIPESIZE - pos mod PIPESIZE). split; [done|]. lia.
  - exists k. split; [done|]. lia.
Qed.

(** Writing [bs] behind the queue *)
Lemma ring_write bs c1 :
  let k := Z.of_nat (length bs) in let pos := nwrite x mod PIPESIZE in
  Z.of_nat (length q) + k <= PIPESIZE -> 0 <= c1 <= k -> pos + c1 <= PIPESIZE ->
  (c1 = k \/ pos + c1 = PIPESIZE) ->
  pipe_is (x <|pdata ::= fun l => set_bytes (set_bytes l pos (take (Z.to_nat c1) bs)) 0
                                     (drop (Z.to_nat c1) bs)|>
             <|nwrite ::= fun w => u32 (w + k)|>) (q ++ bs).
Proof.
  intros k pos Hk Hc Hp Hc'. destruct Hq as [Q1 Q2 Q3 Q4 Q5].
  assert (pos = (nread x + Z.of_nat (length q)) mod PIPESIZE) as Epos by (unfold pos; by rewrite Q4, u32_pipe).
  assert (0 <= pos < PIPESIZE) as Hpos by (rewrite Epos; by apply Z.mod_pos_bound).
  assert (length (take (Z.to_nat c1) bs) = Z.to_nat c1) as L1 by (rewrite length_take; lia).
  assert (length (drop (Z.to_nat c1) bs) = Z.to_nat (k - c1)) as L2 by (rewrite length_drop; lia).
  split; getset.
  - by rewrite !length_set_bytes.
  - rewrite length_app. lia.
  - done.
  - rewrite Q4, length_app. unfold u32. rewrite Zplus_mod_idemp_l. f_equal. lia.
  - intros i b Hb. set (y := (nread x + Z.of_nat i) mod PIPESIZE).
    assert (0 <= y < PIPESIZE) as Hy by (by apply Z.mod_pos_bound).
    rewrite set_bytes_lookup by (rewrite ?length_set_bytes, ?L2, ?Q1; unfold PIPESIZE in *; lia).
    rewrite set_bytes_lookup by (rewrite ?L1, ?Q1; unfold PIPESIZE in *; lia). rewrite L1, L2.
    apply lookup_app_Some in Hb as [Hb|[Hi Hb]].
    + apply lookup_lt_Some in Hb as Hlt. rewrite <- (Q5 i b Hb). fold y.
      assert (~ (pos <= y < pos + c1) /\ ~ (0 <= y < k - c1)) as [N1 N2].
      { unfold PIPESIZE in *. subst y. Z.div_mod_to_equations. lia. }
      byte_cases; done || lia.
    + apply lookup_lt_Some in Hb as Hlt. set (j := (i - length q)%nat) in *.
      destruct (Z.ltb_spec (Z.of_nat j) c1) as [Hj|Hj].
      * assert (y = pos + Z.of_nat j) as Ey.
        { unfold PIPESIZE in *. subst y. Z.div_mod_to_equations. lia. }
        byte_cases; try lia.
        apply list_lookup_total_correct. rewrite lookup_take_lt by lia.
        by replace (Z.to_nat (y - pos)) with j by lia.
      * assert (y = Z.of_nat j - c1) as Ey.
        { unfold PIPESIZE in *. subst y. Z.div_mod_to_equations. lia. }
        byte_cases; try lia.
        apply list_lookup_total_correct. rewrite lookup_drop.
        by replace (Z.to_nat c1 + Z.to_nat (y - 0))%nat with j by lia.
Qed.

Lemma length_slice l off n :
  0 <= off -> 0 <= n -> off + n <= Z.of_nat (length l) -> length (ring_slice l off n) = Z.to_nat n.
Proof. intros. unfold ring_slice. rewrite length_take, length_drop. lia. Qed.

Lemma slice_lookup l off n i :
  0 <= off -> Z.of_nat i < n -> off + n <= Z.of_nat (length l) ->
  ring_slice l off n !! i = Some (l !!! Z.to_nat (off + Z.of_nat i)).
Proof.
  intros H0 Hi Hl. unfold ring_slice. rewrite lookup_take_lt, lookup_drop by lia.
  replace (Z.to_nat off + i)%nat with (Z.to_nat (off + Z.of_nat i)) by lia.
  apply list_lookup_lookup_total_lt. lia.
Qed.

(** Reading the first [k] bytes of the queue *)
Lemma ring_read k c1 :
  let pos := nread x mod PIPESIZE in
  0 <= k <= Z.of_nat (length q) -> 0 <= c1 <= k -> pos + c1 <= PIPESIZE ->
  (c1 = k \/ pos + c1 = PIPESIZE) ->
  ring_slice (pdata x) pos c1 = take (Z.to_nat c1) q /\
  ring_slice (pdata x) 0 (k - c1) = take (Z.to_nat (k - c1)) (drop (Z.to_nat c1) q) /\
  pipe_is (x <|nread ::= fun r => u32 (r + k)|>) (drop (Z.to_nat k) q).
Proof.
  intros pos Hk Hc Hp Hc'. destruct Hq as [Q1 Q2 Q3 Q4 Q5].
  assert (0 <= pos < PIPESIZE) as Hpos by by apply Z.mod_pos_bound.
  assert (Z.of_nat (length (pdata x)) = PIPESIZE) as El by (rewrite Q1; done).
  split_and!; [..|split; getset].
  - apply (list_eq_same_length _ _ (Z.to_nat c1)); [rewrite length_take; lia|apply length_slice; lia|].
    intros i a b Hi Ha Hb. rewrite slice_lookup in Ha by lia. rewrite lookup_take_lt in Hb by done.
    rewrite <- (Q5 i b Hb) in *. injection Ha as <-. do 2 f_equal.
    unfold pos, PIPESIZE in *. Z.div_mod_to_equations. lia.
  - apply (list_eq_same_length _ _ (Z.to_nat (k - c1)));
      [rewrite length_take, length_drop; lia|apply length_slice; lia|].
    intros i a b Hi Ha Hb. rewrite slice_lookup in Ha by lia.
    rewrite lookup_take_lt, lookup_drop in Hb by done.
    rewrite <- (Q5 _ b Hb) in *. injection Ha as <-. do 2 f_equal.
    unfold pos, PIPESIZE in *. Z.div_mod_to_equations. lia.
  - done.
  - rewrite length_drop. lia.
  - apply u32_range.
  - rewrite Q4, length_drop. unfold u32. rewrite Zplus_mod_idemp_l. f_equal. lia.
  - intros i b Hb. rewrite lookup_drop in Hb. rewrite <- (Q5 _ b Hb). do 2 f_equal.
    rewrite <- Zplus_mod_idemp_l, u32_pipe, Zplus_mod_idemp_l. f_equal. lia.
Qed.
End Ring.

(** ** Reading and writing *)

Lemma pipe_at_upd p f d : pipe_at (upd_pipe p f d) p = f (pipe_at d p).
Proof. unfold pipe_at, upd_pipe. getset. by rewrite lookup_total_insert_eq. Qed.
Lemma upd_pipe_compose p f g d : upd_pipe p g (upd_pipe p f d) = upd_pipe p (fun x => g (f x)) d.
Proof.
  unfold upd_pipe, upd. f_equal. cbn. by rewrite lookup_total_insert_eq, insert_insert_eq.
Qed.

Lemma upd_pipe_ext p f g d : f (pipe_at d p) = g (pipe_at d p) -> upd_pipe p f d = upd_pipe p g d.
Proof. intros E. unfold upd_pipe, upd. f_equal. cbn. unfold pipe_at in E. by rewrite E. Qed.

Section Ops.
Context (i g : nat) (p : Z).

(** Thread [i] of the process led by [g] uses the pipe [p], which holds [q]. *)
Record pstate (d : data) (q : list Z) : Prop := {
  ps_table : table_ok d;
  ps_i : (i < NPROC)%nat;
  ps_leader : process (procs d i) = Some g;
  ps_maps : maps_user d (sz (procs d g));
  ps_pipe : pipe_is (pipe_at d p) q
}.

Lemma pstate_upd d q f q' :
  pstate d q -> pipe_is (f (pipe_at d p)) q' -> pstate (upd_pipe p f d) q'.
Proof.
  intros [P1 P2 P3 P4 P5] H. split; try done; [|by rewrite pipe_at_upd].
  change (sz (procs (upd_pipe p f d) g)) with (sz (procs d g)). destruct P4. by split.
Qed.

Lemma runs_get_pipe c L d : runs c (Some i) L (get_pipe p) d (pipe_at d p) d L.
Proof. exact (runs_getd c (Some i) L (fun d => pipe_at d p) d). Qed.

Lemma runs_ring_store c L d off bs :
  runs c (Some i) L (ring_store p off bs) d tt
    (upd_pipe p (fun x => x <|pdata ::= fun l => set_bytes l off bs|>) d) L.
Proof. apply runs_setd. Qed.

Lemma runs_put d q addr n j :
  pstate d q -> Z.of_nat (length q) < PIPESIZE -> 0 <= j < n -> n < two31 ->
  0 <= addr -> addr + n <= sz (procs d g) ->
  let k := Z.min (PIPESIZE - Z.of_nat (length q)) (n - j) in
  exists f, (forall c, runs c (Some i) [LPipe p] (pipewrite_put p addr n j) d (inl (j + k))
                    (upd_pipe p f d) [LPipe p]) /\
    pipe_is (f (pipe_at d p)) (q ++ user_bytes d (addr + j) (Z.to_nat k)) /\
    readopen (f (pipe_at d p)) = readopen (pipe_at d p).
Proof.
  intros [P1 P2 P3 P4 P5] Hq Hj Hn Ha Hs k. pose proof (mu_size _ _ P4) as Hsz.
  set (x := pipe_at d p) in *. assert (0 < k <= PIPESIZE) as Hk by (unfold k; lia).
  destruct (chunks_spec (nwrite x) k) as (c1 & Ec & C1 & C2 & C3); [lia|].
  pose proof (Z.mod_pos_bound (nwrite x) PIPESIZE eq_refl) as Hpos.
  set (bs := user_bytes d (addr + j) (Z.to_nat k)).
  assert (Z.of_nat (length bs) = k) as Lb by (unfold bs; rewrite length_user_bytes; lia).
  assert (bs = user_bytes d (addr + j) (Z.to_nat c1) ++
               user_bytes d (addr + j + c1) (Z.to_nat (k - c1))) as Eb.
  { unfold bs. replace (Z.to_nat k) with (Z.to_nat c1 + Z.to_nat (k - c1))%nat by lia.
    rewrite user_bytes_app. by rewrite Z2Nat.id by lia. }
  assert (take (Z.to_nat c1) bs = user_bytes d (addr + j) (Z.to_nat c1)) as E1.
  { rewrite Eb, take_app_le, take_ge; rewrite ?length_user_bytes; done || lia. }
  assert (drop (Z.to_nat c1) bs = user_bytes d (addr + j + c1) (Z.to_nat (k - c1))) as E2.
  { rewrite Eb, drop_app_ge, length_user_bytes, Nat.sub_diag by (rewrite length_user_bytes; lia). done. }
  pose proof (ring_write x q P5 bs c1) as Hw. cbv zeta in Hw. rewrite Lb, E1, E2 in Hw.
  eexists (fun y => y <|pdata ::= fun l => set_bytes (set_bytes l (nwrite x mod PIPESIZE) _) 0 _|>
    <|nwrite ::= fun w => u32 (w + k)|>).
  split; [|split; [apply Hw; unfold k in *; lia|done]]. intros c. unfold pipewrite_put.
  eapply runs_bind; [apply runs_get_pipe|]. fold x.
  rewrite (pipe_room x q P5), (u32_small (n - j)) by (unfold two31, two32 in *; lia). fold k.
  rewrite i32_small by (unfold two31, PIPESIZE in *; lia). rewrite Ec.
  rewrite (u32_small (addr + j)), (u32_small (addr + j + c1)) by lia.
  assert (0 < c1) as Hc1 by lia. rewrite (proj2 (Z.eqb_neq _ _)) by lia.
  eapply runs_bind.
  { eapply (runs_copy_from_user c i g [LPipe p] d); [set_solver|done|done|lia|lia|unfold k in *; lia|].
    apply runs_ring_store. }
  cbn [negb]. set (d1 := upd_pipe p _ d).
  eapply (runs_bind _ _ _ [LPipe p] _ _ _ _
    (upd_pipe p (fun x => x <|pdata ::= fun l => set_bytes l 0
       (user_bytes d (addr + j + c1) (Z.to_nat (k - c1)))|>) d1) _ true).
  - destruct (Z.eqb_spec (k - c1) 0) as [E|E].
    + eapply runs_eq; [apply runs_ret|]. unfold d1. rewrite upd_pipe_compose. rewrite E.
      apply upd_pipe_ext. by destruct (pipe_at d p).
    + eapply (runs_copy_from_user c i g [LPipe p] d1); [set_solver|done|..|apply runs_ring_store];
        change (sz (procs d1 g)) with (sz (procs d g)); try (unfold k in *; lia).
      destruct P4. by split.
  - cbn [negb]. eapply runs_bind; [apply runs_setd|]. unfold d1. rewrite !upd_pipe_compose.
    apply runs_ret.
Qed.
End Ops.

(** ** A writer among readers *)

Lemma maps_user_ext d d' size :
  mem d' = mem d -> cr3 d' = cr3 d -> maps_user d size -> maps_user d' size.
Proof.
  intros E1 E2 [M1 M2 M3 M4].
  assert (forall w va, translate d' w va = translate d w va) as Et.
  { intros w va. unfold translate. by rewrite E1, E2. }
  split; [..|done].
  - intros va. rewrite Et. apply M1.
  - intros va va' pa. rewrite !Et. apply M2.
  - intros va va' pa. rewrite Et. unfold walks. rewrite E1, E2. apply M3.
Qed.

#[export] Hint Resolve runs_get_pipe runs_ring_store : runs.

Lemma length_wakeup ch d : length (ptable (wakeup_data ch d)) = length (ptable d).
Proof. unfold wakeup_data. getset. apply length_fmap. Qed.

Section Writer.
Context (i g : nat) (p addr n : Z) (q0 bs : list Z).

(** [j] of the [n] bytes [bs] are in: what was taken out of the pipe and what
    is left in it are the initial contents and those bytes. *)
Record writing (j : Z) (d : data) : Prop := {
  wi_queue : exists gone q, gone ++ q = q0 ++ take (Z.to_nat j) bs /\ pstate i g p d q;
  wi_bytes : user_bytes d addr (Z.to_nat n) = bs;
  wi_fits : addr + n <= sz (procs d g)
}.

Lemma user_same d d' va k :
  mem d' = mem d -> cr3 d' = cr3 d -> user_bytes d' va k = user_bytes d va k.
Proof. intros E1 E2. unfold user_bytes, user, translate. by rewrite E1, E2. Qed.

(** Only these parts of the state matter. *)
Lemma writing_ext j d d' :
  mem d' = mem d -> cr3 d' = cr3 d -> pipe_at d' p = pipe_at d p ->
  length (ptable d') = length (ptable d) ->
  (forall k, sz (procs d' k) = sz (procs d k) /\ process (procs d' k) = process (procs d k)) ->
  writing j d -> writing j d'.
Proof.
  intros E1 E2 E3 E4 Ek [(gone & q & E & [P1 P2 P3 P4 P5]) W2 W3]. split.
  - exists gone, q. split; [done|]. split.
    + unfold table_ok in *. congruence.
    + done.
    + by rewrite (proj2 (Ek i)).
    + rewrite (proj1 (Ek g)). by eapply maps_user_ext; [..|exact P4].
    + by rewrite E3.
  - rewrite <- W2. by apply user_same.
  - by rewrite (proj1 (Ek g)).
Qed.

Lemma writing_wakeup j ch d : writing j d -> writing j (wakeup_data ch d).
Proof.
  apply writing_ext; try done; [apply length_wakeup|].
  intros k. unfold procs, wakeup_data. getset. rewrite !list_lookup_total_alt, list_lookup_fmap.
  destruct (ptable d !! k); [|done]. simpl. unfold wake_proc. by destruct (wakes ch p0).
Qed.

Lemma writing_slept j ch d : writing j d -> writing j (awake i (asleep i ch d)).
Proof.
  intros Hw. assert (i < length (ptable d))%nat as Hi.
  { destruct Hw as [(gone & q & _ & [P1 P2 _ _ _]) _ _]. by rewrite P1. }
  eapply writing_ext; [..|exact Hw]; try done.
  - unfold awake, asleep. by rewrite !length_upd_procs.
  - intros k. unfold awake, asleep. rewrite !procs_upd by (by rewrite ?length_upd_procs).
    by case_decide.
Qed.

Definition left_loop (d : data) (ok : bool) (d' : data) (L' : list lockid) : Prop :=
  d' = d /\
  if ok then L' = [LPipe p] /\ nwrite (pipe_at d p) <> u32 (nread (pipe_at d p) + PIPESIZE)
  else L' = [] /\ (readopen (pipe_at d p) = 0 \/ killed (procs d i) <> 0).

Lemma wait_shape j d :
  writing j d ->
  (exists ok d' L', leaves i (LPipe p) (pipewrite_wait p) d ok d' L' /\ left_loop d ok d' L') \/
  (exists ch d0, writing j d0 /\ sleeps_on i (LPipe p) (pipewrite_wait p) d ch d0).
Proof.
  intros Hw. assert (i < length (ptable d))%nat as Hi.
  { destruct Hw as [(gone & q & _ & [P1 P2 _ _ _]) _ _]. by rewrite P1. }
  unfold leaves, sleeps_on, pipewrite_wait.
  destruct (Z.eqb_spec (nwrite (pipe_at d p)) (u32 (nread (pipe_at d p) + PIPESIZE))) as [E|E].
  - destruct ((readopen (pipe_at d p) =? 0) || negb (killed (procs d i) =? 0)) eqn:Eo.
    + left. exists false, d, []. split.
      * intros c. eapply runs_bind; [apply runs_get_pipe|]. rewrite (proj2 (Z.eqb_eq _ _)) by done.
        rstep. rstep. rewrite Eo. rstep. apply runs_ret.
      * split; [done|]. split; [done|]. apply orb_true_iff in Eo as [Eo|Eo].
        -- left. by apply Z.eqb_eq.
        -- right. by apply negb_true_iff, Z.eqb_neq in Eo.
    + right. exists (CPipeW p), (wakeup_data (CPipeR p) d). split; [by apply writing_wakeup|].
      split.
      * bstep. rewrite (proj2 (Z.eqb_eq _ _)) by done. bstep. bstep. rewrite Eo. bstep.
        apply blocks_bind, blocks_sleep. by rewrite length_wakeup.
      * intros f h wk Hf. estep. rewrite (proj2 (Z.eqb_eq _ _)) by done. estep. estep. rewrite Eo. estep.
        eapply execs_bind; [apply execs_sleep; [by rewrite length_wakeup|exact Hf]|].
        apply runs_execs. intros c. apply runs_ret.
  - left. exists true, d, [LPipe p]. split; [|done].
    intros c. rstep. rewrite (proj2 (Z.eqb_neq _ _)) by done. apply runs_ret.
Qed.

Hypothesis Hn : 0 <= n < two31.
Hypothesis Ha : 0 <= addr.

Lemma user_slice d j k :
  user_bytes d addr (Z.to_nat n) = bs -> 0 <= j -> 0 <= k -> j + k <= n ->
  take (Z.to_nat (j + k)) bs = take (Z.to_nat j) bs ++ user_bytes d (addr + j) (Z.to_nat k).
Proof.
  intros <- Hj Hk Hjk.
  replace (Z.to_nat n) with (Z.to_nat j + (Z.to_nat k + Z.to_nat (n - j - k)))%nat by lia.
  rewrite user_bytes_app, user_bytes_app, app_assoc.
  rewrite (Z2Nat.id j) by lia. rewrite take_app_le, take_ge; cycle 1.
  { rewrite length_app, !length_user_bytes. lia. }
  { rewrite length_app, !length_user_bytes. lia. }
  rewrite <- app_assoc, take_app_le, take_ge; rewrite ?length_user_bytes; done || lia.
Qed.

(** One transfer keeps the account. *)
Lemma writing_put j d :
  writing j d -> 0 <= j < n -> nwrite (pipe_at d p) <> u32 (nread (pipe_at d p) + PIPESIZE) ->
  exists k d', 0 < k <= n - j /\ writing (j + k) d' /\
    forall c, runs c (Some i) [LPipe p] (pipewrite_put p addr n j) d (inl (j + k)) d' [LPipe p].
Proof.
  intros [(gone & q & E & Hp) W2 W3] Hj Hfull.
  assert (Z.of_nat (length q) < PIPESIZE) as Hq.
  { destruct Hp as [_ _ _ _ Hq]. pose proof (pi_count _ _ Hq). rewrite (pipe_full _ q Hq) in Hfull. lia. }
  destruct (runs_put i g p d q addr n j Hp Hq Hj (proj2 Hn) Ha W3) as (f & Hr & Hi & _).
  set (k := Z.min _ _) in *. exists k, (upd_pipe p f d). split; [unfold k; lia|].
  split; [|done]. split; [|done|done]. eexists gone, _. split; [|by eapply pstate_upd].
  rewrite app_assoc, E, <- app_assoc. f_equal. symmetry. apply user_slice; [done|lia|unfold k; lia..].
Qed.
End Writer.

(** The two ways a write ends *)
Definition wrote_all (i g : nat) (p addr n : Z) (q0 bs : list Z) (r : Z) (d' : data) : Prop :=
  (r = n /\ writing i g p addr n q0 bs n d') \/
  (r = -1 /\ (exists j, 0 <= j < n /\ writing i g p addr n q0 bs j d') /\
   (readopen (pipe_at d' p) = 0 \/ killed (procs d' i) <> 0)).

Lemma pipewrite_loop i g p addr n q0 bs fuel : forall j d wk,
  0 <= n < two31 -> 0 <= addr -> 0 <= j <= n -> (Z.to_nat (n - j) < fuel)%nat ->
  writing i g p addr n q0 bs j d ->
  (forall j, Forall (keeps i (writing i g p addr n q0 bs j)) wk) ->
  blocks i [LPipe p] (loop fuel (pipewrite_body p addr n) j) d wk \/
  exists r d' wk', wk' `suffix_of` wk /\ wrote_all i g p addr n q0 bs r d' /\
    execs i [LPipe p] (loop fuel (pipewrite_body p addr n) j) d wk r d' [] wk'.
Proof.
  induction fuel as [|fuel IH]; intros j d wk Hn Ha Hj Hf Hw Hwk; [lia|].
  rewrite loop_unfold. unfold pipewrite_body at 1 3. destruct (Z.ltb_spec j n) as [Hlt|Hge].
  - destruct (sleep_loop i (LPipe p) (pipewrite_wait p) (writing i g p addr n q0 bs j) (left_loop i p)
      (wait_shape i g p addr n q0 bs j) wk d Hw (Hwk j)) as [Hb|(d1 & ok & d2 & L2 & wk1 & Hw1 & HQ & Hs & He)].
    { left. by apply blocks_bind, blocks_bind. }
    destruct HQ as [-> HQ]. destruct ok.
    + destruct HQ as [-> Hfull].
      destruct (writing_put i g p addr n q0 bs Hn Ha j d1 Hw1 ltac:(lia) Hfull) as (k & d3 & Hk & Hw3 & Hr).
      destruct (IH (j + k) d3 wk1) as [Hb|(r & d' & wk' & Hs' & Hr' & He')]; try done; try lia.
      { intros j'. pose proof (Hwk j') as Hx. destruct Hs as [l0 ->]. by apply Forall_app in Hx as [_ ?]. }
      * left. eapply execs_blocks; [eapply execs_bind; [exact He|]; cbn [negb]; by apply runs_execs|].
        exact Hb.
      * right. exists r, d', wk'. split_and!; [by etrans|done|].
        eapply execs_bind; [eapply execs_bind; [exact He|]; cbn [negb]; by apply runs_execs|]. exact He'.
    + destruct HQ as [-> Hcl]. right. exists (-1), d1, wk1. split_and!; [done| |].
      * right. split; [done|]. split; [|done]. exists j. split; [lia|done].
      * eapply execs_bind; [eapply execs_bind; [exact He|]|]; cbn [negb];
          apply runs_execs; intros c; apply runs_ret.
  - right. exists n, (wakeup_data (CPipeR p) d), wk. split_and!; [done| |].
    + left. split; [done|]. apply writing_wakeup. by replace n with j at 2 by lia.
    + eapply execs_bind.
      * estep. estep. apply runs_execs. intros c. apply runs_ret.
      * apply runs_execs. intros c. apply runs_ret.
Qed.


(** ** A reader among writers *)

Section Reader.
Context (i g : nat) (p addr n : Z) (q0 : list Z).
Hypothesis Hn : 0 <= n < two31.
Hypothesis Ha : 0 <= addr.

(** The pipe holds [q], which extends the initial [q0]. *)
Record reading (q : list Z) (d : data) : Prop := {
  re_pipe : pstate i g p d q;
  re_bytes : Forall (fun b => 0 <= b < 256) q;
  re_fits : addr + n <= sz (procs d g);
  re_room : addr < sz (procs d g);
  re_prefix : q0 `prefix_of` q
}.

Lemma store_rest d va bs : procs (store_data d va bs) = procs d /\ pipe_at (store_data d va bs) = pipe_at d.
Proof. unfold store_data. by destruct (mapM _ _). Qed.

Lemma store_nil d va : store_data d va [] = d.
Proof. by destruct d. Qed.

(** The transfer of a read: the first bytes of the queue go to user memory. *)
Lemma runs_get d q :
  reading q d ->
  let k := Z.min (Z.of_nat (length q)) n in
  addr <> 0 \/ k = 0 ->
  exists d1, stored d (sz (procs d g)) addr (take (Z.to_nat k) q) d1 /\
    let d2 := wakeup_data (CPipeW p) (upd_pipe p (fun x => x <|nread ::= fun r => u32 (r + k)|>) d1) in
    (forall c, runs c (Some i) [LPipe p] (piperead_get p addr n) d k d2 []) /\
    pipe_is (pipe_at d2 p) (drop (Z.to_nat k) q).
Proof.
  intros [[P1 P2 P3 P4 P5] Hb Hfit Hroom _] k Hnz. set (size := sz (procs d g)) in *.
  pose proof (mu_size _ _ P4) as Hsz. set (x := pipe_at d p) in *.
  assert (0 <= k <= Z.of_nat (length q)) as Hk by lia. pose proof (pi_count _ _ P5) as Hcnt.
  destruct (chunks_spec (nread x) k) as (c1 & Ec & C1 & C2 & C3); [lia|].
  destruct (ring_read x q P5 k c1 Hk C1 C2 C3) as (R1 & R2 & R3).
  set (b1 := take (Z.to_nat c1) q) in *. set (b2 := take (Z.to_nat (k - c1)) (drop (Z.to_nat c1) q)) in *.
  assert (Z.of_nat (length b1) = c1) as L1 by (unfold b1; rewrite length_take; lia).
  assert (Z.of_nat (length b2) = k - c1) as L2 by (unfold b2; rewrite length_take, length_drop; lia).
  assert (take (Z.to_nat k) q = b1 ++ b2) as Eb.
  { replace (Z.to_nat k) with (Z.to_nat c1 + Z.to_nat (k - c1))%nat by lia. symmetry. apply take_take_drop. }
  assert (Forall (fun b => 0 <= b < 256) b1 /\ Forall (fun b => 0 <= b < 256) b2) as [F1 F2].
  { split; [by apply Forall_take|by apply Forall_take, Forall_drop]. }
  set (d1 := store_data d addr b1).
  pose proof (store_data_ok d size P4 addr b1 Ha ltac:(lia) F1) as S1. fold d1 in S1.
  pose proof (st_maps _ _ _ _ _ S1) as M1. set (d2 := store_data d1 (addr + c1) b2).
  pose proof (store_data_ok d1 size M1 (addr + c1) b2 ltac:(lia) ltac:(lia) F2) as S2. fold d2 in S2.
  destruct (store_rest d addr b1) as [Epr Epi]. destruct (store_rest d1 (addr + c1) b2) as [Epr2 Epi2].
  exists d2. split.
  { rewrite Eb. eapply stored_app; [exact S1|]. by rewrite L1. }
  split.
  - intros c. unfold piperead_get. rstep. fold x. rewrite (pipe_used x q P5).
    rewrite (u32_small n) by (unfold two31, two32 in *; lia). fold k.
    rewrite i32_small by (unfold two31, PIPESIZE in *; lia). rewrite Ec, R1, R2.
    rewrite (u32_small (addr + c1)) by lia.
    eapply (runs_bind _ _ _ [LPipe p] _ _ _ _ d1 _ true).
    { destruct (Z.eqb_spec c1 0) as [E|E].
      - eapply runs_eq; [apply runs_ret|]. unfold d1, b1. rewrite E. apply (eq_sym (store_nil d addr)).
      - replace true with (negb (addr =? 0)) by lia.
        apply (runs_copy_to_user c i g); [set_solver|done|done|fold size; lia|fold size; lia]. }
    cbn [negb]. eapply (runs_bind _ _ _ [LPipe p] _ _ _ _ d2 _ true).
    { destruct (Z.eqb_spec (k - c1) 0) as [E|E].
      - eapply runs_eq; [apply runs_ret|]. unfold d2, b2. rewrite E. apply (eq_sym (store_nil d1 _)).
      - replace true with (negb (addr + c1 =? 0)) by lia.
        apply (runs_copy_to_user c i g); unfold d1; rewrite ?Epr; [set_solver|done|done|fold size; lia|fold size; lia]. }
    cbn [negb]. eapply runs_bind; [apply runs_setd|]. rstep. rstep. apply runs_ret.
  - change (pipe_at (wakeup_data ?ch ?d) p) with (pipe_at d p). rewrite pipe_at_upd.
    unfold d2. rewrite Epi2. unfold d1. rewrite Epi. exact R3.
Qed.

(** At address 0 the copy counts as failed, and the bytes stay in the pipe. *)
Lemma runs_get_null d q :
  reading q d -> addr = 0 -> q <> [] -> 0 < n ->
  exists d1, (forall c, runs c (Some i) [LPipe p] (piperead_get p addr n) d (-1) d1 []) /\ pipe_at d1 p = pipe_at d p.
Proof.
  intros [[P1 P2 P3 P4 P5] Hb Hfit Hroom _] E0 Hq Hpos. set (size := sz (procs d g)) in *.
  pose proof (mu_size _ _ P4) as Hsz. set (x := pipe_at d p) in *. set (k := Z.min (Z.of_nat (length q)) n).
  assert (0 < k <= Z.of_nat (length q)) as Hk by (destruct q; [done|]; unfold k; simpl; lia).
  pose proof (pi_count _ _ P5) as Hcnt.
  destruct (chunks_spec (nread x) k) as (c1 & Ec & C1 & C2 & C3); [lia|].
  destruct (ring_read x q P5 k c1 ltac:(lia) C1 C2 C3) as (R1 & R2 & R3).
  assert (0 < c1) as Hc1 by (pose proof (Z.mod_pos_bound (nread x) PIPESIZE eq_refl); lia).
  assert (Z.of_nat (length (take (Z.to_nat c1) q)) = c1) as L1 by (rewrite length_take; lia).
  exists (store_data d addr (take (Z.to_nat c1) q)). split; [|by destruct (store_rest d addr (take (Z.to_nat c1) q)) as [_ ->]].
  intros c. unfold piperead_get. rstep. fold x. rewrite (pipe_used x q P5).
  rewrite (u32_small n) by (unfold two31, two32 in *; lia). fold k.
  rewrite i32_small by (unfold two31, PIPESIZE in *; lia). rewrite Ec, R1.
  rewrite (proj2 (Z.eqb_neq c1 0)) by lia.
  eapply (runs_bind _ _ _ [LPipe p] _ _ _ _ _ _ false).
  - replace false with (negb (addr =? 0)) by lia.
    apply (runs_copy_to_user c i g); [set_solver|done|done|fold size; lia|fold size; lia].
  - cbn [negb]. rstep. apply runs_ret.
Qed.

Definition left_read (d : data) (ok : bool) (d' : data) (L' : list lockid) : Prop :=
  d' = d /\
  if ok then L' = [LPipe p] /\ (nread (pipe_at d p) <> nwrite (pipe_at d p) \/ writeopen (pipe_at d p) = 0)
  else L' = [] /\ killed (procs d i) <> 0.

Lemma read_shape d :
  (exists q, reading q d) ->
  (exists ok d' L', leaves i (LPipe p) (piperead_wait p) d ok d' L' /\ left_read d ok d' L') \/
  (exists ch d0, (exists q, reading q d0) /\ sleeps_on i (LPipe p) (piperead_wait p) d ch d0).
Proof.
  intros Hd. assert (i < length (ptable d))%nat as Hi.
  { destruct Hd as [q [[P1 P2 _ _ _] _ _ _ _]]. by rewrite P1. }
  unfold leaves, sleeps_on, piperead_wait.
  destruct ((nread (pipe_at d p) =? nwrite (pipe_at d p)) && negb (writeopen (pipe_at d p) =? 0)) eqn:E.
  - destruct (negb (killed (procs d i) =? 0)) eqn:Ek.
    + left. exists false, d, []. split.
      * intros c. rstep. rewrite E. rstep. rstep. rewrite Ek. rstep. apply runs_ret.
      * split; [done|]. split; [done|]. by apply negb_true_iff, Z.eqb_neq in Ek.
    + right. exists (CPipeR p), d. split; [done|]. split.
      * bstep. rewrite E. bstep. bstep. rewrite Ek. by apply blocks_bind, blocks_sleep.
      * intros f h wk Hf. estep. rewrite E. estep. estep. rewrite Ek.
        eapply execs_bind; [by apply execs_sleep|]. apply runs_execs. intros c. apply runs_ret.
  - left. exists true, d, [LPipe p]. split.
    + intros c. rstep. rewrite E. apply runs_ret.
    + split; [done|]. split; [done|]. apply andb_false_iff in E as [E|E].
      * left. by apply Z.eqb_neq.
      * right. by apply negb_false_iff, Z.eqb_eq in E.
Qed.
End Reader.

(** What a read of [n] bytes from the queue [q] in state [d] leaves *)
Record took (i g : nat) (p addr n : Z) (q : list Z) (d : data) (r : Z) (d' : data) : Prop := {
  tk_count : r = Z.min (Z.of_nat (length q)) n;
  tk_rest : pipe_is (pipe_at d' p) (drop (Z.to_nat r) q);
  tk_user : forall x, 0 <= x < sz (procs d g) -> user d' x =
    if decide (addr <= x < addr + r) then q !!! Z.to_nat (x - addr) else user d x;
  tk_eof : r = 0 -> n = 0 \/ writeopen (pipe_at d p) = 0
}.

Lemma took_intro i g p addr n q0 q d1 d3 :
  reading i g p addr n q0 q d1 ->
  nread (pipe_at d1 p) <> nwrite (pipe_at d1 p) \/ writeopen (pipe_at d1 p) = 0 -> 0 <= n ->
  let k := Z.min (Z.of_nat (length q)) n in
  stored d1 (sz (procs d1 g)) addr (take (Z.to_nat k) q) d3 ->
  let d2 := wakeup_data (CPipeW p) (upd_pipe p (fun x => x <|nread ::= fun r => u32 (r + k)|>) d3) in
  pipe_is (pipe_at d2 p) (drop (Z.to_nat k) q) -> took i g p addr n q d1 k d2.
Proof.
  intros Hq HQ Hn k Hst d2 Hpi. split; [done|done| |].
  - intros x Hx. change (user d2 x) with (user d3 x).
    rewrite (st_user _ _ _ _ _ Hst x Hx), length_take.
    replace (Z.of_nat _) with k by (unfold k; lia). case_decide; [|done].
    rewrite !list_lookup_total_alt, lookup_take_lt by lia. done.
  - intros E. destruct HQ as [HQ|HQ]; [|by right]. left.
    rewrite (pipe_empty _ q (ps_pipe _ _ _ _ _ (re_pipe _ _ _ _ _ _ _ _ Hq))) in HQ.
    destruct q; [done|]. unfold k in E. simpl in E. lia.
Qed.


(** ** A pipe with two bytes in it *)

Definition ex_pipe_addr : Z := 0x80100000.
Definition ex_pipe : data :=
  ex_udata <|pipes := {[ex_pipe_addr := Pipe (88 :: 89 :: replicate 510 0) 0 2 1 1]}|>.

Lemma ex_pstate : pstate 0 0 ex_pipe_addr ex_pipe [88; 89].
Proof.
  split; [done|unfold NPROC; lia|done| |].
  - eapply maps_user_ext; [..|exact ex_maps]; done.
  - split; try done. intros [|[|i]] b Hb; [by injection Hb as <-|by injection Hb as <-|done].
Qed.


