(* ===== verification/File.v ===== *)
(** * Open files (file.c) and the allocation of pipes (pipe.c: pipealloc) *)

From S2P Require Import Prelude Params State CString Spinlock Sched Sleeplock Kalloc Vm.
From S2P Require Import Usercopy Bio Log Fs Pipe.

Definition files (d : data) (f : nat) : file := ftable d !!! f.
Definition get_file (f : nat) : K file := getd (fun d => files d f).
Definition upd_file (f : nat) (g : file -> file) (d : data) : data :=
  d <|ftable ::= alter g f|>.
Definition set_file (f : nat) (g : file -> file) : K unit := setd (upd_file f g).

Definition fileinit : K unit := initlock LFtable "ftable".

Definition filealloc : K (option nat) :=
  acquire LFtable;;
  r <- foreach (seq 0 NFILE) (fun f =>
         x <- get_file f;;
         if fref x =? 0 then
           set_file f (fun x => x <|fref := 1|>);;
           release LFtable;;
           ret (Some f)
         else ret None);;
  match r with
  | Some f => ret (Some f)
  | None => release LFtable;; ret None
  end.

Definition filedup (f : nat) : K nat :=
  acquire LFtable;;
  x <- get_file f;;
  if fref x <? 1 then panic "filedup" else
  set_file f (fun x => x <|fref ::= fun n => n + 1|>);;
  release LFtable;;
  ret f.

Section File.
Context `{BlockOps, DevOps}.

Definition fileclose (f : nat) : K unit :=
  acquire LFtable;;
  x <- get_file f;;
  if fref x <? 1 then panic "fileclose" else
  set_file f (fun x => x <|fref ::= fun n => n - 1|>);;
  x <- get_file f;;
  if 0 <? fref x then release LFtable
  else
    let ff := x in
    set_file f (fun x => x <|fref := 0|>);;
    set_file f (fun x => x <|ftype := FD_NONE|>);;
    release LFtable;;
    match ftype ff with
    | FD_PIPE => pipeclose (fpipe ff) (writable ff)
    | FD_INODE =>
        begin_op;;
        ip <- deref (fip ff);;
        iput ip;;
        end_op
    | FD_NONE => ret tt
    end.

Definition filestat (f : nat) (st : Z) : K Z :=
  x <- get_file f;;
  match ftype x with
  | FD_INODE =>
      ilock (fip x);;
      ip <- deref (fip x);;
      stati ip st;;
      iunlock (fip x);;
      ret 0
  | _ => ret (-1)
  end.

Definition fileread (f : nat) (addr n : Z) : K Z :=
  x <- get_file f;;
  if readable x =? 0 then ret (-1) else
  match ftype x with
  | FD_PIPE => piperead (fpipe x) addr n
  | FD_INODE =>
      ilock (fip x);;
      ip <- deref (fip x);;
      x <- get_file f;;
      ' (r, _) <- readi ip (ToUser addr) (foff x) (u32 n);;
      when (0 <? r) (set_file f (fun x => x <|foff ::= fun o => u32 (o + r)|>));;
      iunlock (fip x);;
      ret r
  | FD_NONE => panic "fileread"
  end.

(** A write is cut into pieces that fit in a transaction. *)
Definition filewrite_max : Z := (MAXOPBLOCKS - 1 - 1 - 2) / 2 * 512.

Definition filewrite (f : nat) (addr n : Z) : K Z :=
  x <- get_file f;;
  if writable x =? 0 then ret (-1) else
  match ftype x with
  | FD_PIPE => pipewrite (fpipe x) addr n
  | FD_INODE =>
      i <- loop (Z.to_nat (n / filewrite_max) + 2) (fun i =>
        if i <? n then
          let n1 := Z.min (n - i) filewrite_max in
          begin_op;;
          ilock (fip x);;
          ip <- deref (fip x);;
          y <- get_file f;;
          r <- writei ip (FromUser (u32 (addr + i))) (foff y) (u32 n1);;
          when (0 <? r) (set_file f (fun x => x <|foff ::= fun o => u32 (o + r)|>));;
          iunlock (fip x);;
          end_op;;
          if r <? 0 then ret (inr i) else
          if negb (r =? n1) then panic "short filewrite" else
          ret (inl (i + r))
        else ret (inr i)) 0;;
      ret (if i =? n then n else -1)
  | FD_NONE => panic "filewrite"
  end.

(** The ring starts behind the spinlock in the pipe's page. *)
Definition pipe_data_offset : Z := 52.

Definition pipealloc : K (option (nat * nat)) :=
  f0 <- filealloc;;
  f1 <- (match f0 with None => ret None | Some _ => filealloc end);;
  p <- (match f0, f1 with Some _, Some _ => kalloc | _, _ => ret 0 end);;
  match f0, f1 with
  | Some a, Some b =>
      if p =? 0 then fileclose a;; fileclose b;; ret None else
      setd (fun d => d <|pipes ::=
        <[p := Pipe (load_bytes (mem d) (V2P p + pipe_data_offset) (Z.to_nat PIPESIZE)) 0 0 1 1]>|>);;
      initlock (LPipe p) "pipe";;
      let pipe_end r w :=
        fun x => x <|ftype := FD_PIPE|> <|readable := r|> <|writable := w|> <|fpipe := p|> in
      set_file a (pipe_end 1 0);;
      set_file b (pipe_end 0 1);;
      ret (Some (a, b))
  | Some a, None => fileclose a;; ret None
  | None, Some b => fileclose b;; ret None
  | None, None => ret None
  end.
End File.
