(* ===== verification/Proc.v ===== *)
(** * Processes and kernel threads (proc.c)

    Creating, ending and reaping processes ([fork], [exit], [wait]) and
    threads ([clone], [exit], [join]), parking and unparking threads, the
    scheduler.  The threads of a process share the [process] pointer to the
    slot of the group leader. *)

From S2P Require Import Prelude Params State CString Spinlock Printk Sched Sleeplock.
From S2P Require Import Kalloc Vm Usercopy Bio Log Fs Pipe File.

(** A [struct proc *] used as a channel *)
Definition proc_chan (p : option nat) : chan :=
  match p with Some i => CProc i | None => null end.

Definition pinit : K unit := initlock LPtable "ptable".

(** The sizes of [struct trapframe] and [struct context], and the trap frame
    that the bytes at [a] are *)
Definition TFSIZE : Z := 76.
Definition CTXSIZE : Z := 20.
Definition tf_at (m : memory) (a : Z) : trapframe :=
  TF (load32 m a) (load32 m (a + 4)) (load32 m (a + 8)) (load32 m (a + 12))
     (load32 m (a + 16)) (load32 m (a + 20)) (load32 m (a + 24)) (load32 m (a + 28))
     (load16 m (a + 32)) (load16 m (a + 36)) (load16 m (a + 40)) (load16 m (a + 44))
     (load32 m (a + 48)) (load32 m (a + 52)) (load32 m (a + 56)) (load16 m (a + 60))
     (load32 m (a + 64)) (load32 m (a + 68)) (load16 m (a + 72)).

(** The trap frame of the new thread is what the page of its stack holds there:
    it is not initialised here. *)
Definition allocproc : K (option nat) :=
  acquire LPtable;;
  r <- foreach (seq 0 NPROC) (fun i =>
         p <- get_proc i;;
         ret (if bool_decide (state p = UNUSED) then Some i else None));;
  match r with
  | None => release LPtable;; ret None
  | Some i =>
      set_proc i (fun p => p <|state := EMBRYO|>);;
      n <- getd nextpid;;
      set_proc i (fun p => p <|pid := n|>);;
      setd (fun d => d <|nextpid ::= fun n => i32 (n + 1)|>);;
      release LPtable;;
      ks <- kalloc;;
      set_proc i (fun p => p <|kstack := ks|>);;
      if ks =? 0 then
        set_proc i (fun p => p <|state := UNUSED|>);;
        ret None
      else
        let sp := u32 (ks + KSTACKSIZE) in
        let sp := u32 (sp - TFSIZE) in
        set_proc i (fun p => p <|tfp := sp|>);;
        m <- getd mem;;
        set_proc i (fun p => p <|tf := tf_at m (V2P sp)|>);;
        let sp := u32 (sp - 4) in
        setd (fun d => d <|mem ::= fun m => store32 m (V2P sp) (code_addr d Ctrapret)|>);;
        let sp := u32 (sp - CTXSIZE) in
        setd (fun d => d <|mem ::= fun m => memset m (V2P sp) 0 CTXSIZE|>);;
        setd (fun d => d <|mem ::= fun m => store32 m (V2P (u32 (sp + 16))) (code_addr d Cforkret)|>);;
        set_proc i (fun p => p <|pcontext := Some (Ctx 0 0 0 0 Cforkret Ctrapret)|>);;
        ret (Some i)
  end.

(** [safestrcpy(p->name, s, sizeof(p->name))] *)
Definition set_name (i : nat) (s : list Z) : K unit :=
  set_proc i (fun p => p <|name ::= overlay (safestrcpy (of_bytes s) 16)|>).

(** The scan of [wait]: is there a child, and the first one without a living
    thread. *)
Fixpoint wait_scan (g : option nat) (l : list nat) (havekids : bool) : K (bool * option Z) :=
  match l with
  | [] => ret (havekids, None)
  | i :: l =>
      p <- get_proc i;;
      if negb (bool_decide (parent p = g)) then wait_scan g l havekids else
      lead <- deref (process p);;
      lp <- get_proc lead;;
      if threadcount lp =? 0 then ret (true, Some (tgid p)) else wait_scan g l true
  end.

Definition wait_body (cur : nat) (_ : unit) : K (unit + option Z) :=
  c <- get_proc cur;;
  ' (havekids, found) <- wait_scan (process c) (seq 0 NPROC) false;;
  c <- get_proc cur;;
  if negb havekids || negb (killed c =? 0) then
    release LPtable;; ret (inr None)
  else
    match found with
    | None => sleep (proc_chan (process c)) LPtable;; ret (inl tt)
    | Some tg => ret (inr (Some tg))
    end.

(** What [wait] and [join] do to the slot of a dead thread. *)
Definition reset_slot (p : proc) : proc :=
  p <|kstack := 0|> <|pcontext := None|> <|pid := 0|> <|tgid := 0|> <|parent := None|>
    <|name ::= <[0%nat := 0]>|> <|killed := 0|> <|state := UNUSED|> <|process := None|>
    <|pgdir := 0|> <|threadcount := 0|>.

Definition reap (i : nat) : K unit :=
  p <- get_proc i;;
  kfree (kstack p);;
  set_proc i reset_slot.

Definition wait_reap (tg : Z) (i : nat) : K unit :=
  p <- get_proc i;;
  if negb (tgid p =? tg) then ret tt else
  if bool_decide (state p = ZOMBIE) then
    when ((pid p =? tgid p) && bool_decide (process p = Some i)) (freevm (pgdir p));;
    reap i
  else panic "undead".

Definition wait : K Z :=
  cur <- curproc;;
  acquire LPtable;;
  r <- retry (wait_body cur);;
  match r with
  | None => ret (-1)
  | Some tg =>
      iter (seq 0 NPROC) (wait_reap tg);;
      release LPtable;;
      ret tg
  end.

(** The slot whose [pid] is [id], or [NPROC] when the scan ran off the table. *)
Definition find_pid (id : Z) : K nat :=
  r <- foreach (seq 0 NPROC) (fun i =>
         p <- get_proc i;; ret (if pid p =? id then Some i else None));;
  ret (default NPROC r).

(** [p->pid] when [p] may be one past the end of the table. *)
Definition pid_at (i : nat) : K Z :=
  if bool_decide (i < NPROC)%nat then p <- get_proc i;; ret (pid p) else getd past_pid.

Definition join_body (cur p : nat) (_ : unit) : K (unit + bool) :=
  x <- get_proc p;;
  if bool_decide (state x = ZOMBIE) then ret (inr true) else
  c <- get_proc cur;;
  if negb (killed c =? 0) then release LPtable;; ret (inr false)
  else
    sleep (proc_chan (process c)) LPtable;;
    ret (inl tt).

(** A scan that ended without a match goes on with the slot behind the table;
    when the word there equals [id], the code uses memory that is not a
    thread. *)
Definition join (id : Z) : K Z :=
  cur <- curproc;;
  acquire LPtable;;
  p <- find_pid id;;
  v <- pid_at p;;
  if negb (v =? id) then release LPtable;; ret (-1) else
  if bool_decide (p = NPROC) then fault else
  x <- get_proc p;; c <- get_proc cur;;
  if negb ((tgid x =? tgid c) && bool_decide (process x = process c)) then
    release LPtable;; ret (-1)
  else
    ok <- retry (join_body cur p);;
    if negb ok then ret (-1) else
    x <- get_proc p;;
    when (negb (tgid x =? pid x) && negb (bool_decide (process x = Some p))) (reap p);;
    release LPtable;;
    ret id.

Definition park (ch : chan) : K Z :=
  p <- myproc;;
  match p with
  | None => panic "sleep"
  | Some p =>
      acquire LPtable;;
      x <- get_proc p;;
      if bool_decide (lostwakeup x = ch) then
        set_proc p (fun x => x <|lostwakeup := null|>);;
        release LPtable;;
        ret 0
      else
        set_proc p (fun x => x <|pchan := ch|>);;
        set_proc p (fun x => x <|lostwakeup := null|>);;
        set_proc p (fun x => x <|state := SLEEPING|>);;
        sched;;
        set_proc p (fun x => x <|pchan := null|>);;
        release LPtable;;
        ret 0
  end.

Definition unpark (id : Z) (ch : chan) : K Z :=
  acquire LPtable;;
  p <- find_pid id;;
  v <- pid_at p;;
  if negb (v =? id) then release LPtable;; ret (-1) else
  if bool_decide (p = NPROC) then fault else
  x <- get_proc p;;
  if bool_decide (state x = SLEEPING /\ pchan x = ch) then
    set_proc p (fun x => x <|state := RUNNABLE|>);;
    set_proc p (fun x => x <|pchan := null|>);;
    release LPtable;;
    ret 0
  else
    set_proc p (fun x => x <|lostwakeup := ch|>);;
    release LPtable;;
    ret 1.

(** ** The scheduler *)

(** [swtch(&(c->scheduler), p->context)]: the next script entry is what the
    thread does before it switches back. *)
Definition swtch_to : K unit := fun w =>
  match wake w with
  | [] => (Blocked, w)
  | f :: wk => (Ret tt, World (f (now w)) (noise w) wk)
  end.

(** One pass over the table by CPU [c]; the scheduler repeats it forever. *)
Definition scheduler_pass (c : nat) : K unit :=
  sti;;
  acquire LPtable;;
  iter (seq 0 NPROC) (fun i =>
    p <- get_proc i;;
    if negb (bool_decide (state p = RUNNABLE)) then ret tt else
    set_cpu c (fun x => x <|c_proc := Some i|>);;
    switchuvm (Some i);;
    set_proc i (fun p => p <|state := RUNNING|>);;
    swtch_to;;
    switchkvm;;
    set_cpu c (fun x => x <|c_proc := None|>));;
  release LPtable.

Definition growproc (n : Z) : K Z :=
  cur <- curproc;;
  g <- leader;;
  acquire (LVlock g);;
  c <- get_proc cur;; lp <- get_proc g;;
  let size := sz lp in
  r <- (if 0 <? n then allocuvm (pgdir c) size (u32 (size + n))
        else if n <? 0 then deallocuvm (pgdir c) size (u32 (size + n))
        else ret size);;
  if negb (n =? 0) && (r =? 0) then release (LVlock g);; ret (-1) else
  set_proc g (fun p => p <|sz := r|>);;
  switchuvm (Some cur);;
  release (LVlock g);;
  ret 0.

Section Proc.
Context `{BlockOps, DevOps}.

(** [initcode] is the assembled initcode.S. *)
Definition userinit (initcode : list Z) : K unit :=
  p <- allocproc;;
  p <- deref p;;
  set_proc p (fun x => x <|tgid := pid x|>);;
  set_proc p (fun x => x <|process := Some p|>);;
  initlock (LVlock p) "vlock";;
  set_proc p (fun x => x <|threadcount := 1|>);;
  set_proc p (fun x => x <|lostwakeup := null|>);;
  setd (fun d => d <|initproc := Some p|>);;
  acquire (LVlock p);;
  pd <- setupkvm;;
  set_proc p (fun x => x <|pgdir := pd|>);;
  if pd =? 0 then panic "userinit: out of memory?" else
  inituvm pd initcode;;
  set_proc p (fun x => x <|sz := PGSIZE|>);;
  release (LVlock p);;
  let useg := Z.lor (Z.shiftl SEG_UDATA 3) DPL_USER in
  set_proc p (fun x => x <|tf := zero_tf
    <|tf_cs := Z.lor (Z.shiftl SEG_UCODE 3) DPL_USER|>
    <|tf_ds := useg|> <|tf_es := useg|> <|tf_ss := useg|>
    <|tf_eflags := FL_IF|> <|tf_esp := PGSIZE|> <|tf_eip := 0|>|>);;
  set_name p (lit "initcode" ++ [0]);;
  initlock (LCwd p) "cwdlock";;
  acquire (LCwd p);;
  ip <- namei (lit "/" ++ [0]);;
  set_proc p (fun x => x <|cwd := ip|>);;
  release (LCwd p);;
  acquire LPtable;;
  set_proc p (fun x => x <|state := RUNNABLE|>);;
  release LPtable.

(** [for(i = 0; i < NOFILE; i++) if(curproc->ofile[i]) np->ofile[i] =
    filedup(curproc->ofile[i]);] *)
Definition dup_files (cur np : nat) : K unit :=
  iter (seq 0 NOFILE) (fun fd =>
    c <- get_proc cur;;
    match ofile c !!! fd with
    | None => ret tt
    | Some f =>
        f <- filedup f;;
        set_proc np (fun x => x <|ofile ::= <[fd := Some f]>|>)
    end).

Definition fork : K Z :=
  cur <- curproc;;
  np <- allocproc;;
  match np with
  | None => ret (-1)
  | Some np =>
      set_proc np (fun x => x <|tgid := pid x|>);;
      set_proc np (fun x => x <|process := Some np|>);;
      set_proc np (fun x => x <|lostwakeup := null|>);;
      initlock (LVlock np) "vlock";;
      g <- leader;;
      acquire (LVlock g);;
      c <- get_proc cur;; lp <- get_proc g;;
      pd <- copyuvm (pgdir c) (sz lp);;
      set_proc np (fun x => x <|pgdir := pd|>);;
      if pd =? 0 then
        x <- get_proc np;;
        kfree (kstack x);;
        set_proc np (fun x => x <|kstack := 0|>);;
        set_proc np (fun x => x <|state := UNUSED|>);;
        release (LVlock g);;
        ret (-1)
      else
        lp <- get_proc g;;
        set_proc np (fun x => x <|sz := sz lp|>);;
        release (LVlock g);;
        c <- get_proc cur;;
        set_proc np (fun x => x <|parent := process c|>);;
        set_proc np (fun x => x <|tf := tf c|>);;
        set_proc np (fun x => x <|tf ::= fun t => t <|tf_eax := 0|>|>);;
        dup_files cur np;;
        g <- leader;;
        acquire (LCwd g);;
        lp <- get_proc g;;
        release (LCwd g);;
        initlock (LCwd np) "cwdlock";;
        acquire (LCwd np);;
        ip <- deref (cwd lp);;
        ip <- idup ip;;
        set_proc np (fun x => x <|cwd := Some ip|>);;
        release (LCwd np);;
        c <- get_proc cur;;
        set_name np (name c);;
        x <- get_proc np;;
        let id := pid x in
        acquire LPtable;;
        set_proc np (fun x => x <|state := RUNNABLE|>);;
        set_proc np (fun x => x <|threadcount := 1|>);;
        release LPtable;;
        ret id
  end.

Definition reparent (cur : nat) : K unit :=
  iter (seq 0 NPROC) (fun i =>
    p <- get_proc i;;
    if bool_decide (parent p = Some cur) then
      ini <- getd initproc;;
      set_proc i (fun p => p <|parent := ini|>);;
      p <- get_proc i;;
      when (bool_decide (state p = ZOMBIE)) (wakeup1 (proc_chan ini))
    else ret tt).

(** The part of [exit] that runs under [ptable.lock] *)
Definition exit_locked (cur : nat) : K unit :=
  c <- get_proc cur;;
  wakeup1 (proc_chan (parent c));;
  wakeup1 (proc_chan (process c));;
  g <- deref (process c);;
  set_proc g (fun x => x <|threadcount ::= fun n => u32 (n - 1)|>);;
  reparent cur;;
  set_proc cur (fun x => x <|state := ZOMBIE|>);;
  sched;;
  panic "zombie exit".

Definition close_files (cur : nat) : K unit :=
  iter (seq 0 NOFILE) (fun fd =>
    c <- get_proc cur;;
    match ofile c !!! fd with
    | None => ret tt
    | Some f =>
        fileclose f;;
        set_proc cur (fun x => x <|ofile ::= <[fd := None]>|>)
    end).

Definition exit : K unit :=
  cur <- curproc;;
  ini <- getd initproc;;
  if bool_decide (Some cur = ini) then panic "init exiting" else
  close_files cur;;
  acquire LPtable;;
  c <- get_proc cur;;
  g <- deref (process c);;
  lp <- get_proc g;;
  let n := threadcount lp in
  release LPtable;;
  when (n =? 1)
    (begin_op;;
     lp <- get_proc g;;
     ip <- deref (cwd lp);;
     iput ip;;
     end_op;;
     set_proc cur (fun x => x <|cwd := None|>));;
  acquire LPtable;;
  exit_locked cur.

Definition forkret : K unit :=
  release LPtable;;
  f <- getd first;;
  when (negb (f =? 0))
    (setd (fun d => d <|first := 0|>);;
     iinit ROOTDEV;;
     initlog ROOTDEV).

Definition clone (fn arg1 arg2 stack flags : Z) : K Z :=
  cur <- curproc;;
  g <- leader;;
  lp <- get_proc g;;
  if (sz lp <=? u32 (stack - 4096)) || (sz lp <? stack) then ret (-1) else
  np <- allocproc;;
  match np with
  | None => ret (-1)
  | Some np =>
      c <- get_proc cur;;
      set_proc np (fun x => x <|tgid := tgid c|>);;
      set_proc np (fun x => x <|process := process c|>);;
      set_proc np (fun x => x <|lostwakeup := null|>);;
      initlock (LVlock np) "vlock";;
      acquire (LVlock g);;
      c <- get_proc cur;;
      set_proc np (fun x => x <|pgdir := pgdir c|>);;
      set_proc np (fun x => x <|sz := 0|>);;
      release (LVlock g);;
      set_proc np (fun x => x <|threadcount := 0|>);;
      c <- get_proc cur;;
      set_proc np (fun x => x <|parent := parent c|>);;
      set_proc np (fun x => x <|tf := tf c|>);;
      store_user (u32 (stack - 4)) (le32 arg2);;
      store_user (u32 (stack - 8)) (le32 arg1);;
      store_user (u32 (stack - 12)) (le32 0xffffffff);;
      set_proc np (fun x => x <|tf ::= fun t => t <|tf_eip := fn|>|>);;
      set_proc np (fun x => x <|tf ::= fun t => t <|tf_esp := u32 (stack - 12)|>|>);;
      dup_files cur np;;
      set_proc np (fun x => x <|cwd := None|>);;
      c <- get_proc cur;;
      set_name np (name c);;
      x <- get_proc np;;
      let id := pid x in
      acquire LPtable;;
      c <- get_proc cur;;
      (if negb (killed c =? 0) then set_proc np (fun x => x <|state := ZOMBIE|>)
       else
         set_proc np (fun x => x <|state := RUNNABLE|>);;
         g <- deref (process c);;
         set_proc g (fun x => x <|threadcount ::= fun n => u32 (n + 1)|>));;
      release LPtable;;
      ret id
  end.
End Proc.

(** ** Parking

    What [park] and [unpark] do to the slot of the thread. *)
Definition park_proc (ch : chan) (p : proc) : proc :=
  if bool_decide (lostwakeup p = ch) then p <|lostwakeup := null|>
  else p <|pchan := ch|> <|lostwakeup := null|> <|state := SLEEPING|>.
Definition unpark_proc (ch : chan) (p : proc) : proc :=
  if bool_decide (state p = SLEEPING /\ pchan p = ch)
  then p <|state := RUNNABLE|> <|pchan := null|>
  else p <|lostwakeup := ch|>.

Section Parking.
Context (c : nat) (me : option nat).

Lemma runs_find_pid L d i id :
  (i < NPROC)%nat -> pid (procs d i) = id ->
  (forall j, (j < i)%nat -> pid (procs d j) <> id) ->
  runs c me L (find_pid id) d i d L.
Proof.
  intros Hi Hid Hj. unfold find_pid.
  eapply runs_bind; [apply (runs_scan_some c me _ L NPROC i)|cbv beta; simpl; rlast]; [done| |].
  - intros j Hlt. rstep. destruct (Z.eqb_spec (pid (procs d j)) id); [by destruct (Hj j)|rlast].
  - rstep. rewrite (proj2 (Z.eqb_eq _ _) Hid). rlast.
Qed.

Lemma runs_find_pid_absent L d id :
  (forall j, (j < NPROC)%nat -> pid (procs d j) <> id) ->
  runs c me L (find_pid id) d NPROC d L.
Proof.
  intros Hj. unfold find_pid. eapply runs_bind; [apply runs_scan_none|cbv beta; simpl; rlast].
  intros j Hlt. rstep. destruct (Z.eqb_spec (pid (procs d j)) id); [by destruct (Hj j)|rlast].
Qed.

Lemma runs_pid_at L d i : (i < NPROC)%nat -> runs c me L (pid_at i) d (pid (procs d i)) d L.
Proof. intros Hi. unfold pid_at. rewrite bool_decide_true by done. rstep. rlast. Qed.

Lemma runs_unpark L d i id ch :
  LPtable ∉ L -> table_ok d -> (i < NPROC)%nat -> pid (procs d i) = id ->
  (forall j, (j < i)%nat -> pid (procs d j) <> id) ->
  runs c me L (unpark id ch) d
    (if bool_decide (state (procs d i) = SLEEPING /\ pchan (procs d i) = ch) then 0 else 1)
    (upd_procs i (unpark_proc ch) d) L.
Proof.
  intros HL Ht Hi Hid Hj. unfold unpark. rstep.
  eapply runs_bind; [by apply (runs_find_pid _ d i)|].
  eapply runs_bind; [by apply (runs_pid_at _ d i)|]. rewrite Hid, Z.eqb_refl. cbn [negb].
  rewrite bool_decide_false by lia. rstep.
  case_bool_decide as Hs.
  - rstep. rstep. rstep. eapply runs_eq; [rlast|]. rewrite upd_procs_compose.
    apply upd_procs_ext. unfold unpark_proc. by rewrite bool_decide_true.
  - rstep. rstep. eapply runs_eq; [rlast|]. apply upd_procs_ext.
    unfold unpark_proc. by rewrite bool_decide_false.
Qed.

(** No such thread: -1, provided the word behind the table is not [id]. *)
Lemma runs_unpark_absent L d id ch :
  LPtable ∉ L -> (forall j, (j < NPROC)%nat -> pid (procs d j) <> id) -> past_pid d <> id ->
  runs c me L (unpark id ch) d (-1) d L.
Proof.
  intros HL Hj Hp. unfold unpark. rstep.
  eapply runs_bind; [by apply runs_find_pid_absent|].
  change (pid_at NPROC) with (getd past_pid). rstep.
  destruct (Z.eqb_spec (past_pid d) id); [done|]. cbn [negb]. rstep. rlast.
Qed.
End Parking.

(** A wake-up that came first is consumed: [park] returns at once. *)
Lemma runs_park c i L d ch :
  LPtable ∉ L -> lostwakeup (procs d i) = ch ->
  runs c (Some i) L (park ch) d 0 (upd_procs i (park_proc ch) d) L.
Proof.
  intros HL Hl. unfold park. rstep. rstep. rstep. rewrite bool_decide_true by done.
  rstep. rstep. eapply runs_eq; [rlast|]. apply upd_procs_ext.
  unfold park_proc. by rewrite bool_decide_true.
Qed.

(** Otherwise the thread sleeps until the script brings it back. *)
Lemma execs_park i d ch f g wk :
  (i < length (ptable d))%nat -> lostwakeup (procs d i) <> ch -> resumes i f g ->
  execs i [] (park ch) d (f :: wk) 0 (awake i (g (upd_procs i (park_proc ch) d))) [] wk.
Proof.
  intros Hi Hl Hf. unfold park.
  do 3 (eapply execs_bind; [apply runs_execs; intros; rlast|]; cbv beta iota).
  rewrite bool_decide_false by done.
  do 3 (eapply execs_bind; [apply runs_execs; intros; rlast|]; cbv beta iota).
  rewrite !upd_procs_compose.
  replace (upd_procs i (fun p => _) d) with (upd_procs i (park_proc ch) d); cycle 1.
  { apply upd_procs_ext. unfold park_proc. by rewrite bool_decide_false. }
  eapply execs_bind; [apply execs_sched; [done|..]|].
  1,2: rewrite procs_upd_same by done; unfold park_proc; by rewrite bool_decide_false.
  do 2 (eapply execs_bind; [apply runs_execs; intros; rlast|]; cbv beta iota).
  apply runs_execs. intros. rlast.
Qed.

Lemma blocks_park i d ch :
  (i < length (ptable d))%nat -> lostwakeup (procs d i) <> ch -> blocks i [] (park ch) d [].
Proof.
  intros Hi Hl. unfold park.
  do 3 (eapply execs_blocks; [apply runs_execs; intros; rlast|]; cbv beta iota).
  rewrite bool_decide_false by done.
  do 3 (eapply execs_blocks; [apply runs_execs; intros; rlast|]; cbv beta iota).
  rewrite !upd_procs_compose.
  apply blocks_bind, blocks_sched; by rewrite procs_upd_same.
Qed.

(** ** A new process-table slot *)

(** The places on a new kernel stack: the trap frame, the return address of
    [forkret] below it, and the context below that *)
Definition tf_place (ks : Z) : Z := ks + KSTACKSIZE - TFSIZE.
Definition ret_place (ks : Z) : Z := tf_place ks - 4.
Definition ctx_place (ks : Z) : Z := ret_place ks - CTXSIZE.

(** What [allocproc] writes to the slot it returns; [m] is the memory it finds. *)
Definition embryo (n ks : Z) (m : memory) (p : proc) : proc :=
  p <|state := EMBRYO|> <|pid := n|> <|kstack := ks|> <|tfp := tf_place ks|>
    <|tf := tf_at m (V2P (tf_place ks))|> <|pcontext := Some (Ctx 0 0 0 0 Cforkret Ctrapret)|>.

(** The stack that the first switch to the thread finds: it returns from
    [swtch] to [forkret] with zero registers, and from there to [trapret]. *)
Record first_stack (d d' : data) (ks : Z) : Prop := {
  fs_ret : load32 (mem d') (V2P (ret_place ks)) = code_addr d Ctrapret;
  fs_eip : load32 (mem d') (V2P (ctx_place ks) + 16) = code_addr d Cforkret;
  fs_regs : forall k, 0 <= k < 4 -> load32 (mem d') (V2P (ctx_place ks) + 4 * k) = 0;
  fs_rest : forall x, ~ V2P (ctx_place ks) <= x < V2P (tf_place ks) -> mem d' x = mem d x
}.

Definition new_stack (ca : code -> Z) (ks : Z) (m : memory) : memory :=
  store32 (memset (store32 m (V2P (ret_place ks)) (ca Ctrapret)) (V2P (ctx_place ks)) 0 CTXSIZE)
    (V2P (ctx_place ks + 16)) (ca Cforkret).

Lemma new_stack_first d d' e ks :
  page_ok e ks -> Forall (fun k => 0 <= code_addr d k < two32) [Cforkret; Ctrapret] ->
  mem d' = new_stack (code_addr d) ks (mem d) -> first_stack d d' ks.
Proof.
  intros (_ & _ & Hr) [Hf [Ht _]%Forall_cons]%Forall_cons E.
  assert (forall x, ks <= x < ks + KSTACKSIZE -> V2P x = x - KERNBASE) as HV.
  { intros x Hx. unfold V2P. apply u32_small. unfold KERNBASE, KSTACKSIZE, PHYSTOP, two32 in *. lia. }
  assert (V2P (tf_place ks) = ks - KERNBASE + 4020 /\ V2P (ret_place ks) = ks - KERNBASE + 4016 /\
    V2P (ctx_place ks) = ks - KERNBASE + 3996 /\ V2P (ctx_place ks + 16) = ks - KERNBASE + 4012) as (Et & Er & Ec & Ee).
  { unfold ctx_place, ret_place, tf_place, TFSIZE, CTXSIZE, KSTACKSIZE in *. rewrite !HV by lia. lia. }
  assert (forall a v m x, ~ a <= x < a + 4 -> store32 m a v x = m x) as Hst.
  { intros a v m x Hx. unfold store32, put. by rewrite !(proj2 (Z.eqb_neq x _)) by lia. }
  set (b := ks - KERNBASE) in *. split; rewrite E; unfold new_stack; rewrite ?Et, ?Er, ?Ec, ?Ee.
  - rewrite (load32_ext _ (store32 (mem d) (b + 4016) (code_addr d Ctrapret))); [by apply load_store32|].
    intros x Hx. rewrite Hst by lia. rewrite memset_spec by done. unfold CTXSIZE.
    by rewrite (proj2 (Z.ltb_ge x _)), andb_false_r by lia.
  - replace (b + 3996 + 16) with (b + 4012) by lia. by apply load_store32.
  - intros k Hk. rewrite (load32_ext _ (fun _ => 0)); [done|]. intros x Hx.
    rewrite Hst by lia. rewrite memset_spec by done. unfold CTXSIZE.
    by rewrite (proj2 (Z.leb_le _ x)), (proj2 (Z.ltb_lt x _)) by lia.
  - intros x Hx. rewrite Hst by lia. rewrite memset_spec by done. unfold CTXSIZE.
    destruct ((_ <=? x) && _) eqn:B; [lia|]. apply Hst. lia.
Qed.

Definition first_unused (d : data) (i : nat) : Prop :=
  (i < NPROC)%nat /\ state (procs d i) = UNUSED /\
  forall j, (j < i)%nat -> state (procs d j) <> UNUSED.

Definition next_pid (d : data) : data := d <|nextpid ::= fun n => i32 (n + 1)|>.

Lemma free_list_same d d' l :
  mem d' = mem d -> freelist d' = freelist d -> kend d' = kend d -> free_list d l -> free_list d' l.
Proof. intros E1 E2 E3 [H1 H2 H3]. split; rewrite ?E1, ?E2, ?E3; done. Qed.

Section Allocproc.
Context (c : nat) (me : option nat).

Lemma runs_allocproc_full L d :
  LPtable ∉ L -> (forall i, (i < NPROC)%nat -> state (procs d i) <> UNUSED) ->
  runs c me L allocproc d None d L.
Proof.
  intros HL Hs. unfold allocproc. rstep. eapply runs_bind; [apply runs_scan_none|rstep; rlast].
  intros i Hi. rstep. rewrite bool_decide_false by auto. rlast.
Qed.

Definition new_slot (ks : Z) (m : memory) (p : proc) : proc :=
  p <|kstack := ks|> <|tfp := tf_place ks|> <|tf := tf_at m (V2P (tf_place ks))|>
    <|pcontext := Some (Ctx 0 0 0 0 Cforkret Ctrapret)|>.

(** The scan, the new pid and the new stack [ks], 0 when there is none. *)
Lemma runs_allocproc_some L d d2 i ks :
  LPtable ∉ L -> table_ok d -> first_unused d i ->
  let d1 := next_pid (upd_procs i (fun p => p <|state := EMBRYO|> <|pid := nextpid d|>) d) in
  runs c me L kalloc d1 ks d2 L -> ptable d2 = ptable d1 ->
  ks = 0 \/ KERNBASE <= ks < KERNBASE + PHYSTOP ->
  runs c me L allocproc d (if ks =? 0 then None else Some i)
    (if ks =? 0 then upd_procs i (fun p => p <|kstack := 0|> <|state := UNUSED|>) d2
     else upd_procs i (new_slot ks (mem d2)) (d2 <|mem ::= new_stack (code_addr d2) ks|>)) L.
Proof.
  intros HL Ht (Hi & Hu & Hj) d1 Hk Ep Hks. unfold allocproc. rstep.
  eapply runs_bind; [apply (runs_scan_some c me _ _ NPROC i)|cbv beta iota]; [done|..].
  { intros j Hlt. rstep. rewrite bool_decide_false by auto. rlast. }
  { rstep. rewrite bool_decide_true by done. rlast. }
  rstep. rstep. rstep. rewrite upd_procs_compose. eapply runs_bind; [apply runs_setd|]. rstep.
  eapply runs_bind; [exact Hk|]. rstep.
  destruct (Z.eqb_spec ks 0) as [->|Hne].
  - rstep. rewrite upd_procs_compose. rlast.
  - assert (KERNBASE <= ks < KERNBASE + PHYSTOP) as Hr by (destruct Hks; done).
    unfold KERNBASE, PHYSTOP in Hr. cbv zeta. unfold KSTACKSIZE, TFSIZE, CTXSIZE.
    rewrite !u32_small by (unfold two32; repeat rewrite u32_small; unfold two32; lia).
    rstep. rstep. rstep. do 3 (eapply runs_bind; [apply runs_setd|]). rstep.
    eapply runs_eq; [apply runs_ret|].
    transitivity (upd_procs i (fun p => p <|pcontext := Some (Ctx 0 0 0 0 Cforkret Ctrapret)|>)
      (upd_procs i (fun p => p <|tf := tf_at (mem d2) (V2P (tf_place ks))|>)
      (upd_procs i (fun p => p <|tfp := tf_place ks|>) (upd_procs i (fun p => p <|kstack := ks|>)
      (d2 <|mem ::= new_stack (code_addr d2) ks|>))))); [reflexivity|by rewrite !upd_procs_compose].
Qed.

(** The stack's page is not on the free list. *)
Lemma free_list_stack d d' ks l :
  page_ok (kend d) ks -> ks ∉ l -> first_stack d d' ks -> freelist d' = freelist d -> kend d' = kend d ->
  free_list d l -> free_list d' l.
Proof.
  intros Hk Hn Hs E1 E2 [H1 H2 H3]. split; rewrite ?E1, ?E2; [|done|done].
  eapply chain_ext; [exact H2| |exact H1]. intros q x Hq Hx. symmetry. apply (fs_rest _ _ _ Hs).
  assert (page_ok (kend d) q) as Hqo by (by eapply Forall_forall in H2).
  assert (V2P (ctx_place ks) = V2P ks + 3996 /\ V2P (tf_place ks) = V2P ks + 4020) as [-> ->].
  { destruct Hk as (_ & _ & Hr). unfold V2P, ctx_place, ret_place, tf_place, TFSIZE, CTXSIZE, KSTACKSIZE, KERNBASE, PHYSTOP in *.
    rewrite !u32_small by (unfold two32; lia). lia. }
  destruct (pages_disjoint _ ks q Hk Hqo) as [Hd|Hd]; [congruence|unfold PGSIZE in Hd; lia..].
Qed.

(** C33: [allocproc] on every path.  With no unused slot it changes nothing.
    Otherwise it takes the first one and gives it the next pid.  With a page for
    the kernel stack the slot is an embryo: [p->tf] points at the top of the
    stack, where the frame is whatever the page holds; below it are the address
    of [trapret] and a context that starts in [forkret] with zero registers,
    and no other memory is written; the other fields of the slot, [killed]
    among them, are what they were, and the page leaves the free list.  Without
    a page the slot is unused again, and the pid is spent.  No other slot
    changes. *)
Theorem allocproc_spec L d l :
  LPtable ∉ L -> LKmem ∉ L -> table_ok d -> free_list d l ->
  Forall (fun k => 0 <= code_addr d k < two32) [Cforkret; Ctrapret] ->
  exists r d', runs c me L allocproc d r d' L /\
    ((forall i, (i < NPROC)%nat -> state (procs d i) <> UNUSED) /\ r = None /\ d' = d \/
     exists i, first_unused d i /\ nextpid d' = i32 (nextpid d + 1) /\
       (forall j, j <> i -> procs d' j = procs d j) /\
       match l with
       | [] => r = None /\ free_list d' [] /\ mem d' = mem d /\
               procs d' i = (procs d i) <|pid := nextpid d|> <|kstack := 0|>
       | p :: l' => r = Some i /\ free_list d' l' /\ procs d' i = embryo (nextpid d) p (mem d) (procs d i) /\
                    first_stack d d' p
       end).
Proof.
  intros HL HK Ht Hl Hca. destruct (least_index (fun i => state (procs d i) = UNUSED) NPROC) as [Hn|(i & Hi)].
  { exists None, d. split; [by apply runs_allocproc_full|]. by left. }
  pose proof (eq_ind_r (fun n => (i < n)%nat) (proj1 Hi) Ht) as Hlt.
  set (d1 := next_pid (upd_procs i (fun p => p <|state := EMBRYO|> <|pid := nextpid d|>) d)).
  assert (free_list d1 l) as Hl1 by by apply (free_list_same d).
  destruct l as [|p l].
  - exists None, (upd_procs i (fun p => p <|kstack := 0|> <|state := UNUSED|>) d1). split.
    { apply (runs_allocproc_some L d d1 i 0); try done; [by apply runs_kalloc_empty|by left]. }
    right. exists i. split_and!; try done.
    + intros j Hne. unfold d1. rewrite procs_upd_other by done. by apply procs_upd_other.
    + by apply (free_list_same d1).
    + rewrite procs_upd_same by (unfold d1, next_pid; getset; by rewrite length_upd_procs).
      unfold d1. change (procs (next_pid ?x) i) with (procs x i). rewrite procs_upd_same by done.
      destruct Hi as (_ & Hu & _). destruct (procs d i). cbn in Hu. by subst.
  - destruct (runs_kalloc c me L d1 p l HK Hl1) as [Hr Hl2].
    set (d2 := d1 <|freelist := load32 (mem d1) (V2P p)|>) in *.
    destruct Hl as [Hch [Hpo Hpl]%Forall_cons [Hnin _]%NoDup_cons].
    assert (p <> 0 /\ (p = 0 \/ KERNBASE <= p < KERNBASE + PHYSTOP)) as [Hp Hpr].
    { destruct Hpo as (_ & _ & Hr'). split; [unfold KERNBASE in Hr'; lia|by right]. }
    set (d3 := upd_procs i (new_slot p (mem d2)) (d2 <|mem ::= new_stack (code_addr d2) p|>)).
    assert (first_stack d d3 p) as Hfs by (by apply (new_stack_first d d3 (kend d))).
    exists (Some i), d3. split.
    { pose proof (runs_allocproc_some L d d2 i p HL Ht Hi Hr eq_refl Hpr) as H.
      by rewrite (proj2 (Z.eqb_neq _ _) Hp) in H. }
    right. exists i. split_and!; try done.
    + intros j Hne. unfold d3. rewrite procs_upd_other by done. by apply procs_upd_other.
    + apply (free_list_stack d2 d3 p); try done. by destruct Hfs.
    + unfold d3. rewrite procs_upd_same by (unfold d2, d1, next_pid; getset; by rewrite length_upd_procs).
      change (procs (d2 <|mem ::= _|>) i) with (procs (upd_procs i (fun p => p <|state := EMBRYO|> <|pid := nextpid d|>) d) i).
      by rewrite procs_upd_same.
Qed.
End Allocproc.

(** Two free pages and an empty process table *)
Lemma ex_unused : first_unused ex_kmem 0.
Proof. split; [unfold NPROC; lia|]. split; [reflexivity|lia]. Qed.
Lemma ex_free : free_list ex_kmem [ex_page 2; ex_page 1].
Proof. apply ex_kstate. Qed.

Lemma allocproc_spec_witness :
  exists r d', runs 0 None [] allocproc ex_kmem r d' [] /\
    ((forall i, (i < NPROC)%nat -> state (procs ex_kmem i) <> UNUSED) /\ r = None /\ d' = ex_kmem \/
     exists i, first_unused ex_kmem i /\ nextpid d' = i32 (nextpid ex_kmem + 1) /\
       (forall j, j <> i -> procs d' j = procs ex_kmem j) /\
       r = Some i /\ free_list d' [ex_page 1] /\
       procs d' i = embryo (nextpid ex_kmem) (ex_page 2) (mem ex_kmem) (procs ex_kmem i) /\
       first_stack ex_kmem d' (ex_page 2)).
Proof.
  apply (allocproc_spec 0 None [] ex_kmem [ex_page 2; ex_page 1]);
    [apply not_elem_of_nil|apply not_elem_of_nil|reflexivity|apply ex_free|repeat constructor; by vm_compute].
Defined.

(** C36: A process can be born dead.  [kill] with the pid that an unused slot
    still carries (0, or that of a thread whose creation failed) succeeds and
    marks the slot; [allocproc] hands the slot out with the mark on it, so that
    the new process, which nobody has killed, exits when it first returns to
    user space. *)
Theorem born_killed c me d i p l :
  table_ok d -> free_list d (p :: l) -> first_unused d i ->
  (forall j, (j < i)%nat -> pid (procs d j) <> pid (procs d i)) ->
  exists d', runs c me [] (kill (pid (procs d i));; allocproc) d (Some i) d' [] /\
    killed (procs d' i) = 1 /\ pid (procs d' i) = nextpid d /\ state (procs d' i) = EMBRYO.
Proof.
  intros Ht Hl Hi Hp. destruct Hi as (Hlt & Hu & Hj).
  pose proof (eq_ind_r (fun n => (i < n)%nat) Hlt Ht) as Hlt'.
  set (d1 := upd_procs i kill_proc d).
  assert (kill_proc (procs d i) = (procs d i) <|killed := 1|>) as Ek.
  { unfold kill_proc. getset. by rewrite bool_decide_false by (by rewrite Hu). }
  assert (procs d1 i = (procs d i) <|killed := 1|>) as E1 by (by unfold d1; rewrite procs_upd_same).
  assert (table_ok d1) as Ht1 by by apply table_ok_upd.
  assert (first_unused d1 i) as Hi1.
  { split; [done|]. rewrite E1. split; [done|]. intros j Hlj. unfold d1.
    rewrite procs_upd_other by lia. by apply Hj. }
  assert (free_list d1 (p :: l)) as Hl1 by by apply (free_list_same d).
  set (d2 := next_pid (upd_procs i (fun p => p <|state := EMBRYO|> <|pid := nextpid d1|>) d1)).
  destruct (runs_kalloc c me [] d2 p l) as [Hr _]; [apply not_elem_of_nil|by apply (free_list_same d1)|].
  set (d3 := d2 <|freelist := load32 (mem d2) (V2P p)|>) in *.
  assert (KERNBASE <= p < KERNBASE + PHYSTOP) as Hpr by (by destruct Hl as [_ [(_ & _ & ?) _]%Forall_cons _]).
  pose proof (runs_allocproc_some c me [] d1 d3 i p (not_elem_of_nil _) Ht1 Hi1 Hr eq_refl (or_intror Hpr)) as Ha.
  assert (p <> 0) as Hp0 by (unfold KERNBASE in Hpr; lia).
  rewrite (proj2 (Z.eqb_neq _ _) Hp0) in Ha. eexists. split.
  { eapply runs_bind; [apply (runs_kill_found c me [] d i); done || apply not_elem_of_nil|exact Ha]. }
  assert (procs d3 i = (procs d1 i) <|state := EMBRYO|> <|pid := nextpid d1|>) as E3.
  { change (procs d3 i) with
      (procs (upd_procs i (fun p => p <|state := EMBRYO|> <|pid := nextpid d1|>) d1) i).
    by rewrite procs_upd_same by (unfold d1; by rewrite length_upd_procs). }
  rewrite procs_upd_same by (unfold d3, d2, next_pid, d1; getset; by rewrite !length_upd_procs).
  change (procs (d3 <|mem ::= _|>) i) with (procs d3 i). unfold new_slot. getset. by rewrite E3, E1.
Qed.

Lemma born_killed_witness :
  exists d', runs 0 None [] (kill 0;; allocproc) ex_kmem (Some 0%nat) d' [] /\
    killed (procs d' 0) = 1 /\ pid (procs d' 0) = nextpid ex_kmem /\ state (procs d' 0) = EMBRYO.
Proof.
  apply (born_killed 0 None ex_kmem 0 (ex_page 2) [ex_page 1]);
    [reflexivity|apply ex_free|apply ex_unused|lia].
Defined.
