(* ===== verification/Sysargs.v ===== *)
(** * System-call arguments (syscall.c: fetchint .. argstr) and the process
    system calls (sysproc.c)

    A call that fails with -1 before it stores to its result pointer is
    [None]; the value stored is in [Some].  The arguments are on the user
    stack, above the saved program counter. *)

From S2P Require Import Prelude Params State CString Spinlock Printk Sched Sleeplock.
From S2P Require Import Kalloc Vm Usercopy Bio Log Fs Pipe File Proc.

Definition fetchint (addr : Z) : K (option Z) :=
  g <- leader;;
  acquire (LVlock g);;
  pr <- get_proc g;;
  if (sz pr <=? addr) || (sz pr <? u32 (addr + 4)) then release (LVlock g);; ret None
  else
    bs <- load_user addr 4;;
    release (LVlock g);;
    ret (Some (i32 (get32 bs 0))).

(** The length of the string at [addr]; the scan stops at the size [ep] the
    process had when it started. *)
Definition fetchstr (addr : Z) : K (option Z) :=
  g <- leader;;
  acquire (LVlock g);;
  pr <- get_proc g;;
  let ep := sz pr in
  if ep <=? addr then release (LVlock g);; ret None
  else
    loop (Z.to_nat (ep - addr) + 1) (fun s =>
      if s <? ep then
        bs <- load_user s 1;;
        if bs !!! 0%nat =? 0 then release (LVlock g);; ret (inr (Some (s - addr)))
        else ret (inl (s + 1))
      else release (LVlock g);; ret (inr None)) addr.

Definition argint (n : Z) : K (option Z) :=
  p <- curproc;;
  pr <- get_proc p;;
  fetchint (u32 (tf_esp (tf pr) + 4 + 4 * n)).

(** A block of [size] bytes: its address. *)
Definition argptr (n size : Z) : K (option Z) :=
  g <- leader;;
  i <- argint n;;
  match i with
  | None => ret None
  | Some i =>
      acquire (LVlock g);;
      pr <- get_proc g;;
      if (size <? 0) || (sz pr <=? u32 i) || (sz pr <? u32 (u32 i + size)) then
        release (LVlock g);; ret None
      else
        release (LVlock g);;
        ret (Some (u32 i))
  end.

(** The string's address and its length. *)
Definition argstr (n : Z) : K (option (Z * Z)) :=
  addr <- argint n;;
  match addr with
  | None => ret None
  | Some addr =>
      r <- fetchstr (u32 addr);;
      ret ((fun len => (u32 addr, len)) <$> r)
  end.

(** [if(m < 0) return -1;] *)
Definition or_fail {A} (m : K (option A)) (k : A -> K Z) : K Z :=
  r <- m;;
  match r with Some a => k a | None => ret (-1) end.
Notation "x <-! m ;; k" := (or_fail m (fun x => k))
  (at level 100, m at next level, right associativity) : kernel_scope.

(** ** sysproc.c *)

Definition sys_park : K Z :=
  ch <-! argint 0;;
  park (CAddr (u32 ch)).

Definition sys_unpark : K Z :=
  id <-! argint 0;;
  ch <-! argint 1;;
  unpark id (CAddr (u32 ch)).

Definition sys_join : K Z :=
  id <-! argint 0;;
  join id.

Definition sys_wait : K Z := wait.

Definition sys_kill : K Z :=
  id <-! argint 0;;
  kill id.

Definition sys_getpid : K Z :=
  p <- curproc;;
  pr <- get_proc p;;
  ret (pid pr).

(** The size is read without the lock that [growproc] takes. *)
Definition sys_sbrk : K Z :=
  n <-! argint 0;;
  g <- leader;;
  pr <- get_proc g;;
  let addr := i32 (sz pr) in
  r <- growproc n;;
  if r <? 0 then ret (-1) else ret addr.

(** [ticks - ticks0 < n] compares unsigned numbers. *)
Definition sleep_body (ticks0 n : Z) (_ : unit) : K (unit + Z) :=
  t <- getd ticks;;
  if u32 (t - ticks0) <? u32 n then
    p <- curproc;;
    pr <- get_proc p;;
    if negb (killed pr =? 0) then release LTicks;; ret (inr (-1))
    else sleep CTicks LTicks;; ret (inl tt)
  else
    release LTicks;;
    ret (inr 0).

Definition sys_sleep : K Z :=
  n <-! argint 0;;
  acquire LTicks;;
  ticks0 <- getd ticks;;
  retry (sleep_body ticks0 n).

Definition sys_uptime : K Z :=
  acquire LTicks;;
  xticks <- getd ticks;;
  release LTicks;;
  ret (i32 xticks).

Section Sysproc.
Context `{BlockOps, DevOps}.

Definition sys_fork : K Z := fork.

Definition sys_clone : K Z :=
  fn <-! argptr 0 0;;
  arg1 <-! argptr 1 0;;
  arg2 <-! argptr 2 0;;
  stack <-! argint 3;;
  flags <-! argint 4;;
  if (KERNBASE <? u32 stack) || (KERNBASE <=? u32 (u32 stack - 4096)) then ret (-1) else
  clone fn arg1 arg2 (u32 stack) flags.

Definition sys_exit : K Z := exit;; ret 0.
End Sysproc.
