(* ===== verification/Exec.v ===== *)
(** * Program loading (exec.c, vm.c: loaduvm)

    A [goto bad] is [None]; the cleanup behind the label is [exec_bad].  The
    argument strings are read where they are, in the user memory that is being
    replaced. *)

From S2P Require Import Prelude Params State CString Spinlock Printk Sched Sleeplock.
From S2P Require Import Kalloc Vm Usercopy Bio Log Fs Pipe File Proc.

(** ** elf.h *)

Definition ELF_MAGIC : Z := 0x464C457F.
Definition ELF_PROG_LOAD : Z := 1.
Definition ELFHDRSIZE : Z := 52.
Definition PROGHDRSIZE : Z := 32.

Definition elf_magic (h : list Z) : Z := get32 h 0.
Definition elf_entry (h : list Z) : Z := get32 h 24.
Definition elf_phoff (h : list Z) : Z := get32 h 28.
Definition elf_phnum (h : list Z) : Z := get16 h 44.

Definition ph_type (h : list Z) : Z := get32 h 0.
Definition ph_off (h : list Z) : Z := get32 h 4.
Definition ph_vaddr (h : list Z) : Z := get32 h 8.
Definition ph_filesz (h : list Z) : Z := get32 h 16.
Definition ph_memsz (h : list Z) : Z := get32 h 20.

(** The length of a string in user memory.  A string that does not end below
    the fuel is one that another thread changed after [fetchstr] had looked at
    it. *)
Definition user_strlen (fuel : nat) (s : Z) : K Z :=
  loop fuel (fun n =>
    bs <- load_user (u32 (s + n)) 1;;
    ret (if bs !!! 0%nat =? 0 then inr n else inl (n + 1))) 0.

(** The part of a path behind its last slash, with the terminator; [None] when
    there is no terminator. *)
Fixpoint path_last (s last : list Z) : option (list Z) :=
  match s with
  | [] => None
  | c :: s => if c =? 0 then Some last else path_last s (if c =? SLASH then s else last)
  end.

(** ** The other threads of the process *)

(** [if(p->tgid == curproc->tgid && p->pid != curproc->pid) ...] *)
Definition kill_thread (cur i : nat) : K unit :=
  p <- get_proc i;; c <- get_proc cur;;
  when ((tgid p =? tgid c) && negb (pid p =? pid c))
    (set_proc i (fun p => p <|killed := 1|>);;
     p <- get_proc i;;
     when (bool_decide (state p = SLEEPING)) (set_proc i (fun p => p <|state := RUNNABLE|>))).

Definition thread_alive (cur i : nat) : K (option unit) :=
  p <- get_proc i;; c <- get_proc cur;;
  ret (if (tgid p =? tgid c) && negb (bool_decide (i = cur))
          && negb (bool_decide (state p = ZOMBIE)) then Some tt else None).

Definition threads_body (cur : nat) (_ : unit) : K (unit + unit) :=
  alive <- foreach (seq 0 NPROC) (thread_alive cur);;
  match alive with
  | Some _ =>
      c <- get_proc cur;;
      sleep (proc_chan (process c)) LPtable;;
      ret (inl tt)
  | None => ret (inr tt)
  end.

(** The end of the other threads; [false] when the caller has been killed. *)
Definition exec_threads (cur : nat) : K bool :=
  acquire LPtable;;
  c <- get_proc cur;;
  if negb (killed c =? 0) then release LPtable;; ret false else
  iter (seq 0 NPROC) (kill_thread cur);;
  release LPtable;;
  acquire LPtable;;
  retry (threads_body cur);;
  release LPtable;;
  c <- get_proc cur;;
  g <- deref (process c);;
  set_proc g (fun p => p <|pid := pid c|>);;
  set_proc cur (fun p => p <|pid := tgid p|>);;
  set_proc g (fun p => p <|threadcount := 1|>);;
  initlock (LVlock g) "vlock";;
  initlock (LCwd g) "cwdlock";;
  set_proc g (fun p => p <|lostwakeup := null|>);;
  ret true.

Section Exec.
Context `{BlockOps, DevOps}.

(** ** vm.c: loaduvm *)

Definition loaduvm (pgdir addr : Z) (ip : nat) (offset size : Z) : K Z :=
  if negb (addr mod PGSIZE =? 0) then panic "loaduvm: addr must be page aligned" else
  loop (Z.to_nat (size / PGSIZE) + 2) (fun i =>
    if i <? size then
      pte <- walkpgdir pgdir (u32 (addr + i)) false;;
      if pte =? 0 then panic "loaduvm: address should exist" else
      e <- kload pte;;
      let pa := PTE_ADDR e in
      let n := if size - i <? PGSIZE then size - i else PGSIZE in
      ' (r, bs) <- readi ip ToKernel (u32 (offset + i)) n;;
      kmemmove_in (P2V pa) bs;;
      if negb (r =? n) then ret (inr (-1)) else ret (inl (u32 (i + PGSIZE)))
    else ret (inr 0)) 0.

(** ** exec.c *)

(** One round of the load loop: the new [sz]. *)
Definition exec_segment (ip : nat) (pd off sz : Z) : K (option Z) :=
  ' (r, ph) <- readi ip ToKernel (u32 off) PROGHDRSIZE;;
  if negb (r =? PROGHDRSIZE) then ret None else
  if negb (ph_type ph =? ELF_PROG_LOAD) then ret (Some sz) else
  if ph_memsz ph <? ph_filesz ph then ret None else
  if u32 (ph_vaddr ph + ph_memsz ph) <? ph_vaddr ph then ret None else
  sz <- allocuvm pd sz (u32 (ph_vaddr ph + ph_memsz ph));;
  if sz =? 0 then ret None else
  if negb (ph_vaddr ph mod PGSIZE =? 0) then ret None else
  r <- loaduvm pd (ph_vaddr ph) ip (ph_off ph) (ph_filesz ph);;
  if r <? 0 then ret None else ret (Some sz).

Definition exec_load (ip : nat) (pd : Z) (elf : list Z) : K (option Z) :=
  loop (Z.to_nat (elf_phnum elf) + 1) (fun '(i, off, sz) =>
    if i <? elf_phnum elf then
      r <- exec_segment ip pd off sz;;
      match r with
      | None => ret (inr None)
      | Some sz => ret (inl (i + 1, i32 (off + PROGHDRSIZE), sz))
      end
    else ret (inr (Some sz))) (0, i32 (elf_phoff elf), 0).

(** The argument strings below [sp]: the final [sp] and their addresses.
    [argv] is the array of pointers, its last entry null. *)
Fixpoint exec_args (fuel : nat) (pd sp : Z) (argv : list Z) (ustack : list Z)
    : K (option (Z * list Z)) :=
  match argv with
  | [] => fault
  | a :: argv =>
      if a =? 0 then ret (Some (sp, ustack)) else
      if MAXARG <=? Z.of_nat (length ustack) then ret None else
      n <- user_strlen fuel a;;
      let sp := Z.land (u32 (sp - (n + 1))) (Z.lnot 3) in
      n <- user_strlen fuel a;;
      bs <- load_user a (Z.to_nat (n + 1));;
      r <- copyout pd sp bs;;
      if r <? 0 then ret None else exec_args fuel pd sp argv (ustack ++ [sp])
  end.

(** The stack: the argument strings, then the fake return address, [argc], the
    [argv] pointer and the array [argv].  The result is [sz] and [sp]. *)
Definition exec_stack (fuel : nat) (pd sz : Z) (argv : list Z) : K (option (Z * Z)) :=
  let sz := PGROUNDUP sz in
  sz <- allocuvm pd sz (u32 (sz + 2 * PGSIZE));;
  if sz =? 0 then ret None else
  clearpteu pd (u32 (sz - 2 * PGSIZE));;
  r <- exec_args fuel pd sz argv [];;
  match r with
  | None => ret None
  | Some (sp, args) =>
      let argc := Z.of_nat (length args) in
      let ustack := [0xffffffff; argc; u32 (sp - (argc + 1) * 4)] ++ args ++ [0] in
      let sp := u32 (sp - (3 + argc + 1) * 4) in
      r <- copyout pd sp (mjoin (le32 <$> ustack));;
      ret (if r <? 0 then None else Some (sz, sp))
  end.

(** [bad:] *)
Definition exec_bad (pd : Z) (ip : option nat) : K Z :=
  when (negb (pd =? 0)) (freevm pd);;
  match ip with
  | Some ip => iunlockput ip;; end_op
  | None => ret tt
  end;;
  ret (-1).

(** The switch to the new image *)
Definition exec_commit (cur : nat) (path : list Z) (pd sz sp entry : Z) : K Z :=
  last <- deref (path_last path path);;
  set_name cur last;;
  initlock (LVlock cur) "vlock";;
  acquire (LVlock cur);;
  c <- get_proc cur;;
  let oldpgdir := pgdir c in
  set_proc cur (fun p => p <|pgdir := pd|>);;
  set_proc cur (fun p => p <|State.sz := sz|>);;
  release (LVlock cur);;
  set_proc cur (fun p => p <|tf ::= fun t => t <|tf_eip := entry|>|>);;
  set_proc cur (fun p => p <|tf ::= fun t => t <|tf_esp := sp|>|>);;
  switchuvm (Some cur);;
  freevm oldpgdir;;
  ret 0.

Definition exec (path : list Z) (argv : list Z) : K Z :=
  cur <- curproc;;
  ok <- exec_threads cur;;
  if negb ok then ret (-1) else
  begin_op;;
  r <- namei path;;
  match r with
  | None => end_op;; printk "exec: fail";; ret (-1)
  | Some ip =>
      ilock (Some ip);;
      ' (r, elf) <- readi ip ToKernel 0 ELFHDRSIZE;;
      if negb (r =? ELFHDRSIZE) then exec_bad 0 (Some ip) else
      if negb (elf_magic elf =? ELF_MAGIC) then exec_bad 0 (Some ip) else
      pd <- setupkvm;;
      if pd =? 0 then exec_bad 0 (Some ip) else
      r <- exec_load ip pd elf;;
      match r with
      | None => exec_bad pd (Some ip)
      | Some sz =>
          iunlockput ip;;
          end_op;;
          g <- leader;;
          lp <- get_proc g;;
          r <- exec_stack (Z.to_nat (State.sz lp)) pd sz argv;;
          match r with
          | None => exec_bad pd None
          | Some (sz, sp) => exec_commit cur path pd sz sp (elf_entry elf)
          end
      end
  end.
End Exec.
