(* ===== verification/Sysfile.v ===== *)
(** * File system calls (sysfile.c) *)

From S2P Require Import Prelude Params State CString Spinlock Printk Sched Sleeplock.
From S2P Require Import Kalloc Vm Usercopy Bio Log Fs Pipe File Proc Sysargs Exec.

(** The descriptor and its file. *)
Definition argfd (n : Z) : K (option (Z * nat)) :=
  r <- argint n;;
  match r with
  | None => ret None
  | Some fd =>
      if (fd <? 0) || (Z.of_nat NOFILE <=? fd) then ret None else
      p <- curproc;;
      pr <- get_proc p;;
      ret ((fun f => (fd, f)) <$> (ofile pr !!! Z.to_nat fd))
  end.

Definition fdalloc (f : nat) : K (option Z) :=
  cur <- curproc;;
  foreach (seq 0 NOFILE) (fun fd =>
    c <- get_proc cur;;
    match ofile c !!! fd with
    | None =>
        set_proc cur (fun p => p <|ofile ::= <[fd := Some f]>|>);;
        ret (Some (Z.of_nat fd))
    | Some _ => ret None
    end).

(** [copy_str_from_user(spath, path, NUSERSTRING)] into an array on the stack:
    the array's contents. *)
Definition user_path (path : Z) : K (option (list Z)) :=
  ' (r, bs) <- copy_str_from_user path NUSERSTRING;;
  jk <- getd junk;;
  ret (if r <? 0 then None else Some (overlay bs (take (Z.to_nat NUSERSTRING) jk))).

Definition dot : list Z := [46; 0].
Definition dotdot : list Z := [46; 46; 0].

(** [char name[DIRSIZ]], not initialised *)
Definition name_buf : K (list Z) := jk <- getd junk;; ret (take (Z.to_nat DIRSIZ) jk).

Section Sysfile.
Context `{BlockOps, DevOps}.

Definition sys_dup : K Z :=
  x <-! argfd 0;;
  fd <-! fdalloc x.2;;
  filedup x.2;;
  ret fd.

(** The arguments of [sys_read] and [sys_write]: file, address, count. *)
Definition args_rw (k : nat -> Z -> Z -> K Z) : K Z :=
  x <-! argfd 0;;
  n <-! argint 2;;
  p <-! argptr 1 n;;
  k x.2 p n.

Definition sys_read : K Z :=
  args_rw (fun f p n =>
    iter (seq 0 100) (fun _ => yield);;
    fileread f p n).

Definition sys_write : K Z := args_rw filewrite.

Definition sys_close : K Z :=
  x <-! argfd 0;;
  p <- curproc;;
  set_proc p (fun pr => pr <|ofile ::= <[Z.to_nat x.1 := None]>|>);;
  fileclose x.2;;
  ret 0.

(** [sizeof(struct stat)] *)
Definition STATSIZE : Z := 20.

Definition sys_fstat : K Z :=
  x <-! argfd 0;;
  st <-! argptr 1 STATSIZE;;
  filestat x.2 st.

Definition add_nlink (ip : nat) (n : Z) : K unit :=
  set_inode ip (fun i => i <|inlink ::= fun k => i16 (k + n)|>).

Definition link_bad (ip : nat) : K Z :=
  ilock (Some ip);;
  add_nlink ip (-1);;
  iupdate ip;;
  iunlockput ip;;
  end_op;;
  ret (-1).

Definition sys_link : K Z :=
  old <-! argstr 0;;
  new <-! argstr 1;;
  sold <-! user_path old.1;;
  snew <-! user_path new.1;;
  begin_op;;
  r <- namei sold;;
  match r with
  | None => end_op;; ret (-1)
  | Some ip =>
      ilock (Some ip);;
      i <- get_inode ip;;
      if itype i =? T_DIR then iunlockput ip;; end_op;; ret (-1) else
      add_nlink ip 1;;
      iupdate ip;;
      iunlock (Some ip);;
      nm <- name_buf;;
      ' (r, nm) <- nameiparent snew nm;;
      match r with
      | None => link_bad ip
      | Some dp =>
          ilock (Some dp);;
          d <- get_inode dp;;
          i <- get_inode ip;;
          ok <- (if negb (idev d =? idev i) then ret false
                 else r <- dirlink dp nm (inum i);; ret (negb (r <? 0)));;
          if negb ok then iunlockput dp;; link_bad ip else
          iunlockput dp;;
          iput ip;;
          end_op;;
          ret 0
      end
  end.

(** [off] starts behind the entries "." and "..". *)
Definition isdirempty (dp : nat) : K bool :=
  d <- get_inode dp;;
  loop (Z.to_nat (isize d / DIRENTSIZE) + 2) (fun off =>
    d <- get_inode dp;;
    if off <? isize d then
      ' (r, de) <- readi dp ToKernel off DIRENTSIZE;;
      if negb (r =? DIRENTSIZE) then panic "isdirempty: readi" else
      if negb (de_inum de =? 0) then ret (inr false) else ret (inl (off + DIRENTSIZE))
    else ret (inr true)) (2 * DIRENTSIZE).

Definition unlink_bad (dp : nat) : K Z := iunlockput dp;; end_op;; ret (-1).

(** The entry at [off] of directory [dp] names [ip]; both are locked. *)
Definition unlink_entry (dp ip : nat) (off : Z) : K Z :=
  r <- writei dp (FromKernel (replicate (Z.to_nat DIRENTSIZE) 0)) off DIRENTSIZE;;
  if negb (r =? DIRENTSIZE) then panic "unlink: writei" else
  i <- get_inode ip;;
  when (itype i =? T_DIR) (add_nlink dp (-1);; iupdate dp);;
  iunlockput dp;;
  add_nlink ip (-1);;
  iupdate ip;;
  iunlockput ip;;
  end_op;;
  ret 0.

Definition sys_unlink : K Z :=
  path <-! argstr 0;;
  spath <-! user_path path.1;;
  begin_op;;
  nm <- name_buf;;
  ' (r, nm) <- nameiparent spath nm;;
  match r with
  | None => end_op;; ret (-1)
  | Some dp =>
      ilock (Some dp);;
      if (namecmp (of_bytes nm) (of_bytes dot) =? 0)
         || (namecmp (of_bytes nm) (of_bytes dotdot) =? 0) then unlink_bad dp else
      r <- dirlookup dp nm;;
      match r with
      | None => unlink_bad dp
      | Some (ip, off) =>
          ilock (Some ip);;
          i <- get_inode ip;;
          if inlink i <? 1 then panic "unlink: nlink < 1" else
          empty <- (if itype i =? T_DIR then isdirempty ip else ret true);;
          if negb empty then iunlockput ip;; unlink_bad dp else
          unlink_entry dp ip off
      end
  end.

(** The new inode of [create], locked, with its entry in [dp]. *)
Definition create_new (dp : nat) (nm : list Z) (type major minor : Z) : K (option nat) :=
  d <- get_inode dp;;
  ip <- ialloc (idev d) type;;
  ilock (Some ip);;
  set_inode ip (fun i => i <|imajor := major|>);;
  set_inode ip (fun i => i <|iminor := minor|>);;
  set_inode ip (fun i => i <|inlink := 1|>);;
  iupdate ip;;
  when (type =? T_DIR)
    (add_nlink dp 1;;
     iupdate dp;;
     i <- get_inode ip;;
     r <- dirlink ip dot (inum i);;
     if r <? 0 then panic "create dots" else
     d <- get_inode dp;;
     r <- dirlink ip dotdot (inum d);;
     if r <? 0 then panic "create dots" else ret tt);;
  i <- get_inode ip;;
  r <- dirlink dp nm (inum i);;
  if r <? 0 then panic "create: dirlink" else
  iunlockput dp;;
  ret (Some ip).

Definition create (path : list Z) (type major minor : Z) : K (option nat) :=
  nm <- name_buf;;
  ' (r, nm) <- nameiparent path nm;;
  match r with
  | None => ret None
  | Some dp =>
      ilock (Some dp);;
      r <- dirlookup dp nm;;
      match r with
      | Some (ip, _) =>
          iunlockput dp;;
          ilock (Some ip);;
          i <- get_inode ip;;
          if (type =? T_FILE) && (itype i =? T_FILE) then ret (Some ip)
          else iunlockput ip;; ret None
      | None => create_new dp nm type major minor
      end
  end.

(** The inode that [sys_open] opens, locked. *)
Definition open_inode (spath : list Z) (omode : Z) : K (option nat) :=
  if negb (Z.land omode O_CREATE =? 0) then create spath T_FILE 0 0
  else
    r <- namei spath;;
    match r with
    | None => ret None
    | Some ip =>
        ilock (Some ip);;
        i <- get_inode ip;;
        if (itype i =? T_DIR) && negb (omode =? O_RDONLY) then iunlockput ip;; ret None
        else ret (Some ip)
    end.

Definition open_file (f ip : nat) (omode : Z) : K unit :=
  let w := negb (Z.land omode O_WRONLY =? 0) in
  let rw := negb (Z.land omode O_RDWR =? 0) in
  set_file f (fun x => x <|ftype := FD_INODE|>);;
  set_file f (fun x => x <|fip := Some ip|>);;
  set_file f (fun x => x <|foff := 0|>);;
  set_file f (fun x => x <|readable := Z.b2z (negb w)|>);;
  set_file f (fun x => x <|writable := Z.b2z (w || rw)|>).

Definition sys_open : K Z :=
  path <-! argstr 0;;
  omode <-! argint 1;;
  spath <-! user_path path.1;;
  begin_op;;
  r <- open_inode spath omode;;
  match r with
  | None => end_op;; ret (-1)
  | Some ip =>
      f <- filealloc;;
      fd <- (match f with Some f => fdalloc f | None => ret None end);;
      match f, fd with
      | Some f, Some fd =>
          iunlock (Some ip);;
          end_op;;
          open_file f ip omode;;
          ret fd
      | _, _ =>
          match f with Some f => fileclose f | None => ret tt end;;
          iunlockput ip;;
          end_op;;
          ret (-1)
      end
  end.

(** [argstr(0, &path) < 0 || copy_str_from_user(spath, path, NUSERSTRING) < 0] *)
Definition path_arg : K (option (list Z)) :=
  r <- argstr 0;;
  match r with
  | None => ret None
  | Some path => user_path path.1
  end.

(** What [sys_mkdir] and [sys_mknod] do with the inode. *)
Definition made (r : option nat) : K Z :=
  match r with
  | None => end_op;; ret (-1)
  | Some ip => iunlockput ip;; end_op;; ret 0
  end.

Definition sys_mkdir : K Z :=
  begin_op;;
  p <- path_arg;;
  ip <- (match p with Some spath => create spath T_DIR 0 0 | None => ret None end);;
  made ip.

Definition sys_mknod : K Z :=
  begin_op;;
  path <- argstr 0;;
  major <- (match path with Some _ => argint 1 | None => ret None end);;
  minor <- (match major with Some _ => argint 2 | None => ret None end);;
  ip <- (match path, major, minor with
         | Some path, Some major, Some minor =>
             s <- user_path path.1;;
             match s with
             | Some spath => create spath T_DEV (i16 major) (i16 minor)
             | None => ret None
             end
         | _, _, _ => ret None
         end);;
  made ip.

Definition sys_chdir : K Z :=
  begin_op;;
  p <- path_arg;;
  r <- (match p with Some spath => namei spath | None => ret None end);;
  match r with
  | None => end_op;; ret (-1)
  | Some ip =>
      ilock (Some ip);;
      i <- get_inode ip;;
      if negb (itype i =? T_DIR) then iunlockput ip;; end_op;; ret (-1) else
      iunlock (Some ip);;
      g <- leader;;
      acquire (LCwd g);;
      pr <- get_proc g;;
      let oldwd := cwd pr in
      release (LCwd g);;
      oldwd <- deref oldwd;;
      iput oldwd;;
      end_op;;
      acquire (LCwd g);;
      set_proc g (fun pr => pr <|cwd := Some ip|>);;
      release (LCwd g);;
      ret 0
  end.

(** The pointers of the user's [argv], the null one included; [None] when a
    pointer is bad or there are too many.  [fuel] rounds are left. *)
Fixpoint exec_argv (fuel : nat) (uargv : Z) (argv : list Z) : K (option (list Z)) :=
  match fuel with
  | O => ret None
  | S fuel =>
      r <- fetchint (u32 (uargv + 4 * Z.of_nat (length argv)));;
      match r with
      | None => ret None
      | Some uarg =>
          let uarg := u32 uarg in
          if uarg =? 0 then ret (Some (argv ++ [0])) else
          s <- fetchstr uarg;;
          match s with
          | None => ret None
          | Some _ => exec_argv fuel uargv (argv ++ [uarg])
          end
      end
  end.

Definition sys_exec : K Z :=
  path <-! argstr 0;;
  uargv <-! argint 1;;
  spath <-! user_path path.1;;
  argv <-! exec_argv (Z.to_nat MAXARG) (u32 uargv) [];;
  exec spath argv.

Definition sys_pipe : K Z :=
  fd <-! argptr 0 8;;
  rw <-! pipealloc;;
  let ' (rf, wf) := rw in
  fd0 <- fdalloc rf;;
  fd1 <- (match fd0 with Some _ => fdalloc wf | None => ret None end);;
  match fd0, fd1 with
  | Some fd0, Some fd1 =>
      store_user fd (le32 fd0);;
      store_user (u32 (fd + 4)) (le32 fd1);;
      ret 0
  | _, _ =>
      match fd0 with
      | Some fd0 =>
          p <- curproc;;
          set_proc p (fun pr => pr <|ofile ::= <[Z.to_nat fd0 := None]>|>)
      | None => ret tt
      end;;
      fileclose rf;;
      fileclose wf;;
      ret (-1)
  end.
End Sysfile.
