(* ===== verification/Console.v ===== *)
(** * Console input (console.c: consoleintr .. consoleinit; kbd.c; uart.c) and
    the process listing (proc.c: procdump)

    Typed characters go to a ring [input.buf] with three running indices: [r],
    the next character to read, [w], the end of the complete lines, [e], the
    end of the line being edited.  The keyboard controller and the serial port
    are the bytes they still hold. *)

From S2P Require Import Prelude Params State CString Spinlock Printk Sched Sleeplock.
From S2P Require Import Kalloc Vm Usercopy Bio Log Fs Pipe File Proc.

(** ** kbd.h *)

Definition SHIFT : Z := 1.
Definition CTL : Z := 2.
Definition ALT : Z := 4.
Definition CAPSLOCK : Z := 8.
Definition NUMLOCK : Z := 16.
Definition SCROLLLOCK : Z := 32.
Definition E0ESC : Z := 64.
Definition NO : Z := 0.

(** An array of 256 bytes: its first entries, then the designated ones. *)
Definition table (base : list Z) (keys : list (nat * Z)) : list Z :=
  foldr (fun '(k, v) t => <[k := v]> t) (base ++ replicate (256 - length base) NO) keys.

Definition shiftcode : list Z :=
  table [] [(0x1D, CTL); (0x2A, SHIFT); (0x36, SHIFT); (0x38, ALT); (0x9D, CTL); (0xB8, ALT)]%nat.
Definition togglecode : list Z :=
  table [] [(0x3A, CAPSLOCK); (0x45, NUMLOCK); (0x46, SCROLLLOCK)]%nat.

(** The keys behind an escape: arrows, page keys and the like *)
Definition keypad (enter slash : Z) : list (nat * Z) :=
  [(0x9C, enter); (0xB5, slash); (0xC8, 0xE2%Z); (0xD0, 0xE3%Z); (0xC9, 0xE6%Z);
   (0xD1, 0xE7%Z); (0xCB, 0xE4%Z); (0xCD, 0xE5%Z); (0x97, 0xE0%Z); (0xCF, 0xE1%Z);
   (0xD2, 0xE8%Z); (0xD3, 0xE9%Z)]%nat.

(** The last two and a half rows of [normalmap] and [shiftmap] *)
Definition numpad : list Z :=
  [NO; 32; NO; NO; NO; NO; NO; NO; NO; NO; NO; NO; NO; NO; NO] ++ lit "789-456+1230.".

Definition normalmap : list Z :=
  table ([NO; 0x1B] ++ lit "1234567890-=" ++ [8; 9] ++ lit "qwertyuiop[]" ++ [10; NO]
         ++ lit "asdfghjkl;'`" ++ [NO] ++ lit "\zxcvbnm,./" ++ [NO] ++ lit "*" ++ numpad)
    (keypad 10 47).
Definition shiftmap : list Z :=
  table ([NO; 27] ++ lit "!@#$%^&*()_+" ++ [8; 9] ++ lit "QWERTYUIOP{}" ++ [10; NO]
         ++ lit "ASDFGHJKL:" ++ [34] ++ lit "~" ++ [NO] ++ lit "|ZXCVBNM<>?" ++ [NO]
         ++ lit "*" ++ numpad)
    (keypad 10 47).

(** [C(x)], as stored in an [uchar] *)
Definition ctl (x : Z) : Z := u8 (x - 64).
Definition ctlmap : list Z :=
  table (replicate 16 NO ++ (ctl <$> lit "QWERTYUIOP") ++ [NO; NO; 13; NO]
         ++ (ctl <$> lit "ASDFGHJKL") ++ [NO; NO; NO; NO] ++ (ctl <$> lit "\ZXCVBNM")
         ++ [NO; NO; ctl 47; NO; NO])
    (keypad 13 (ctl 47)).

(** ** kbd.c *)

Definition charcode (shift : Z) : list Z :=
  let k := Z.land shift (Z.lor CTL SHIFT) in
  if k =? 0 then normalmap else if k =? SHIFT then shiftmap else ctlmap.

Definition swap_case (c : Z) : Z :=
  if (97 <=? c) && (c <=? 122) then c + (65 - 97)
  else if (65 <=? c) && (c <=? 90) then c + (97 - 65) else c.

(** One scan code, with the modifier state [shift]: the new state and the
    character; [None] for an access outside the tables. *)
Definition kbd_decode (shift data : Z) : option (Z * Z) :=
  if data =? 0xE0 then Some (Z.lor shift E0ESC, 0)
  else if negb (Z.land data 0x80 =? 0) then
    let data := if negb (Z.land shift E0ESC =? 0) then data else Z.land data 0x7F in
    sc ← shiftcode !! Z.to_nat data;
    Some (Z.land shift (Z.lnot (Z.lor sc E0ESC)), 0)
  else
    let esc := negb (Z.land shift E0ESC =? 0) in
    let data := if esc then Z.lor data 0x80 else data in
    let shift := if esc then Z.land shift (Z.lnot E0ESC) else shift in
    sc ← shiftcode !! Z.to_nat data;
    let shift := Z.lor shift sc in
    tc ← togglecode !! Z.to_nat data;
    let shift := Z.lxor shift tc in
    c ← charcode shift !! Z.to_nat data;
    Some (shift, if negb (Z.land shift CAPSLOCK =? 0) then swap_case c else c).

(** [inb] gives a byte. *)
Definition kbdgetc : K Z :=
  q <- getd kbd_in;;
  match q with
  | [] => ret (-1)
  | data :: q =>
      setd (fun d => d <|kbd_in := q|>);;
      let data := u8 data in
      shift <- getd kbd_shift;;
      ' (shift, c) <- deref (kbd_decode shift data);;
      setd (fun d => d <|kbd_shift := shift|>);;
      ret c
  end.

(** ** uart.c *)

Definition uartgetc : K Z :=
  u <- getd uart;;
  if u =? 0 then ret (-1) else
  q <- getd serial_in;;
  match q with
  | [] => ret (-1)
  | c :: q => setd (fun d => d <|serial_in := q|>);; ret c
  end.

(** ** spinlock.c: getcallerpcs; proc.c: procdump *)

(** The saved program counters, following the chain of frame pointers. *)
Fixpoint getcallerpcs (n : nat) (ebp : Z) : K (list Z) :=
  match n with
  | O => ret []
  | S m =>
      if (ebp =? 0) || (ebp <? KERNBASE) || (ebp =? 0xffffffff) then ret (replicate n 0) else
      pc <- kload (u32 (ebp + 4));;
      ebp <- kload ebp;;
      pcs <- getcallerpcs m ebp;;
      ret (pc :: pcs)
  end.

Definition state_name (st : procstate) : list Z :=
  lit (match st with
       | UNUSED => "unused" | EMBRYO => "embryo" | SLEEPING => "sleep "
       | RUNNABLE => "runble" | RUNNING => "run   " | ZOMBIE => "zombie"
       end).

(** [for(i=0; i<10 && pc[i] != 0; i++) cprintf(" %p", pc[i]);] *)
Definition print_pcs (pcs : list Z) : K unit :=
  iter (until0 pcs) (fun pc => cprintf (lit " %p") [AInt pc]).

Definition procdump : K unit :=
  iter (seq 0 NPROC) (fun i =>
    p <- get_proc i;;
    if bool_decide (state p = UNUSED) then ret tt else
    cprintf (lit "%d %s %s") [AInt (pid p); AStr (Some (state_name (state p)));
                              AStr (Some (until0 (name p)))];;
    p <- get_proc i;;
    when (bool_decide (state p = SLEEPING))
      (ctx <- deref (pcontext p);;
       pcs <- getcallerpcs 10 (ctx_ebp ctx);;
       print_pcs pcs);;
    cprintf [NEWLINE] []).

(** ** console.c: the interrupt side *)

Definition CTRL_D : Z := 4.
Definition CTRL_H : Z := 8.
Definition CTRL_P : Z := 16.
Definition CTRL_U : Z := 21.
Definition DEL : Z := 0x7f.

Definition set_inp (f : input -> input) : K unit := setd (fun d => d <|inp ::= f|>).

(** [input.buf[k % INPUT_BUF]] *)
Definition in_at (i : input) (k : Z) : Z := in_buf i !!! Z.to_nat (u32 k mod INPUT_BUF).

Definition erase : K unit :=
  set_inp (fun i => i <|in_e ::= fun e => u32 (e - 1)|>);;
  consputc BACKSPACE.

Definition kill_line : K unit :=
  i <- getd inp;;
  loop (Z.to_nat (u32 (in_e i - in_w i)) + 1) (fun _ =>
    i <- getd inp;;
    if negb (in_e i =? in_w i) && negb (in_at i (in_e i - 1) =? NEWLINE) then
      erase;; ret (inl tt)
    else ret (inr tt)) tt.

Definition put_char (c : Z) (i : input) : input :=
  i <|in_buf ::= <[Z.to_nat (in_e i mod INPUT_BUF) := u8 c]>|>
    <|in_e ::= fun e => u32 (e + 1)|>.

(** The default case of the switch *)
Definition accept_char (c : Z) : K unit :=
  i <- getd inp;;
  if negb (c =? 0) && (u32 (in_e i - in_r i) <? INPUT_BUF) then
    let c := if c =? 13 then NEWLINE else c in
    set_inp (put_char c);;
    consputc c;;
    i <- getd inp;;
    when ((c =? NEWLINE) || (c =? CTRL_D) || (in_e i =? u32 (in_r i + INPUT_BUF)))
      (set_inp (fun i => i <|in_w := in_e i|>);;
       wakeup CInput)
  else ret tt.

Definition backspace : K unit :=
  i <- getd inp;;
  when (negb (in_e i =? in_w i)) erase.

(** The loop of [consoleintr]; the result is [doprocdump]. *)
Definition console_chars (fuel : nat) (getc : K Z) : K bool :=
  loop fuel (fun doprocdump : bool =>
    c <- getc;;
    if c <? 0 then ret (inr doprocdump) else
    if c =? CTRL_P then ret (inl true) else
    (if c =? CTRL_U then kill_line
     else if (c =? CTRL_H) || (c =? DEL) then backspace
     else accept_char c);;
    ret (inl doprocdump)) false.

(** [fuel]: one more than the characters [getc] can still return. *)
Definition consoleintr (fuel : nat) (getc : K Z) : K unit :=
  acquire LCons;;
  doprocdump <- console_chars fuel getc;;
  release LCons;;
  when doprocdump procdump.

Definition kbdintr : K unit :=
  q <- getd kbd_in;;
  consoleintr (length q + 1) kbdgetc.

Definition uartintr : K unit :=
  q <- getd serial_in;;
  consoleintr (length q + 1) uartgetc.

(** ** console.c: reading and writing *)

Section Console.
Context `{BlockOps}.

(** A buffer that is not inside the process.  The kernel's own buffers never
    are: they are above [KERNBASE]. *)
Definition outside (size a n : Z) : bool := (size <=? a) || (size <? u32 (a + n)).

(** [release(vlock); release(&cons.lock); ilock(ip); return r;] *)
Definition console_done {A} (g ip : nat) (r : A) : K A :=
  release (LVlock g);;
  release LCons;;
  ilock (Some ip);;
  ret r.

(** One round of the loops of [consoleread], with [dst] and [n]: either waits
    for a line or takes a character.  [None] is the error return. *)
Definition consoleread_body (g : nat) (target : Z) (s : Z * Z) : K (Z * Z + option Z) :=
  let ' (dst, n) := s in
  if 0 <? n then
    i <- getd inp;;
    if in_r i =? in_w i then
      p <- curproc;;
      pr <- get_proc p;;
      if negb (killed pr =? 0) then ret (inr None) else
      release (LVlock g);;
      sleep CInput LCons;;
      acquire (LVlock g);;
      lp <- get_proc g;;
      ret (if outside (sz lp) dst n then inr None else inl (dst, n))
    else
      let c := in_at i (in_r i) in
      set_inp (fun i => i <|in_r ::= fun r => u32 (r + 1)|>);;
      if c =? CTRL_D then
        when (u32 n <? u32 target) (set_inp (fun i => i <|in_r ::= fun r => u32 (r - 1)|>));;
        ret (inr (Some n))
      else
        store_user dst [c];;
        ret (if c =? NEWLINE then inr (Some (n - 1)) else inl (u32 (dst + 1), n - 1))
  else ret (inr (Some n)).

(** Each round takes a character or uses up a wake-up. *)
Definition consoleread (ip : nat) (dst : dest) (n : Z) : K (Z * list Z) :=
  g <- leader;;
  iunlock (Some ip);;
  acquire LCons;;
  acquire (LVlock g);;
  lp <- get_proc g;;
  match dst with
  | ToUser a =>
      if outside (sz lp) a n then console_done g ip (-1, []) else
      k <- wakeups;;
      r <- loop (k + Z.to_nat n + 1) (consoleread_body g n) (a, n);;
      console_done g ip (match r with Some n' => n - n' | None => -1 end, [])
  | ToKernel => console_done g ip (-1, [])
  end.

Definition consolewrite (ip : nat) (src : source) (n : Z) : K Z :=
  g <- leader;;
  iunlock (Some ip);;
  acquire LCons;;
  acquire (LVlock g);;
  lp <- get_proc g;;
  match src with
  | FromUser buf =>
      if outside (sz lp) buf n then console_done g ip (-1) else
      iter (seq 0 (Z.to_nat n)) (fun i =>
        c <- load_user (u32 (buf + Z.of_nat i)) 1;;
        consputc (Z.land (c !!! 0%nat) 0xff));;
      console_done g ip n
  | FromKernel _ => console_done g ip (-1)
  end.

(** The device switch that [consoleinit] sets up; every other entry is null. *)
#[export] Instance console_dev : DevOps := {
  dev_read m := if m =? CONSOLE then Some consoleread else None;
  dev_write m := if m =? CONSOLE then Some consolewrite else None
}.
End Console.

Definition consoleinit : K unit :=
  initlock LCons "console";;
  setd (fun d => d <|cons_locking := 1|>).

(** ** The keyboard as its user sees it *)

(** The modifier keys held down, the locks, and whether an escape code came *)
Record modifiers := Mods {
  m_shift : bool; m_ctl : bool; m_alt : bool;
  m_caps : bool; m_num : bool; m_scroll : bool; m_esc : bool
}.
#[export] Instance eta_modifiers : Eta modifiers := fun m =>
  Mods (m_shift m) (m_ctl m) (m_alt m) (m_caps m) (m_num m) (m_scroll m) (m_esc m).

#[export] Instance modifiers_eq_dec : EqDecision modifiers.
Proof. solve_decision. Defined.

(** The word [shift] of the driver *)
Definition flags (m : modifiers) : Z :=
  let bit (b : bool) (v : Z) := if b then v else 0 in
  bit (m_shift m) 1 + bit (m_ctl m) 2 + bit (m_alt m) 4 + bit (m_caps m) 8 +
  bit (m_num m) 16 + bit (m_scroll m) 32 + bit (m_esc m) 64.

(** The keys: left and right shift, control and alt, each with its other one
    behind an escape; the locks *)
Definition hold (down : bool) (key : Z) (m : modifiers) : modifiers :=
  if (key =? 0x2A) || (key =? 0x36) then m <|m_shift := down|>
  else if (key =? 0x1D) || (key =? 0x9D) then m <|m_ctl := down|>
  else if (key =? 0x38) || (key =? 0xB8) then m <|m_alt := down|> else m.
Definition toggle (key : Z) (m : modifiers) : modifiers :=
  if key =? 0x3A then m <|m_caps ::= negb|>
  else if key =? 0x45 then m <|m_num ::= negb|>
  else if key =? 0x46 then m <|m_scroll ::= negb|> else m.

(** The character of a key under the modifiers: control before shift, and
    caps lock exchanges small and capital letters. *)
Definition key_char (m : modifiers) (key : Z) : Z :=
  let c := (if m_ctl m then ctlmap else if m_shift m then shiftmap else normalmap) !!! Z.to_nat key in
  if negb (m_caps m) then c
  else if decide (97 <= c <= 122) then c - 32 else if decide (65 <= c <= 90) then c + 32 else c.

(** A scan code: an escape, a key let go, a key pressed; only the last types a
    character. *)
Definition key_event (m : modifiers) (code : Z) : modifiers * Z :=
  if code =? 0xE0 then (m <|m_esc := true|>, 0)
  else
    let low := code mod 128 in
    let key := if m_esc m then low + 128 else low in
    let m := m <|m_esc := false|> in
    if 128 <=? code then (hold false key m, 0)
    else let m := toggle key (hold true key m) in (m, key_char m key).

Lemma decode_event m code : 0 <= code < 256 ->
  kbd_decode (flags m) code = Some (flags (key_event m code).1, (key_event m code).2) /\
  0 <= (key_event m code).2 < 256.
Proof.
  intros Hc. assert (forallb (fun x => bool_decide (kbd_decode (flags m) x =
      Some (flags (key_event m x).1, (key_event m x).2)) &&
    (0 <=? (key_event m x).2) && ((key_event m x).2 <? 256)) (seqZ 0 256) = true) as H.
  { destruct m as [[] [] [] [] [] [] []]; vm_compute; reflexivity. }
  apply (forallb_range _ _ _ code) in H; [|lia].
  rewrite !andb_true_iff, bool_decide_eq_true in H. destruct H as [[H1 H2] H3].
  split; [exact H1|lia].
Qed.

(** The letters: every small letter has a key, which gives its capital under
    shift, its control code under control, and the other case with caps lock. *)
Lemma letter_event m ch : m_esc m = false -> 97 <= ch <= 122 -> exists key, 0 <= key < 128 /\
  key_event m key = (m, if m_ctl m then ch - 96 else if xorb (m_shift m) (m_caps m) then ch - 32 else ch).
Proof.
  intros He Hc. assert (forallb (fun ch => existsb (fun k => bool_decide (key_event m k =
      (m, if m_ctl m then ch - 96 else if xorb (m_shift m) (m_caps m) then ch - 32 else ch)))
    (seqZ 0 128)) (seqZ 97 26) = true) as H.
  { destruct m as [[] [] [] [] [] [] []]; try discriminate He; vm_compute; reflexivity. }
  apply (forallb_range _ _ _ ch) in H; [|lia].
  apply existsb_exists in H as (k & Hk & H).
  rewrite <- list_elem_of_In, elem_of_seqZ in Hk. exists k. split; [lia|]. by apply bool_decide_eq_true in H.
Qed.

(** C39: the keyboard driver decodes scan codes as the keys they stand for:
    with the modifiers [m] in its state and a code in the controller, [kbdgetc]
    returns the character, a byte, and has the modifiers that [key_event]
    says -- keys let go clear them, locks toggle, an escape selects the second
    block of keys -- without leaving the tables of 256 entries; with nothing in
    the controller it returns -1 and changes nothing.  Each letter has a key
    that gives the letter, with shift its capital, with control its control
    code, and with caps lock the other case. *)
Theorem kbdgetc_decodes c me L d m : kbd_shift d = flags m ->
  match kbd_in d with
  | [] => runs c me L kbdgetc d (-1) d L
  | x :: q =>
      let ' (m', ch) := key_event m (u8 x) in
      runs c me L kbdgetc d ch (d <|kbd_in := q|> <|kbd_shift := flags m'|>) L /\ 0 <= ch < 256
  end /\
  (m_esc m = false -> forall ch, 97 <= ch <= 122 -> exists key, 0 <= key < 128 /\
     key_event m key = (m, if m_ctl m then ch - 96 else if xorb (m_shift m) (m_caps m) then ch - 32 else ch)).
Proof.
  intros Hm. split.
  - destruct (kbd_in d) as [|x q] eqn:E; [unfold kbdgetc; rstep; rewrite E; apply runs_ret|].
    destruct (decode_event m (u8 x) (u8_range x)) as [Ed Hr].
    destruct (key_event m (u8 x)) as [m' ch] eqn:Ek. cbn [fst snd] in *. split; [|done].
    unfold kbdgetc. rstep. rewrite E. rstep. cbv zeta. rstep. getset. rewrite Hm, Ed. rstep. rstep. apply runs_ret.
  - intros He ch Hch. by apply letter_event.
Qed.

Definition ex_kbd : data := (data0 0 0 0 ∅) <|kbd_in := [0x1e; 0x9e]|> <|kbd_shift := 1|>.
(** The key of the letter a with shift held *)
Lemma kbdgetc_decodes_witness :
  runs 0 None [] kbdgetc ex_kbd 65 (ex_kbd <|kbd_in := [0x9e]|>) [] /\
  exists key, key_event (Mods true false false false false false false) key =
    (Mods true false false false false false false, 90).
Proof.
  destruct (kbdgetc_decodes 0 None [] ex_kbd (Mods true false false false false false false) eq_refl) as [[R _] K].
  split; [exact R|]. destruct (K eq_refl 122 ltac:(lia)) as (key & _ & E). by exists key.
Defined.
