(* ===== verification/Tty.v ===== *)
(** * The line editor of the console

    What [consoleintr] promises to the readers of the console: the ring of
    console.c is a queue of complete lines followed by the line being edited,
    and typing edits that line. *)

From S2P Require Import Prelude Params State CString Spinlock Printk Sched Sleeplock.
From S2P Require Import Kalloc Vm Usercopy Bio Log Fs Pipe File Proc Console.

(** ** The specification *)

(** What can be read, and the line being edited. *)
Record tty := Tty { t_avail : list Z; t_line : list Z }.

Definition total (t : tty) : nat := (length (t_avail t) + length (t_line t))%nat.

(** The line is complete. *)
Definition enter (t : tty) : tty := Tty (t_avail t ++ t_line t) [].

Definition key (c : Z) (t : tty) : tty :=
  if c =? CTRL_P then t
  else if c =? CTRL_U then Tty (t_avail t) []
  else if (c =? CTRL_H) || (c =? DEL) then Tty (t_avail t) (removelast (t_line t))
  else if (c =? 0) || bool_decide (Z.to_nat INPUT_BUF <= total t)%nat then t
  else
    let c := if c =? 13 then NEWLINE else c in
    let t := Tty (t_avail t) (t_line t ++ [c]) in
    if (c =? NEWLINE) || (c =? CTRL_D) || bool_decide (total t = Z.to_nat INPUT_BUF)
    then enter t else t.

Definition keys (cs : list Z) (t : tty) : tty := foldl (fun t c => key c t) t cs.

(** ** The ring *)

Record input_is (i : input) (t : tty) : Prop := {
  ii_len : length (in_buf i) = Z.to_nat INPUT_BUF;
  ii_room : (total t <= Z.to_nat INPUT_BUF)%nat;
  ii_r : 0 <= in_r i < two32;
  ii_w : in_w i = u32 (in_r i + Z.of_nat (length (t_avail t)));
  ii_e : in_e i = u32 (in_r i + Z.of_nat (total t));
  ii_bytes : forall k b, (t_avail t ++ t_line t) !! k = Some b ->
    in_buf i !!! Z.to_nat ((in_r i + Z.of_nat k) mod INPUT_BUF) = b
}.

Lemma u32_ring z : u32 z mod INPUT_BUF = z mod INPUT_BUF.
Proof. unfold u32, two32, INPUT_BUF. Z.div_mod_to_equations. lia. Qed.

Ltac ring_arith := unfold u32, total, INPUT_BUF, two32 in *; Z.div_mod_to_equations; lia.

Section Ring.
Context (i : input) (t : tty).
Hypothesis Hi : input_is i t.

Lemma no_line : in_e i = in_w i <-> t_line t = [].
Proof.
  destruct Hi as [_ I2 I3 I4 I5 _]. rewrite I4, I5, <- length_zero_iff_nil. ring_arith.
Qed.

Lemma line_count : u32 (in_e i - in_r i) = Z.of_nat (total t).
Proof. destruct Hi as [_ I2 I3 I4 I5 _]. rewrite I5. ring_arith. Qed.

Lemma edit_count : u32 (in_e i - in_w i) = Z.of_nat (length (t_line t)).
Proof. destruct Hi as [_ I2 I3 I4 I5 _]. rewrite I4, I5. ring_arith. Qed.

Lemma ring_full : in_e i = u32 (in_r i + INPUT_BUF) <-> total t = Z.to_nat INPUT_BUF.
Proof. destruct Hi as [_ I2 I3 I4 I5 _]. rewrite I5. ring_arith. Qed.

Lemma last_char l x : t_line t = l ++ [x] -> in_at i (in_e i - 1) = x.
Proof.
  intros El. destruct Hi as [_ I2 I3 I4 I5 I6]. unfold in_at.
  assert (length (t_line t) = (length l + 1)%nat) as Hl by (by rewrite El, length_app).
  rewrite <- (I6 (length (t_avail t) + length l)%nat x).
  - do 2 f_equal. rewrite u32_ring, I5. ring_arith.
  - rewrite El, app_assoc, lookup_app_r; rewrite length_app; [|done]. by rewrite Nat.sub_diag.
Qed.

Lemma erase_is l x : t_line t = l ++ [x] ->
  input_is (i <|in_e ::= fun e => u32 (e - 1)|>) (Tty (t_avail t) l).
Proof.
  intros El. destruct Hi as [I1 I2 I3 I4 I5 I6]. unfold total in *. rewrite El, length_app in *.
  simpl length in *. split; getset; unfold total; cbn [t_avail t_line]; try done; try lia.
  - rewrite I5. ring_arith.
  - intros k b Hk. apply I6. rewrite app_assoc. by apply lookup_app_l_Some.
Qed.

Lemma put_is c : (total t < Z.to_nat INPUT_BUF)%nat -> 0 <= c < 256 ->
  input_is (put_char c i) (Tty (t_avail t) (t_line t ++ [c])).
Proof.
  intros Hlt Hc. destruct Hi as [I1 I2 I3 I4 I5 I6]. unfold put_char.
  split; getset; unfold total in *; cbn [t_avail t_line]; rewrite ?length_app, ?length_insert;
    simpl length; try done; try lia.
  - rewrite I5. ring_arith.
  - intros k b Hk. rewrite app_assoc in Hk. unfold u8. rewrite (Z.mod_small c 256) by lia.
    apply lookup_app_Some in Hk as [Hk|[Hge Hk]].
    + rewrite list_lookup_total_insert_ne; [by apply I6|].
      apply lookup_lt_Some in Hk. rewrite length_app in Hk. rewrite I5. ring_arith.
    + apply list_lookup_singleton_Some in Hk as [Hk ->]. rewrite length_app in *.
      replace k with (length (t_avail t) + length (t_line t))%nat by lia.
      rewrite I5, u32_ring, list_lookup_total_insert_eq; [done|].
      rewrite I1. ring_arith.
Qed.

Lemma enter_is : input_is (i <|in_w := in_e i|>) (enter t).
Proof.
  destruct Hi as [I1 I2 I3 I4 I5 I6]. unfold enter, total in *.
  split; getset; unfold total; cbn [t_avail t_line]; rewrite ?length_app, ?app_nil_r;
    simpl length; rewrite ?Nat.add_0_r; done.
Qed.
End Ring.

(** ** The handler *)

(** What happens to the readers *)
Definition readers (t t' : tty) : list proc -> list proc :=
  if decide (t_avail t' = t_avail t) then id else fmap (wake_proc CInput).

Definition redo (i : input) (f : list proc -> list proc) (d : data) : data :=
  d <|inp := i|> <|ptable ::= f|>.

(** From [d] to [d'] the keys have turned [t] into [t']: only the ring, the
    output devices and, when there is something new to read, the sleeping
    readers have changed. *)
Definition typed (d : data) (t : tty) (d' : data) (t' : tty) : Prop :=
  exists i s scr p,
    d' = out s scr p (redo i (readers t t') d) /\
    input_is i t' /\ 0 <= p < 24 * 80 /\ t_avail t `prefix_of` t_avail t' /\ NEWLINE ∉ t_line t'.

Definition ready (d : data) (t : tty) : Prop :=
  screen d /\ input_is (inp d) t /\ NEWLINE ∉ t_line t.

Lemma typed_refl d t : ready d t -> typed d t d t.
Proof.
  intros ([Hp Hc] & Hi & Hl). exists (inp d), (serial d), (crt d), (crt_pos d).
  unfold readers. rewrite decide_True by done. split; [by destruct d|]. done.
Qed.

Lemma typed_ready d t d' t' : panicked d = 0 -> typed d t d' t' -> ready d' t'.
Proof. intros Hp (i & s & scr & p & -> & Hi & Hr & _ & Hl). by split_and!; [split|..]. Qed.

Lemma wake_again ch p : wake_proc ch (wake_proc ch p) = wake_proc ch p.
Proof.
  unfold wake_proc. destruct (wakes ch p) eqn:E; [|by rewrite E].
  destruct (wakes ch (p <|state := RUNNABLE|>)); done.
Qed.

Lemma redo_out i f s scr p i2 f2 s2 scr2 p2 d :
  out s2 scr2 p2 (redo i2 f2 (out s scr p (redo i f d))) = out s2 scr2 p2 (redo i2 (fun l => f2 (f l)) d).
Proof. by destruct d. Qed.
Lemma redo_ext i f g d : f (ptable d) = g (ptable d) -> redo i f d = redo i g d.
Proof. destruct d. unfold redo, upd. cbn. by intros ->. Qed.

Lemma typed_trans d t d1 t1 d2 t2 : typed d t d1 t1 -> typed d1 t1 d2 t2 -> typed d t d2 t2.
Proof.
  intros (i & s & scr & p & -> & _ & _ & Hp1 & _) (i2 & s2 & scr2 & p2 & -> & Hi & Hr & Hp2 & Hl).
  exists i2, s2, scr2, p2. split; [|split_and!; try apply Hr; try done; exact (transitivity Hp1 Hp2)].
  assert (t_avail t2 = t_avail t <-> t_avail t1 = t_avail t /\ t_avail t2 = t_avail t1) as Hiff.
  { split; [|intros [? ?]; congruence]. intros E. rewrite E in *.
    assert (t_avail t1 = t_avail t) as E1.
    { apply prefix_length_eq; [done|]. by apply prefix_length. }
    by rewrite E1. }
  rewrite redo_out. f_equal. apply redo_ext. unfold readers.
  destruct (decide (t_avail t1 = t_avail t)), (decide (t_avail t2 = t_avail t1));
    [rewrite decide_True|rewrite decide_False..]; try tauto.
  rewrite <- list_fmap_compose. apply list_fmap_ext. intros k x _. apply wake_again.
Qed.

(** Output after a change of the ring *)
Lemma typed_out d t i t' s scr p :
  0 <= p < 24 * 80 -> input_is i t' -> t_avail t' = t_avail t -> NEWLINE ∉ t_line t' ->
  typed d t (out s scr p (d <|inp := i|>)) t'.
Proof.
  intros Hp Hi Ha Hl. exists i, s, scr, p. unfold readers. rewrite decide_True by done.
  split; [by destruct d|]. split; [done|]. split; [done|]. split; [by rewrite Ha|done].
Qed.

Section Handler.
Context (c : nat) (me : option nat).
Local Abbreviation L := [LCons].

Lemma runs_set_inp L' f d : runs c me L' (set_inp f) d tt (d <|inp ::= f|>) L'.
Proof. apply runs_setd. Qed.

Lemma runs_erase d t l x : ready d t -> t_line t = l ++ [x] ->
  exists d', runs c me L erase d tt d' L /\ typed d t d' (Tty (t_avail t) l).
Proof.
  intros (Hs & Hi & Hl) El. pose proof (erase_is _ _ Hi _ _ El) as Hi'.
  set (d1 := d <|inp ::= fun i => i <|in_e ::= fun e => u32 (e - 1)|>|>).
  assert (screen d1) as Hs1 by exact Hs.
  destruct (runs_consputc c me L BACKSPACE d1 Hs1) as (s & scr & p & Hr & Hp).
  eexists. split; [unfold erase; eapply runs_bind; [apply runs_set_inp|exact Hr]|].
  apply (typed_out d t); try done. cbn. rewrite El in Hl. set_solver.
Qed.

Lemma runs_backspace d t : ready d t ->
  exists d', runs c me L backspace d tt d' L /\ typed d t d' (Tty (t_avail t) (removelast (t_line t))).
Proof.
  intros Hr. pose proof Hr as (Hs & Hi & Hl). unfold backspace.
  destruct (decide (t_line t = [])) as [E|E].
  - exists d. split; [|rewrite E; destruct t; cbn in *; subst; by apply typed_refl].
    rstep. rewrite (proj2 (Z.eqb_eq _ _) (proj2 (no_line _ _ Hi) E)). apply runs_when_false.
  - destruct (exists_last E) as (l & x & El). rewrite El, removelast_last.
    destruct (runs_erase d t l x Hr El) as (d' & Hr' & Ht). exists d'. split; [|done].
    rstep. rewrite (proj2 (Z.eqb_neq _ _)) by (by rewrite (no_line _ _ Hi)). by apply runs_when_true.
Qed.

Lemma runs_kill_loop n : forall d t, ready d t -> length (t_line t) = n ->
  exists d', runs c me L (loop (n + 1) (fun _ =>
    i <- getd inp;;
    if negb (in_e i =? in_w i) && negb (in_at i (in_e i - 1) =? NEWLINE) then erase;; ret (inl tt)
    else ret (inr tt)) tt) d tt d' L /\ typed d t d' (Tty (t_avail t) []).
Proof.
  induction n as [|n IH]; intros d t Hr En; pose proof Hr as (Hs & Hi & Hl).
  - apply length_zero_iff_nil in En. exists d. split.
    + apply (runs_loop_stop c me _ _ 0). rstep.
      rewrite (proj2 (Z.eqb_eq _ _) (proj2 (no_line _ _ Hi) En)). apply runs_ret.
    + destruct t; cbn in *; subst; by apply typed_refl.
  - assert (t_line t <> []) as E by (intros E; by rewrite E in En).
    destruct (exists_last E) as (l & x & El). rewrite El, length_app in En. simpl in En.
    destruct (runs_erase d t l x Hr El) as (d1 & Hr1 & Ht1).
    destruct (IH d1 _ (typed_ready _ _ _ _ (proj1 Hs) Ht1)) as (d2 & Hr2 & Ht2); [cbn; lia|].
    exists d2. split; [|by eapply typed_trans]. eapply runs_loop_more; [|exact Hr2].
    rstep. rewrite (proj2 (Z.eqb_neq _ _)) by (by rewrite (no_line _ _ Hi)).
    rewrite (last_char _ _ Hi l x El), (proj2 (Z.eqb_neq _ _)) by (rewrite El in Hl; set_solver).
    cbn [negb andb]. eapply runs_bind; [exact Hr1|]. apply runs_ret.
Qed.

Lemma runs_kill_line d t : ready d t ->
  exists d', runs c me L kill_line d tt d' L /\ typed d t d' (Tty (t_avail t) []).
Proof.
  intros Hr. destruct (runs_kill_loop _ d t Hr eq_refl) as (d' & Hr' & Ht). exists d'.
  split; [|done]. unfold kill_line. rstep. rewrite (edit_count _ _ (proj1 (proj2 Hr))), Nat2Z.id.
  exact Hr'.
Qed.

(** The character as it is stored *)
Definition stored_char (x : Z) : Z := if x =? 13 then NEWLINE else x.

(** Two facts about the state after the character has been stored and echoed *)
Lemma runs_accept d t x : ready d t -> 0 <= x < 256 ->
  x <> 0 -> (total t < Z.to_nat INPUT_BUF)%nat ->
  let x' := stored_char x in
  let t1 := Tty (t_avail t) (t_line t ++ [x']) in
  exists d', runs c me L (accept_char x) d tt d' L /\
    typed d t d' (if (x' =? NEWLINE) || (x' =? CTRL_D) || bool_decide (total t1 = Z.to_nat INPUT_BUF)
                  then enter t1 else t1).
Proof.
  intros (Hs & Hi & Hl) Hx H0 Hlt x' t1.
  assert (0 <= x' < 256) as Hx'.
  { unfold x', stored_char, NEWLINE. destruct (x =? 13); lia. }
  pose proof (put_is _ _ Hi x' Hlt Hx') as Hi1. fold t1 in Hi1.
  set (d1 := d <|inp ::= put_char x'|>). assert (screen d1) as Hs1 by exact Hs.
  destruct (runs_consputc c me L x' d1 Hs1) as (s & scr & p & Hr & Hp).
  pose proof (ring_full _ _ Hi1) as Hfull.
  assert ((in_e (put_char x' (inp d)) =? u32 (in_r (put_char x' (inp d)) + INPUT_BUF))
          = bool_decide (total t1 = Z.to_nat INPUT_BUF)) as Ef.
  { case_bool_decide as E; [by apply Z.eqb_eq, Hfull|apply Z.eqb_neq]. by rewrite Hfull. }
  assert (forall d', runs c me L
    (when ((x' =? NEWLINE) || (x' =? CTRL_D) || bool_decide (total t1 = Z.to_nat INPUT_BUF))
      (set_inp (fun i => i <|in_w := in_e i|>);; wakeup CInput)) (out s scr p d1) tt d' L ->
    runs c me L (accept_char x) d tt d' L) as Hrun.
  { intros d' Hr'. unfold accept_char. rstep. rewrite (proj2 (Z.eqb_neq _ _) H0).
    rewrite (line_count _ _ Hi), (proj2 (Z.ltb_lt _ _)) by (unfold INPUT_BUF in *; lia). cbn [negb andb].
    eapply runs_bind; [apply runs_set_inp|]. eapply runs_bind; [exact Hr|]. rstep.
    change (inp (out s scr p d1)) with (put_char x' (inp d)). rewrite Ef. exact Hr'. }
  destruct ((x' =? NEWLINE) || (x' =? CTRL_D) || bool_decide _) eqn:Ec.
  - eexists. split.
    { apply Hrun, runs_when_true. eapply runs_bind; [apply runs_set_inp|apply runs_wakeup; set_solver]. }
    exists ((put_char x' (inp d)) <|in_w := in_e (put_char x' (inp d))|>), s, scr, p.
    unfold readers. rewrite decide_False.
    + split; [by destruct d|]. split; [by apply enter_is|]. split; [done|].
      split; [by eexists|apply not_elem_of_nil].
    + cbn. rewrite app_assoc. intros E. apply (f_equal length) in E. rewrite !length_app in E. simpl in E. lia.
  - eexists. split; [apply Hrun, runs_when_false|]. apply (typed_out d t); try done. cbn.
    apply orb_false_iff in Ec as [[Ec _]%orb_false_iff _]. apply Z.eqb_neq in Ec. set_solver.
Qed.

Lemma runs_key d t x : ready d t -> 0 <= x < 256 -> x <> CTRL_P ->
  exists d', runs c me L (if x =? CTRL_U then kill_line
      else if (x =? CTRL_H) || (x =? DEL) then backspace else accept_char x) d tt d' L /\
    typed d t d' (key x t).
Proof.
  intros Hr Hx Hp. unfold key. rewrite (proj2 (Z.eqb_neq _ _) Hp).
  destruct (x =? CTRL_U); [by apply runs_kill_line|].
  destruct ((x =? CTRL_H) || (x =? DEL)); [by apply runs_backspace|].
  destruct ((x =? 0) || bool_decide (Z.to_nat INPUT_BUF <= total t)%nat) eqn:Ec.
  - exists d. split; [|by apply typed_refl]. unfold accept_char. rstep.
    rewrite (line_count _ _ (proj1 (proj2 Hr))).
    replace (negb (x =? 0) && (Z.of_nat (total t) <? INPUT_BUF)) with false; [apply runs_ret|].
    symmetry. apply andb_false_iff. apply orb_true_iff in Ec as [->|Ec]; [by left|right].
    apply bool_decide_eq_true in Ec. apply Z.ltb_ge. unfold INPUT_BUF in *. lia.
  - apply orb_false_iff in Ec as [E0 Ef]. apply bool_decide_eq_false in Ef.
    apply (runs_accept d t x); [done|done|by apply Z.eqb_neq|lia].
Qed.

(** ** A source of characters

    [load x d] is [d] with the device in state [x], which [getc] advances. *)
Section Source.
Context {X : Type} (load : X -> data -> data) (advance : X -> option (Z * X)) (getc : K Z).
Context (ok : data -> Prop).
Hypothesis load_redo : forall x s scr p i f d,
  out s scr p (redo i f (load x d)) = load x (out s scr p (redo i f d)).
Hypothesis load_ready : forall x d t, ready (load x d) t <-> ready d t.
Hypothesis ok_redo : forall s scr p i f d, ok d -> ok (out s scr p (redo i f d)).
Hypothesis get_some : forall x y x' d, ok d -> advance x = Some (y, x') ->
  runs c me L getc (load x d) y (load x' d) L.
Hypothesis get_none : forall x d, ok d -> advance x = None ->
  runs c me L getc (load x d) (-1) (load x d) L.

Inductive feeds : X -> list Z -> X -> Prop :=
| feeds_end x : advance x = None -> feeds x [] x
| feeds_char x y x1 cs x2 : advance x = Some (y, x1) -> feeds x1 cs x2 -> feeds x (y :: cs) x2.

Lemma typed_load x d t d1 t1 : typed (load x d) t d1 t1 ->
  exists d1', d1 = load x d1' /\ typed d t d1' t1 /\ (ok d -> ok d1').
Proof.
  intros (i & s & scr & p & -> & H). eexists. split; [apply load_redo|]. split; [|apply ok_redo].
  by exists i, s, scr, p.
Qed.

Lemma runs_console_chars x cs x' : feeds x cs x' -> forall d t b fuel,
  ready d t -> ok d -> Forall (fun y => 0 <= y < 256) cs -> (length cs < fuel)%nat ->
  exists d', runs c me L (loop fuel (fun doprocdump : bool =>
      c <- getc;;
      if c <? 0 then ret (inr doprocdump) else
      if c =? CTRL_P then ret (inl true) else
      (if c =? CTRL_U then kill_line
       else if (c =? CTRL_H) || (c =? DEL) then backspace
       else accept_char c);;
      ret (inl doprocdump)) b) (load x d) (b || bool_decide (CTRL_P ∈ cs)) (load x' d') L /\
    typed d t d' (keys cs t).
Proof.
  induction 1 as [x Hn|x y x1 cs x2 Hy _ IH]; intros d t b fuel Hr Hok Hcs Hf; destruct fuel as [|fuel];
    simpl in Hf; try lia.
  - exists d. split; [|by apply typed_refl]. rewrite bool_decide_false, orb_false_r by apply not_elem_of_nil.
    apply runs_loop_stop. eapply runs_bind; [by apply get_none|]. apply runs_ret.
  - apply Forall_cons in Hcs as [Hy' Hcs]. destruct (decide (y = CTRL_P)) as [->|Hne].
    + destruct (IH d t true fuel) as (d' & Hr' & Ht); try done; [lia|]. exists d'. split; [|exact Ht].
      rewrite (bool_decide_true (CTRL_P ∈ _)) by left. rewrite orb_true_r. eapply runs_loop_more; [|exact Hr'].
      eapply runs_bind; [by eapply get_some|]. apply runs_ret.
    + destruct (runs_key (load x1 d) t y) as (d1 & Hr1 & Ht1); [by apply load_ready|done|done|].
      destruct (typed_load x1 d t d1 _ Ht1) as (d1' & -> & Ht1' & Hok1).
      destruct (IH d1' (key y t) b fuel) as (d2 & Hr2 & Ht2); try done; [|by apply Hok1|lia|].
      { eapply typed_ready; [apply Hr|done]. }
      exists d2. split; [|by eapply typed_trans].
      rewrite (bool_decide_ext (CTRL_P ∈ y :: cs) (CTRL_P ∈ cs)) by set_solver.
      eapply runs_loop_more; [|exact Hr2]. eapply runs_bind; [by eapply get_some|]. cbv beta.
      rewrite (proj2 (Z.ltb_ge _ _)), (proj2 (Z.eqb_neq _ _) Hne) by lia.
      eapply runs_bind; [exact Hr1|]. apply runs_ret.
Qed.

Lemma runs_consoleintr x cs x' d t fuel : feeds x cs x' ->
  ready d t -> ok d -> Forall (fun y => 0 <= y < 256) cs -> (length cs < fuel)%nat -> CTRL_P ∉ cs ->
  exists d', runs c me [] (consoleintr fuel getc) (load x d) tt (load x' d') [] /\
    typed d t d' (keys cs t).
Proof.
  intros Hfe Hr Hok Hcs Hf Hp. destruct (runs_console_chars x cs x' Hfe d t false fuel) as (d' & Hr' & Ht);
    try done. exists d'. split; [|done]. unfold consoleintr. rstep.
  eapply runs_bind; [exact Hr'|]. rewrite bool_decide_false by done. rstep. apply runs_when_false.
Qed.
End Source.
End Handler.

(** ** The keyboard and the serial port *)

Definition kbd_load (x : list Z * Z) (d : data) : data := d <|kbd_in := x.1|> <|kbd_shift := x.2|>.
(** A scan code never leads outside the tables of kbd.h. *)
Definition kbd_step (shift k : Z) : Z * Z := default (shift, 0) (kbd_decode shift (u8 k)).
Definition kbd_advance (x : list Z * Z) : option (Z * (list Z * Z)) :=
  match x.1 with
  | [] => None
  | k :: codes => let ' (shift, y) := kbd_step x.2 k in Some (y, (codes, shift))
  end.

(** The characters that the scan codes stand for, and the modifiers after *)
Fixpoint kbd_chars (codes : list Z) (shift : Z) : list Z * Z :=
  match codes with
  | [] => ([], shift)
  | k :: codes =>
      let ' (shift, y) := kbd_step shift k in
      let ' (cs, shift) := kbd_chars codes shift in (y :: cs, shift)
  end.

Lemma kbd_feeds codes : forall shift,
  feeds kbd_advance (codes, shift) (kbd_chars codes shift).1 ([], (kbd_chars codes shift).2).
Proof.
  induction codes as [|k codes IH]; intros shift; cbn [kbd_chars]; [by constructor|].
  destruct (kbd_step shift k) as [sh y] eqn:E. specialize (IH sh).
  destruct (kbd_chars codes sh) as [cs sh'] eqn:E'.
  apply (feeds_char _ _ y (codes, sh)); [|done]. unfold kbd_advance. cbn. by rewrite E.
Qed.

Lemma length_kbd_chars codes shift : length (kbd_chars codes shift).1 = length codes.
Proof.
  revert shift. induction codes as [|k codes IH]; intros shift; [done|]. simpl.
  destruct (kbd_step shift k) as [sh y]. specialize (IH sh). destruct (kbd_chars codes sh).
  simpl in *. by f_equal.
Qed.

Lemma table_entry t k : length t = 256%nat -> forallb (fun x => (0 <=? x) && (x <? 256)) t = true ->
  0 <= k < 256 -> exists v, t !! Z.to_nat k = Some v /\ 0 <= v < 256.
Proof.
  intros Hl H Hk. destruct (lookup_lt_is_Some_2 t (Z.to_nat k)) as [v Hv]; [lia|]. exists v. split; [done|].
  rewrite forallb_forall in H. apply list_elem_of_lookup_2, list_elem_of_In in Hv. specialize (H _ Hv). lia.
Qed.

Lemma byte_ops b : 0 <= b < 256 -> 0 <= Z.land b 127 < 256 /\ 0 <= Z.lor b 128 < 256.
Proof.
  intros Hb. assert (forallb (fun b => (0 <=? Z.land b 127) && (Z.land b 127 <? 256) && (0 <=? Z.lor b 128) &&
    (Z.lor b 128 <? 256)) (seqZ 0 256) = true) as H by by vm_compute.
  apply (forallb_range _ _ _ b) in H; [|done]. cbv beta in H. lia.
Qed.

Lemma kbd_step_decode shift k :
  kbd_decode shift (u8 k) = Some (kbd_step shift k) /\ 0 <= (kbd_step shift k).2 < 256.
Proof.
  assert (forall s x, 0 <= x < 256 -> exists v, charcode s !! Z.to_nat x = Some v /\ 0 <= v < 256) as Hc.
  { intros s x Hx. unfold charcode. repeat case_match; by apply table_entry. }
  assert (forall x, 0 <= x < 256 -> is_Some (shiftcode !! Z.to_nat x) /\ is_Some (togglecode !! Z.to_nat x)) as Hs.
  { intros x Hx. split; apply lookup_lt_is_Some_2; [change (length shiftcode) with 256%nat|change (length togglecode) with 256%nat]; lia. }
  pose proof (u8_range k) as Hk. destruct (byte_ops (u8 k) Hk) as (B1 & B2).
  unfold kbd_step. set (b := u8 k) in *. unfold kbd_decode.
  destruct (b =? 0xE0); [done|]. destruct (negb (Z.land b 128 =? 0)); cbv zeta.
  - destruct (Hs (if negb (Z.land shift E0ESC =? 0) then b else Z.land b 127)) as [[v ->] _]; [by case_match|done].
  - set (x := if negb (Z.land shift E0ESC =? 0) then Z.lor b 128 else b).
    assert (0 <= x < 256) as Hx by (unfold x; by case_match). destruct (Hs x Hx) as [[v ->] [w ->]]. cbn [mbind option_bind].
    destruct (Hc (Z.lxor (Z.lor (if negb (Z.land shift E0ESC =? 0) then Z.land shift (Z.lnot E0ESC) else shift) v) w) x Hx)
      as (y & -> & Hy). cbn [mbind option_bind default from_option id snd]. split; [done|].
    case_match; [|done]. unfold swap_case. repeat case_match; lia.
Qed.

Lemma kbd_chars_range codes : forall shift, Forall (fun y => 0 <= y < 256) (kbd_chars codes shift).1.
Proof.
  induction codes as [|k codes IH]; intros shift; [constructor|]. simpl.
  pose proof (proj2 (kbd_step_decode shift k)) as Hr. destruct (kbd_step shift k) as [sh y].
  specialize (IH sh). destruct (kbd_chars codes sh). by constructor.
Qed.

Lemma runs_kbdintr c me d t :
  ready d t -> CTRL_P ∉ (kbd_chars (kbd_in d) (kbd_shift d)).1 ->
  exists d', runs c me [] kbdintr d tt d' [] /\
    typed (kbd_load ([], (kbd_chars (kbd_in d) (kbd_shift d)).2) d) t d'
      (keys (kbd_chars (kbd_in d) (kbd_shift d)).1 t).
Proof.
  intros Hr Hp. set (cs := kbd_chars (kbd_in d) (kbd_shift d)) in *.
  destruct (runs_consoleintr c me kbd_load kbd_advance kbdgetc (fun _ => True)) with
    (x := (kbd_in d, kbd_shift d)) (x' := ([] : list Z, cs.2)) (cs := cs.1) (d := d) (t := t)
    (fuel := (length (kbd_in d) + 1)%nat) as (d' & Hr' & Ht); try done.
  - intros [codes sh] y x' e _ Ha. unfold kbd_advance in Ha. cbn [fst snd] in Ha.
    destruct codes as [|k codes]; [done|]. pose proof (proj1 (kbd_step_decode sh k)) as Ed.
    destruct (kbd_step sh k) as [sh' y'] eqn:E. simplify_eq.
    unfold kbdgetc. rstep. change (kbd_in (kbd_load _ e)) with (k :: codes). cbv iota.
    eapply runs_bind; [apply runs_setd|]. rstep. getset. change (kbd_shift (kbd_load _ e)) with sh.
    rewrite Ed. rstep. eapply runs_bind; [apply runs_setd|]. eapply runs_eq; [apply runs_ret|by destruct e].
  - intros [codes sh] e _ Ha. unfold kbd_advance in Ha. cbn [fst snd] in Ha.
    destruct codes as [|k codes]; [|by destruct (kbd_step sh k)].
    unfold kbdgetc. rstep. apply runs_ret.
  - apply kbd_feeds.
  - apply kbd_chars_range.
  - unfold cs. rewrite length_kbd_chars. lia.
  - exists (kbd_load ([], cs.2) d'). split.
    + unfold kbdintr. rstep. replace d with (kbd_load (kbd_in d, kbd_shift d) d) at 2 by by destruct d.
      exact Hr'.
    + destruct Ht as (i & s & scr & p & -> & H). exists i, s, scr, p. split; [by destruct d|done].
Qed.

Lemma uart_feeds cs : feeds (fun l => match l with [] => None | y :: l => Some (y, l) end) cs cs [].
Proof. induction cs; [by constructor|by econstructor]. Qed.

Lemma runs_uartintr c me d t :
  uart d <> 0 -> ready d t -> Forall (fun y => 0 <= y < 256) (serial_in d) -> CTRL_P ∉ serial_in d ->
  exists d', runs c me [] uartintr d tt d' [] /\
    typed (d <|serial_in := []|>) t d' (keys (serial_in d) t).
Proof.
  intros Hu Hr Hcs Hp.
  destruct (runs_consoleintr c me (fun l d => d <|serial_in := l|>)
    (fun l => match l with [] => None | y :: l => Some (y, l) end) uartgetc (fun d => uart d <> 0)) with
    (x := serial_in d) (x' := [] : list Z) (cs := serial_in d) (d := d) (t := t)
    (fuel := (length (serial_in d) + 1)%nat) as (d' & Hr' & Ht); try done.
  - intros [|z l] y x' e Hue Ha; [done|]. simplify_eq. unfold uartgetc. rstep. getset.
    rewrite (proj2 (Z.eqb_neq _ _) Hue). rstep. getset. eapply runs_bind; [apply runs_setd|].
    eapply runs_eq; [apply runs_ret|by destruct e].
  - intros [|z l] e Hue Ha; [|done]. unfold uartgetc. rstep. getset.
    rewrite (proj2 (Z.eqb_neq _ _) Hue). rstep. apply runs_ret.
  - apply uart_feeds.
  - lia.
  - eexists. split.
    + unfold uartintr. rstep. replace d with (d <|serial_in := serial_in d|>) at 2 by by destruct d.
      exact Hr'.
    + destruct Ht as (i & s & scr & p & -> & H). exists i, s, scr, p. split; [by destruct d|done].
Qed.

(** C32: The console is a line editor.  Both interrupt handlers apply the
    characters that arrived, from the keyboard after decoding its scan codes, in
    order to the abstract editor: backspace and kill work on the unfinished
    line only, a carriage return is a newline, a newline, an end of file or a
    full buffer completes the line, characters that do not fit are dropped.
    Readers are woken exactly when there is something new to read; besides the
    ring only the screen and the serial port change, and the cursor stays on
    the screen.  The listing on control-P is not part of it. *)
Theorem console_edits c me d t :
  ready d t ->
  (let ' (cs, shift) := kbd_chars (kbd_in d) (kbd_shift d) in
   CTRL_P ∉ cs ->
   exists d', runs c me [] kbdintr d tt d' [] /\ typed (kbd_load ([], shift) d) t d' (keys cs t)) /\
  (uart d <> 0 -> Forall (fun y => 0 <= y < 256) (serial_in d) -> CTRL_P ∉ serial_in d ->
   exists d', runs c me [] uartintr d tt d' [] /\
     typed (d <|serial_in := []|>) t d' (keys (serial_in d) t)).
Proof.
  intros Hr. pose proof (runs_kbdintr c me d t Hr) as Hk.
  destruct (kbd_chars (kbd_in d) (kbd_shift d)) as [cs shift]. split; [done|].
  intros Hu. by apply runs_uartintr.
Qed.

(** The keys l, a, backspace, s, Enter: pressed and released *)
Definition ex_codes : list Z := [0x26; 0xa6; 0x1e; 0x9e; 0x0e; 0x8e; 0x1f; 0x9f; 0x1c; 0x9c].
Definition ex_console : data :=
  (data0 0 0 0 ∅) <|inp := Input (replicate (Z.to_nat INPUT_BUF) 0) 0 0 0|> <|kbd_in := ex_codes|>
    <|uart := 1|> <|serial_in := lit "ls" ++ [13]|>.

Lemma ex_ready : ready ex_console (Tty [] []).
Proof.
  split; [by vm_compute|]. split; [|apply not_elem_of_nil].
  split; try by vm_compute. unfold total. simpl. lia.
Qed.

Lemma console_edits_witness :
  keys (kbd_chars ex_codes 0).1 (Tty [] []) = Tty (lit "ls" ++ [NEWLINE]) [] /\
  exists d', runs 0 None [] uartintr ex_console tt d' [] /\
    typed (ex_console <|serial_in := []|>) (Tty [] []) d' (Tty (lit "ls" ++ [NEWLINE]) []).
Proof.
  split; [by vm_compute|].
  apply (console_edits 0 None ex_console (Tty [] []) ex_ready);
    [done|apply (bool_decide_unpack _); by vm_compute|apply (bool_decide_unpack _); by vm_compute].
Defined.
