(* ===== verification/Trap.v ===== *)
(** * Traps and the system-call dispatch (trap.c, syscall.c: syscall)

    [vectors] is the array of entry points in the generated vectors.S.  The
    acknowledgement of an interrupt at the local APIC has no effect on the
    state and is left out. *)

From S2P Require Import Prelude Params State CString Spinlock Printk Sched Sleeplock.
From S2P Require Import Kalloc Vm Usercopy Bio Log Fs Pipe File Proc Sysargs Exec Sysfile Console.

(** ** traps.h, syscall.h *)

Definition T_SYSCALL : Z := 64.
Definition T_TLBFLUSH : Z := 65.
Definition T_IRQ0 : Z := 32.
Definition IRQ_TIMER : Z := 0.
Definition IRQ_KBD : Z := 1.
Definition IRQ_COM1 : Z := 4.
Definition IRQ_IDE : Z := 14.
Definition IRQ_SPURIOUS : Z := 31.

(** ** The interrupt table *)

Definition STS_IG32 : Z := 0xE.
Definition STS_TG32 : Z := 0xF.

Definition SETGATE (istrap : bool) (sel off d : Z) : gatedesc :=
  GateDesc (Z.land (u32 off) 0xffff) sel 0 0 (if istrap then STS_TG32 else STS_IG32) 0 d 1
    (Z.shiftr (u32 off) 16).

Definition set_gate (i : nat) (g : gatedesc) : K unit := setd (fun d => d <|idt ::= <[i := g]>|>).

Definition tvinit (vectors : nat -> Z) : K unit :=
  iter (seq 0 256) (fun i =>
    set_gate i (SETGATE false (Z.shiftl SEG_KCODE 3) (vectors i) 0));;
  let s := Z.to_nat T_SYSCALL in
  set_gate s (SETGATE true (Z.shiftl SEG_KCODE 3) (vectors s) DPL_USER);;
  initlock LTicks "time".

Section Trap.
Context `{BlockOps, BlockIntr, DevOps}.

(** The array of handlers; an entry outside the array, or a null one, is
    [None]. *)
Definition syscalls (num : Z) : option (K Z) :=
  match num with
  | 1 => Some sys_fork
  | 2 => Some sys_exit
  | 3 => Some sys_wait
  | 4 => Some sys_pipe
  | 5 => Some sys_read
  | 6 => Some sys_kill
  | 7 => Some sys_exec
  | 8 => Some sys_fstat
  | 9 => Some sys_chdir
  | 10 => Some sys_dup
  | 11 => Some sys_getpid
  | 12 => Some sys_sbrk
  | 13 => Some sys_sleep
  | 14 => Some sys_uptime
  | 15 => Some sys_open
  | 16 => Some sys_write
  | 17 => Some sys_mknod
  | 18 => Some sys_unlink
  | 19 => Some sys_link
  | 20 => Some sys_mkdir
  | 21 => Some sys_close
  | 22 => Some sys_clone
  | 23 => Some sys_join
  | 24 => Some sys_park
  | 25 => Some sys_unpark
  | _ => None
  end.

Definition set_eax (p : nat) (v : Z) : K unit :=
  set_proc p (fun pr => pr <|tf ::= fun t => t <|tf_eax := u32 v|>|>).

Definition syscall : K unit :=
  p <- curproc;;
  pr <- get_proc p;;
  let num := i32 (tf_eax (tf pr)) in
  match syscalls num with
  | Some f => r <- f;; set_eax p r
  | None =>
      cprintf (lit "%d %s: unknown sys call %d" ++ [NEWLINE])
        [AInt (pid pr); AStr (Some (until0 (name pr))); AInt num];;
      set_eax p (-1)
  end.

(** [if(myproc()->killed) exit();] *)
Definition exit_if_killed : K unit :=
  p <- curproc;;
  pr <- get_proc p;;
  when (negb (killed pr =? 0)) exit.

(** [if(myproc() && myproc()->killed && (tf->cs&3) == DPL_USER) exit();] *)
Definition exit_if_killed_user (t : trapframe) : K unit :=
  p <- myproc;;
  match p with
  | Some p =>
      pr <- get_proc p;;
      when (negb (killed pr =? 0) && (Z.land (tf_cs t) 3 =? DPL_USER)) exit
  | None => ret tt
  end.

Definition timer_tick : K unit :=
  c <- cpuid;;
  when (bool_decide (c = 0%nat))
    (acquire LTicks;;
     setd (fun d => d <|ticks ::= fun t => u32 (t + 1)|>);;
     wakeup CTicks;;
     release LTicks).

(** A trap that is no interrupt: the kernel's mistake, or the process's. *)
Definition unexpected_trap (t : trapframe) : K unit :=
  me <- myproc;;
  c <- cpuid;;
  a <- getd cr2;;
  if bool_decide (me = None) || (Z.land (tf_cs t) 3 =? 0) then
    cprintf (lit "unexpected trap %d from cpu %d eip %x (cr2=0x%x)" ++ [NEWLINE])
      [AInt (tf_trapno t); AInt (Z.of_nat c); AInt (tf_eip t); AInt a];;
    panic "trap"
  else
    p <- deref me;;
    pr <- get_proc p;;
    cprintf (lit "pid %d %s: trap %d err %d on cpu %d eip 0x%x addr 0x%x--kill proc"
             ++ [NEWLINE])
      [AInt (pid pr); AStr (Some (until0 (name pr))); AInt (tf_trapno t); AInt (tf_err t);
       AInt (Z.of_nat c); AInt (tf_eip t); AInt a];;
    set_proc p (fun pr => pr <|killed := 1|>).

(** The switch on the trap number *)
Definition trap_dispatch (t : trapframe) : K unit :=
  let n := tf_trapno t in
  if n =? T_IRQ0 + IRQ_TIMER then timer_tick
  else if n =? T_IRQ0 + IRQ_IDE then ideintr
  else if n =? T_IRQ0 + IRQ_IDE + 1 then ret tt
  else if n =? T_IRQ0 + IRQ_KBD then kbdintr
  else if n =? T_IRQ0 + IRQ_COM1 then uartintr
  else if n =? T_TLBFLUSH then
    c <- mycpu;;
    x <- get_cpu c;;
    cprintf (lit "I got shot! %d" ++ [NEWLINE]) [AInt (apicid x)]
  else if (n =? T_IRQ0 + 7) || (n =? T_IRQ0 + IRQ_SPURIOUS) then
    c <- cpuid;;
    cprintf (lit "cpu%d: spurious interrupt at %x:%x" ++ [NEWLINE])
      [AInt (Z.of_nat c); AInt (tf_cs t); AInt (tf_eip t)]
  else unexpected_trap t.

(** [if(myproc() && myproc()->state == RUNNING && tf->trapno ==
    T_IRQ0+IRQ_TIMER) yield();] *)
Definition preempt (t : trapframe) : K unit :=
  p <- myproc;;
  match p with
  | Some p =>
      pr <- get_proc p;;
      when (bool_decide (state pr = RUNNING) && (tf_trapno t =? T_IRQ0 + IRQ_TIMER)) yield
  | None => ret tt
  end.

(** The frame of a system call is at the top of the thread's kernel stack. *)
Definition trap (t : trapframe) : K unit :=
  if tf_trapno t =? T_SYSCALL then
    exit_if_killed;;
    p <- curproc;;
    set_proc p (fun pr => pr <|tf := t|> <|tfp := u32 (kstack pr + KSTACKSIZE - TFSIZE)|>);;
    syscall;;
    exit_if_killed
  else
    trap_dispatch t;;
    exit_if_killed_user t;;
    preempt t;;
    exit_if_killed_user t.
End Trap.

(** ** The table that [tvinit] builds *)

(** The address in a gate *)
Definition gate_off (g : gatedesc) : Z := Z.lor (Z.shiftl (gd_off_31_16 g) 16) (gd_off_15_0 g).

Lemma gate_off_SETGATE istrap sel off d : gate_off (SETGATE istrap sel off d) = u32 off.
Proof.
  unfold gate_off, SETGATE. cbn. apply Z.bits_inj'. intros n Hn.
  rewrite Z.lor_spec, Z.land_spec, Z.shiftl_spec by done. change 0xffff with (Z.ones 16).
  destruct (decide (n < 16)).
  - rewrite Z.testbit_neg_r, Z.ones_spec_low by lia. by rewrite andb_true_r.
  - rewrite Z.shiftr_spec, Z.ones_spec_high by lia. rewrite andb_false_r, orb_false_r. f_equal. lia.
Qed.

(** The gates below [n] are those of the loop. *)
Definition gates (vectors : nat -> Z) (n : nat) (d : data) : Prop :=
  length (idt d) = 256%nat /\
  forall i, (i < n)%nat -> idt d !!! i = SETGATE false (Z.shiftl SEG_KCODE 3) (vectors i) 0.

Lemma runs_set_gate c me L i g d :
  runs c me L (set_gate i g) d tt (d <|idt ::= <[i := g]>|>) L.
Proof. apply runs_setd. Qed.

Lemma runs_gates c me L vectors d :
  length (idt d) = 256%nat ->
  exists d', runs c me L (iter (seq 0 256) (fun i =>
    set_gate i (SETGATE false (Z.shiftl SEG_KCODE 3) (vectors i) 0))) d tt d' L /\ gates vectors 256 d'.
Proof.
  intros Hl. apply (runs_iter_seq c me L 256 _ (gates vectors)); [split; [done|lia]|].
  intros i e Hi [He Hg]. eexists. split; [apply runs_set_gate|]. split; getset.
  - by rewrite length_insert.
  - intros j Hj. destruct (decide (j = i)) as [->|Hne].
    + by rewrite list_lookup_total_insert_eq by lia.
    + rewrite list_lookup_total_insert_ne by done. apply Hg. lia.
Qed.

(** C34: Programs enter the kernel only where it expects them.  After [tvinit]
    every one of the 256 gates leads to its entry in [vectors] with the kernel's
    code segment, and only the gate of system calls may be used from user mode
    and leaves interrupts on. *)
Theorem tvinit_gates c me vectors d :
  length (idt d) = 256%nat ->
  exists d', runs c me [] (tvinit vectors) d tt d' [] /\
    forall i, (i < 256)%nat -> let g := idt d' !!! i in
      gate_off g = u32 (vectors i) /\ gd_cs g = 8 /\ gd_p g = 1 /\
      (gd_dpl g = DPL_USER <-> Z.of_nat i = T_SYSCALL) /\
      (gd_type g = STS_TG32 <-> Z.of_nat i = T_SYSCALL) /\
      (Z.of_nat i <> T_SYSCALL -> gd_dpl g = 0 /\ gd_type g = STS_IG32).
Proof.
  intros Hl. destruct (runs_gates c me [] vectors d Hl) as (d1 & Hr & Hl1 & Hg).
  eexists. split.
  { unfold tvinit. eapply runs_bind; [exact Hr|]. eapply runs_bind; [apply runs_set_gate|].
    apply runs_initlock. apply not_elem_of_nil. }
  intros i Hi. cbv zeta. getset. unfold T_SYSCALL. change (Z.to_nat 64) with 64%nat.
  destruct (decide (i = 64%nat)) as [->|Hne].
  - rewrite list_lookup_total_insert_eq by lia. rewrite gate_off_SETGATE. by split_and!.
  - rewrite list_lookup_total_insert_ne, Hg by done. rewrite gate_off_SETGATE.
    split_and!; try done; cbn; unfold DPL_USER, STS_IG32, STS_TG32; lia.
Qed.

Lemma tvinit_gates_witness :
  let d0 := (data0 0 0 0 ∅) <|idt := replicate 256 inhabitant|> in
  exists d', runs 0 None [] (tvinit (fun i => 0x80106000 + Z.of_nat i)) d0 tt d' [] /\
    forall i, (i < 256)%nat -> let g := idt d' !!! i in
      gate_off g = u32 (0x80106000 + Z.of_nat i) /\ gd_cs g = 8 /\ gd_p g = 1 /\
      (gd_dpl g = DPL_USER <-> Z.of_nat i = T_SYSCALL) /\
      (gd_type g = STS_TG32 <-> Z.of_nat i = T_SYSCALL) /\
      (Z.of_nat i <> T_SYSCALL -> gd_dpl g = 0 /\ gd_type g = STS_IG32).
Proof.
  apply (tvinit_gates 0 None (fun i => 0x80106000 + Z.of_nat i)
    ((data0 0 0 0 ∅) <|idt := replicate 256 inhabitant|>)). reflexivity.
Defined.
