(* ===== verification/Mp.v ===== *)
(** * Finding the processors (mp.c), interrupt controllers (ioapic.c, lapic.c, picirq.c) and the clock (lapic.c: cmostime)

    [m] is the physical memory, which the firmware has filled in; the kernel
    sees it at [P2V].  The I/O APIC has an index register and a window to the
    register that is selected.  A write to the command register of the local
    APIC sends an interrupt to a processor.  The clock chip is a parameter: what each
    register holds at the [k]-th access. *)

From S2P Require Import Prelude Params CString Printk Trap.

(** ** mp.h *)

Definition MPPROC : Z := 0.
Definition MPBUS : Z := 1.
Definition MPIOAPIC : Z := 2.
Definition MPIOINTR : Z := 3.
Definition MPLINTR : Z := 4.

Definition MPSIZE : Z := 16.
Definition mp_physaddr (m : memory) (p : Z) : Z := load32 m (p + 4).
Definition mp_imcrp (m : memory) (p : Z) : Z := m (p + 12).

Definition MPCONFSIZE : Z := 44.
Definition conf_length (m : memory) (p : Z) : Z := m (p + 4) + 256 * m (p + 5).
Definition conf_version (m : memory) (p : Z) : Z := m (p + 6).
Definition conf_lapicaddr (m : memory) (p : Z) : Z := load32 m (p + 36).

Definition MPPROCSIZE : Z := 20.
Definition MPIOAPICSIZE : Z := 8.

(** ** mp.c *)

Record mpstate := MpState { apicids : list Z; ioapicid : Z; lapic : Z; imcr : Z }.
#[export] Instance eta_mpstate : Eta mpstate :=
  fun s => MpState (apicids s) (ioapicid s) (lapic s) (imcr s).

(** [ncpu] counts the entries of [cpus] that are filled in. *)
Definition ncpu (s : mpstate) : Z := Z.of_nat (length (apicids s)).

Section Mp.
Context (m : memory).

Definition sum (addr len : Z) : Z := u8 (foldl (fun s i => s + m (addr + i)) 0 (seqZ 0 len)).

(** [memcmp(p, s, 4) == 0] *)
Definition signed (p : Z) (s : string) : bool := bool_decide (load_bytes m p 4 = lit s).

Definition mp_at (p : Z) : bool := signed p "_MP_" && (sum p MPSIZE =? 0).

Fixpoint mp_scan (fuel : nat) (p e : Z) : option Z :=
  match fuel with
  | O => None
  | S fuel => if p <? e then if mp_at p then Some p else mp_scan fuel (p + MPSIZE) e else None
  end.
Definition mpsearch1 (a len : Z) : option Z := mp_scan (Z.to_nat (len / MPSIZE) + 2) a (a + len).

Definition mpsearch : option Z :=
  let bda := 0x400 in
  let p := Z.shiftl (Z.lor (Z.shiftl (m (bda + 0x0F)) 8) (m (bda + 0x0E))) 4 in
  let first :=
    if negb (p =? 0) then mpsearch1 p 1024
    else mpsearch1 (u32 (Z.lor (Z.shiftl (m (bda + 0x14)) 8) (m (bda + 0x13)) * 1024 - 1024)) 1024 in
  match first with
  | Some mp => Some mp
  | None => mpsearch1 0xF0000 0x10000
  end.

(** The configuration table and the structure that points to it *)
Definition mpconfig : option (Z * Z) :=
  match mpsearch with
  | None => None
  | Some mp =>
      let conf := mp_physaddr m mp in
      if conf =? 0 then None
      else if negb (signed conf "PCMP") then None
      else if negb (conf_version m conf =? 1) && negb (conf_version m conf =? 4) then None
      else if negb (sum conf (conf_length m conf) =? 0) then None
      else Some (mp, conf)
  end.

(** One round of the loop over the entries.  The [break] of the default case
    leaves the [switch], not the loop. *)
Definition mp_round (e : Z) : Z * bool -> M mpstate ((Z * bool) + bool) := fun '(p, ismp) =>
  if p <? e then
    let type := m p in
    if type =? MPPROC then
      n <- gets ncpu;;
      when (n <? Z.of_nat NCPU) (modify (fun s => s <|apicids ::= fun l => l ++ [m (p + 1)]|>));;
      ret (inl (p + MPPROCSIZE, ismp))
    else if type =? MPIOAPIC then
      modify (fun s => s <|ioapicid := m (p + 1)|>);;
      ret (inl (p + MPIOAPICSIZE, ismp))
    else if (type =? MPBUS) || (type =? MPIOINTR) || (type =? MPLINTR) then ret (inl (p + 8, ismp))
    else ret (inl (p, false))
  else ret (inr ismp).

Definition mpinit (fuel : nat) : M mpstate unit :=
  match mpconfig with
  | None => panic "Expect to run on an SMP"
  | Some (mp, conf) =>
      modify (fun s => s <|lapic := conf_lapicaddr m conf|>);;
      ismp <- loop fuel (mp_round (conf + conf_length m conf)) (conf + MPCONFSIZE, true);;
      if negb ismp then panic "Didn't find a suitable machine" else
      when (negb (mp_imcrp m mp =? 0)) (modify (fun s => s <|imcr ::= fun v => Z.lor v 1|>))
  end.

(** ** The search *)

Lemma mp_scan_first fuel : forall p e, e <= p + MPSIZE * Z.of_nat fuel ->
  match mp_scan fuel p e with
  | Some x => exists k, 0 <= k /\ x = p + MPSIZE * k /\ x < e /\ mp_at x = true /\
                forall j, 0 <= j < k -> mp_at (p + MPSIZE * j) = false
  | None => forall k, 0 <= k -> p + MPSIZE * k < e -> mp_at (p + MPSIZE * k) = false
  end.
Proof.
  induction fuel as [|fuel IH]; intros p e Hf; cbn [mp_scan].
  - intros k Hk Hlt. unfold MPSIZE in *. lia.
  - destruct (Z.ltb_spec p e) as [Hlt|Hge]; [|intros k Hk Hlt; unfold MPSIZE in *; lia].
    destruct (mp_at p) eqn:E.
    + exists 0. rewrite Z.mul_0_r, Z.add_0_r. split_and!; [lia|done|done|done|lia].
    + specialize (IH (p + MPSIZE) e ltac:(unfold MPSIZE in *; lia)).
      destruct (mp_scan fuel (p + MPSIZE) e) as [x|].
      * destruct IH as (k & Hk & -> & Hx & Hat & Hno). exists (k + 1). split_and!; [lia|lia|lia|done|].
        intros j Hj. destruct (decide (j = 0)) as [->|Hj0]; [by rewrite Z.mul_0_r, Z.add_0_r|].
        replace (p + MPSIZE * j) with (p + MPSIZE + MPSIZE * (j - 1)) by lia. apply Hno. lia.
      * intros k Hk Hlt'. destruct (decide (k = 0)) as [->|Hk0]; [by rewrite Z.mul_0_r, Z.add_0_r|].
        replace (p + MPSIZE * k) with (p + MPSIZE + MPSIZE * (k - 1)) in * by lia. apply IH; lia.
Qed.

(** [mpsearch1] finds the first valid structure at a multiple of its size. *)
Theorem mpsearch1_first a len : 0 <= len ->
  match mpsearch1 a len with
  | Some x => exists k, 0 <= k /\ x = a + MPSIZE * k /\ x < a + len /\ mp_at x = true /\
                forall j, 0 <= j < k -> mp_at (a + MPSIZE * j) = false
  | None => forall k, 0 <= k -> MPSIZE * k < len -> mp_at (a + MPSIZE * k) = false
  end.
Proof.
  intros Hl. pose proof (mp_scan_first (Z.to_nat (len / MPSIZE) + 2) a (a + len)) as H.
  unfold mpsearch1. assert (a + len <= a + MPSIZE * Z.of_nat (Z.to_nat (len / MPSIZE) + 2)) as Hf.
  { unfold MPSIZE. Z.div_mod_to_equations. lia. }
  specialize (H Hf). destruct (mp_scan _ a (a + len)); [exact H|]. intros k Hk Hlt. apply H; lia.
Qed.

(** ** The table *)

Inductive entry := EProc (apicid : Z) | EIoapic (apicno : Z) | EOther (type : Z).
Definition entry_size (x : entry) : Z :=
  match x with EProc _ => MPPROCSIZE | EIoapic _ => MPIOAPICSIZE | EOther _ => 8 end.

(** The entry is in memory at [p]; of an entry only these bytes matter. *)
Definition entry_at (p : Z) (x : entry) : Prop :=
  match x with
  | EProc id => m p = MPPROC /\ m (p + 1) = id
  | EIoapic id => m p = MPIOAPIC /\ m (p + 1) = id
  | EOther t => m p = t /\ (t = MPBUS \/ t = MPIOINTR \/ t = MPLINTR)
  end.

Fixpoint table_at (p : Z) (l : list entry) (e : Z) : Prop :=
  match l with
  | [] => p = e
  | x :: l => entry_at p x /\ table_at (p + entry_size x) l e
  end.

Definition add_entry (s : mpstate) (x : entry) : mpstate :=
  match x with
  | EProc id => if bool_decide (length (apicids s) < NCPU)%nat then s <|apicids ::= fun l => l ++ [id]|> else s
  | EIoapic id => s <|ioapicid := id|>
  | EOther _ => s
  end.

Definition procs_of (l : list entry) : list Z := omap (fun x => match x with EProc id => Some id | _ => None end) l.

Lemma add_entries l : forall s, (length (apicids s) <= NCPU)%nat ->
  apicids (foldl add_entry s l) = take NCPU (apicids s ++ procs_of l) /\ lapic (foldl add_entry s l) = lapic s /\
  imcr (foldl add_entry s l) = imcr s.
Proof.
  induction l as [|x l IH]; intros s Hs.
  - simpl. by rewrite app_nil_r, take_ge.
  - destruct x as [id|id|t]; cbn [foldl add_entry].
    + case_bool_decide as Hlt.
      * destruct (IH (s <|apicids ::= fun l => l ++ [id]|>)) as (E1 & E2 & E3).
        { getset. rewrite length_app. simpl. lia. }
        rewrite E1, E2, E3. getset. rewrite <- app_assoc. done.
      * destruct (IH s Hs) as (E1 & E2 & E3). rewrite E1, E2, E3. split; [|done].
        rewrite !take_app_le by lia. done.
    + destruct (IH (s <|ioapicid := id|>)) as (E1 & E2 & E3); [done|]. by rewrite E1, E2, E3.
    + destruct (IH s Hs) as (E1 & E2 & E3). by rewrite E1, E2, E3.
Qed.

Lemma table_end l : forall p e, table_at p l e -> p <= e.
Proof.
  induction l as [|x l IH]; intros p e; simpl; [lia|]. intros [_ Ht]. apply IH in Ht.
  destruct x; simpl in *; unfold MPPROCSIZE, MPIOAPICSIZE in *; lia.
Qed.

Lemma does_entry s p x e b : entry_at p x -> p < e ->
  does (mp_round e (p, b)) s (inl (p + entry_size x, b)) (add_entry s x).
Proof.
  intros Hx Hlt. unfold mp_round. rewrite (proj2 (Z.ltb_lt _ _)) by done. cbv zeta.
  destruct x as [id|id|t]; cbn [entry_at] in Hx.
  - destruct Hx as [-> ->]. cbn [Z.eqb MPPROC]. dstep. unfold ncpu. cbn [add_entry entry_size].
    case_bool_decide.
    + rewrite (proj2 (Z.ltb_lt _ _)) by lia. eapply does_bind; [apply does_modify|apply does_ret].
    + rewrite (proj2 (Z.ltb_ge _ _)) by lia. eapply does_bind; [apply does_ret|apply does_ret].
  - destruct Hx as [-> ->]. change (MPIOAPIC =? MPPROC) with false. change (MPIOAPIC =? MPIOAPIC) with true. cbv iota.
    eapply does_bind; [apply does_modify|apply does_ret].
  - destruct Hx as [-> [-> |[-> | -> ]]]; apply does_ret.
Qed.

Lemma does_entries l : forall s p e b fuel, table_at p l e -> (length l < fuel)%nat ->
  does (loop fuel (mp_round e) (p, b)) s b (foldl add_entry s l).
Proof.
  induction l as [|x l IH]; intros s p e b fuel Ht Hf; (destruct fuel as [|fuel]; [simpl in Hf; lia|]).
  - simpl in Ht. subst. apply does_loop_stop. unfold mp_round. rewrite Z.ltb_irrefl. apply does_ret.
  - destruct Ht as [Hx Ht]. pose proof (table_end _ _ _ Ht) as He.
    assert (0 < entry_size x) by (by destruct x). simpl in Hf.
    eapply does_loop_more; [apply does_entry; [done|lia]|]. apply IH; [done|lia].
Qed.

(** mpinit fills in the processors of the table, in order and at most NCPU of
    them, and ends. *)
Theorem mpinit_finds mp conf l s fuel :
  mpconfig = Some (mp, conf) -> table_at (conf + MPCONFSIZE) l (conf + conf_length m conf) ->
  apicids s = [] -> (length l < fuel)%nat ->
  exists s', does (mpinit fuel) s tt s' /\ apicids s' = take NCPU (procs_of l) /\ ncpu s' <= Z.of_nat NCPU /\
    lapic s' = conf_lapicaddr m conf.
Proof.
  intros Hc Ht Hs Hf. set (s1 := s <|lapic := conf_lapicaddr m conf|>).
  destruct (add_entries l s1) as (E1 & E2 & _); [unfold s1; getset; rewrite Hs; simpl; lia|].
  change (apicids s1) with (apicids s) in E1. rewrite Hs in E1. simpl app in E1.
  assert (length (take NCPU (procs_of l)) <= NCPU)%nat as Hle by (rewrite length_take; lia).
  unfold mpinit. rewrite Hc. destruct (negb (mp_imcrp m mp =? 0)) eqn:Ei.
  - exists ((foldl add_entry s1 l) <|imcr ::= fun v => Z.lor v 1|>). split_and!.
    + eapply does_bind; [apply does_modify|]. eapply does_bind; [by apply does_entries|]. apply does_modify.
    + exact E1.
    + unfold ncpu. getset. rewrite E1. lia.
    + exact E2.
  - exists (foldl add_entry s1 l). split_and!.
    + eapply does_bind; [apply does_modify|]. eapply does_bind; [by apply does_entries|]. apply does_ret.
    + exact E1.
    + unfold ncpu. rewrite E1. lia.
    + exact E2.
Qed.

(** An entry of an unknown type is not skipped: the loop does not end, and the
    panic after it is never reached. *)
Theorem mpinit_hangs e p b w fuel : p < e -> m p < 0 \/ MPLINTR < m p ->
  fst (loop fuel (mp_round e) (p, b) w) = NoFuel.
Proof.
  intros Hlt Ht. revert b w. induction fuel as [|fuel IH]; intros b w; [done|].
  cbn [loop]. unfold bind at 1. unfold mp_round at 1. rewrite (proj2 (Z.ltb_lt _ _)) by done. cbv zeta.
  unfold MPPROC, MPIOAPIC, MPBUS, MPIOINTR, MPLINTR in *.
  rewrite !(proj2 (Z.eqb_neq _ _)) by lia. cbn [orb]. apply IH.
Qed.
End Mp.

(** ** ioapic.c *)

Definition REG_ID : Z := 0x00.
Definition REG_VER : Z := 0x01.
Definition REG_TABLE : Z := 0x10.
Definition INT_DISABLED : Z := 0x00010000.

(** The device: the selected register, the registers; [warned] when the kernel
    printed that the identification differs. *)
Record ioapic := Ioapic { io_reg : Z; io_regs : Z -> Z; io_warned : bool }.
#[export] Instance eta_ioapic : Eta ioapic := fun s => Ioapic (io_reg s) (io_regs s) (io_warned s).

Definition set_reg (reg v : Z) (f : Z -> Z) : Z -> Z := fun r => if r =? reg then v else f r.

Definition ioapicread (reg : Z) : M ioapic Z :=
  modify (fun s => s <|io_reg := reg|>);;
  gets (fun s => io_regs s (io_reg s)).
Definition ioapicwrite (reg v : Z) : M ioapic unit :=
  modify (fun s => s <|io_reg := reg|>);;
  modify (fun s => s <|io_regs ::= set_reg (io_reg s) v|>).

Definition ioapicinit (ioapicid : Z) : M ioapic unit :=
  v <- ioapicread REG_VER;;
  let maxintr := Z.land (Z.shiftr v 16) 0xFF in
  id <- ioapicread REG_ID;;
  when (negb (Z.shiftr id 24 =? ioapicid)) (modify (fun s => s <|io_warned := true|>));;
  iter (seqZ 0 (maxintr + 1)) (fun i =>
    ioapicwrite (REG_TABLE + 2 * i) (Z.lor INT_DISABLED (T_IRQ0 + i));;
    ioapicwrite (REG_TABLE + 2 * i + 1) 0).

Definition ioapicenable (irq cpunum : Z) : M ioapic unit :=
  ioapicwrite (REG_TABLE + 2 * irq) (T_IRQ0 + irq);;
  ioapicwrite (REG_TABLE + 2 * irq + 1) (u32 (Z.shiftl cpunum 24)).

(** An entry of the redirection table: whether the interrupt is enabled, its
    vector and its destination *)
Definition redirection (s : ioapic) (irq : Z) : bool * Z * Z :=
  let lo := io_regs s (REG_TABLE + 2 * irq) in
  (Z.land lo INT_DISABLED =? 0, Z.land lo 0xFF, Z.shiftr (io_regs s (REG_TABLE + 2 * irq + 1)) 24).

Lemma does_ioapicwrite s reg v :
  does (ioapicwrite reg v) s tt (s <|io_reg := reg|> <|io_regs ::= set_reg reg v|>).
Proof. eapply does_bind; [apply does_modify|]. refine (does_modify (fun s => s <|io_regs ::= set_reg (io_reg s) v|>) _). Qed.

(** Two writes set one entry and no other. *)
Lemma redirection_set s i j lo hi : 0 <= i -> 0 <= j ->
  redirection (s <|io_reg := REG_TABLE + 2 * i|> <|io_regs ::= set_reg (REG_TABLE + 2 * i) lo|>
    <|io_reg := REG_TABLE + 2 * i + 1|> <|io_regs ::= set_reg (REG_TABLE + 2 * i + 1) hi|>) j =
  if decide (j = i) then (Z.land lo INT_DISABLED =? 0, Z.land lo 0xFF, Z.shiftr hi 24) else redirection s j.
Proof.
  intros Hi Hj. unfold redirection. getset. unfold set_reg.
  rewrite (proj2 (Z.eqb_neq (REG_TABLE + 2 * j) (REG_TABLE + 2 * i + 1))) by lia.
  rewrite (proj2 (Z.eqb_neq (REG_TABLE + 2 * j + 1) (REG_TABLE + 2 * i))) by lia.
  case_decide as E.
  - subst. by rewrite !Z.eqb_refl.
  - rewrite (proj2 (Z.eqb_neq (REG_TABLE + 2 * j) (REG_TABLE + 2 * i))) by lia.
    by rewrite (proj2 (Z.eqb_neq (REG_TABLE + 2 * j + 1) (REG_TABLE + 2 * i + 1))) by lia.
Qed.

Lemma disabled_entry i : 0 <= i < 224 ->
  Z.land (Z.lor INT_DISABLED (T_IRQ0 + i)) INT_DISABLED =? 0 = false /\
  Z.land (Z.lor INT_DISABLED (T_IRQ0 + i)) 0xFF = T_IRQ0 + i /\
  Z.land (T_IRQ0 + i) INT_DISABLED = 0 /\ Z.land (T_IRQ0 + i) 0xFF = T_IRQ0 + i.
Proof.
  intros Hi. assert (forallb (fun i => (negb (Z.land (Z.lor INT_DISABLED (T_IRQ0 + i)) INT_DISABLED =? 0)) &&
    (Z.land (Z.lor INT_DISABLED (T_IRQ0 + i)) 0xFF =? T_IRQ0 + i) && (Z.land (T_IRQ0 + i) INT_DISABLED =? 0) &&
    (Z.land (T_IRQ0 + i) 0xFF =? T_IRQ0 + i)) (seqZ 0 224) = true) as H by by vm_compute.
  apply (forallb_range _ _ _ i) in H; [|lia].
  rewrite !andb_true_iff, negb_true_iff in H. destruct H as (((H1 & H2) & H3) & H4).
  split_and!; [done|lia|lia|lia].
Qed.

Lemma does_mask_all l : Forall (fun i => 0 <= i < 224) l -> NoDup l -> forall s, exists s',
  does (iter l (fun i => ioapicwrite (REG_TABLE + 2 * i) (Z.lor INT_DISABLED (T_IRQ0 + i));;
                         ioapicwrite (REG_TABLE + 2 * i + 1) 0)) s tt s' /\
  forall j, 0 <= j -> redirection s' j = if decide (j ∈ l) then (false, T_IRQ0 + j, 0) else redirection s j.
Proof.
  induction 1 as [|i l Hi Hl IH]; intros Hnd s.
  - exists s. split; [apply does_ret|]. intros j Hj. by rewrite decide_False by apply not_elem_of_nil.
  - apply NoDup_cons in Hnd as [Hni Hnd]. set (s1 := s <|io_reg := REG_TABLE + 2 * i|>
      <|io_regs ::= set_reg (REG_TABLE + 2 * i) (Z.lor INT_DISABLED (T_IRQ0 + i))|>
      <|io_reg := REG_TABLE + 2 * i + 1|> <|io_regs ::= set_reg (REG_TABLE + 2 * i + 1) 0|>).
    destruct (IH Hnd s1) as (s' & D & E). exists s'. split.
    + cbn [iter]. eapply does_bind; [|exact D]. eapply does_bind; apply does_ioapicwrite.
    + intros j Hj. rewrite E by done. unfold s1. rewrite redirection_set by lia.
      destruct (disabled_entry i Hi) as (D1 & D2 & _). rewrite D1, D2.
      repeat case_decide; subst; try set_solver.
Qed.

(** The controller after [ioapicinit]: every interrupt masked; [ioapicenable]
    then unmasks one, with its vector and its processor, and no other. *)
Theorem ioapic_routes id s irq cpu : 0 <= irq < 224 -> 0 <= cpu < 256 ->
  Z.land (Z.shiftr (io_regs s REG_VER) 16) 0xFF < 224 ->
  exists s1 s2, does (ioapicinit id) s tt s1 /\ does (ioapicenable irq cpu) s1 tt s2 /\
    (forall j, 0 <= j <= Z.land (Z.shiftr (io_regs s REG_VER) 16) 0xFF -> redirection s1 j = (false, T_IRQ0 + j, 0)) /\
    forall j, 0 <= j -> redirection s2 j = if decide (j = irq) then (true, T_IRQ0 + irq, cpu) else redirection s1 j.
Proof.
  intros Hirq Hcpu Hmax. set (mx := Z.land (Z.shiftr (io_regs s REG_VER) 16) 0xFF) in *.
  assert (0 <= mx) as Hpos by (apply Z.land_nonneg; right; lia).
  set (w := if negb (Z.shiftr (io_regs s REG_ID) 24 =? id) then s <|io_reg := REG_VER|> <|io_reg := REG_ID|> <|io_warned := true|>
            else s <|io_reg := REG_VER|> <|io_reg := REG_ID|>).
  destruct (does_mask_all (seqZ 0 (mx + 1))) with (s := w) as (s1 & D & E).
  { apply Forall_forall. intros i Hi%elem_of_seqZ. lia. }
  { apply NoDup_seqZ. }
  exists s1. eexists. split_and!.
  - unfold ioapicinit. eapply does_bind; [eapply does_bind; [apply does_modify|apply does_gets]|]. cbv zeta.
    eapply does_bind; [eapply does_bind; [apply does_modify|apply does_gets]|]. getset.
    eapply (does_bind _ _ _ w); [|exact D]. unfold w. destruct (negb _); [apply does_modify|apply does_ret].
  - eapply does_bind; apply does_ioapicwrite.
  - intros j Hj. rewrite E by lia. apply decide_True. apply elem_of_seqZ. lia.
  - intros j Hj. rewrite redirection_set by lia. case_decide; [|done]. destruct (disabled_entry irq Hirq) as (_ & _ & D1 & D2).
    rewrite D1, D2. do 2 f_equal. unfold u32. rewrite Z.shiftl_mul_pow2, Z.shiftr_div_pow2 by lia.
    rewrite Z.mod_small by (unfold two32; lia). by rewrite Z.div_mul.
Qed.

(** ** lapic.c: the clock *)

Definition CMOS_STATA : Z := 0x0a.
Definition CMOS_STATB : Z := 0x0b.
Definition CMOS_UIP : Z := Z.shiftl 1 7.
Definition SECS : Z := 0x00.
Definition MINS : Z := 0x02.
Definition HOURS : Z := 0x04.
Definition DAY : Z := 0x07.
Definition MONTH : Z := 0x08.
Definition YEAR : Z := 0x09.

Record rtcdate := Rtc { second : Z; minute : Z; hour : Z; day : Z; month : Z; year : Z }.
#[export] Instance rtcdate_eq_dec : EqDecision rtcdate.
Proof. solve_decision. Defined.

(** The kernel's side of the chip: the selected register and the number of
    accesses made so far *)
Record rtc := RtcPort { cmos_sel : Z; cmos_count : nat }.
#[export] Instance eta_rtc : Eta rtc := fun s => RtcPort (cmos_sel s) (cmos_count s).

Section Clock.
Context (chip : nat -> Z -> Z).

Definition cmos_read (reg : Z) : M rtc Z :=
  modify (fun s => s <|cmos_sel := reg|>);;
  v <- gets (fun s => chip (cmos_count s) (cmos_sel s));;
  modify (fun s => s <|cmos_count ::= S|>);;
  ret v.

Definition fill_rtcdate : M rtc rtcdate :=
  s <- cmos_read SECS;;
  mi <- cmos_read MINS;;
  h <- cmos_read HOURS;;
  d <- cmos_read DAY;;
  mo <- cmos_read MONTH;;
  y <- cmos_read YEAR;;
  ret (Rtc s mi h d mo y).

Definition CONV (x : Z) : Z := Z.shiftr x 4 * 10 + Z.land x 0xf.

Definition cmostime_round (_ : unit) : M rtc (unit + rtcdate) :=
  t1 <- fill_rtcdate;;
  a <- cmos_read CMOS_STATA;;
  if negb (Z.land a CMOS_UIP =? 0) then ret (inl tt) else
  t2 <- fill_rtcdate;;
  ret (if decide (t1 = t2) then inr t1 else inl tt).

Definition cmostime (fuel : nat) : M rtc rtcdate :=
  sb <- cmos_read CMOS_STATB;;
  let bcd := Z.land sb (Z.shiftl 1 2) =? 0 in
  t1 <- loop fuel cmostime_round tt;;
  let t1 := if bcd then Rtc (CONV (second t1)) (CONV (minute t1)) (CONV (hour t1))
                            (CONV (day t1)) (CONV (month t1)) (CONV (year t1)) else t1 in
  ret (Rtc (second t1) (minute t1) (hour t1) (day t1) (month t1) (year t1 + 2000)).

(** *** What it reads *)

Definition date_at (k : nat) : rtcdate :=
  Rtc (chip k SECS) (chip (k + 1) MINS) (chip (k + 2) HOURS)
      (chip (k + 3) DAY) (chip (k + 4) MONTH) (chip (k + 5) YEAR).
Definition updating (k : nat) : bool := negb (Z.land (chip k CMOS_STATA) CMOS_UIP =? 0).

(** A date that was read twice with no update in progress in between *)
Definition steady (k : nat) : Prop := updating (k + 6) = false /\ date_at k = date_at (k + 7).

Lemma does_cmos_read reg s k : does (cmos_read reg) (RtcPort s k) (chip k reg) (RtcPort reg (S k)).
Proof. done. Qed.

Lemma does_fill_rtcdate s k : does fill_rtcdate (RtcPort s k) (date_at k) (RtcPort YEAR (k + 6)).
Proof.
  unfold date_at. do 6 (eapply does_bind; [apply does_cmos_read|]).
  replace (k + 1)%nat with (S k) by lia. replace (k + 2)%nat with (S (S k)) by lia.
  replace (k + 3)%nat with (S (S (S k))) by lia. replace (k + 4)%nat with (S (S (S (S k)))) by lia.
  replace (k + 5)%nat with (S (S (S (S (S k))))) by lia. replace (k + 6)%nat with (S (S (S (S (S (S k)))))) by lia.
  done.
Qed.

Lemma does_cmostime_round s k : exists k' s',
  does (cmostime_round tt) (RtcPort s k)
    (if decide (updating (k + 6) = false /\ date_at k = date_at (k + 7)) then inr (date_at k) else inl tt) (RtcPort s' k') /\
  (k < k')%nat.
Proof.
  destruct (updating (k + 6)) eqn:E; [exists (k + 7)%nat, CMOS_STATA|exists (k + 13)%nat, YEAR]; (split; [|lia]).
  all: eapply does_bind; [apply does_fill_rtcdate|]; eapply does_bind; [apply does_cmos_read|].
  all: replace (negb _) with (updating (k + 6)) by done; rewrite E.
  - rewrite decide_False by naive_solver. replace (S (k + 6)) with (k + 7)%nat by lia. done.
  - replace (S (k + 6)) with (k + 7)%nat by lia. eapply does_bind; [apply does_fill_rtcdate|].
    replace (k + 7 + 6)%nat with (k + 13)%nat by lia. cbv beta.
    destruct (decide (date_at k = date_at (k + 7))); [rewrite decide_True by done|rewrite decide_False by tauto]; apply does_ret.
Qed.

(** Once the chip stands still the loop is left; whenever it is left the date
    is one that was read twice with no update in between. *)
Lemma does_cmostime_loop n d s k : (n <= k + d)%nat -> (forall j, (n <= j)%nat -> steady j) ->
  exists k' s' k'', does (loop (S d) cmostime_round tt) (RtcPort s k) (date_at k') (RtcPort s' k'') /\ steady k'.
Proof.
  intros Hn Hs. revert s k Hn. induction d as [|d IH]; intros s k Hn;
    destruct (does_cmostime_round s k) as (k1 & s1 & D & Hk); case_decide as E.
  1,3: eexists k, _, _; split; [eapply does_loop_stop; exact D|exact E].
  - destruct E. apply Hs. lia.
  - destruct (IH s1 k1 ltac:(lia)) as (k' & s' & k'' & D' & Hst). exists k', s', k''. split; [|done].
    eapply does_loop_more; [exact D|exact D'].
Qed.
End Clock.

(** The decimal digits of a number below one hundred in two half bytes, as the chip keeps them *)
Definition bcd (v : Z) : Z := 16 * (v / 10) + v mod 10.

Lemma CONV_bcd v : 0 <= v < 100 -> CONV (bcd v) = v.
Proof.
  intros Hv. assert (forallb (fun v => CONV (bcd v) =? v) (seqZ 0 100) = true) as H by by vm_compute.
  apply (forallb_range _ _ _ v) in H; [|lia].
  by apply Z.eqb_eq.
Qed.

(** A chip that shows the date [t], in decimal digits, from the [n]-th access
    on, and whose earlier answers may be anything: [cmostime] returns, and when
    the dates that were read twice without an update are all [t], it returns
    [t] in this century. *)
Theorem cmostime_tells chip n s t :
  Forall (fun v => 0 <= v < 100) [second t; minute t; hour t; day t; month t; year t] ->
  Z.land (chip 0%nat CMOS_STATB) 4 = 0 ->
  (forall j, (n <= j)%nat -> steady chip j) ->
  (forall j, steady chip j ->
     date_at chip j = Rtc (bcd (second t)) (bcd (minute t)) (bcd (hour t)) (bcd (day t)) (bcd (month t)) (bcd (year t))) ->
  exists s', does (cmostime chip (S n)) (RtcPort s 0)
    (Rtc (second t) (minute t) (hour t) (day t) (month t) (year t + 2000)) s'.
Proof.
  intros Hr Hb Hn Hd. destruct (does_cmostime_loop chip n n CMOS_STATB 1 ltac:(lia) Hn) as (k' & s' & k'' & D & Hst).
  eexists. eapply does_bind; [apply does_cmos_read|]. eapply does_bind; [exact D|].
  rewrite (Hd _ Hst). change (Z.shiftl 1 2) with 4. rewrite Hb. cbv zeta. cbn [Z.eqb second minute hour day month year].
  decompose_Forall_hyps. rewrite !CONV_bcd by done. apply does_ret.
Qed.

(** ** lapic.c: the local APIC *)

Definition ID : Z := 0x0020 / 4.
Definition VER : Z := 0x0030 / 4.
Definition TPR : Z := 0x0080 / 4.
Definition EOI : Z := 0x00B0 / 4.
Definition SVR : Z := 0x00F0 / 4.
Definition ENABLE : Z := 0x00000100.
Definition ESR : Z := 0x0280 / 4.
Definition ICRLO : Z := 0x0300 / 4.
Definition INIT : Z := 0x00000500.
Definition STARTUP : Z := 0x00000600.
Definition DELIVS : Z := 0x00001000.
Definition ASSERT : Z := 0x00004000.
Definition DEASSERT : Z := 0x00000000.
Definition LEVEL : Z := 0x00008000.
Definition EDGE : Z := 0x00000000.
Definition BCAST : Z := 0x00080000.
Definition BCASTEXCL : Z := 0x000C0000.
Definition FIXED : Z := 0x00000000.
Definition ICRHI : Z := 0x0310 / 4.
Definition TIMER : Z := 0x0320 / 4.
Definition X1 : Z := 0x0000000B.
Definition PERIODIC : Z := 0x00020000.
Definition PCINT : Z := 0x0340 / 4.
Definition LINT0 : Z := 0x0350 / 4.
Definition LINT1 : Z := 0x0360 / 4.
Definition ERROR : Z := 0x0370 / 4.
Definition MASKED : Z := 0x00010000.
Definition TICR : Z := 0x0380 / 4.
Definition TDCR : Z := 0x03E0 / 4.
Definition IRQ_ERROR : Z := 19.

(** The registers; the interrupts sent, as the two words of the command; the
    shutdown code in the clock's memory and the warm reset vector; how often
    the delivery status was read *)
Record apic := Apic { aregs : Z -> Z; sent : list (Z * Z); shutdown : Z; wrv : Z * Z; apolls : nat }.
#[export] Instance eta_apic : Eta apic := fun s => Apic (aregs s) (sent s) (shutdown s) (wrv s) (apolls s).

Definition lapicw (index value : Z) : M apic unit :=
  modify (fun s => s <|aregs ::= set_reg index (u32 value)|>);;
  when (index =? ICRLO) (modify (fun s => s <|sent ::= fun l => l ++ [(aregs s ICRHI, u32 value)]|>)).

Section Lapic.
Context (present : bool) (pending : nat -> bool).

(** [lapic[ICRLO]]: the hardware sets [DELIVS] while the interrupt is on its way. *)
Definition icrlo : M apic Z :=
  v <- gets (fun s => Z.lor (aregs s ICRLO) (if pending (apolls s) then DELIVS else 0));;
  modify (fun s => s <|apolls ::= S|>);;
  ret v.

Definition lapicinit (fuel : nat) : M apic unit :=
  if negb present then ret tt else
  lapicw SVR (Z.lor ENABLE (T_IRQ0 + IRQ_SPURIOUS));;
  lapicw TDCR X1;;
  lapicw TIMER (Z.lor PERIODIC (T_IRQ0 + IRQ_TIMER));;
  lapicw TICR 10000000;;
  lapicw LINT0 MASKED;;
  lapicw LINT1 MASKED;;
  v <- gets (fun s => aregs s VER);;
  when (4 <=? Z.land (Z.shiftr v 16) 0xFF) (lapicw PCINT MASKED);;
  lapicw ERROR (T_IRQ0 + IRQ_ERROR);;
  lapicw ESR 0;;
  lapicw ESR 0;;
  lapicw EOI 0;;
  lapicw ICRHI 0;;
  lapicw ICRLO (Z.lor BCAST (Z.lor INIT LEVEL));;
  loop fuel (fun _ =>
    v <- icrlo;; ret (if negb (Z.land v DELIVS =? 0) then inl tt else inr tt)) tt;;
  lapicw TPR 0.

Definition lapicid : M apic Z :=
  if negb present then ret 0 else gets (fun s => Z.shiftr (aregs s ID) 24).

Definition lapiceoi : M apic unit := when present (lapicw EOI 0).

Definition lapicstartap (apicid addr : Z) : M apic unit :=
  modify (fun s => s <|shutdown := 0x0A|>);;
  modify (fun s => s <|wrv := (0, Z.shiftr addr 4 mod 65536)|>);;
  lapicw ICRHI (Z.shiftl apicid 24);;
  lapicw ICRLO (Z.lor INIT (Z.lor LEVEL ASSERT));;
  lapicw ICRLO (Z.lor INIT LEVEL);;
  iter [0; 1] (fun _ =>
    lapicw ICRHI (Z.shiftl apicid 24);;
    lapicw ICRLO (Z.lor STARTUP (Z.shiftr addr 12))).

Definition lapicexclbcast (vector : Z) : M apic unit :=
  lapicw ICRLO (Z.lor BCASTEXCL (Z.lor EDGE (Z.lor DEASSERT (Z.lor FIXED vector)))).

Definition write_reg (i v : Z) (s : apic) : apic :=
  let s := s <|aregs ::= set_reg i (u32 v)|> in
  if i =? ICRLO then s <|sent ::= fun l => l ++ [(aregs s ICRHI, u32 v)]|> else s.

Lemma does_lapicw i v s : does (lapicw i v) s tt (write_reg i v s).
Proof.
  unfold lapicw, write_reg. eapply does_bind; [apply does_modify|]. destruct (i =? ICRLO); [|apply does_ret].
  refine (does_modify (fun s => s <|sent ::= fun l => l ++ [(aregs s ICRHI, u32 v)]|>) _).
Qed.

Lemma sent_write_lo v s : sent (write_reg ICRLO v s) = sent s ++ [(aregs s ICRHI, u32 v)].
Proof. done. Qed.
Lemma sent_write_hi v s : sent (write_reg ICRHI v s) = sent s.
Proof. done. Qed.
Lemma icrhi_after_lo v s : aregs (write_reg ICRLO v s) ICRHI = aregs s ICRHI.
Proof. done. Qed.
Lemma icrhi_after_hi v s : aregs (write_reg ICRHI v s) ICRHI = u32 v.
Proof. done. Qed.

(** The command register keeps what was written, but for the delivery status. *)
Lemma does_wait_delivery n : forall s, Z.land (aregs s ICRLO) DELIVS = 0 ->
  (exists j, (j < n)%nat /\ pending (apolls s + j) = false) ->
  exists k, does (loop n (fun _ =>
    v <- icrlo;; ret (if negb (Z.land v DELIVS =? 0) then inl tt else inr tt)) tt) s tt (s <|apolls := k|>).
Proof.
  induction n as [|n IH]; intros s Hd (j & Hj & E); [lia|].
  assert (does icrlo s (Z.lor (aregs s ICRLO) (if pending (apolls s) then DELIVS else 0)) (s <|apolls ::= S|>)) as D by done.
  destruct (pending (apolls s)) eqn:Ep.
  - destruct j as [|j]; [rewrite Nat.add_0_r in E; congruence|].
    set (s1 := s <|apolls ::= S|>) in *. destruct (IH s1) as (k & Dk); [exact Hd| |].
    { exists j. split; [lia|]. rewrite <- E. f_equal. change (S (apolls s) + j = apolls s + S j)%nat. lia. }
    exists k. eapply does_loop_more; [|exact Dk]. eapply does_bind; [exact D|]. cbv beta.
    rewrite Z.land_lor_distr_l, Hd. apply does_ret.
  - exists (S (apolls s)). apply does_loop_stop. eapply does_bind; [exact D|]. cbv beta.
    rewrite Z.lor_0_r, Hd. apply does_ret.
Qed.

(** The local APIC after [lapicinit]: enabled, the timer periodic on its vector
    and not masked, the two interrupt lines masked, every priority accepted. *)
Theorem lapicinit_ready n s : present = true -> (exists j, (j < n)%nat /\ pending (apolls s + j) = false) ->
  exists s', does (lapicinit n) s tt s' /\
    aregs s' SVR = Z.lor ENABLE (T_IRQ0 + IRQ_SPURIOUS) /\
    aregs s' TIMER = Z.lor PERIODIC (T_IRQ0 + IRQ_TIMER) /\ Z.land (aregs s' TIMER) MASKED = 0 /\
    aregs s' LINT0 = MASKED /\ aregs s' LINT1 = MASKED /\ aregs s' ERROR = T_IRQ0 + IRQ_ERROR /\ aregs s' TPR = 0 /\
    sent s' = sent s ++ [(0, Z.lor BCAST (Z.lor INIT LEVEL))].
Proof.
  intros Hp Hd. unfold lapicinit. rewrite Hp. cbn [negb]. destruct s as [f l sh wr k]. cbn [apolls sent] in *.
  set (v := f VER). set (b := 4 <=? Z.land (Z.shiftr v 16) 0xFF).
  set (w := fun i x s => write_reg i x s).
  set (s1 := w LINT1 MASKED (w LINT0 MASKED (w TICR 10000000 (w TIMER (Z.lor PERIODIC (T_IRQ0 + IRQ_TIMER))
    (w TDCR X1 (w SVR (Z.lor ENABLE (T_IRQ0 + IRQ_SPURIOUS)) (Apic f l sh wr k))))))).
  set (s2 := if b then w PCINT MASKED s1 else s1).
  set (s3 := w ICRLO (Z.lor BCAST (Z.lor INIT LEVEL)) (w ICRHI 0 (w EOI 0 (w ESR 0 (w ESR 0 (w ERROR (T_IRQ0 + IRQ_ERROR) s2)))))).
  assert (apolls s3 = k) as Ek by (unfold s3, s2; by destruct b).
  destruct (does_wait_delivery n s3) as (k' & D); [unfold s3, s2; by destruct b|by rewrite Ek|].
  exists (w TPR 0 (s3 <|apolls := k'|>)). split.
  - do 6 (eapply does_bind; [apply does_lapicw|]). eapply does_bind; [apply does_gets|].
    eapply (does_bind _ _ _ s2); [unfold s2; cbv beta; change (aregs _ VER) with v; fold b; destruct b; [apply does_lapicw|apply does_ret]|].
    do 6 (eapply does_bind; [apply does_lapicw|]). eapply does_bind; [exact D|]. apply does_lapicw.
  - unfold s3, s2. destruct b; done.
Qed.

(** Starting a processor: it gets INIT and then, twice, the page of the code it
    is to run, and no other processor gets anything. *)
Theorem lapicstartap_sends s apicid addr : 0 <= apicid < 256 -> 0 <= addr < 0x100000 -> addr mod 4096 = 0 ->
  exists s' icr, does (lapicstartap apicid addr) s tt s' /\
    sent s' = sent s ++ [(Z.shiftl apicid 24, 0xC500); (Z.shiftl apicid 24, 0x8500);
                         (Z.shiftl apicid 24, icr); (Z.shiftl apicid 24, icr)] /\
    Z.land icr 0x700 = STARTUP /\ Z.land icr 0xFF * 4096 = addr /\ shutdown s' = 0x0A /\ snd (wrv s') * 16 = addr.
Proof.
  intros Hid Ha Hal. exists (write_reg ICRLO (Z.lor STARTUP (Z.shiftr addr 12)) (write_reg ICRHI (Z.shiftl apicid 24)
    (write_reg ICRLO (Z.lor STARTUP (Z.shiftr addr 12)) (write_reg ICRHI (Z.shiftl apicid 24)
    (write_reg ICRLO (Z.lor INIT LEVEL) (write_reg ICRLO (Z.lor INIT (Z.lor LEVEL ASSERT)) (write_reg ICRHI (Z.shiftl apicid 24)
    (s <|shutdown := 0x0A|> <|wrv := (0, Z.shiftr addr 4 mod 65536)|>)))))))), (u32 (Z.lor STARTUP (Z.shiftr addr 12))).
  assert (u32 (Z.shiftl apicid 24) = Z.shiftl apicid 24) as U.
  { apply u32_small. rewrite Z.shiftl_mul_pow2 by lia. unfold two32. lia. }
  assert (0 <= Z.shiftr addr 12 < 256 /\ Z.shiftr addr 12 * 4096 = addr) as [Hp Hpa].
  { rewrite Z.shiftr_div_pow2 by lia. Z.to_euclidean_division_equations; lia. }
  assert (forallb (fun p => (Z.land (u32 (Z.lor STARTUP p)) 0x700 =? STARTUP) && (Z.land (u32 (Z.lor STARTUP p)) 0xFF =? p))
    (seqZ 0 256) = true) as H by by vm_compute.
  apply (forallb_range _ _ _ (Z.shiftr addr 12)) in H; [|lia].
  apply andb_true_iff in H as [H1 H2]. apply Z.eqb_eq in H1, H2. split_and!.
  - unfold lapicstartap. do 2 (eapply does_bind; [apply does_modify|]). do 3 (eapply does_bind; [apply does_lapicw|]).
    cbn [iter]. do 2 (eapply does_bind; [eapply does_bind; apply does_lapicw|]). apply does_ret.
  - repeat rewrite ?sent_write_lo, ?sent_write_hi, ?icrhi_after_lo, ?icrhi_after_hi. by rewrite U, <- !app_assoc.
  - done.
  - by rewrite H2.
  - done.
  - change (Z.shiftr addr 4 mod 65536 * 16 = addr). rewrite Z.shiftr_div_pow2 by lia. Z.to_euclidean_division_equations; lia.
Qed.
End Lapic.

(** ** picirq.c *)

(** The masks of the two controllers *)
Definition picinit (_ : Z * Z) : Z * Z := (0xFF, 0xFF).
