(* ===== verification/Bootmain.v ===== *)
(** * The boot loader (bootmain.c)

    The machine as the loader finds it: physical memory, the ports of the disk
    controller and the number of times its status was read.  The disk's bytes
    and what the status register answers are parameters; a sector is read in
    programmed I/O, as the controller documents. *)

From S2P Require Import Prelude Params CString Exec.

Definition SECTSIZE : Z := 512.

Record loader := Loader { bmem : memory; ports : Z -> Z; polls : nat }.
#[export] Instance eta_loader : Eta loader := fun s => Loader (bmem s) (ports s) (polls s).

Section Bootmain.
Context (disk : Z -> Z) (status : nat -> Z) (patience : nat).

(** The controller: the sector the ports select, and the data port after a
    command to read it *)
Definition outb (port v : Z) : M loader unit :=
  modify (fun s => s <|ports ::= fun f p => if p =? port then u8 v else f p|>).
Definition inb_status : M loader Z :=
  v <- gets (fun s => status (polls s));; modify (fun s => s <|polls ::= S|>);; ret v.
Definition selected (f : Z -> Z) : Z :=
  f 0x1F3 + Z.shiftl (f 0x1F4) 8 + Z.shiftl (f 0x1F5) 16 + Z.shiftl (Z.land (f 0x1F6) 0xF) 24.
Definition insl_data (dst cnt : Z) : M loader unit :=
  f <- gets ports;;
  if (f 0x1F7 =? 0x20) && (f 0x1F2 =? 1) && (cnt =? SECTSIZE / 4) then
    modify (fun s => s <|bmem ::= fun m x =>
      if (dst <=? x) && (x <? dst + 4 * cnt) then disk (SECTSIZE * selected f + (x - dst)) else m x|>)
  else fault.

Definition waitdisk : M loader unit :=
  loop patience (fun _ =>
    v <- inb_status;; ret (if negb (Z.land v 0xC0 =? 0x40) then inl tt else inr tt)) tt.

Definition readsect (dst offset : Z) : M loader unit :=
  waitdisk;;
  outb 0x1F2 1;;
  outb 0x1F3 offset;;
  outb 0x1F4 (Z.shiftr offset 8);;
  outb 0x1F5 (Z.shiftr offset 16);;
  outb 0x1F6 (Z.lor (Z.shiftr offset 24) 0xE0);;
  outb 0x1F7 0x20;;
  waitdisk;;
  insl_data dst (SECTSIZE / 4).

Definition readseg (pa count offset : Z) : M loader unit :=
  let epa := u32 (pa + count) in
  let pa := u32 (pa - offset mod SECTSIZE) in
  let offset := offset / SECTSIZE + 1 in
  loop (Z.to_nat (count / SECTSIZE) + 3) (fun '(pa, offset) =>
    if pa <? epa then
      readsect pa offset;;
      ret (inl (u32 (pa + SECTSIZE), u32 (offset + 1)))
    else ret (inr tt)) (pa, offset).

(** A program header in memory; [exec.c]'s are the same bytes as a list. *)
Definition ph_paddr (m : memory) (ph : Z) : Z := load32 m (ph + 12).

Definition scratch : Z := 0x10000.

Definition boot_segment (ph : Z) : M loader unit :=
  m <- gets bmem;;
  let pa := ph_paddr m ph in
  readseg pa (load32 m (ph + 16)) (load32 m (ph + 4));;
  m <- gets bmem;;
  when (load32 m (ph + 16) <? load32 m (ph + 20))
    (modify (fun s => s <|bmem := stosb m (u32 (pa + load32 m (ph + 16))) 0 (load32 m (ph + 20) - load32 m (ph + 16))|>)).

(** The entry point the loader jumps to; [None]: not an executable *)
Definition bootmain : M loader (option Z) :=
  let elf := scratch in
  readseg elf 4096 0;;
  m <- gets bmem;;
  if negb (load32 m elf =? ELF_MAGIC) then ret None else
  let ph := u32 (elf + load32 m (elf + 28)) in
  let eph := u32 (ph + PROGHDRSIZE * load16 m (elf + 44)) in
  loop (Z.to_nat (load16 m (elf + 44)) + 1) (fun ph =>
    if ph <? eph then boot_segment ph;; ret (inl (u32 (ph + PROGHDRSIZE))) else ret (inr tt)) ph;;
  m <- gets bmem;;
  ret (Some (load32 m (elf + 24))).

(** ** Sectors and segments *)

(** The kernel file starts at sector 1. *)
Definition image (off : Z) : Z := disk (SECTSIZE + off).

(** The controller is ready within [patience] looks at its status. *)
Definition responsive : Prop :=
  forall k, exists j, (j < patience)%nat /\ Z.land (status (k + j)) 0xC0 = 0x40.

(** Memory after [n] bytes at [a] were read from the file, [off] on *)
Definition filled (m : memory) (a n off : Z) : memory :=
  fun x => if (a <=? x) && (x <? a + n) then image (off + (x - a)) else m x.

Lemma selected_offset off f : 0 <= off < 2 ^ 28 ->
  f 0x1F3 = u8 off -> f 0x1F4 = u8 (Z.shiftr off 8) -> f 0x1F5 = u8 (Z.shiftr off 16) ->
  f 0x1F6 = u8 (Z.lor (Z.shiftr off 24) 0xE0) -> selected f = off.
Proof.
  intros Ho H3 H4 H5 H6. unfold selected. rewrite H3, H4, H5, H6, !Z.shiftl_mul_pow2, !Z.shiftr_div_pow2 by lia.
  assert (0 <= off / 2 ^ 24 < 16) as Hh by (Z.to_euclidean_division_equations; lia).
  assert (forallb (fun h => Z.land (u8 (Z.lor h 0xE0)) 0xF =? h) (seqZ 0 16) = true) as H by by vm_compute.
  apply (forallb_range _ _ _ (off / 2 ^ 24)) in H; [|lia]. apply Z.eqb_eq in H. rewrite H. unfold u8.
  Z.to_euclidean_division_equations; lia.
Qed.

Lemma does_inb_status s : does inb_status s (status (polls s)) (s <|polls ::= S|>).
Proof. done. Qed.

Lemma does_waitdisk s : responsive -> exists k, does waitdisk s tt (s <|polls := k|>).
Proof.
  intros R. unfold waitdisk. destruct (R (polls s)) as (j & Hj & E). revert s j Hj E.
  induction patience as [|n IH]; intros s j Hj E; [lia|].
  destruct (Z.land (status (polls s)) 0xC0 =? 0x40) eqn:Es.
  - exists (S (polls s)). apply does_loop_stop. eapply does_bind; [apply does_inb_status|].
    cbv beta. rewrite Es. apply does_ret.
  - destruct j as [|j]; [rewrite Nat.add_0_r in E; lia|].
    destruct (IH (s <|polls ::= S|>) j ltac:(lia)) as (k & D); [getset; by replace (S (polls s) + j)%nat with (polls s + S j)%nat by lia|].
    exists k. eapply does_loop_more; [|exact D]. eapply does_bind; [apply does_inb_status|].
    cbv beta. rewrite Es. apply does_ret.
Qed.

Lemma does_readsect s dst off : responsive -> 0 <= off < 2 ^ 28 - 1 -> exists s',
  does (readsect dst (off + 1)) s tt s' /\
  forall x, bmem s' x = filled (bmem s) dst SECTSIZE (SECTSIZE * off) x.
Proof.
  intros R Ho. unfold readsect. destruct (does_waitdisk s R) as (k1 & D1).
  set (w := fun v p (f : Z -> Z) q => if q =? p then u8 v else f q).
  set (f := w 0x20 0x1F7 (w (Z.lor (Z.shiftr (off + 1) 24) 0xE0) 0x1F6 (w (Z.shiftr (off + 1) 16) 0x1F5
    (w (Z.shiftr (off + 1) 8) 0x1F4 (w (off + 1) 0x1F3 (w 1 0x1F2 (ports s))))))).
  destruct (does_waitdisk (Loader (bmem s) f k1) R) as (k2 & D2).
  eexists. split.
  - eapply does_bind; [exact D1|]. do 6 (eapply does_bind; [apply does_modify|]).
    eapply does_bind; [exact D2|]. unfold insl_data. eapply does_bind; [apply does_gets|].
    cbv beta. getset. change ((f 503 =? 32) && (f 498 =? 1) && (SECTSIZE / 4 =? SECTSIZE / 4)) with true. cbv iota.
    apply does_modify.
  - intros x. getset. rewrite (selected_offset (off + 1)) by (lia || reflexivity).
    unfold filled, image, SECTSIZE. change (4 * (512 / 4)) with 512. destruct (_ && _); [f_equal; lia|done].
Qed.

(** [readseg] reads whole sectors: the bytes asked for, and what is before and
    after them in their sectors. *)
Definition sectors (count off : Z) : Z := (off mod SECTSIZE + count + SECTSIZE - 1) / SECTSIZE.

Definition seg_fits (pa count off : Z) : Prop :=
  off mod SECTSIZE <= pa /\ 0 <= off < two32 /\ 0 <= count /\ pa + count + SECTSIZE < two32.

Lemma does_read_sectors epa n fuel : responsive -> forall s pa off, (n < fuel)%nat ->
  0 <= pa -> 0 <= off -> off + Z.of_nat n < 2 ^ 28 - 1 -> epa + SECTSIZE < two32 ->
  epa <= pa + SECTSIZE * Z.of_nat n < epa + SECTSIZE ->
  exists s', does (loop fuel (fun '(pa, offset) =>
    if pa <? epa then readsect pa offset;; ret (inl (u32 (pa + SECTSIZE), u32 (offset + 1)))
    else ret (inr tt)) (pa, off + 1)) s tt s' /\
  forall x, bmem s' x = filled (bmem s) pa (SECTSIZE * Z.of_nat n) (SECTSIZE * off) x.
Proof.
  intros R. revert fuel. induction n as [|n IH]; intros fuel s pa off Hf Hpa Hoff Hn He Hc; (destruct fuel as [|fuel]; [lia|]).
  - exists s. split; [apply does_loop_stop; rewrite (proj2 (Z.ltb_ge _ _)) by lia; apply does_ret|].
    intros x. unfold filled, SECTSIZE. change (Z.of_nat 0) with 0. destruct (_ && _) eqn:B; [lia|done].
  - destruct (does_readsect s pa off R ltac:(lia)) as (s1 & D1 & E1).
    unfold SECTSIZE, two32 in *.
    destruct (IH fuel s1 (pa + 512) (off + 1)) as (s2 & D2 & E2); [lia..|].
    exists s2. split.
    + eapply does_loop_more; [|exact D2]. rewrite (proj2 (Z.ltb_lt _ _)) by lia.
      eapply does_bind; [exact D1|]. rewrite !u32_small by (unfold two32; lia). apply does_ret.
    + intros x. rewrite E2. unfold filled. rewrite E1. unfold filled.
      replace (512 * Z.of_nat (S n)) with (512 + 512 * Z.of_nat n) by lia.
      destruct ((pa + 512 <=? x) && _) eqn:A, ((pa <=? x) && (x <? pa + (512 + _))) eqn:B,
        ((pa <=? x) && (x <? pa + 512)) eqn:C; try lia; try done; f_equal; lia.
Qed.

Lemma does_readseg s pa count off : responsive -> seg_fits pa count off ->
  exists s', does (readseg pa count off) s tt s' /\
  forall x, bmem s' x = filled (bmem s) (pa - off mod SECTSIZE) (SECTSIZE * sectors count off) (off - off mod SECTSIZE) x.
Proof.
  intros R (Hpa & Ho & Hc & Hf). unfold readseg. cbv zeta.
  pose proof (Z.mod_pos_bound off SECTSIZE ltac:(done)) as Hm. pose proof (Z.div_mod off SECTSIZE ltac:(done)) as Hd.
  unfold sectors. unfold SECTSIZE, two32 in *. set (r := off mod 512) in *. set (q := off / 512) in *.
  pose proof (Z.div_mod (r + count + 512 - 1) 512 ltac:(done)) as Hn.
  pose proof (Z.mod_pos_bound (r + count + 512 - 1) 512 ltac:(done)) as Hnm.
  set (n := (r + count + 512 - 1) / 512) in *.
  pose proof (Z.div_mod count 512 ltac:(done)). pose proof (Z.mod_pos_bound count 512 ltac:(done)).
  destruct (does_read_sectors (pa + count) (Z.to_nat n) (Z.to_nat (count / 512) + 3) R s (pa - r) q) as (s' & D & E).
  all: unfold SECTSIZE, two32 in *; try lia.
  exists s'. rewrite !u32_small by (unfold two32; lia). split; [exact D|].
  intros x. rewrite E. rewrite Z2Nat.id by lia. replace (512 * q) with (off - r) by lia. done.
Qed.

(** ** The whole kernel *)

(** The program headers of the file *)
Definition phnum : Z := load16 image 44.
Definition seg_hdr (i : Z) : Z := load32 image 28 + PROGHDRSIZE * i.
Definition seg_pa (i : Z) : Z := load32 image (seg_hdr i + 12).
Definition seg_off (i : Z) : Z := load32 image (seg_hdr i + 4).
Definition seg_filesz (i : Z) : Z := load32 image (seg_hdr i + 16).
Definition seg_memsz (i : Z) : Z := load32 image (seg_hdr i + 20).

(** A header with nothing to load, such as that of the stack that the linker
    adds: the loader reads no sector for it, whatever its address. *)
Definition empty_seg (i : Z) : Prop :=
  seg_filesz i = 0 /\ seg_memsz i = 0 /\ seg_off i mod SECTSIZE = 0.

(** A kernel the loader can load: its program headers are in the first page,
    its segments but for empty ones are above the scratch page, in increasing
    order, far enough apart that the sectors of one do not reach down into the
    one before.  For segments at sector boundaries of the file, as Notes asks
    for, the last means only that they do not overlap. *)
Record bootable : Prop := {
  bt_bytes : bytes image;
  bt_magic : load32 image 0 = ELF_MAGIC;
  bt_headers : seg_hdr phnum <= 4096;
  bt_above i : 0 <= i < phnum -> ~ empty_seg i -> scratch + 4096 <= seg_pa i - seg_off i mod SECTSIZE;
  bt_sizes i : 0 <= i < phnum -> ~ empty_seg i ->
    seg_filesz i <= seg_memsz i /\ seg_pa i + seg_memsz i + SECTSIZE < two32;
  bt_order i j : 0 <= i < j -> j < phnum -> ~ empty_seg i -> ~ empty_seg j ->
    seg_pa i + seg_memsz i <= seg_pa j - seg_off j mod SECTSIZE
}.

Definition header_in (m : memory) : Prop := forall x, 0 <= x < 4096 -> m (scratch + x) = image x.
Definition placed (m : memory) (i : Z) : Prop := forall x, 0 <= x < seg_memsz i ->
  m (seg_pa i + x) = if x <? seg_filesz i then image (seg_off i + x) else 0.

Lemma header_load32 m a b : header_in m -> 0 <= a -> a + 4 <= 4096 -> b = scratch + a -> load32 m b = load32 image a.
Proof.
  intros H Ha Hb ->. unfold load32. rewrite <- !Z.add_assoc, !H by lia. done.
Qed.

Lemma header_keep m m' : header_in m -> (forall x, x < scratch + 4096 -> m' x = m x) -> header_in m'.
Proof. intros H E x Hx. rewrite E by lia. by apply H. Qed.

Lemma placed_keep m m' i a : placed m i -> seg_pa i + seg_memsz i <= a -> (forall x, x < a -> m' x = m x) -> placed m' i.
Proof. intros H Ha E x Hx. rewrite E by lia. by apply H. Qed.

(** The bytes of the file below its size in the file, zeros above it *)
Lemma placed_seg m m1 m2 i : bytes image -> seg_filesz i <= seg_memsz i ->
  (forall x, m1 x = filled m (seg_pa i - seg_off i mod SECTSIZE) (SECTSIZE * sectors (seg_filesz i) (seg_off i))
                      (seg_off i - seg_off i mod SECTSIZE) x) ->
  (forall x, m2 x = if (seg_pa i + seg_filesz i <=? x) && (x <? seg_pa i + seg_memsz i) then 0 else m1 x) ->
  placed m2 i.
Proof.
  intros Hb Hsz E1 E2 x Hx. rewrite E2. pose proof (Z.mod_pos_bound (seg_off i) SECTSIZE ltac:(done)) as Hm.
  destruct (x <? seg_filesz i) eqn:Hlt.
  - rewrite (proj2 (Z.leb_gt _ _)) by lia. cbn [andb]. rewrite E1. unfold filled.
    assert (seg_off i mod SECTSIZE + seg_filesz i <= SECTSIZE * sectors (seg_filesz i) (seg_off i)) as Hs.
    { unfold sectors, SECTSIZE. set (r := seg_off i mod 512). pose proof (Z.div_mod (r + seg_filesz i + 512 - 1) 512 ltac:(done)).
      pose proof (Z.mod_pos_bound (r + seg_filesz i + 512 - 1) 512 ltac:(done)). lia. }
    rewrite (proj2 (Z.leb_le _ _)), (proj2 (Z.ltb_lt _ _)) by lia. cbn [andb]. f_equal. lia.
  - by rewrite (proj2 (Z.leb_le _ _)), (proj2 (Z.ltb_lt _ _)) by lia.
Qed.

Lemma header_field i m k : bootable -> 0 <= i < phnum -> header_in m -> 0 <= k <= 28 ->
  load32 m (scratch + seg_hdr i + k) = load32 image (seg_hdr i + k).
Proof.
  intros B Hi Hm Hk. pose proof (bt_headers B) as Hph. pose proof (load32_range image 28 (bt_bytes B)) as H0.
  unfold seg_hdr, PROGHDRSIZE in *. apply header_load32; lia || done.
Qed.

Lemma does_full_segment s i : responsive -> bootable -> 0 <= i < phnum -> ~ empty_seg i -> header_in (bmem s) ->
  exists s', does (boot_segment (scratch + seg_hdr i)) s tt s' /\ placed (bmem s') i /\
    forall x, x < seg_pa i - seg_off i mod SECTSIZE -> bmem s' x = bmem s x.
Proof.
  intros R B Hi Hne Hh. pose proof (bt_headers B) as Hph. pose proof (bt_above B i Hi Hne) as Hab.
  destruct (bt_sizes B i Hi Hne) as [Hsz Htop].
  pose proof (load32_range image (seg_hdr i + 4) (bt_bytes B)) as Ho. fold (seg_off i) in Ho.
  pose proof (load32_range image (seg_hdr i + 16) (bt_bytes B)) as Hf. fold (seg_filesz i) in Hf.
  pose proof (Z.mod_pos_bound (seg_off i) SECTSIZE ltac:(done)) as Hm.
  pose proof (fun m k => header_field i m k B Hi) as L.
  destruct (does_readseg s (seg_pa i) (seg_filesz i) (seg_off i) R) as (s1 & D1 & E1).
  { unfold seg_fits, scratch, SECTSIZE in *. lia. }
  assert (forall x, x < seg_pa i - seg_off i mod SECTSIZE -> bmem s1 x = bmem s x) as K1.
  { intros x Hx. rewrite E1. unfold filled. rewrite (proj2 (Z.leb_gt _ _)) by lia. done. }
  assert (header_in (bmem s1)) as Hh1 by (eapply header_keep; [exact Hh|intros; apply K1; lia]).
  set (s2 := if seg_filesz i <? seg_memsz i
    then s1 <|bmem := stosb (bmem s1) (seg_pa i + seg_filesz i) 0 (seg_memsz i - seg_filesz i)|> else s1).
  assert (forall x, bmem s2 x = if (seg_pa i + seg_filesz i <=? x) && (x <? seg_pa i + seg_memsz i) then 0 else bmem s1 x) as E2.
  { intros x. unfold s2. destruct (_ <? _) eqn:Hlt; getset.
    - unfold stosb. replace (seg_pa i + seg_filesz i + (seg_memsz i - seg_filesz i)) with (seg_pa i + seg_memsz i) by lia. done.
    - destruct (_ && _) eqn:?; [lia|done]. }
  exists s2. split_and!.
  - unfold boot_segment. eapply does_bind; [apply does_gets|]. cbv zeta. unfold ph_paddr. rewrite !L by (done || lia).
    eapply does_bind; [exact D1|]. eapply does_bind; [apply does_gets|]. rewrite !L by (done || lia).
    fold (seg_pa i) (seg_filesz i) (seg_memsz i). rewrite u32_small by (unfold scratch, SECTSIZE in *; lia).
    unfold s2. destruct (_ <? _); [apply does_modify|apply does_ret].
  - by apply (placed_seg (bmem s) (bmem s1)); [apply bt_bytes| |..].
  - intros x Hx. rewrite E2, (proj2 (Z.leb_gt _ _)) by lia. by apply K1.
Qed.

(** Nothing is read for an empty segment. *)
Lemma does_empty_segment s i : bootable -> 0 <= i < phnum -> empty_seg i -> header_in (bmem s) ->
  does (boot_segment (scratch + seg_hdr i)) s tt s.
Proof.
  intros B Hi (Ef & Em & Eo) Hh. pose proof (fun m k => header_field i m k B Hi) as L.
  pose proof (load32_range image (seg_hdr i + 12) (bt_bytes B)) as Hp. fold (seg_pa i) in Hp.
  unfold boot_segment. eapply does_bind; [apply does_gets|]. cbv zeta. unfold ph_paddr. rewrite !L by (done || lia).
  fold (seg_pa i) (seg_filesz i) (seg_off i). rewrite Ef. eapply does_bind.
  { unfold readseg. cbv zeta. rewrite Eo, Z.add_0_r, Z.sub_0_r, u32_small by done.
    apply does_loop_stop. rewrite Z.ltb_irrefl. apply does_ret. }
  eapply does_bind; [apply does_gets|]. rewrite !L by (done || lia).
  fold (seg_filesz i) (seg_memsz i). rewrite Ef, Em. apply does_ret.
Qed.

Lemma does_boot_segment s i : responsive -> bootable -> 0 <= i < phnum -> header_in (bmem s) ->
  (forall j, 0 <= j < i -> placed (bmem s) j) ->
  exists s', does (boot_segment (scratch + seg_hdr i)) s tt s' /\ header_in (bmem s') /\
    forall j, 0 <= j < i + 1 -> placed (bmem s') j.
Proof.
  intros R B Hi Hh Hp.
  destruct (decide (seg_filesz i = 0 /\ seg_memsz i = 0 /\ seg_off i mod SECTSIZE = 0)) as [He|He].
  - exists s. split; [by apply does_empty_segment|]. split; [done|]. intros j Hj.
    destruct (decide (j = i)) as [->|]; [|apply Hp; lia]. intros x Hx. destruct He as (_ & Em & _). lia.
  - destruct (does_full_segment s i R B Hi He Hh) as (s1 & D1 & P1 & K1). exists s1. split; [done|]. split.
    + eapply header_keep; [exact Hh|]. intros x Hx. apply K1. pose proof (bt_above B i Hi He). lia.
    + intros j Hj. destruct (decide (j = i)) as [->|]; [done|].
      destruct (decide (seg_filesz j = 0 /\ seg_memsz j = 0 /\ seg_off j mod SECTSIZE = 0)) as [(_ & Em & _)|Hj'];
        [intros x Hx; lia|].
      eapply placed_keep; [apply Hp; lia| |exact K1]. apply (bt_order B); try done; lia.
Qed.

Lemma does_boot_segments eph n : responsive -> bootable -> eph = scratch + seg_hdr phnum -> forall s i fuel,
  0 <= i -> i + Z.of_nat n = phnum -> (n < fuel)%nat -> header_in (bmem s) -> (forall j, 0 <= j < i -> placed (bmem s) j) ->
  exists s', does (loop fuel (fun ph =>
      if ph <? eph then boot_segment ph;; ret (inl (u32 (ph + PROGHDRSIZE))) else ret (inr tt)) (scratch + seg_hdr i)) s tt s' /\
    header_in (bmem s') /\ forall j, 0 <= j < phnum -> placed (bmem s') j.
Proof.
  intros R B ->. pose proof (bt_headers B) as Hph. pose proof (load32_range image 28 (bt_bytes B)) as H0.
  induction n as [|n IH]; intros s i fuel Hi Hn Hf Hh Hp; (destruct fuel as [|fuel]; [lia|]).
  - replace i with phnum by lia. exists s. split; [|split; [done|intros; apply Hp; lia]].
    apply does_loop_stop. rewrite Z.ltb_irrefl. apply does_ret.
  - destruct (does_boot_segment s i R B ltac:(lia) Hh Hp) as (s1 & D1 & H1 & P1).
    assert (seg_hdr i + 32 = seg_hdr (i + 1)) as Hnext by (unfold seg_hdr, PROGHDRSIZE; lia).
    assert (seg_hdr (i + 1) <= seg_hdr phnum) as Hle by (unfold seg_hdr, PROGHDRSIZE; lia).
    assert (0 <= seg_hdr i) as Hge by (unfold seg_hdr, PROGHDRSIZE; lia).
    destruct (IH s1 (i + 1) fuel) as (s2 & D2 & H2); [lia..|done|done|].
    exists s2. split; [|done]. eapply does_loop_more; [|exact D2]. rewrite (proj2 (Z.ltb_lt _ _)) by lia.
    eapply does_bind; [exact D1|]. replace (u32 _) with (scratch + seg_hdr (i + 1)); [apply does_ret|].
    rewrite u32_small; unfold PROGHDRSIZE, two32, scratch in *; lia.
Qed.

(** C38: the boot loader loads the kernel: when the disk answers and holds a bootable
    file -- segments in order and so far apart that the sectors of one do not
    reach into the one before, as with the sector-aligned ones that Notes asks
    for; headers of empty segments are exempt -- it jumps to the file's entry
    point with every byte of every segment in place, the part beyond the file's
    bytes zeroed. *)
Theorem bootmain_loads s : responsive -> bootable ->
  exists s', does bootmain s (Some (load32 image 24)) s' /\
    forall i x, 0 <= i < phnum -> 0 <= x < seg_memsz i ->
      bmem s' (seg_pa i + x) = if x <? seg_filesz i then image (seg_off i + x) else 0.
Proof.
  intros R B. destruct (does_readseg s scratch 4096 0 R) as (s1 & D1 & E1); [unfold seg_fits, scratch, SECTSIZE, two32; rewrite Zmod_0_l; lia|].
  pose proof (bt_headers B) as Hph. pose proof (load32_range image 28 (bt_bytes B)) as H0.
  assert (0 <= phnum) as Hn by (unfold phnum, load16; pose proof (bt_bytes B 44); pose proof (bt_bytes B (44 + 1)); lia).
  assert (header_in (bmem s1)) as Hh.
  { intros x Hx. rewrite E1. unfold filled. change (scratch - 0 mod SECTSIZE) with scratch.
    change (SECTSIZE * sectors 4096 0) with 4096. rewrite (proj2 (Z.leb_le _ _)), (proj2 (Z.ltb_lt _ _)) by lia.
    cbn [andb]. f_equal. change (0 - 0 mod SECTSIZE) with 0. lia. }
  destruct (does_boot_segments (scratch + seg_hdr phnum) (Z.to_nat phnum) R B eq_refl s1 0 (Z.to_nat phnum + 1)) as (s2 & D2 & H2 & P2);
    [lia..|done|lia|].
  exists s2. split; [|intros i x Hi Hx; by apply P2].
  unfold bootmain. cbv zeta. eapply does_bind; [exact D1|]. eapply does_bind; [apply does_gets|].
  rewrite (header_load32 (bmem s1) 0), (bt_magic B) by (done || lia). cbn [Z.eqb negb].
  rewrite Z.eqb_refl. cbn [negb].
  assert (load16 (bmem s1) (scratch + 44) = phnum) as ->.
  { unfold load16. rewrite <- Z.add_assoc. rewrite !Hh by lia. done. }
  rewrite (header_load32 (bmem s1) 28) by (done || lia).
  assert (forall a, 0 <= a <= 4096 -> u32 (scratch + a) = scratch + a) as U
    by (intros; apply u32_small; unfold scratch, two32; lia).
  unfold seg_hdr, PROGHDRSIZE in *. rewrite U by lia. rewrite <- Z.add_assoc, U by lia.
  eapply does_bind; [|eapply does_bind; [apply does_gets|]; rewrite (header_load32 (bmem s2) 24) by (done || lia); apply does_ret].
  rewrite Z.mul_0_r, Z.add_0_r in D2. exact D2.
Qed.
End Bootmain.

(** A kernel as the linker makes it: two segments at sector boundaries of the
    file, the first of which goes on in memory beyond its bytes, and the empty
    header of the stack *)
Definition ex_header (type off pa filesz memsz : Z) : list Z :=
  le32 type ++ le32 off ++ le32 pa ++ le32 pa ++ le32 filesz ++ le32 memsz ++ le32 0 ++ le32 0.
Definition ex_elf (phs : list (list Z)) : list Z :=
  le32 ELF_MAGIC ++ replicate 20 0 ++ le32 0x100000 ++ le32 52 ++ replicate 12 0 ++
  le16 (Z.of_nat (length phs)) ++ replicate 6 0 ++ concat phs.
Definition ex_kernel : list Z :=
  set_bytes (set_bytes (ex_elf [ex_header 1 512 0x100000 4 8; ex_header 1 1024 0x101000 3 3;
      ex_header 0x6474e551 0 0 0 0] ++ replicate 900 0) 512 [0x90; 0x91; 0x92; 0x93]) 1024 [1; 2; 3].
Definition ex_boot_disk (kernel : list Z) (x : Z) : Z :=
  if x <? SECTSIZE then 0 else default 0 (kernel !! Z.to_nat (x - SECTSIZE)).

Lemma ex_disk_bytes kernel : forallb (fun b => (0 <=? b) && (b <? 256)) kernel = true -> bytes (image (ex_boot_disk kernel)).
Proof.
  intros H a. unfold image, ex_boot_disk. destruct (_ <? _); [lia|].
  destruct (kernel !! _) eqn:E; cbn [default from_option id]; [|lia].
  rewrite forallb_forall in H. apply list_elem_of_lookup_2, list_elem_of_In in E. specialize (H _ E). lia.
Qed.

Lemma ex_bootable : bootable (ex_boot_disk ex_kernel).
Proof.
  assert (phnum (ex_boot_disk ex_kernel) = 3) as Hn by by vm_compute.
  assert (forall i, 0 <= i < 3 -> i = 0 \/ i = 1 \/ i = 2) as Hi by lia.
  assert (empty_seg (ex_boot_disk ex_kernel) 2) as H2 by by vm_compute.
  split; rewrite ?Hn; [by apply ex_disk_bytes; vm_compute|by vm_compute|by vm_compute|..].
  - intros i [-> |[-> | -> ]]%Hi Hne; by vm_compute || destruct Hne.
  - intros i [-> |[-> | -> ]]%Hi Hne; (split; by vm_compute) || destruct Hne; done.
  - intros i j Hij Hj Hni Hnj. assert (j = 1 \/ j = 2) as [-> | -> ] by lia; [|by destruct Hnj].
    assert (i = 0) as -> by lia. by vm_compute.
Qed.

Definition ex_status (k : nat) : Z := if Nat.even k then 0x80 else 0x40.
Definition ex_loader : loader := Loader (fun _ => 0xFF) (fun _ => 0) 0.

Lemma bootmain_loads_witness : exists s',
  does (bootmain (ex_boot_disk ex_kernel) ex_status 2) ex_loader (Some 0x100000) s' /\
  bmem s' <$> [0x100000; 0x100003; 0x100004; 0x100007; 0x101000; 0x101002] = [0x90; 0x93; 0; 0; 1; 3].
Proof.
  destruct (bootmain_loads (ex_boot_disk ex_kernel) ex_status 2 ex_loader) as (s' & D & E).
  - intros k. unfold ex_status. destruct (Nat.even k) eqn:Ek; [exists 1%nat|exists 0%nat]; (split; [lia|]).
    + by rewrite Nat.add_1_r, Nat.even_succ, <- Nat.negb_even, Ek.
    + by rewrite Nat.add_0_r, Ek.
  - exact ex_bootable.
  - exists s'. split; [exact D|].
    pose proof (fun x => E 0 x ltac:(by vm_compute)) as E0. pose proof (fun x => E 1 x ltac:(by vm_compute)) as E1.
    change (seg_memsz _ 0) with 8 in E0. change (seg_pa _ 0) with 0x100000 in E0.
    change (seg_memsz _ 1) with 3 in E1. change (seg_pa _ 1) with 0x101000 in E1.
    cbn [fmap list_fmap].
    rewrite (E0 0 ltac:(lia) : bmem s' 0x100000 = _), (E0 3 ltac:(lia) : bmem s' 0x100003 = _),
      (E0 4 ltac:(lia) : bmem s' 0x100004 = _), (E0 7 ltac:(lia) : bmem s' 0x100007 = _),
      (E1 0 ltac:(lia) : bmem s' 0x101000 = _), (E1 2 ltac:(lia) : bmem s' 0x101002 = _).
    by vm_compute.
Defined.

(** Two segments that share a sector of the file but lie at another distance in
    memory: the sector read for the second overwrites the first, which is why
    Notes asks for aligned sections and [bootable] for the distance. *)
Definition ex_packed : list Z :=
  ex_elf [ex_header 1 116 0x100000 4 4; ex_header 1 120 0x100008 3 3] ++ [0x90; 0x91; 0x92; 0x93; 1; 2; 3].
Lemma bootmain_packed :
  let w := snd (bootmain (ex_boot_disk ex_packed) ex_status 2 (World ex_loader [] [])) in
  image (ex_boot_disk ex_packed) 116 = 0x90 /\ bmem (now w) 0x100000 <> 0x90.
Proof. vm_compute. split; [reflexivity|discriminate]. Qed.
