(* ===== verification/Ulib.v ===== *)
(** * The user library (ulib.c, printf.c)

    A pointer into a char array is the rest of the array; [None] means that
    the code reads past its end.  Output is the list of bytes written, in
    order.  What arrives on a descriptor is a [stream]: the pieces in which
    the other side provides it. *)

From S2P Require Import Prelude Params CString Printk.

(** ** ulib.c *)

(** The bytes that [strcpy] writes. *)
Fixpoint strcpy (t : list Z) : option (list Z) :=
  match t with
  | [] => None
  | c :: t => if c =? 0 then Some [0] else cons c <$> strcpy t
  end.

Fixpoint strcmp (p q : list Z) : option Z :=
  match p, q with
  | a :: p, b :: q => if negb (a =? 0) && (a =? b) then strcmp p q else Some (u8 a - u8 b)
  | _, _ => None
  end.

Fixpoint strlen (s : list Z) : option Z :=
  match s with
  | [] => None
  | c :: s => if c =? 0 then Some 0 else (fun n => 1 + n) <$> strlen s
  end.

Definition memset (m : memory) (dst c n : Z) : memory := stosb m dst c n.

(** The offset of the first [c]; [Some None] is the null pointer. *)
Fixpoint strchr (s : list Z) (c : Z) : option (option nat) :=
  match s with
  | [] => None
  | x :: s =>
      if x =? 0 then Some None
      else if x =? c then Some (Some O)
      else option_map (option_map S) (strchr s c)
  end.

(** Forwards, whatever the overlap. *)
Definition memmove (m : memory) (dst src n : Z) : memory := copy_fwd (Z.to_nat n) m dst src.

Fixpoint atoi_loop (s : list Z) (n : Z) : option Z :=
  match s with
  | [] => None
  | c :: s => if (48 <=? c) && (c <=? 57) then atoi_loop s (i32 (n * 10 + c - 48)) else Some n
  end.
Definition atoi (s : list Z) : option Z := atoi_loop s 0.

(** [read(fd, buf, n)]: at most [n] bytes of the next piece. *)
Abbreviation stream := (list (list Z)).
Definition read (n : nat) (s : stream) : list Z * stream :=
  match s with
  | [] => ([], [])
  | c :: s => (take n c, if bool_decide (length c <= n)%nat then s else drop n c :: s)
  end.

(** The bytes [gets] writes to [buf]. *)
Fixpoint gets_loop (fuel : nat) (s : stream) : list Z * stream :=
  match fuel with
  | O => ([0], s)
  | S fuel =>
      match read 1 s with
      | (c :: _, s) =>
          if (c =? 10) || (c =? 13) then ([c; 0], s)
          else let ' (l, s) := gets_loop fuel s in (c :: l, s)
      | ([], s) => ([0], s)
      end
  end.
Definition gets (max : Z) (s : stream) : list Z * stream := gets_loop (Z.to_nat (max - 1)) s.

(** ** printf.c *)

Definition udigit (z : Z) : Z := lit "0123456789ABCDEF" !!! Z.to_nat z.

Fixpoint udigits (fuel : nat) (x base : Z) : list Z :=
  match fuel with
  | O => []
  | S f => udigit (x mod base) :: (if x / base =? 0 then [] else udigits f (x / base) base)
  end.

Definition printint (xx base sgn : Z) : list Z :=
  let neg := negb (sgn =? 0) && (xx <? 0) in
  let x := if neg then u32 (- xx) else u32 xx in
  reverse (udigits 32 x base ++ (if neg then [45] else [])).

(** The scan of the format, [pct] when a percent sign has been seen. *)
Fixpoint printf (pct : bool) (fmt : list Z) (ap : list parg) : option (list Z) :=
  match fmt with
  | [] => None
  | c :: fmt =>
      if c =? 0 then Some [] else
      if negb pct then
        if c =? PERCENT then printf true fmt ap else cons c <$> printf false fmt ap
      else if c =? 100 (* d *) then
        match ap with
        | AInt z :: ap => app (printint (i32 z) 10 1) <$> printf false fmt ap
        | _ => None
        end
      else if (c =? 120) || (c =? 112) (* x, p *) then
        match ap with
        | AInt z :: ap => app (printint (i32 z) 16 0) <$> printf false fmt ap
        | _ => None
        end
      else if c =? 115 (* s *) then
        match ap with
        | AStr s :: ap => app (default (lit "(null)") s) <$> printf false fmt ap
        | _ => None
        end
      else if c =? 99 (* c *) then
        match ap with
        | AInt z :: ap => cons (u8 z) <$> printf false fmt ap
        | _ => None
        end
      else if c =? PERCENT then cons c <$> printf false fmt ap
      else app [PERCENT; c] <$> printf false fmt ap
  end.

(** ** Strings *)

(** [s] without the terminator, in an array. *)
Definition cstring (s : list Z) : Prop := Forall (fun c => c <> 0) s.

Lemma strlen_app s r : cstring s -> strlen (s ++ 0 :: r) = Some (Z.of_nat (length s)).
Proof.
  induction 1 as [|c s Hc _ IH]; [done|]. simpl.
  destruct (Z.eqb_spec c 0); [done|]. rewrite IH. simpl. f_equal. lia.
Qed.

Lemma strchr_app s c r : cstring s -> c <> 0 ->
  strchr (s ++ 0 :: r) c = Some (fst <$> list_find (eq c) s).
Proof.
  intros Hs Hc. induction Hs as [|x s Hx _ IH]; [done|]. simpl.
  destruct (Z.eqb_spec x 0); [done|]. destruct (Z.eqb_spec x c) as [->|Hne].
  - by rewrite decide_True.
  - rewrite decide_False by done. rewrite IH. simpl. by destruct (list_find _ s) as [[]|].
Qed.

(** ** Numbers *)

Lemma udigit_spec z : 0 <= z < 10 -> udigit z = 48 + z.
Proof.
  intros H. assert (z = 0 \/ z = 1 \/ z = 2 \/ z = 3 \/ z = 4 \/ z = 5 \/ z = 6 \/ z = 7
    \/ z = 8 \/ z = 9) as Hz by lia.
  by repeat destruct Hz as [->|Hz]; [..|subst].
Qed.

(** The number whose digits are [l], most significant first, continuing [n]. *)
Definition decimal (n : Z) (l : list Z) : Z := foldl (fun n c => n * 10 + (c - 48)) n l.

Lemma udigits_decimal f : forall x, 0 <= x < 10 ^ Z.of_nat f -> (0 < f)%nat ->
  Forall (fun c => 48 <= c <= 57) (udigits f x 10) /\
  decimal 0 (reverse (udigits f x 10)) = x.
Proof.
  induction f as [|f IH]; intros x Hx Hf; [lia|]. cbn [udigits].
  assert (udigit (x mod 10) = 48 + x mod 10) as Hd.
  { apply udigit_spec. apply Z.mod_pos_bound. lia. }
  pose proof (Z.mod_pos_bound x 10 ltac:(lia)). pose proof (Z.div_mod x 10 ltac:(lia)).
  rewrite Nat2Z.inj_succ, Z.pow_succ_r in Hx by lia.
  destruct (Z.eqb_spec (x / 10) 0) as [E|E].
  - split; [repeat constructor; lia|]. unfold decimal. simpl. lia.
  - assert (0 <= x / 10) by (apply Z.div_pos; lia).
    destruct f as [|f]; [simpl in Hx; lia|].
    destruct (IH (x / 10)) as [Hf1 Hf2]; [lia|lia|]. split; [constructor; [lia|done]|].
    rewrite reverse_cons. unfold decimal in *. rewrite foldl_app, Hf2. simpl. lia.
Qed.

Lemma atoi_decimal l r : forall n, Forall (fun c => 48 <= c <= 57) l -> 0 <= n ->
  decimal n l < two31 -> atoi_loop (l ++ 0 :: r) n = Some (decimal n l).
Proof.
  induction l as [|c l IH]; intros n Hl Hn Hlt; [done|]. apply Forall_cons in Hl as [Hc Hl].
  simpl in *.
  assert (forall m, 0 <= m -> m <= decimal m l) as Hmono.
  { clear - Hl. induction Hl as [|x l Hx _ IHl]; intros m Hm; [done|]. simpl.
    etrans; [|apply IHl; lia]. lia. }
  replace ((48 <=? c) && (c <=? 57)) with true by (symmetry; apply andb_true_iff; lia).
  specialize (Hmono (n * 10 + (c - 48)) ltac:(lia)).
  rewrite i32_small by (unfold two31 in *; lia).
  replace (n * 10 + c - 48) with (n * 10 + (c - 48)) by lia. apply IH; [done|lia|done].
Qed.

(** C37: [printf]'s %d and [atoi] are inverse to each other on the numbers an
    [int] holds from 0 on: reading back the digits that [printint] printed
    gives the number. *)
Theorem atoi_printint x r : 0 <= x < two31 -> atoi (printint x 10 1 ++ 0 :: r) = Some x.
Proof.
  intros Hx. unfold printint. destruct (Z.ltb_spec x 0); [lia|]. rewrite andb_false_r.
  rewrite app_nil_r, u32_small by (unfold two31, two32 in *; lia).
  destruct (udigits_decimal 32 x) as [H1 H2]; [unfold two31 in *; lia|lia|].
  unfold atoi. rewrite atoi_decimal; rewrite ?H2; [done| |done|lia].
  by rewrite reverse_Permutation.
Qed.

Lemma atoi_printint_witness : atoi (printint 407 10 1 ++ [0]) = Some 407.
Proof. apply (atoi_printint 407 []). split; [done|reflexivity]. Defined.
