(* ===== verification/Umalloc.v ===== *)
(** * The user-level allocator (umalloc.c)

    The free blocks form a ring in the order of their addresses, starting at
    the static header [base]; a block is a header followed by its memory, its
    size counted in headers.  The heap is seen as the headers that can be read
    from it; [sbrk] extends it up to a limit that the rest of the system
    decides.  The code is not meant to be called by two threads at once. *)

From stdpp Require Import sorting.
From S2P Require Import Prelude Params.

Record header := Header { s_ptr : Z; s_size : Z }.
#[global] Instance eta_header : Eta header := fun h => Header (s_ptr h) (s_size h).

Record um := Um {
  heap : Z -> header;
  freep : Z;
  brk : Z;
  limit : Z
}.
#[global] Instance eta_um : Eta um := fun s => Um (heap s) (freep s) (brk s) (limit s).

Definition HSIZE : Z := 8.

(** ** Access to headers *)

Definition hset (a : Z) (f : header -> header) (h : Z -> header) : Z -> header :=
  fun x => if x =? a then f (h x) else h x.

Definition hget (a : Z) : M um header := gets (fun s => heap s a).
Definition hput (a : Z) (f : header -> header) : M um unit :=
  modify (fun s => s <|heap ::= hset a f|>).

(** [p + n] for a pointer to a header *)
Definition hadd (p n : Z) : Z := u32 (p + HSIZE * n).

(** ** The operations, with the address of [base] *)

(** Every block of the ring takes a header's worth of memory at least; [malloc]
    goes round it at most twice. *)
Definition rounds : M um nat := gets (fun s => (2 * Z.to_nat (brk s / HSIZE) + 8)%nat).

Section Umalloc.
Variable base : Z.

(** The [for] loop of [free]. *)
Definition free_find (bp p : Z) : M um (Z + Z) :=
  h <- hget p;;
  let nx := s_ptr h in
  if (p <? bp) && (bp <? nx) then ret (inr p)
  else if (nx <=? p) && ((p <? bp) || (bp <? nx)) then ret (inr p)
  else ret (inl nx).

(** [if(bp + bp->s.size == p->s.ptr) ...]: joining [bp] with the block behind *)
Definition join_up (bp p : Z) : M um unit :=
  hb <- hget bp;; hp <- hget p;;
  if hadd bp (s_size hb) =? s_ptr hp then
    hn <- hget (s_ptr hp);;
    hput bp (fun h => h <|s_size ::= fun z => u32 (z + s_size hn)|>);;
    hn <- hget (s_ptr hp);;
    hput bp (fun h => h <|s_ptr := s_ptr hn|>)
  else hput bp (fun h => h <|s_ptr := s_ptr hp|>).

(** [if(p + p->s.size == bp) ...]: joining [bp] with the block before *)
Definition join_down (bp p : Z) : M um unit :=
  hp <- hget p;; hb <- hget bp;;
  if hadd p (s_size hp) =? bp then
    hput p (fun h => h <|s_size ::= fun z => u32 (z + s_size hb)|>);;
    hb <- hget bp;;
    hput p (fun h => h <|s_ptr := s_ptr hb|>)
  else hput p (fun h => h <|s_ptr := bp|>).

Definition free (ap : Z) : M um unit :=
  let bp := u32 (ap - HSIZE) in
  fp <- gets freep;;
  n <- rounds;;
  p <- loop n (free_find bp) fp;;
  join_up bp p;;
  join_down bp p;;
  modify (fun s => s <|freep := p|>).

(** The system call: the old end of the heap, or -1. *)
Definition sbrk (n : Z) : M um Z :=
  s <- gets id;;
  if limit s <? brk s + n then ret (-1)
  else modify (fun s => s <|brk ::= fun b => b + n|>);; ret (brk s).

(** [sbrk]'s argument is an [int]. *)
Definition morecore (nu : Z) : M um Z :=
  let nu := if nu <? 4096 then 4096 else nu in
  p <- sbrk (i32 (u32 (nu * HSIZE)));;
  if p =? -1 then ret 0 else
  hput p (fun h => h <|s_size := nu|>);;
  free (hadd p 1);;
  gets freep.

(** [prevp = p, p = p->s.ptr] *)
Definition advance (p : Z) : M um (Z * Z + Z) :=
  h <- hget p;; ret (inl (p, s_ptr h)).

(** The loop of [malloc], with [prevp] and [p]. *)
Definition malloc_body (nunits : Z) (x : Z * Z) : M um (Z * Z + Z) :=
  let ' (prevp, p) := x in
  h <- hget p;;
  if nunits <=? s_size h then
    p <- (if s_size h =? nunits then
            hput prevp (fun hp => hp <|s_ptr := s_ptr h|>);; ret p
          else
            hput p (fun h => h <|s_size ::= fun z => u32 (z - nunits)|>);;
            h <- hget p;;
            let p := hadd p (s_size h) in
            hput p (fun h => h <|s_size := nunits|>);;
            ret p);;
    modify (fun s => s <|freep := prevp|>);;
    ret (inr (hadd p 1))
  else
    fp <- gets freep;;
    if p =? fp then
      p <- morecore nunits;;
      if p =? 0 then ret (inr 0) else advance p
    else advance p.

Definition units (nbytes : Z) : Z := u32 (u32 (u32 (nbytes + HSIZE) - 1) / HSIZE + 1).

Definition malloc (nbytes : Z) : M um Z :=
  fp <- gets freep;;
  prevp <- (if fp =? 0 then
              modify (fun s => s <|freep := base|>);;
              hput base (fun h => h <|s_ptr := base|>);;
              hput base (fun h => h <|s_size := 0|>);;
              ret base
            else ret fp);;
  h <- hget prevp;;
  n <- rounds;;
  loop n (malloc_body (units nbytes)) (prevp, s_ptr h).
End Umalloc.

(** ** Running the operations *)

#[local] Hint Unfold hget hput rounds : does.

(** ** The ring of free blocks *)

(** A block: the address of its header and its size. *)
Abbreviation blk := (Z * Z)%type.
Definition blk_end (b : blk) : Z := b.1 + HSIZE * b.2.

Definition first (l : list blk) (e : Z) : Z := match l with [] => e | b :: _ => b.1 end.

(** The headers of [l] are chained, the last one points to [e]. *)
Fixpoint chain (h : Z -> header) (l : list blk) (e : Z) : Prop :=
  match l with
  | [] => True
  | b :: l => h b.1 = Header (first l e) b.2 /\ chain h l e
  end.

(** The blocks of [l] lie in this order between [lo] and [hi], none of them
    empty, with room between neighbours. *)
Fixpoint spaced (lo : Z) (l : list blk) (hi : Z) : Prop :=
  match l with
  | [] => lo <= hi
  | b :: l => lo < b.1 /\ 0 < b.2 /\ spaced (blk_end b) l hi
  end.

Lemma first_app l1 l2 e : first (l1 ++ l2) e = first l1 (first l2 e).
Proof. by destruct l1. Qed.

Lemma chain_app h l1 l2 e : chain h (l1 ++ l2) e <-> chain h l1 (first l2 e) /\ chain h l2 e.
Proof.
  induction l1 as [|b l1 IH]; simpl; [tauto|]. rewrite IH, first_app. tauto.
Qed.

Lemma chain_split h pre b post e : chain h (pre ++ b :: post) e ->
  chain h pre b.1 /\ h b.1 = Header (first post e) b.2 /\ chain h post e.
Proof. intros H. by apply chain_app in H. Qed.

Lemma fchain_ext h h' l e : (forall b, b ∈ l -> h' b.1 = h b.1) -> chain h l e -> chain h' l e.
Proof.
  induction l as [|b l IH]; simpl; [done|]. intros Hext [H1 H2]. split.
  - rewrite Hext; [done|by left].
  - apply IH; [|done]. intros b' Hb'. apply Hext. by right.
Qed.

Lemma spaced_weaken lo lo' l hi : spaced lo l hi -> lo' <= lo -> spaced lo' l hi.
Proof. destruct l; simpl; [lia|]. intros (? & ? & ?) ?. split; [lia|done]. Qed.

Lemma spaced_hi lo l hi hi' : spaced lo l hi -> hi <= hi' -> spaced lo l hi'.
Proof.
  revert lo. induction l as [|b l IH]; simpl; intros lo H Hle; [lia|].
  destruct H as (? & ? & H). split_and!; [done|done|]. by apply IH.
Qed.

Lemma spaced_app lo l1 l2 hi : spaced lo (l1 ++ l2) hi <->
  exists mid, spaced lo l1 mid /\ spaced mid l2 hi /\
    (l1 = [] -> mid = lo) /\ (forall b, last l1 = Some b -> mid = blk_end b).
Proof.
  revert lo. induction l1 as [|b l1 IH]; intros lo; simpl.
  - split.
    + intros H. exists lo. split_and!; [lia|done|done|done].
    + intros (mid & ? & ? & E & _). by rewrite E in * by done.
  - rewrite IH. split.
    + intros (? & ? & mid & H1 & H2 & H3 & H4). exists mid. split_and!; try done.
      destruct l1 as [|b' l1]; [|done]. intros ? [= <-]. by apply H3.
    + intros (mid & (? & ? & H1) & H2 & _ & H4). split; [done|]. split; [done|]. exists mid.
      split_and!; [done|done| |]; destruct l1 as [|b' l1]; try done. by rewrite (H4 b).
Qed.

Lemma spaced_in lo l hi b : spaced lo l hi -> b ∈ l -> lo < b.1 /\ 0 < b.2 /\ blk_end b <= hi.
Proof.
  revert lo. induction l as [|b' l IH]; simpl; intros lo; [by intros _ ?%not_elem_of_nil|].
  intros (H1 & H2 & H3) [->|Hin]%elem_of_cons.
  - split; [done|]. split; [done|]. clear -H3 H2. revert H3. generalize (blk_end b').
    induction l as [|c l IH]; simpl; intros e; [done|]. intros (? & ? & H).
    apply IH in H. unfold blk_end, HSIZE in *. lia.
  - destruct (IH _ H3 Hin) as (? & ? & ?). unfold blk_end, HSIZE in *. split; [lia|done].
Qed.

Lemma spaced_le lo l hi : spaced lo l hi -> lo <= hi.
Proof.
  revert lo. induction l as [|b l IH]; simpl; intros lo; [done|]. intros (? & ? & H).
  apply IH in H. unfold blk_end, HSIZE in *. lia.
Qed.

(** ** Searching the ring *)

Definition ascending (l : list blk) : Prop := StronglySorted (fun b c => b.1 < c.1) l.

Lemma spaced_ascending lo l hi : spaced lo l hi -> ascending ((lo, 0) :: l).
Proof.
  intros H. apply SSorted_cons; [|apply Forall_forall; intros b Hb; by apply (spaced_in _ _ _ _ H)].
  revert lo H. induction l as [|b l IH]; intros lo; [constructor|]. simpl. intros (H1 & H2 & H3).
  apply SSorted_cons; [by apply (IH _ H3)|]. apply Forall_forall. intros c Hc.
  destruct (spaced_in _ _ _ _ H3 Hc) as [? _]. unfold blk_end, HSIZE in *. lia.
Qed.

Lemma ascending_app l1 l2 : ascending (l1 ++ l2) ->
  ascending l1 /\ ascending l2 /\ forall b c, b ∈ l1 -> c ∈ l2 -> b.1 < c.1.
Proof.
  unfold ascending. rewrite StronglySorted_app. intros (H & ? & ?). split_and!; [done..|].
  intros b c Hb Hc. by apply H.
Qed.

Section Search.
Context (base bp : Z) (s : um) (pre post : list blk) (q : blk).
Abbreviation ring := (pre ++ q :: post).
Hypothesis Hchain : chain (heap s) ring base.
Hypothesis Hasc : ascending ring.
Hypothesis Hbase : first ring base = base.
Hypothesis Hmin : forall b, b ∈ ring -> base <= b.1.
Hypothesis Hpre : forall b, b ∈ pre -> b.1 < bp.
Hypothesis Hq : q.1 < bp.
Hypothesis Hpost : forall b, b ∈ post -> bp < b.1.

Lemma base_lt : base < bp.
Proof.
  eapply Z.le_lt_trans; [apply (Hmin q)|exact Hq]. apply elem_of_app. right. by left.
Qed.

(** What the search does at the last block before [bp], before it and after it. *)
Lemma find_here : does (free_find bp q.1) s (inr q.1) s.
Proof.
  apply chain_app in Hchain as [_ [E _]]. pose proof base_lt.
  intros ns wk. unfold free_find, bind, hget, gets. cbn [now]. rewrite E. cbn [s_ptr].
  destruct post as [|c l]; simpl.
  - destruct (Z.ltb_spec bp base); [lia|]. rewrite andb_false_r. simpl.
    specialize (Hmin q ltac:(set_solver)).
    destruct (Z.leb_spec base q.1), (Z.ltb_spec q.1 bp); try lia. done.
  - specialize (Hpost c ltac:(set_solver)).
    destruct (Z.ltb_spec q.1 bp), (Z.ltb_spec bp c.1); try lia. done.
Qed.

Lemma find_pre l1 b l2 : pre = l1 ++ b :: l2 ->
  does (free_find bp b.1) s (inl (first (l2 ++ [q]) base)) s.
Proof.
  pose proof base_lt. intros ->. rewrite <- app_assoc in Hchain. cbn [app] in Hchain.
  apply chain_app in Hchain as [_ [E _]].
  assert (first (l2 ++ q :: post) base = first (l2 ++ [q]) base) as Ef by by destruct l2.
  assert (exists c, c ∈ l2 ++ [q] /\ first (l2 ++ [q]) base = c.1) as (c & Hc & Ec).
  { destruct l2 as [|c l2]; [exists q|exists c]; (split; [set_solver|done]). }
  assert (c.1 < bp) as Hcb.
  { apply elem_of_app in Hc as [Hc|Hc]; [apply Hpre; set_solver|].
    by apply list_elem_of_singleton in Hc as ->. }
  assert (b.1 < c.1) as Hbc.
  { rewrite <- app_assoc in Hasc. cbn [app] in Hasc. apply ascending_app in Hasc as (_ & Hasc & _).
    apply StronglySorted_inv in Hasc as [_ Hf]. rewrite Forall_forall in Hf. apply Hf. set_solver. }
  intros ns wk. unfold free_find, bind, hget, gets. cbn [now]. rewrite E, Ef, Ec. cbn [s_ptr].
  destruct (Z.ltb_spec bp c.1); [lia|]. rewrite andb_false_r. simpl.
  destruct (Z.leb_spec c.1 b.1); [lia|]. done.
Qed.

Lemma find_post l1 b l2 : post = l1 ++ b :: l2 ->
  does (free_find bp b.1) s (inl (first l2 base)) s.
Proof.
  pose proof base_lt. intros ->. apply chain_app in Hchain as [_ [_ Hc]].
  apply chain_app in Hc as [_ [E _]]. specialize (Hpost b ltac:(set_solver)).
  intros ns wk. unfold free_find, bind, hget, gets. cbn [now]. rewrite E. cbn [s_ptr].
  destruct (Z.ltb_spec b.1 bp); [lia|]. simpl.
  destruct (Z.leb_spec (first l2 base) b.1) as [Hle|]; [|done]. simpl.
  destruct (Z.ltb_spec bp (first l2 base)) as [Hlt|]; [|done]. exfalso.
  destruct l2 as [|c l2]; simpl in *; [lia|].
  apply ascending_app in Hasc as (_ & Hasc' & _).
  apply StronglySorted_inv in Hasc' as [Hasc' _]. apply ascending_app in Hasc' as (_ & Hasc' & _).
  apply StronglySorted_inv in Hasc' as [_ Hf]. apply Forall_cons in Hf as [Hf _]. lia.
Qed.

Lemma search_pre l2 : forall l1 n, pre = l1 ++ l2 -> (length l2 < n)%nat ->
  does (loop n (free_find bp) (first (l2 ++ [q]) base)) s q.1 s.
Proof.
  induction l2 as [|b l2 IH]; intros l1 [|n] E Hn; simpl in Hn; try lia.
  - apply does_loop_stop, find_here.
  - eapply does_loop_more; [by eapply find_pre|]. apply (IH (l1 ++ [b])); [|lia].
    by rewrite <- app_assoc.
Qed.

Lemma search_post l2 : forall l1 n, post = l1 ++ l2 -> (length pre + length l2 + 1 < n)%nat ->
  does (loop n (free_find bp) (first l2 base)) s q.1 s.
Proof.
  induction l2 as [|b l2 IH]; intros l1 [|n] E Hn; simpl in Hn; try lia.
  - assert (first (pre ++ [q]) base = base) as E0 by (rewrite <- Hbase at 2; by destruct pre).
    pose proof (search_pre pre [] (S n) eq_refl ltac:(lia)) as Hs. by rewrite E0 in Hs.
  - eapply does_loop_more; [by eapply find_post|]. apply (IH (l1 ++ [b])); [|lia].
    by rewrite <- app_assoc.
Qed.

(** From every block of the ring, the search ends at [q]. *)
Lemma search c n : c ∈ ring -> (length ring + 1 < n)%nat ->
  does (loop n (free_find bp) c.1) s q.1 s.
Proof.
  rewrite length_app. simpl. intros Hc Hn.
  apply elem_of_app in Hc as [Hc|Hc]; [|apply elem_of_cons in Hc as [->|Hc]].
  - apply list_elem_of_split in Hc as (l1 & l2 & E).
    replace c.1 with (first ((c :: l2) ++ [q]) base) by done. apply (search_pre _ l1); [done|].
    rewrite E, length_app in Hn. simpl in *. lia.
  - destruct n; [lia|]. apply does_loop_stop, find_here.
  - apply list_elem_of_split in Hc as (l1 & l2 & E).
    replace c.1 with (first (c :: l2) base) by done. apply (search_post _ l1); [done|].
    rewrite E, length_app in Hn. simpl in *. lia.
Qed.
End Search.

(** ** The invariant *)

Definition apart (b c : blk) : Prop := blk_end b <= c.1 \/ blk_end c <= b.1.

Definition total (l : list blk) : Z := foldr (fun b n => b.2 + n) 0 l.

(** [fl] are the free blocks, [al] the blocks handed out.  The blocks are apart
    from each other, and all of them lie between [base] and the end of the
    heap. *)
Record heap_ok (base : Z) (s : um) (fl al : list blk) : Prop := {
  ho_chain : chain (heap s) ((base, 0) :: fl) base;
  ho_spaced : spaced base fl (brk s);
  ho_freep : exists b, b ∈ (base, 0) :: fl /\ freep s = b.1;
  ho_low : forall b, b ∈ fl ++ al -> base + HSIZE <= b.1;
  ho_live : forall b, b ∈ al -> 0 < b.2 /\ blk_end b <= brk s /\ s_size (heap s b.1) = b.2;
  ho_sep : forall b c, b ∈ al -> c ∈ fl -> apart b c;
  ho_sep_live : forall b c, b ∈ al -> c ∈ al -> b <> c -> apart b c;
  ho_nodup : NoDup al;
  ho_base : 0 < base /\ base + HSIZE <= brk s;
  ho_brk : brk s <= limit s < two31
}.

Lemma hset_same a f h : hset a f h a = f (h a).
Proof. unfold hset. by rewrite Z.eqb_refl. Qed.
Lemma hset_other a f h x : x <> a -> hset a f h x = h x.
Proof. unfold hset. by destruct (Z.eqb_spec x a). Qed.

Lemma total_app l1 l2 : total (l1 ++ l2) = total l1 + total l2.
Proof. induction l1 as [|b l1 IH]; simpl; [done|]. rewrite IH. lia. Qed.

(** The place of a block in the ring: between two free blocks. *)
Lemma split_at lo fl hi b :
  spaced lo fl hi -> 0 < b.2 -> (forall c, c ∈ fl -> apart b c) ->
  exists l1 l2, fl = l1 ++ l2 /\ (forall c, c ∈ l1 -> blk_end c <= b.1)
    /\ (forall c, c ∈ l2 -> blk_end b <= c.1).
Proof.
  intros Hsp Hb Hap. revert lo Hsp. induction fl as [|c fl IH]; intros lo Hsp.
  { exists [], []. split; [done|]. split; by intros ? ?%not_elem_of_nil. }
  destruct (Hap c ltac:(by left)) as [Hc|Hc].
  - exists [], (c :: fl). split; [done|]. split; [by intros ? ?%not_elem_of_nil|].
    intros x [->|Hx]%elem_of_cons; [done|]. simpl in Hsp. destruct Hsp as (_ & ? & Hsp).
    destruct (spaced_in _ _ _ _ Hsp Hx) as [? _]. unfold blk_end, HSIZE in *. lia.
  - simpl in Hsp. destruct Hsp as (_ & ? & Hsp).
    destruct (IH ltac:(intros x Hx; apply Hap; by right) _ Hsp) as (l1 & l2 & -> & H1 & H2).
    exists (c :: l1), l2. split; [done|]. split; [|done]. by intros x [->|Hx]%elem_of_cons; [|apply H1].
Qed.

Lemma ring_split (base : Z) (l1 : list blk) : exists pre q, (base, 0) :: l1 = pre ++ [q] /\
  (l1 = [] /\ pre = [] /\ q = (base, 0) \/ exists l, l1 = l ++ [q] /\ pre = (base, 0) :: l).
Proof.
  destruct l1 as [|x l _] using rev_ind; [exists [], (base, 0); by split; [|left]|].
  exists ((base, 0) :: l), x. split; [done|]. right. by exists l.
Qed.

(** ** Freeing a block *)

(** The block [b] joined with the first of [l], if they touch, and the rest. *)
Definition up (b : blk) (l : list blk) : blk * list blk :=
  match l with
  | c :: l' => if blk_end b =? c.1 then ((b.1, b.2 + c.2), l') else (b, l)
  | [] => (b, [])
  end.

(** [q] joined with [b], if they touch. *)
Definition down (q b : blk) : list blk :=
  if blk_end q =? b.1 then [(q.1, q.2 + b.2)] else [q; b].

Lemma hadd_end b : 0 <= b.1 -> 0 <= b.2 -> blk_end b < two32 -> hadd b.1 b.2 = blk_end b.
Proof. intros. unfold hadd, blk_end in *. apply u32_small. unfold HSIZE in *. lia. Qed.

Lemma join_up_ok base s q b l :
  s_size (heap s b.1) = b.2 -> heap s q.1 = Header (first l base) q.2 -> chain (heap s) l base ->
  0 < b.1 -> 0 < b.2 -> blk_end b < two31 -> base < b.1 -> (forall c, c ∈ l -> 0 < c.2 /\ blk_end c < two31) ->
  exists h', does (join_up b.1 q.1) s tt (s <|heap := h'|>)
    /\ h' b.1 = Header (first (up b l).2 base) (up b l).1.2
    /\ forall x, x <> b.1 -> h' x = heap s x.
Proof.
  intros Hb Hq Hch Hb1 Hb2 Hend Hbase Hl. unfold join_up.
  assert (hadd b.1 b.2 = blk_end b) as Hadd.
  { apply hadd_end; [lia|lia|]. unfold two31, two32 in *. lia. }
  destruct (hadd b.1 b.2 =? first l base) eqn:E.
  - rewrite Hadd in E. destruct l as [|c l].
    { simpl in E. apply Z.eqb_eq in E. unfold blk_end, HSIZE in *. lia. }
    simpl in Hch. destruct Hch as [Hc Hch]. destruct (Hl c ltac:(by left)) as [Hc2 Hcend].
    simpl in E |- *. rewrite E. apply Z.eqb_eq in E. eexists. split_and!.
    + do 2 dstep. rewrite Hb, Hq. cbn [s_size s_ptr first]. rewrite Hadd, E, Z.eqb_refl.
      do 3 dstep. exact (does_modify _ _).
    + getset. rewrite !hset_same, Hc. cbn. rewrite hset_other, Hc by (unfold blk_end, HSIZE in *; lia).
      unfold upd. cbn. rewrite Hb, u32_small; [done|]. unfold blk_end, HSIZE, two31, two32 in *. lia.
    + intros x Hx. getset. by rewrite !hset_other.
  - rewrite Hadd in E. assert (up b l = (b, l)) as ->.
    { destruct l as [|c l]; [done|]. simpl in *. by rewrite E. }
    eexists. split_and!.
    + do 2 dstep. rewrite Hb, Hq. cbn [s_size s_ptr]. rewrite Hadd, E. exact (does_modify _ _).
    + getset. rewrite hset_same. unfold upd. cbn. by rewrite Hb.
    + intros x Hx. getset. by rewrite hset_other.
Qed.

Lemma join_down_ok base s q b l :
  heap s b.1 = Header (first l base) b.2 -> s_size (heap s q.1) = q.2 ->
  0 < q.1 -> 0 <= q.2 -> 0 < b.2 -> blk_end q <= b.1 -> q.1 < b.1 -> blk_end b < two31 ->
  exists h', does (join_down b.1 q.1) s tt (s <|heap := h'|>)
    /\ chain h' (down q b) (first l base)
    /\ forall x, x <> b.1 -> x <> q.1 -> h' x = heap s x.
Proof.
  intros Hb Hq Hq1 Hq2 Hb2 Hle Hlt Hend. unfold join_down, down.
  assert (hadd q.1 q.2 = blk_end q) as Hadd.
  { apply hadd_end; [lia|lia|]. unfold blk_end, HSIZE, two31, two32 in *. lia. }
  destruct (Z.eqb_spec (blk_end q) b.1) as [E|E]; eexists; split_and!.
  - do 2 dstep. rewrite Hq, Hadd, E, Z.eqb_refl. do 2 dstep. exact (does_modify _ _).
  - simpl. split; [|done]. getset. rewrite !hset_same, Hb. cbn [s_size].
    rewrite hset_other, Hb by lia. unfold upd. cbn. rewrite Hq, u32_small; [done|].
    unfold blk_end, HSIZE, two31, two32 in *. lia.
  - intros x Hx Hx'. getset. by rewrite !hset_other.
  - do 2 dstep. rewrite Hq, Hadd. rewrite (proj2 (Z.eqb_neq _ _) E). exact (does_modify _ _).
  - simpl. getset. rewrite hset_same, hset_other, Hb by lia. split; [|done].
    unfold upd. cbn. by rewrite Hq.
  - intros x Hx Hx'. getset. by rewrite hset_other.
Qed.

Lemma spaced_up e l hi b :
  spaced e l hi -> 0 < b.2 -> blk_end b <= hi -> (forall c, c ∈ l -> blk_end b <= c.1) ->
  let r := up b l in
  r.1.1 = b.1 /\ b.2 <= r.1.2 /\ blk_end r.1 <= hi /\ spaced (blk_end r.1) r.2 hi
  /\ r.1.2 + total r.2 = b.2 + total l.
Proof.
  intros Hsp Hb Hhi Hl. destruct l as [|c l]; simpl; [split_and!; try done; lia|].
  specialize (Hl c ltac:(by left)). simpl in Hsp. destruct Hsp as (? & ? & Hsp).
  pose proof (spaced_le _ _ _ Hsp).
  destruct (Z.eqb_spec (blk_end b) c.1) as [E|E]; simpl.
  - assert (blk_end (b.1, b.2 + c.2) = blk_end c) as -> by (unfold blk_end, HSIZE in *; simpl; lia).
    split_and!; try done; lia.
  - split_and!; try done; lia.
Qed.

(** The free list after [b] has been put between [l1] and [l2]. *)
Definition joined (l1 : list blk) (b : blk) (l2 : list blk) : list blk :=
  let ' (n, l2) := up b l2 in
  match last l1 with
  | Some q => removelast l1 ++ down q n ++ l2
  | None => n :: l2
  end.

Lemma spaced_joined lo l1 l2 hi b :
  spaced lo (l1 ++ l2) hi -> 0 < b.2 -> lo < b.1 -> blk_end b <= hi ->
  (forall c, c ∈ l1 -> blk_end c <= b.1) -> (forall c, c ∈ l2 -> blk_end b <= c.1) ->
  spaced lo (joined l1 b l2) hi /\ total (joined l1 b l2) = total (l1 ++ l2) + b.2.
Proof.
  intros Hsp Hb Hlo Hhi H1 H2. apply spaced_app in Hsp as (mid & Hs1 & Hs2 & Hnil & Hlast).
  destruct (spaced_up mid l2 hi b Hs2 Hb Hhi H2) as (E1 & E2 & E3 & E4 & E5).
  unfold joined. destruct (up b l2) as [n l2']. simpl in *.
  destruct l1 as [|q l _] using rev_ind; simpl; [split; [split_and!; [lia|lia|done]|lia]|].
  rewrite last_snoc, removelast_last. unfold down.
  specialize (H1 q ltac:(set_solver)).
  apply spaced_app in Hs1 as (m & Hm1 & (Hm2 & Hm3 & _) & Hm4 & Hm5).
  rewrite !total_app. simpl. destruct (Z.eqb_spec (blk_end q) n.1) as [E|E]; simpl.
  - split; [|lia]. apply spaced_app. exists m. split_and!; try done. simpl. split_and!; [done|lia|].
    replace (blk_end (q.1, q.2 + n.2)) with (blk_end n); [done|].
    unfold blk_end, HSIZE in *. simpl. lia.
  - split; [|lia]. apply spaced_app. exists m. split_and!; try done. simpl.
    split_and!; [done|done|lia|lia|done].
Qed.

Lemma joined_ring base l1 b l2 pre q :
  (base, 0) :: l1 = pre ++ [q] -> base < b.1 ->
  (l1 = [] /\ pre = [] /\ q = (base, 0) \/ exists l, l1 = l ++ [q] /\ pre = (base, 0) :: l) ->
  (forall c, c ∈ l2 -> blk_end b <= c.1) ->
  (base, 0) :: joined l1 b l2 = pre ++ down q (up b l2).1 ++ (up b l2).2.
Proof.
  intros _ Hb Hcase _. unfold joined. assert ((up b l2).1.1 = b.1) as E.
  { destruct l2 as [|c l2]; [done|]. simpl. by destruct (_ =? _). }
  destruct (up b l2) as [n l2']. simpl in *. destruct Hcase as [(-> & -> & ->)|(l & -> & ->)].
  - simpl. unfold down. destruct (Z.eqb_spec (blk_end (base, 0)) n.1) as [E'|]; [|done].
    unfold blk_end in E'. simpl in E'. lia.
  - by rewrite last_snoc, removelast_last.
Qed.

(** A ring holds at most one block per header's worth of memory. *)
Lemma spaced_length lo l hi : spaced lo l hi -> HSIZE * Z.of_nat (length l) <= hi - lo.
Proof.
  revert lo. induction l as [|b l IH]; simpl; intros lo; [unfold HSIZE; lia|].
  intros (? & ? & H). apply IH in H. unfold blk_end, HSIZE in *. lia.
Qed.

Lemma ring_rounds base fl hi : 0 < base -> spaced base fl hi ->
  (S (length fl) < Z.to_nat (hi / HSIZE) + 2)%nat.
Proof.
  intros Hb Hsp. apply spaced_length in Hsp. unfold HSIZE in *.
  pose proof (Z.div_mod hi 8 ltac:(lia)). pose proof (Z.mod_pos_bound hi 8 ltac:(lia)). lia.
Qed.

(** Joining blocks covers no new memory. *)
Lemma joined_in l1 b l2 x : x ∈ joined l1 b l2 ->
  (x.1 = b.1 \/ exists y, y ∈ l1 ++ l2 /\ x.1 = y.1) /\
  forall c, 0 < c.2 -> apart c b -> (forall y, y ∈ l1 ++ l2 -> apart c y) -> apart c x.
Proof.
  assert (forall n l2', up b l2 = (n, l2') -> l2' ⊆ l2 /\ n.1 = b.1 /\
    forall c, 0 < c.2 -> apart c b -> (forall y, y ∈ l2 -> apart c y) -> apart c n) as Hup.
  { intros n l2'. destruct l2 as [|y l2]; simpl; [intros [= <- <-]; done|].
    destruct (Z.eqb_spec (blk_end b) y.1) as [E|]; intros [= <- <-]; (split; [set_solver|]);
      (split; [done|]); intros c Hc Hb Hy; [|done].
    specialize (Hy y ltac:(by left)). unfold apart, blk_end, HSIZE in *. simpl. lia. }
  unfold joined. destruct (up b l2) as [n l2']. destruct (Hup n l2' eq_refl) as (Hsub & En & Hn).
  clear Hup. assert (forall y, y ∈ l2' -> (exists z, z ∈ l1 ++ l2 /\ y.1 = z.1) /\
    forall c, (forall z, z ∈ l1 ++ l2 -> apart c z) -> apart c y) as Hl2.
  { intros y Hy. split; [exists y; set_solver|]. intros c Hz. apply Hz. set_solver. }
  destruct l1 as [|q l _] using rev_ind; simpl.
  - intros [->|Hx]%elem_of_cons; [split; [by left|exact Hn]|].
    destruct (Hl2 x Hx) as [? Hap]. split; [by right|]. intros c ? ?. apply Hap.
  - rewrite last_snoc, removelast_last. intros Hx.
    apply elem_of_app in Hx as [Hx|Hx].
    { split; [right; exists x; set_solver|]. intros c _ _ Hy. apply Hy. set_solver. }
    apply elem_of_app in Hx as [Hx|Hx].
    2: { destruct (Hl2 x Hx) as [? Hap]. split; [by right|]. intros c ? ?. apply Hap. }
    unfold down in Hx. destruct (Z.eqb_spec (blk_end q) n.1) as [E|].
    + apply list_elem_of_singleton in Hx as ->. split; [right; exists q; set_solver|].
      intros c Hc Hb Hy. pose proof (Hy q ltac:(set_solver)) as Hq.
      specialize (Hn c Hc Hb ltac:(intros y Hy'; apply Hy; set_solver)).
      unfold apart, blk_end, HSIZE in *. simpl in *. lia.
    + apply elem_of_cons in Hx as [->|Hx].
      { split; [right; exists q; set_solver|]. intros c _ _ Hy. apply Hy. set_solver. }
      apply list_elem_of_singleton in Hx as ->. split; [by left|].
      intros c Hc Hb Hy. apply Hn; [done|done|]. intros y Hy'. apply Hy. set_solver.
Qed.

Lemma first_down q b l e : first (down q b ++ l) e = q.1.
Proof. unfold down. by destruct (_ =? _). Qed.

Lemma up_rest h b l e : chain h l e -> chain h (up b l).2 e /\ (up b l).2 ⊆ l.
Proof.
  destruct l as [|c l]; simpl; [done|]. intros [H1 H2].
  destruct (blk_end b =? c.1); simpl; [split; [done|set_solver]|done].
Qed.

(** The two joins put [b] into the ring [pre ++ q :: post]. *)
Lemma relink base s pre q b post hi :
  chain (heap s) (pre ++ q :: post) base -> ascending (pre ++ q :: post) ->
  spaced (blk_end b - 1) post hi \/ post = [] ->
  s_size (heap s b.1) = b.2 -> 0 < base -> base <= q.1 < b.1 -> blk_end q <= b.1 -> 0 <= q.2 ->
  0 < b.2 -> blk_end b <= hi -> hi < two31 ->
  exists h', does (join_up b.1 q.1;; join_down b.1 q.1) s tt (s <|heap := h'|>)
    /\ chain h' (pre ++ down q (up b post).1 ++ (up b post).2) base
    /\ forall x, x <> b.1 -> x <> q.1 -> h' x = heap s x.
Proof.
  intros Hch Hasc Hpost Hsz Hbase Hq1 Hq2 Hq3 Hb2 Hhi Hlim.
  destruct (chain_split _ _ _ _ _ Hch) as (Hpre & Eq & Hpo).
  assert (forall x, x ∈ post -> 0 < x.2 /\ blk_end x <= hi /\ blk_end b <= x.1) as Hf.
  { intros x Hx. destruct Hpost as [Hs| ->]; [|by apply not_elem_of_nil in Hx].
    destruct (spaced_in _ _ _ x Hs Hx) as (? & ? & ?). lia. }
  destruct (join_up_ok base s q b post) as (h1 & D1 & E1 & F1); try done; try lia.
  { intros x Hx. destruct (Hf x Hx) as (? & ? & _). lia. }
  assert ((up b post).1.1 = b.1 /\ b.2 <= (up b post).1.2 /\ blk_end (up b post).1 <= hi)
    as (U1 & U2 & U3).
  { destruct post as [|c l]; simpl; [lia|]. destruct (Hf c ltac:(by left)) as (? & ? & ?).
    destruct (Z.eqb_spec (blk_end b) c.1); simpl; [|lia]. unfold blk_end, HSIZE in *. simpl. lia. }
  destruct (join_down_ok base (s <|heap := h1|>) q (up b post).1 (up b post).2)
    as (h2 & D2 & C2 & F2); rewrite ?U1; getset; try done; try lia.
  { rewrite F1, Eq by lia. done. }
  rewrite U1 in D2, F2. getset_in F2.
  exists h2. split; [eapply does_bind; [exact D1|exact D2]|].
  assert (forall x, x <> b.1 -> x <> q.1 -> h2 x = heap s x) as Hkeep.
  { intros x Hx Hx'. by rewrite F2, F1. }
  split; [|done]. destruct (up_rest _ b _ _ Hpo) as [Hpo' Hsub].
  apply chain_app. rewrite first_down. split; [|apply chain_app; split; [exact C2|]].
  - apply (fchain_ext (heap s)); [|done]. intros x Hx. apply ascending_app in Hasc as (_ & _ & Hlt).
    specialize (Hlt x q Hx ltac:(by left)). apply Hkeep; lia.
  - apply (fchain_ext (heap s)); [|done]. intros x Hx. apply Hsub in Hx.
    destruct (Hf x Hx) as (? & ? & ?). apply Hkeep; unfold blk_end, HSIZE in *; lia.
Qed.

Lemma down_q q b : exists c, c ∈ down q b /\ q.1 = c.1.
Proof.
  unfold down. destruct (_ =? _); eexists; (split; [by left|done]).
Qed.

(** What [free] does to the ring. *)
Lemma free_ring base s fl b :
  chain (heap s) ((base, 0) :: fl) base -> spaced base fl (brk s) ->
  (exists c, c ∈ (base, 0) :: fl /\ freep s = c.1) ->
  0 < base -> base < b.1 -> 0 < b.2 -> blk_end b <= brk s -> brk s < two31 ->
  s_size (heap s b.1) = b.2 -> (forall c, c ∈ fl -> apart b c) ->
  exists h' l1 l2 q, fl = l1 ++ l2 /\
    does (free (u32 (b.1 + HSIZE))) s tt (s <|heap := h'|> <|freep := q|>)
    /\ chain h' ((base, 0) :: joined l1 b l2) base /\ spaced base (joined l1 b l2) (brk s)
    /\ (exists c, c ∈ (base, 0) :: joined l1 b l2 /\ q = c.1)
    /\ total (joined l1 b l2) = total fl + b.2
    /\ forall x, x <> b.1 -> (forall c, c ∈ (base, 0) :: fl -> x <> c.1) -> h' x = heap s x.
Proof.
  intros Hch Hsp (c & Hc & Efp) Hbase Hlo Hb2 Hhi Hbrk Hsz Hap.
  destruct (split_at _ _ _ b Hsp Hb2 Hap) as (l1 & l2 & -> & H1 & H2).
  destruct (spaced_joined _ _ _ _ b Hsp Hb2 Hlo Hhi H1 H2) as [Hsp' Htot].
  destruct (ring_split base l1) as (pre & q & Eq & Hcase).
  pose proof (joined_ring base l1 b l2 pre q Eq Hlo Hcase H2) as Ering.
  assert ((base, 0) :: l1 ++ l2 = pre ++ q :: l2) as Eold.
  { change ((base, 0) :: l1 ++ l2) with (((base, 0) :: l1) ++ l2). by rewrite Eq, <- app_assoc. }
  assert (base <= q.1 < b.1 /\ blk_end q <= b.1 /\ 0 <= q.2) as (Hq1 & Hq2 & Hq3).
  { destruct Hcase as [(_ & _ & ->)|(l & -> & _)]; [unfold blk_end; simpl; lia|].
    specialize (H1 q ltac:(set_solver)).
    destruct (spaced_in _ _ _ q Hsp ltac:(set_solver)) as (? & ? & _).
    unfold blk_end, HSIZE in *. lia. }
  pose proof (spaced_ascending _ _ _ Hsp) as Hasc.
  pose proof (ring_rounds base _ _ Hbase Hsp) as Hrounds.
  apply spaced_app in Hsp as Hsp2. destruct Hsp2 as (mid & _ & Hmid & _).
  rewrite Eold in Hasc, Hch, Hc |- *.
  destruct (relink base s pre q b l2 (brk s)) as (h' & D & C & F); try done.
  { destruct l2 as [|x l2]; [by right|left]. simpl in *. specialize (H2 x ltac:(by left)).
    split; [lia|]. apply Hmid. }
  exists h', l1, l2, q.1. split; [done|]. rewrite Ering.
  split_and!; [|done|done| |done|].
  - unfold free. assert (u32 (u32 (b.1 + HSIZE) - HSIZE) = b.1) as ->.
    { rewrite (u32_small (b.1 + HSIZE)); [rewrite Z.add_simpl_r; apply u32_small|];
        unfold blk_end, HSIZE, two31, two32 in *; lia. }
    do 2 dstep. rewrite Efp.
    eapply does_bind; [eapply (search base b.1 s pre l2 q); try done|].
    + by rewrite <- Eold.
    + rewrite <- Eold in Hasc |- *. apply StronglySorted_inv in Hasc as [_ Hall].
      rewrite Forall_forall in Hall. intros x [->|Hx]%elem_of_cons; [done|].
      specialize (Hall x Hx). simpl in Hall. lia.
    + intros x Hx. apply ascending_app in Hasc as (_ & _ & Hlt).
      specialize (Hlt x q Hx ltac:(by left)). lia.
    + lia.
    + intros x Hx. specialize (H2 x Hx). unfold blk_end, HSIZE in *. lia.
    + rewrite <- Eold. simpl. rewrite length_app in *. lia.
    + eapply does_seq; [exact D|]. exact (does_modify _ _).
  - destruct (down_q q (up b l2).1) as (x & Hx & Ex). exists x. split; [set_solver|done].
  - intros x Hx Hx'. apply F; [done|]. apply Hx'. set_solver.
Qed.

Lemma joined_has l1 b l2 : 0 < b.2 -> (forall x, x ∈ l1 ++ l2 -> 0 < x.2) ->
  (exists x, x ∈ joined l1 b l2 /\ b.2 <= x.2) /\ (length (joined l1 b l2) <= S (length (l1 ++ l2)))%nat.
Proof.
  intros Hb Hx. assert (exists n l2', up b l2 = (n, l2') /\ b.2 <= n.2 /\ (length l2' <= length l2)%nat)
    as (n & l2' & E & Hn & Hl).
  { destruct l2 as [|c l2]; simpl; [by eexists _, _|]. specialize (Hx c ltac:(set_solver)).
    destruct (blk_end b =? c.1); eexists _, _; (split; [done|]); simpl; lia. }
  unfold joined. rewrite E.
  destruct l1 as [|q l _] using rev_ind; simpl; [split; [exists n; split; [by left|done]|lia]|].
  rewrite last_snoc, removelast_last. unfold down. specialize (Hx q ltac:(set_solver)).
  destruct (blk_end q =? n.1); rewrite !length_app; simpl.
  - split; [exists (q.1, q.2 + n.2); split; [set_solver|simpl; lia]|lia].
  - split; [exists n; split; [set_solver|done]|lia].
Qed.

Lemma apart_ne b c : apart b c -> 0 < b.2 -> 0 < c.2 -> b.1 <> c.1.
Proof. unfold apart, blk_end, HSIZE. lia. Qed.

Lemma free_heap_ok base s fl al b al' :
  heap_ok base s fl al -> al ≡ₚ b :: al' ->
  exists s' fl', does (free (u32 (b.1 + HSIZE))) s tt s' /\ heap_ok base s' fl' al'
    /\ total fl' = total fl + b.2 /\ brk s' = brk s /\ limit s' = limit s
    /\ (exists x, x ∈ fl' /\ b.2 <= x.2) /\ (length fl' <= S (length fl))%nat.
Proof.
  intros Hok Hal. assert (b ∈ al) as Hb by (rewrite Hal; by left).
  destruct (ho_live _ _ _ _ Hok b Hb) as (Hb2 & Hbend & Hbsz).
  pose proof (ho_low _ _ _ _ Hok b ltac:(set_solver)) as Hblow.
  pose proof (ho_brk _ _ _ _ Hok) as Hbrk. destruct (ho_base _ _ _ _ Hok) as [Hbase _].
  pose proof (ho_nodup _ _ _ _ Hok) as Hnd. rewrite Hal in Hnd. apply NoDup_cons in Hnd as [Hni Hnd].
  destruct (free_ring base s fl b) as (h' & l1 & l2 & q & Efl & D & C & Sp & Fp & Tot & F);
    try apply Hok; try done; try (unfold HSIZE in *; lia).
  { intros c Hc. by apply (ho_sep _ _ _ _ Hok). }
  assert (forall x, x ∈ al' -> x ∈ al /\ x <> b) as Hin.
  { intros x Hx. rewrite Hal. split; [by right|]. by intros ->. }
  exists (s <|heap := h'|> <|freep := q|>), (joined l1 b l2).
  split; [exact D|]. split.
  2: { getset. destruct (joined_has l1 b l2) as [J1 J2]; [done| |by rewrite <- Efl in J2].
       intros x Hx. rewrite <- Efl in Hx. by apply (spaced_in _ _ _ x (ho_spaced _ _ _ _ Hok)). }
  rewrite Efl in *. split; try done; getset.
  - intros x [Hx|Hx]%elem_of_app; [|apply (ho_low _ _ _ _ Hok); set_solver].
    destruct (joined_in _ _ _ _ Hx) as [[->|(y & Hy & ->)] _]; [done|].
    apply (ho_low _ _ _ _ Hok). set_solver.
  - intros x Hx. destruct (Hin x Hx) as [Hx' Hne].
    destruct (ho_live _ _ _ _ Hok x Hx') as (Hx2 & ? & ?). split; [done|]. split; [done|].
    rewrite F; [done| |].
    + apply apart_ne; [|done|done]. by apply (ho_sep_live _ _ _ _ Hok).
    + pose proof (ho_low _ _ _ _ Hok x ltac:(set_solver)).
      intros c [->|Hc]%elem_of_cons; [simpl; unfold HSIZE in *; lia|].
      apply apart_ne; [by apply (ho_sep _ _ _ _ Hok)|done|].
      by apply (spaced_in _ _ _ c (ho_spaced _ _ _ _ Hok)).
  - intros x c Hx Hc. destruct (Hin x Hx) as [Hx' Hne].
    apply (joined_in _ _ _ _ Hc); [by apply (ho_live _ _ _ _ Hok)| |].
    + by apply (ho_sep_live _ _ _ _ Hok).
    + intros y Hy. by apply (ho_sep _ _ _ _ Hok).
  - intros x c Hx Hc Hne. by apply (ho_sep_live _ _ _ _ Hok); [apply Hin..|].
  - by apply (ho_base _ _ _ _ Hok).
Qed.

(** ** Carving a block out of a free one *)

Lemma heap_ok_in base s fl al b : heap_ok base s fl al -> b ∈ fl ->
  base < b.1 /\ 0 < b.2 /\ blk_end b <= brk s.
Proof. intros Hok. apply (spaced_in _ _ _ b (ho_spaced _ _ _ _ Hok)). Qed.

(** Two headers of the ring at the same address are the same. *)
Lemma ring_inj base s fl al b c : heap_ok base s fl al ->
  b ∈ (base, 0) :: fl -> c ∈ (base, 0) :: fl -> b.1 = c.1 -> b = c.
Proof.
  intros Hok Hb Hc E. pose proof (spaced_ascending _ _ _ (ho_spaced _ _ _ _ Hok)) as Hasc.
  apply list_elem_of_split in Hb as (l1 & l2 & El). rewrite El in Hasc, Hc.
  apply ascending_app in Hasc as (_ & Hasc & Hlt). apply StronglySorted_inv in Hasc as [_ Hall].
  rewrite Forall_forall in Hall.
  apply elem_of_app in Hc as [Hc|Hc]; [specialize (Hlt c b Hc ltac:(by left)); lia|].
  apply elem_of_cons in Hc as [->|Hc]; [done|]. specialize (Hall c Hc). simpl in Hall. lia.
Qed.

Lemma live_not_ring base s fl al x c : heap_ok base s fl al -> x ∈ al -> c ∈ (base, 0) :: fl ->
  x.1 <> c.1.
Proof.
  intros Hok Hx Hc. destruct (ho_live _ _ _ _ Hok x Hx) as (? & _ & _).
  apply elem_of_cons in Hc as [->|Hc].
  - pose proof (ho_low _ _ _ _ Hok x ltac:(set_solver)). simpl. unfold HSIZE in *. lia.
  - apply apart_ne; [by apply (ho_sep _ _ _ _ Hok)|done|]. by apply (heap_ok_in _ _ _ _ _ Hok).
Qed.

(** What stays free of [b], and the block of [n] units taken from its end. *)
Definition carve (b : blk) (n : Z) : list blk * blk :=
  if b.2 =? n then ([], b) else ([(b.1, b.2 - n)], (b.1 + HSIZE * (b.2 - n), n)).

(** [x] is a part of [b]. *)
Definition inside (x b : blk) : Prop := b.1 <= x.1 /\ 0 < x.2 /\ blk_end x <= blk_end b.

Lemma inside_apart x b c : inside x b -> apart b c -> apart x c.
Proof. unfold inside, apart. lia. Qed.
Lemma inside_apart_r x b c : inside x b -> apart c b -> apart c x.
Proof. unfold inside, apart. lia. Qed.

Lemma carve_facts b n m x : 0 < n <= b.2 -> carve b n = (m, x) ->
  x.2 = n /\ inside x b /\ total m + n = b.2 /\
  forall y, y ∈ m -> y.1 = b.1 /\ inside y b /\ apart x y.
Proof.
  intros Hn. unfold carve. destruct (Z.eqb_spec b.2 n) as [E|E]; intros [= <- <-].
  - split_and!; [done|unfold inside; lia|simpl; lia|by intros ? ?%not_elem_of_nil].
  - split_and!; [done|unfold inside, blk_end, HSIZE in *; simpl; lia|simpl; lia|].
    intros y ->%list_elem_of_singleton. unfold inside, apart, blk_end, HSIZE in *. simpl. lia.
Qed.

Lemma spaced_carve lo f1 b f2 hi n : 0 < n <= b.2 ->
  spaced lo (f1 ++ b :: f2) hi -> spaced lo (f1 ++ (carve b n).1 ++ f2) hi.
Proof.
  intros Hn Hsp. apply spaced_app in Hsp as (mid & H1 & (H2 & H3 & H4) & H5 & H6).
  apply spaced_app. exists mid. split_and!; try done. unfold carve.
  destruct (Z.eqb_spec b.2 n); simpl.
  - eapply spaced_weaken; [done|]. unfold blk_end, HSIZE in *. lia.
  - split_and!; [done|lia|]. eapply spaced_weaken; [done|]. unfold blk_end, HSIZE in *. simpl. lia.
Qed.

Lemma spaced_apart lo f1 b f2 hi c : spaced lo (f1 ++ b :: f2) hi -> c ∈ f1 ++ f2 -> apart b c.
Proof.
  intros Hsp Hc. apply spaced_app in Hsp as (mid & H1 & (H2 & H3 & H4) & _).
  apply elem_of_app in Hc as [Hc|Hc].
  - destruct (spaced_in _ _ _ c H1 Hc) as (_ & _ & ?). right. lia.
  - destruct (spaced_in _ _ _ c H4 Hc) as (? & _). left. lia.
Qed.

Lemma heap_ok_carve base s f1 b f2 al h' fp n m x :
  heap_ok base s (f1 ++ b :: f2) al -> 0 < n <= b.2 -> carve b n = (m, x) ->
  chain h' ((base, 0) :: f1 ++ m ++ f2) base -> fp ∈ (base, 0) :: f1 ++ m ++ f2 ->
  s_size (h' x.1) = n -> (forall y, y ∈ al -> s_size (h' y.1) = s_size (heap s y.1)) ->
  heap_ok base (s <|heap := h'|> <|freep := fp.1|>) (f1 ++ m ++ f2) (x :: al).
Proof.
  intros Hok Hn Em Hch Hfp Hsz Hlive.
  destruct (carve_facts b n m x Hn Em) as (Hx2 & Hx & _ & Hm).
  pose proof (spaced_carve _ _ _ _ _ n Hn (ho_spaced _ _ _ _ Hok)) as Hsp. rewrite Em in Hsp.
  pose proof (ho_low _ _ _ _ Hok b ltac:(set_solver)) as Hlow.
  destruct (heap_ok_in _ _ _ _ b Hok ltac:(set_solver)) as (_ & _ & Hend).
  assert (forall y, y ∈ al -> apart y b) as Hapb.
  { intros y Hy. apply (ho_sep _ _ _ _ Hok); [done|set_solver]. }
  split; getset; try done; try apply Hok.
  - by exists fp.
  - intros y [Hy|Hy]%elem_of_app.
    + apply elem_of_app in Hy as [Hy|Hy]; [apply (ho_low _ _ _ _ Hok); set_solver|].
      apply elem_of_app in Hy as [Hy|Hy]; [|apply (ho_low _ _ _ _ Hok); set_solver].
      destruct (Hm y Hy) as (-> & _). done.
    + apply elem_of_cons in Hy as [->|Hy]; [|apply (ho_low _ _ _ _ Hok); set_solver].
      unfold inside in Hx. lia.
  - intros y [->|Hy]%elem_of_cons; [unfold inside in Hx; split_and!; [lia|lia|congruence]|].
    rewrite Hlive by done. by apply Hok.
  - intros y c Hy Hc. apply elem_of_cons in Hy as [->|Hy].
    + apply elem_of_app in Hc as [Hc|Hc]; [|apply elem_of_app in Hc as [Hc|Hc]; [by apply Hm|]];
        (eapply inside_apart; [done|]; eapply spaced_apart; [apply Hok|set_solver]).
    + apply elem_of_app in Hc as [Hc|Hc]; [apply (ho_sep _ _ _ _ Hok); set_solver|].
      apply elem_of_app in Hc as [Hc|Hc]; [|apply (ho_sep _ _ _ _ Hok); set_solver].
      eapply inside_apart_r; [by apply Hm|by apply Hapb].
  - intros y c Hy Hc Hne. apply elem_of_cons in Hy as [->|Hy]; apply elem_of_cons in Hc as [->|Hc].
    + done.
    + eapply inside_apart; [done|]. specialize (Hapb c Hc). unfold apart in *. lia.
    + eapply inside_apart_r; [done|]. by apply Hapb.
    + by apply (ho_sep_live _ _ _ _ Hok).
  - apply NoDup_cons. split; [|apply Hok]. intros Hin. specialize (Hapb x Hin).
    unfold inside, apart, blk_end, HSIZE in *. lia.
Qed.

Lemma ring_cons (base : Z) (fl l1 : list blk) prev b l2 : (base, 0) :: fl = l1 ++ prev :: b :: l2 ->
  exists f1, fl = f1 ++ b :: l2 /\ (base, 0) :: f1 = l1 ++ [prev].
Proof.
  destruct l1 as [|c l1]; simpl; intros [= <- ->]; [by exists []|].
  exists (l1 ++ [prev]). by rewrite <- app_assoc.
Qed.

(** The carved block is at no header of the ring, or it is the block itself. *)
Lemma carved_fresh base s f1 b f2 al n m x c :
  heap_ok base s (f1 ++ b :: f2) al -> 0 < n < b.2 -> carve b n = (m, x) ->
  c ∈ (base, 0) :: f1 ++ b :: f2 -> c.1 <> x.1.
Proof.
  intros Hok Hn Em Hc. destruct (carve_facts b n m x ltac:(lia) Em) as (Hx2 & Hx & _ & _).
  pose proof (ho_low _ _ _ _ Hok b ltac:(set_solver)).
  apply elem_of_cons in Hc as [->|Hc]; [simpl; unfold inside, HSIZE in *; lia|].
  destruct (decide (c = b)) as [->|Hne].
  - unfold carve in Em. destruct (Z.eqb_spec b.2 n); [lia|]. injection Em as _ <-.
    simpl. unfold HSIZE. lia.
  - assert (apart x c) as Hap.
    { eapply inside_apart; [done|]. eapply spaced_apart; [apply Hok|].
      apply elem_of_app in Hc as [?|[->|?]%elem_of_cons]; set_solver. }
    destruct (heap_ok_in _ _ _ _ c Hok Hc) as (_ & ? & _). intros E. symmetry in E. revert E.
    apply apart_ne; [done|unfold inside in Hx; lia|done].
Qed.

Section Take.
Context (base : Z) (s : um) (fl al l1 : list blk) (prev b : blk) (l2 f1 : list blk).
Hypothesis Hok : heap_ok base s fl al.
Hypothesis Ering : (base, 0) :: fl = l1 ++ prev :: b :: l2.
Hypothesis Ef1 : (base, 0) :: f1 = l1 ++ [prev].

Lemma take_chain : chain (heap s) l1 prev.1 /\ heap s prev.1 = Header b.1 prev.2
  /\ heap s b.1 = Header (first l2 base) b.2 /\ chain (heap s) l2 base.
Proof.
  pose proof (ho_chain _ _ _ _ Hok) as Hch. rewrite Ering in Hch.
  destruct (chain_split _ _ _ _ _ Hch) as (C1 & Eprev & Eb & C2). done.
Qed.

Lemma take_order : prev.1 < b.1 /\ (forall c, c ∈ l1 -> c.1 < prev.1) /\ (forall c, c ∈ l2 -> b.1 < c.1).
Proof.
  pose proof (spaced_ascending _ _ _ (ho_spaced _ _ _ _ Hok)) as Hasc. rewrite Ering in Hasc.
  apply ascending_app in Hasc as (_ & Hasc & Hlt). apply StronglySorted_inv in Hasc as [Hasc H1].
  apply StronglySorted_inv in Hasc as [_ H2]. rewrite Forall_forall in H1, H2.
  split_and!; [apply H1; by left| |done]. intros c Hc. apply Hlt; [done|by left].
Qed.

(** The list [l1 ++ prev :: m ++ l2] is the ring with [b] replaced. *)
Lemma take_ring m : (base, 0) :: f1 ++ m ++ l2 = l1 ++ prev :: m ++ l2.
Proof.
  change ((base, 0) :: f1 ++ m ++ l2) with (((base, 0) :: f1) ++ m ++ l2).
  rewrite Ef1, <- app_assoc. done.
Qed.

(** The whole block is taken. *)
Lemma take_exact : hadd b.1 1 = b.1 + HSIZE ->
  exists h', does (malloc_body b.2 (prev.1, b.1)) s (inr (b.1 + HSIZE))
      (s <|heap := h'|> <|freep := prev.1|>)
    /\ chain h' ((base, 0) :: f1 ++ [] ++ l2) base /\ s_size (h' b.1) = b.2
    /\ forall a, a <> prev.1 -> h' a = heap s a.
Proof.
  intros Hadd. destruct take_chain as (C1 & Eprev & Eb & C2).
  destruct take_order as (Hlt & Hl1 & Hl2).
  eexists. split; [|split_and!].
  - unfold malloc_body. dstep. rewrite Eb. cbn [s_size s_ptr]. rewrite Z.leb_refl, Z.eqb_refl.
    eapply does_bind; [dstep; apply does_ret|]. dstep. rewrite <- Hadd. apply does_ret.
  - rewrite take_ring. getset. apply chain_app. split; [|split].
    + apply (fchain_ext (heap s)); [|done]. intros c Hc. specialize (Hl1 c Hc).
      rewrite hset_other; [done|lia].
    + rewrite hset_same, Eprev. done.
    + apply (fchain_ext (heap s)); [|done]. intros c Hc. specialize (Hl2 c Hc).
      rewrite hset_other; [done|lia].
  - getset. rewrite hset_other, Eb by lia. done.
  - intros a Ha. getset. by rewrite hset_other.
Qed.

(** The last [n] units are taken. *)
Lemma take_split n : 0 < n < b.2 -> b.2 < two31 ->
  let k := b.2 - n in let x := b.1 + HSIZE * k in
  hadd b.1 k = x -> hadd x 1 = x + HSIZE -> (forall c, c ∈ (base, 0) :: fl -> c.1 <> x) ->
  exists h', does (malloc_body n (prev.1, b.1)) s (inr (x + HSIZE))
      (s <|heap := h'|> <|freep := prev.1|>)
    /\ chain h' ((base, 0) :: f1 ++ [(b.1, k)] ++ l2) base /\ s_size (h' x) = n
    /\ forall a, a <> b.1 -> a <> x -> h' a = heap s a.
Proof.
  intros Hn Hb2 k x Hk Hx Hfresh. destruct take_chain as (C1 & Eprev & Eb & C2).
  destruct take_order as (Hlt & Hl1 & Hl2).
  assert (forall c, c ∈ l1 ++ prev :: b :: l2 -> c.1 <> x) as Hf by (by rewrite <- Ering).
  pose proof (Hf b ltac:(set_solver)) as Hbx.
  set (h1 := hset b.1 (fun h => h <|s_size ::= fun z => u32 (z - n)|>) (heap s)).
  assert (h1 b.1 = Header (first l2 base) k) as E1.
  { unfold h1. rewrite hset_same, Eb. unfold upd. cbn.
    rewrite u32_small by (unfold two31, two32 in *; lia). done. }
  exists (hset x (fun h => h <|s_size := n|>) h1).
  assert (forall a, a <> b.1 -> a <> x -> hset x (fun h => h <|s_size := n|>) h1 a = heap s a) as Hkeep.
  { intros a Ha Ha'. unfold h1. by rewrite !hset_other. }
  split; [|split_and!; [| |done]].
  - unfold malloc_body. dstep. rewrite Eb. cbn [s_size s_ptr].
    rewrite (proj2 (Z.leb_le n b.2)), (proj2 (Z.eqb_neq b.2 n)) by lia.
    eapply does_bind; [|dstep; rewrite <- Hx; apply does_ret].
    do 2 dstep. getset. fold h1. rewrite E1. cbn [s_size]. rewrite Hk. dstep. apply does_ret.
  - rewrite take_ring. apply chain_app. split; [|split; [|split]].
    + apply (fchain_ext (heap s)); [|done]. intros c Hc. specialize (Hl1 c Hc).
      apply Hkeep; [lia|]. apply Hf. set_solver.
    + rewrite Hkeep; [done|lia|apply Hf; set_solver].
    + simpl. rewrite hset_other by done. exact E1.
    + apply (fchain_ext (heap s)); [|done]. intros c Hc. specialize (Hl2 c Hc).
      apply Hkeep; [lia|]. apply Hf. set_solver.
  - rewrite hset_same. done.
Qed.
End Take.

Lemma take_ok base s fl al l1 prev b l2 n :
  heap_ok base s fl al -> (base, 0) :: fl = l1 ++ prev :: b :: l2 -> 0 < n <= b.2 ->
  exists s' fl' x, does (malloc_body n (prev.1, b.1)) s (inr (x.1 + HSIZE)) s'
    /\ heap_ok base s' fl' (x :: al) /\ x.2 = n /\ total fl' + n = total fl
    /\ brk s' = brk s /\ limit s' = limit s.
Proof.
  intros Hok Ering Hn. destruct (ring_cons _ _ _ _ _ _ Ering) as (f1 & -> & Ef1).
  destruct (carve b n) as [m x] eqn:Em.
  destruct (carve_facts b n m x Hn Em) as (Hx2 & Hx & Htot & _).
  destruct (heap_ok_in _ _ _ _ b Hok ltac:(set_solver)) as (Hb1 & Hb2 & Hbend).
  destruct (ho_base _ _ _ _ Hok) as [Hbase _]. pose proof (ho_brk _ _ _ _ Hok) as Hbrk.
  pose proof (ho_chain _ _ _ _ Hok) as Hch. rewrite Ering in Hch.
  destruct (chain_split _ _ _ _ _ Hch) as (C1 & Eprev & C2). simpl in Eprev.
  destruct C2 as [Eb C2].
  assert (hadd x.1 1 = x.1 + HSIZE) as Hadd.
  { unfold hadd. apply u32_small. unfold inside, blk_end, HSIZE, two31, two32 in *. lia. }
  assert (exists h', does (malloc_body n (prev.1, b.1)) s (inr (x.1 + HSIZE))
      (s <|heap := h'|> <|freep := prev.1|>)
    /\ chain h' ((base, 0) :: f1 ++ m ++ l2) base /\ s_size (h' x.1) = n
    /\ forall y, y ∈ al -> s_size (h' y.1) = s_size (heap s y.1)) as (h' & D & C & Hs & Hl).
  { pose proof (carved_fresh base s f1 b l2 al n m x) as Hfresh.
    unfold carve in Em. destruct (Z.eqb_spec b.2 n) as [<-|E]; injection Em as <- <-.
    - destruct (take_exact base s _ al l1 prev b l2 f1 Hok Ering Ef1 Hadd) as (h' & D & C & Hs & Hk).
      exists h'. split_and!; try done. intros y Hy. rewrite Hk; [done|].
      apply (live_not_ring _ _ _ _ _ _ Hok Hy). rewrite Ering. set_solver.
    - destruct (take_split base s _ al l1 prev b l2 f1 Hok Ering Ef1 n) as (h' & D & C & Hs & Hk);
        try done; try (unfold blk_end, HSIZE, two31 in *; lia).
      + unfold hadd. apply u32_small. unfold blk_end, HSIZE, two31, two32 in *. lia.
      + intros c Hc. apply Hfresh; [done|lia|unfold carve; by rewrite (proj2 (Z.eqb_neq _ _) E)|done].
      + exists h'. split_and!; try done. intros y Hy. rewrite Hk; [done| |].
        * apply (live_not_ring _ _ _ _ _ _ Hok Hy). set_solver.
        * pose proof (ho_sep _ _ _ _ Hok y b Hy ltac:(set_solver)) as Hap.
          destruct (ho_live _ _ _ _ Hok y Hy) as (? & _).
          apply (inside_apart_r (b.1 + HSIZE * (b.2 - n), n)) in Hap; [|done].
          apply (apart_ne y (b.1 + HSIZE * (b.2 - n), n)); simpl; [done|done|lia]. }
  exists (s <|heap := h'|> <|freep := prev.1|>), (f1 ++ m ++ l2), x. split; [done|].
  split_and!; [|done| |done|done].
  - apply (heap_ok_carve base s f1 b l2 al h' prev n m x); try done.
    assert (prev ∈ (base, 0) :: f1) by (rewrite Ef1; set_solver). set_solver.
  - rewrite !total_app. simpl. lia.
Qed.

(** ** Extending the heap *)

Definition grow (n : Z) : Z := if n <? 4096 then 4096 else n.

(** The new memory, seen as a block that was handed out. *)
Lemma heap_ok_grow base s fl al nu h' :
  heap_ok base s fl al -> 0 < nu -> brk s + HSIZE * nu <= limit s ->
  (forall a, a <> brk s -> h' a = heap s a) -> s_size (h' (brk s)) = nu ->
  heap_ok base (s <|brk ::= fun b => b + HSIZE * nu|> <|heap := h'|>) fl ((brk s, nu) :: al).
Proof.
  intros Hok Hnu Hlim Hkeep Hsz. destruct (ho_base _ _ _ _ Hok) as [Hb Hb'].
  pose proof (ho_brk _ _ _ _ Hok) as Hbrk.
  assert (forall b, b ∈ fl -> b.1 < brk s /\ blk_end b <= brk s) as Hfl.
  { intros b Hx. destruct (heap_ok_in _ _ _ _ b Hok Hx) as (? & ? & ?).
    unfold blk_end, HSIZE in *. lia. }
  assert (forall b, b ∈ al -> b.1 < brk s /\ blk_end b <= brk s) as Hal.
  { intros b Hx. destruct (ho_live _ _ _ _ Hok b Hx) as (? & ? & ?).
    unfold blk_end, HSIZE in *. lia. }
  split; getset.
  - apply (fchain_ext (heap s)); [|apply Hok]. intros b Hin. apply Hkeep.
    apply elem_of_cons in Hin as [->|Hin]; [simpl; unfold HSIZE in *; lia|].
    specialize (Hfl b Hin). lia.
  - eapply spaced_hi; [apply Hok|]. unfold HSIZE. lia.
  - apply Hok.
  - intros b Hin. apply elem_of_app in Hin as [Hin|[->|Hin]%elem_of_cons];
      [apply Hok; set_solver|simpl; lia|apply Hok; set_solver].
  - intros b [->|Hin]%elem_of_cons; [unfold blk_end; simpl; split_and!; [lia|lia|done]|].
    destruct (Hal b Hin). rewrite Hkeep by lia. destruct (ho_live _ _ _ _ Hok b Hin) as (? & ? & ?).
    split_and!; [done|unfold HSIZE in *; lia|done].
  - intros b c [->|Hin]%elem_of_cons Hc; [|by apply Hok]. right. by apply Hfl.
  - intros b c Hin Hc Hne. apply elem_of_cons in Hin as [->|Hin]; apply elem_of_cons in Hc as [->|Hc];
      [done|right; by apply Hal|left; by apply Hal|by apply (ho_sep_live _ _ _ _ Hok)].
  - apply NoDup_cons. split; [|apply Hok]. intros Hin. specialize (Hal _ Hin). simpl in Hal. lia.
  - unfold HSIZE in *. lia.
  - lia.
Qed.

Lemma morecore_ok base s fl al n :
  heap_ok base s fl al -> 0 < n -> HSIZE * grow n < two31 ->
  (limit s < brk s + HSIZE * grow n /\ does (morecore n) s 0 s) \/
  exists s' fl', does (morecore n) s (freep s') s' /\ heap_ok base s' fl' al
    /\ total fl' = total fl + grow n /\ brk s' = brk s + HSIZE * grow n /\ limit s' = limit s
    /\ (exists x, x ∈ fl' /\ n <= x.2) /\ (length fl' <= S (length fl))%nat.
Proof.
  intros Hok Hn Hlt. unfold morecore. fold (grow n).
  assert (n <= grow n /\ 0 < grow n) as [Hg Hg0].
  { unfold grow. destruct (Z.ltb_spec n 4096); lia. }
  rewrite (Z.mul_comm (grow n)). rewrite u32_small, i32_small
    by (unfold HSIZE, two31, two32 in *; lia).
  destruct (ho_base _ _ _ _ Hok) as [Hb Hb']. pose proof (ho_brk _ _ _ _ Hok) as Hbrk.
  destruct (Z.ltb_spec (limit s) (brk s + HSIZE * grow n)) as [Hl|Hl].
  - left. split; [done|]. eapply (does_bind _ _ _ s _ (-1)); [|apply does_ret].
    unfold sbrk. dstep. unfold id. rewrite (proj2 (Z.ltb_lt _ _) Hl). apply does_ret.
  - right. set (h' := hset (brk s) (fun h => h <|s_size := grow n|>) (heap s)).
    destruct (free_heap_ok base (s <|brk ::= fun b => b + HSIZE * grow n|> <|heap := h'|>) fl
      ((brk s, grow n) :: al) (brk s, grow n) al) as (s' & fl' & D & Hok' & Ht & E1 & E2 & (x & Hx & Hx2) & Hlen).
    { apply heap_ok_grow; try done.
      - intros a Ha. unfold h'. by rewrite hset_other.
      - unfold h'. by rewrite hset_same. }
    { done. }
    exists s', fl'. split_and!; try done; [|exists x; split; [done|simpl in Hx2; lia]].
    eapply does_bind; [unfold sbrk; dstep; unfold id; rewrite (proj2 (Z.ltb_ge _ _) Hl);
      dstep; apply does_ret|].
    rewrite (proj2 (Z.eqb_neq (brk s) (-1))) by (unfold HSIZE in *; lia).
    dstep. eapply does_bind; [|apply does_gets]. unfold hadd. rewrite Z.mul_1_r. exact D.
Qed.

(** ** The search for a free block *)

Section Scan.
Context (base : Z) (s : um) (fl al : list blk) (n : Z) (Hok : heap_ok base s fl al).

Lemma skip_small b prevp : b ∈ (base, 0) :: fl -> b.2 < n -> b.1 <> freep s ->
  does (malloc_body n (prevp, b.1)) s (inl (b.1, s_ptr (heap s b.1))) s.
Proof.
  intros Hin Hlt Hne. assert (s_size (heap s b.1) = b.2) as Es.
  { pose proof (ho_chain _ _ _ _ Hok) as Hch. apply list_elem_of_split in Hin as (l1 & l2 & E).
    rewrite E in Hch. apply chain_split in Hch as (_ & -> & _). done. }
  unfold malloc_body. dstep. rewrite Es, (proj2 (Z.leb_gt n b.2)) by done.
  dstep. rewrite (proj2 (Z.eqb_neq _ _) Hne). unfold advance. dstep. apply does_ret.
Qed.

(** The loop skips the small blocks [r1] and gets to [b]. *)
Lemma scan_to b r2 e : forall r1 prev,
  chain (heap s) (prev :: r1 ++ b :: r2) e -> prev ∈ (base, 0) :: fl ->
  (forall c, c ∈ r1 -> c ∈ (base, 0) :: fl /\ c.2 < n /\ c.1 <> freep s) ->
  exists p, p ∈ (base, 0) :: fl /\ s_ptr (heap s p.1) = b.1 /\
    forall r s' m, does (loop m (malloc_body n) (p.1, b.1)) s r s' ->
    does (loop (length r1 + m) (malloc_body n) (prev.1, s_ptr (heap s prev.1))) s r s'.
Proof.
  induction r1 as [|c r1 IH]; intros prev Hch Hprev Hr1; destruct Hch as [E Hch].
  - exists prev. rewrite E. by split_and!.
  - destruct (Hr1 c ltac:(by left)) as (Hc & Hc2 & Hcf).
    destruct (IH c Hch Hc ltac:(intros x Hx; apply Hr1; by right)) as (p & Hp & Ep & Hgo).
    exists p. split_and!; try done. intros r s' m Hm. rewrite E.
    eapply does_loop_more; [by apply skip_small|]. by apply Hgo.
Qed.

(** Predecessors in the ring are unique. *)
Lemma ring_pred p b : p ∈ (base, 0) :: fl -> b ∈ fl -> s_ptr (heap s p.1) = b.1 ->
  exists l1 l2, (base, 0) :: fl = l1 ++ p :: b :: l2.
Proof.
  intros Hp Hb E. pose proof (ho_chain _ _ _ _ Hok) as Hch.
  apply list_elem_of_split in Hp as (l1 & l2 & El). rewrite El in Hch.
  apply chain_split in Hch as (_ & Ep & _). rewrite Ep in E. simpl in E.
  destruct (heap_ok_in _ _ _ _ b Hok Hb) as (Hlt & _).
  destruct l2 as [|c l2]; simpl in E; [lia|]. exists l1, l2. rewrite El. do 3 f_equal.
  apply (ring_inj _ _ _ _ _ _ Hok); [rewrite El; set_solver|by right|done].
Qed.

(** The ring, read from the block behind [c] to [c]. *)
Lemma rotate l1 c l2 : (base, 0) :: fl = l1 ++ c :: l2 ->
  chain (heap s) (c :: (l2 ++ l1) ++ [c]) (first l2 base).
Proof.
  intros E. pose proof (ho_chain _ _ _ _ Hok) as Hch. rewrite E in Hch.
  destruct (chain_split _ _ _ _ _ Hch) as (C1 & Ec & C2).
  assert (first (l1 ++ [c]) base = base) as Ef.
  { transitivity (first (l1 ++ c :: l2) base); [by destruct l1|]. by rewrite <- E. }
  simpl. split.
  - rewrite Ec, <- app_assoc, first_app. f_equal. destruct l2 as [|x l2]; [|done].
    simpl. by destruct l1 as [|x l1]; simpl in *; rewrite Ef.
  - apply chain_app. split; [|simpl; by rewrite Ec]. apply chain_app. simpl. split; [|done].
    destruct l1 as [|x l1]; simpl in *; by rewrite Ef.
Qed.

Lemma rotate_in l1 c l2 x : (base, 0) :: fl = l1 ++ c :: l2 -> freep s = c.1 ->
  x ∈ l2 ++ l1 -> x ∈ (base, 0) :: fl /\ x.1 <> freep s.
Proof.
  intros E Ef Hx. assert (x ∈ (base, 0) :: fl) as Hin by (rewrite E; set_solver).
  split; [done|]. rewrite Ef. intros Ex.
  pose proof (spaced_ascending _ _ _ (ho_spaced _ _ _ _ Hok)) as Hasc. rewrite E in Hasc.
  apply ascending_app in Hasc as (_ & Hasc & Hlt). apply StronglySorted_inv in Hasc as [_ Hall].
  rewrite Forall_forall in Hall. apply elem_of_app in Hx as [Hx|Hx].
  - specialize (Hall x Hx). simpl in Hall. lia.
  - specialize (Hlt x c Hx ltac:(by left)). lia.
Qed.

(** When some block is large enough, one is found in a single turn. *)
Lemma scan_found c m : c ∈ (base, 0) :: fl -> freep s = c.1 -> 0 < n ->
  (exists x, x ∈ fl /\ n <= x.2) -> (S (length fl) <= m)%nat ->
  exists s' fl' x,
    does (loop m (malloc_body n) (c.1, s_ptr (heap s c.1))) s (x.1 + HSIZE) s'
    /\ heap_ok base s' fl' (x :: al) /\ x.2 = n /\ total fl' + n = total fl
    /\ brk s' = brk s /\ limit s' = limit s.
Proof.
  intros Hc Ef Hn (x & Hx & Hxn) Hm. apply list_elem_of_split in Hc as (l1 & l2 & E).
  pose proof (rotate _ _ _ E) as Hch.
  assert (x ∈ (l2 ++ l1) ++ [c]) as Hx'.
  { assert (x ∈ l1 ++ c :: l2) by (rewrite <- E; by right). set_solver. }
  destruct (list_find (fun b => n <= b.2) ((l2 ++ l1) ++ [c])) as [[k b]|] eqn:Ek.
  2: { apply list_find_None in Ek. rewrite Forall_forall in Ek. by apply Ek in Hx'. }
  apply list_find_Some in Ek as (Hk & Hb & Hsmall).
  pose proof (take_drop_middle _ _ _ Hk) as Er. set (r1 := take k _) in Er.
  set (r2 := drop (S k) _) in Er. rewrite <- Er in Hch.
  assert (r1 ⊆ l2 ++ l1) as Hsub.
  { destruct r2 as [|z r2 _] using rev_ind.
    - apply app_inj_tail in Er as [-> _]. done.
    - rewrite app_comm_cons, app_assoc in Er. apply app_inj_tail in Er as [<- _]. set_solver. }
  destruct (scan_to b r2 _ r1 c Hch) as (p & Hp & Ep & Hgo); [rewrite E; set_solver| |].
  { intros y Hy. destruct (rotate_in _ _ _ y E Ef (Hsub y Hy)). split_and!; [done| |done].
    apply list_elem_of_lookup in Hy as [i Hi]. unfold r1 in Hi. apply lookup_take_Some in Hi as [Hi Hlt].
    specialize (Hsmall i y Hi Hlt). lia. }
  assert (b ∈ fl) as Hbfl.
  { apply list_elem_of_lookup_2 in Hk. assert (b ∈ (base, 0) :: fl) as Hb' by (rewrite E; set_solver).
    apply elem_of_cons in Hb' as [->|?]; [simpl in Hb; lia|done]. }
  destruct (ring_pred p b Hp Hbfl Ep) as (q1 & q2 & Eq).
  destruct (take_ok base s fl al q1 p b q2 n Hok Eq ltac:(lia)) as (s' & fl' & y & D & Hrest).
  exists s', fl', y. split; [|done].
  assert (length r1 <= length fl)%nat as Hlen.
  { apply (f_equal length) in E. apply (f_equal length) in Er.
    rewrite !length_app in *. simpl in *. lia. }
  replace m with (length r1 + S (m - length r1 - 1))%nat by lia.
  apply Hgo. by apply does_loop_stop.
Qed.

(** When none is, the loop comes to [freep] and asks for more memory. *)
Lemma scan_none c m r s' : c ∈ (base, 0) :: fl -> freep s = c.1 ->
  (forall x, x ∈ (base, 0) :: fl -> x.2 < n) ->
  (forall p, does (loop m (malloc_body n) (p, c.1)) s r s') ->
  does (loop (length fl + m) (malloc_body n) (c.1, s_ptr (heap s c.1))) s r s'.
Proof.
  intros Hc Ef Hsmall Hgo. apply list_elem_of_split in Hc as (l1 & l2 & E).
  destruct (scan_to c [] _ (l2 ++ l1) c (rotate _ _ _ E)) as (p & _ & _ & Hp);
    [rewrite E; set_solver| |].
  { intros y Hy. destruct (rotate_in _ _ _ y E Ef Hy). split_and!; [done|by apply Hsmall|done]. }
  replace (length fl) with (length (l2 ++ l1)); [apply Hp, Hgo|].
  apply (f_equal length) in E. rewrite !length_app in *. simpl in *. lia.
Qed.
End Scan.

(** ** malloc and free *)

(** Before the first call: the free list does not exist yet. *)
Definition fresh (base : Z) (s : um) : Prop :=
  freep s = 0 /\ 0 < base /\ base + HSIZE <= brk s <= limit s /\ limit s < two31.

(** The blocks [al] are handed out, and no memory is lost: all of the heap
    above [k] is in a free block or in a block of [al]. *)
Definition client (base k : Z) (s : um) (al : list blk) : Prop :=
  (fresh base s /\ al = [] /\ brk s = k) \/
  exists fl, heap_ok base s fl al /\ HSIZE * (total fl + total al) + k = brk s.

Lemma units_spec nb : 0 <= nb < two31 - 16 ->
  0 < units nb /\ nb <= HSIZE * (units nb - 1) /\ HSIZE * grow (units nb) < two31.
Proof.
  intros H. unfold units, grow. rewrite (u32_small (nb + HSIZE)), (u32_small (nb + HSIZE - 1))
    by (unfold HSIZE, two31, two32 in *; lia).
  pose proof (Z.div_mod (nb + HSIZE - 1) HSIZE ltac:(done)).
  pose proof (Z.mod_pos_bound (nb + HSIZE - 1) HSIZE ltac:(done)).
  rewrite u32_small by (unfold HSIZE, two31, two32 in *; lia).
  destruct (Z.ltb_spec ((nb + HSIZE - 1) / HSIZE + 1) 4096); unfold HSIZE, two31 in *; lia.
Qed.

Lemma heap_ok_init base s h' : fresh base s -> h' base = Header base 0 ->
  heap_ok base (s <|freep := base|> <|heap := h'|>) [] [].
Proof.
  intros (Hf & Hb & Hbrk & Hlim) Eh. split; getset; try by intros ? ?%not_elem_of_nil.
  - simpl. by rewrite Eh.
  - simpl. unfold HSIZE in *. lia.
  - exists (base, 0). split; [by left|done].
  - by intros ? ? ?%not_elem_of_nil.
  - by intros ? ? ?%not_elem_of_nil.
  - constructor.
  - unfold HSIZE in *. lia.
  - lia.
Qed.

(** The loop of [malloc], started at [freep]. *)
Lemma malloc_loop base s fl al n m :
  heap_ok base s fl al -> 0 < n -> HSIZE * grow n < two31 -> (2 * length fl + 4 <= m)%nat ->
  exists s' fl' r, does (loop m (malloc_body n) (freep s, s_ptr (heap s (freep s)))) s r s'
    /\ (r = 0 /\ heap_ok base s' fl' al /\ limit s < brk s + HSIZE * grow n /\ s' = s /\ fl' = fl
        \/ exists b, r = b.1 + HSIZE /\ b.2 = n /\ heap_ok base s' fl' (b :: al)
           /\ HSIZE * (total fl' + n) - brk s' = HSIZE * total fl - brk s).
Proof.
  intros Hok Hn Hg Hm. destruct (ho_freep _ _ _ _ Hok) as (c & Hc & Ef). rewrite Ef.
  destruct (decide (Exists (fun x => n <= x.2) fl)) as [Hex|Hnone].
  { apply Exists_exists in Hex as (x & Hx & Hxn).
    destruct (scan_found base s fl al n Hok c m Hc Ef Hn) as (s' & fl' & b & D & Hok' & Hb & Ht & Eb & El);
      [by exists x|lia|].
    exists s', fl', (b.1 + HSIZE). split; [done|]. right. exists b. split_and!; try done.
    rewrite Eb, Ht. lia. }
  assert (forall x, x ∈ (base, 0) :: fl -> x.2 < n) as Hsmall.
  { intros x [->|Hx]%elem_of_cons; [done|]. apply Z.nle_gt. intros Hle. apply Hnone.
    apply Exists_exists. by exists x. }
  assert (s_size (heap s c.1) = c.2) as Ec.
  { pose proof (ho_chain _ _ _ _ Hok) as Hch. apply list_elem_of_split in Hc as (l1 & l2 & E).
    rewrite E in Hch. apply chain_split in Hch as (_ & -> & _). done. }
  replace m with (length fl + S (m - length fl - 1))%nat by lia.
  assert (forall p R, (forall v s1, does (morecore n) s v s1 ->
      does (if v =? 0 then ret (inr 0) else advance v) s1 R.1 R.2 ->
      does (malloc_body n (p, c.1)) s R.1 R.2)) as Hbody.
  { intros p R v s1 D1 D2. unfold malloc_body. dstep. rewrite Ec.
    rewrite (proj2 (Z.leb_gt n c.2)) by by apply Hsmall. dstep. rewrite Ef, Z.eqb_refl.
    eapply does_bind; [exact D1|exact D2]. }
  destruct (morecore_ok base s fl al n Hok Hn Hg)
    as [[Hl D]|(s1 & fl1 & D & Hok1 & Ht1 & Eb1 & El1 & Hex & Hlen)].
  - exists s, fl, 0. split; [|by left]. apply (scan_none base s fl al n Hok); try done. intros p.
    apply does_loop_stop. apply (Hbody p (inr 0, s) _ _ D). apply does_ret.
  - destruct (ho_freep _ _ _ _ Hok1) as (c1 & Hc1 & Ef1).
    destruct (scan_found base s1 fl1 al n Hok1 c1 (m - length fl - 1) Hc1 Ef1 Hn Hex)
      as (s' & fl' & b & D' & Hok' & Hb & Ht & Eb & El); [lia|].
    exists s', fl', (b.1 + HSIZE). split.
    + apply (scan_none base s fl al n Hok); try done. intros p.
      eapply does_loop_more; [|exact D'].
      apply (Hbody p (inl (c1.1, s_ptr (heap s1 c1.1)), s1) _ _ D). simpl.
      assert (0 < c1.1) as Hpos.
      { destruct (ho_base _ _ _ _ Hok1). apply elem_of_cons in Hc1 as [->|Hc1]; [done|].
        destruct (heap_ok_in _ _ _ _ c1 Hok1 Hc1). lia. }
      rewrite Ef1, (proj2 (Z.eqb_neq c1.1 0)) by lia. unfold advance. dstep. apply does_ret.
    + right. exists b. split_and!; try done. rewrite Eb, Eb1, Ht, Ht1. lia.
Qed.

Lemma malloc_client base k s al nb : client base k s al -> 0 <= nb < two31 - 16 ->
  exists r s', does (malloc base nb) s r s' /\
    (r = 0 /\ client base k s' al /\ limit s < brk s + HSIZE * grow (units nb) \/
     exists b, r = b.1 + HSIZE /\ b.2 = units nb /\ client base k s' (b :: al)).
Proof.
  intros Hc Hnb. destruct (units_spec nb Hnb) as (Hn & _ & Hg).
  assert (exists s1 fl, (forall r s', does (h <- hget (freep s1);; n <- rounds;;
        loop n (malloc_body (units nb)) (freep s1, s_ptr h)) s1 r s' -> does (malloc base nb) s r s')
      /\ heap_ok base s1 fl al /\ HSIZE * (total fl + total al) + k = brk s1
      /\ brk s1 = brk s /\ limit s1 = limit s) as (s1 & fl & Hgo & Hok & Hk & Eb & El).
  { destruct Hc as [(Hf & -> & Ek)|(fl & Hok & Ek)].
    - set (h' := hset base (fun h => h <|s_size := 0|>) (hset base (fun h => h <|s_ptr := base|>) (heap s))).
      exists (s <|freep := base|> <|heap := h'|>), []. split_and!; try done; [|].
      + intros r s' D. unfold malloc. dstep. destruct Hf as (-> & _).
        change (0 =? 0) with true. cbv iota. eapply does_bind; [|exact D]. do 3 dstep. apply does_ret.
      + apply heap_ok_init; [done|]. unfold h'. by rewrite !hset_same.
    - exists s, fl. split_and!; try done. intros r s' D. unfold malloc. dstep.
      destruct (ho_freep _ _ _ _ Hok) as (c & Hc & Ef).
      assert (freep s <> 0) as Hne.
      { rewrite Ef. destruct (ho_base _ _ _ _ Hok). apply elem_of_cons in Hc as [->|Hc]; [simpl; lia|].
        destruct (heap_ok_in _ _ _ _ c Hok Hc). lia. }
      rewrite (proj2 (Z.eqb_neq _ _) Hne). eapply does_bind; [apply does_ret|exact D]. }
  destruct (ho_base _ _ _ _ Hok) as [Hbase _].
  pose proof (ring_rounds base fl (brk s1) Hbase (ho_spaced _ _ _ _ Hok)).
  destruct (malloc_loop base s1 fl al (units nb) (2 * Z.to_nat (brk s1 / HSIZE) + 8) Hok Hn Hg)
    as (s' & fl' & r & D & Hr); [lia|].
  exists r, s'. split; [apply Hgo; do 2 dstep; exact D|].
  destruct Hr as [(-> & Hok' & Hlim & -> & ->)|(b & -> & Hb & Hok' & Ht)].
  - left. split_and!; [done|right; by exists fl|congruence].
  - right. exists b. split_and!; try done. right. exists fl'. split; [done|]. simpl.
    unfold HSIZE in *. lia.
Qed.

Lemma free_client base k s al b al' : client base k s al -> al ≡ₚ b :: al' ->
  exists s', does (free (u32 (b.1 + HSIZE))) s tt s' /\ client base k s' al'.
Proof.
  intros [(_ & -> & _)|(fl & Hok & Hk)] Hal; [by apply Permutation_nil_l in Hal|].
  destruct (free_heap_ok base s fl al b al' Hok Hal) as (s' & fl' & D & Hok' & Ht & Eb & El & _).
  exists s'. split; [done|]. right. exists fl'. split; [done|].
  assert (total al = b.2 + total al') as Ea.
  { transitivity (total (b :: al')); [|done]. clear -Hal. induction Hal; simpl; lia. }
  rewrite Eb, Ht. lia.
Qed.

(** The client's own writes, which stay behind the headers of its blocks. *)
Definition own_writes (s : um) (al : list blk) (h' : Z -> header) : Prop :=
  forall a, (forall b, b ∈ al -> ~ b.1 < a < blk_end b) -> h' a = heap s a.

Lemma write_client base k s al h' : client base k s al -> own_writes s al h' ->
  client base k (s <|heap := h'|>) al.
Proof.
  intros [(Hf & -> & Hk)|(fl & Hok & Hk)] Hw; [left; by split_and!|].
  right. exists fl. split; [|done].
  assert (forall c, c ∈ (base, 0) :: fl -> h' c.1 = heap s c.1) as Hring.
  { intros c Hc. apply Hw. intros b Hb. apply elem_of_cons in Hc as [->|Hc].
    - pose proof (ho_low _ _ _ _ Hok b ltac:(set_solver)). simpl. unfold HSIZE in *. lia.
    - pose proof (ho_sep _ _ _ _ Hok b c Hb Hc) as Hap.
      destruct (heap_ok_in _ _ _ _ c Hok Hc) as (_ & ? & _).
      unfold apart, blk_end, HSIZE in *. lia. }
  assert (forall c, c ∈ al -> h' c.1 = heap s c.1) as Hal.
  { intros c Hc. apply Hw. intros b Hb. destruct (decide (b = c)) as [->|Hne]; [lia|].
    pose proof (ho_sep_live _ _ _ _ Hok b c Hb Hc Hne) as Hap.
    destruct (ho_live _ _ _ _ Hok c Hc) as (? & _). unfold apart, blk_end, HSIZE in *. lia. }
  split; getset; try apply Hok.
  - apply (fchain_ext (heap s)); [done|apply Hok].
  - intros b Hb. rewrite Hal by done. by apply Hok.
Qed.

(** ** Clients

    A program that calls [malloc] and [free] and writes to its own memory: the
    state of the allocator and the blocks the program holds.  A request is for
    fewer than 2^31 - 16 bytes: from there on the size in bytes, header
    included, is not an [int] that [sbrk] takes as a growth, see [malloc_beyond]
    and [malloc_wraps]. *)
Inductive ustep (base : Z) : um * list blk -> um * list blk -> Prop :=
| us_malloc s al nb r s' : 0 <= nb < two31 - 16 -> does (malloc base nb) s r s' ->
    ustep base (s, al) (s', if r =? 0 then al else (r - HSIZE, units nb) :: al)
| us_free s al b al' s' : al ≡ₚ b :: al' -> does (free (u32 (b.1 + HSIZE))) s tt s' ->
    ustep base (s, al) (s', al')
| us_write s al h' : own_writes s al h' -> ustep base (s, al) (s <|heap := h'|>, al).

Lemma does_det {A} (m : M um A) s a s' b s'' : does m s a s' -> does m s b s'' -> a = b /\ s' = s''.
Proof. intros H1 H2. specialize (H1 [] []). rewrite H2 in H1. by injection H1. Qed.

Lemma client_step base k s al s' al' : client base k s al -> ustep base (s, al) (s', al') ->
  client base k s' al'.
Proof.
  intros Hc Hstep. inversion Hstep as [? ? nb r ? Hnb D'|? ? b ? ? Hal D'|? ? h' Hw]; subst.
  - destruct (malloc_client base k s al nb Hc Hnb) as (r' & s1 & D & Hr).
    destruct (does_det _ _ _ _ _ _ D D') as [<- <-].
    destruct Hr as [(-> & Hc' & _)|(b & -> & Hb & Hc')]; [done|].
    assert (b.1 + HSIZE <> 0) as Hne.
    { destruct Hc' as [(_ & ? & _)|(fl & Hok & _)]; [done|].
      pose proof (ho_low _ _ _ _ Hok b ltac:(set_solver)). destruct (ho_base _ _ _ _ Hok).
      unfold HSIZE in *. lia. }
    rewrite (proj2 (Z.eqb_neq _ _) Hne), Z.add_simpl_r, <- Hb. by destruct b.
  - destruct (free_client base k s al b al' Hc Hal) as (s1 & D & Hc').
    by destruct (does_det _ _ _ _ _ _ D D') as [_ <-].
  - by apply write_client.
Qed.

Lemma client_reach base s0 s al : fresh base s0 -> rtc (ustep base) (s0, []) (s, al) ->
  client base (brk s0) s al.
Proof.
  intros Hf Hr. remember (s0, []) as x eqn:Ex. remember (s, al) as y eqn:Ey.
  assert (client base (brk s0) x.1 x.2) as Hc by (subst; left; by split_and!).
  clear Ex. revert s al Ey. induction Hr as [x|[s1 al1] [s2 al2] z Hstep _ IH]; intros s al ->; [done|].
  apply (IH (client_step base _ s1 al1 s2 al2 Hc Hstep)). done.
Qed.

(** C10: The allocator keeps its clients apart.  After any sequence of calls to
    [malloc], each for fewer than 2^31 - 16 bytes, and [free], and of writes of
    the program to its own blocks, the blocks it holds do not overlap each other nor the static header, they lie in the
    heap, and no memory is lost: what the program does not hold is on the free
    list. *)
Theorem malloc_separates base s0 s al :
  fresh base s0 -> rtc (ustep base) (s0, []) (s, al) ->
  NoDup al /\ (forall b c, b ∈ al -> c ∈ al -> b <> c -> apart b c) /\
  (forall b, b ∈ al -> base + HSIZE <= b.1 /\ 0 < b.2 /\ blk_end b <= brk s) /\
  exists fl, HSIZE * (total fl + total al) = brk s - brk s0 /\
    (freep s <> 0 -> chain (heap s) ((base, 0) :: fl) base /\ spaced base fl (brk s)).
Proof.
  intros Hf Hr. destruct (client_reach base s0 s al Hf Hr) as [(Hfr & -> & Hk)|(fl & Hok & Hk)].
  - split; [constructor|]. split; [by intros ? ? ?%not_elem_of_nil|].
    split; [by intros ? ?%not_elem_of_nil|]. exists []. split; [simpl; lia|].
    destruct Hfr as (? & _). done.
  - split; [apply Hok|]. split; [apply Hok|]. split.
    + intros b Hb. pose proof (ho_low _ _ _ _ Hok b ltac:(set_solver)).
      by destruct (ho_live _ _ _ _ Hok b Hb) as (? & ? & _).
    + exists fl. split; [lia|]. intros _. split; apply Hok.
Qed.

(** C11: As long as every request is for fewer than 2^31 - 16 bytes, [malloc] and
    [free] return, whatever calls came before: the searches end.  [malloc]
    gives a block with room for the bytes asked for that overlaps no other, or
    0, and 0 only when the heap cannot be extended. *)
Theorem malloc_returns base s0 s al nb :
  fresh base s0 -> rtc (ustep base) (s0, []) (s, al) -> 0 <= nb < two31 - 16 ->
  (exists r s', does (malloc base nb) s r s' /\
     (r = 0 /\ limit s < brk s + HSIZE * grow (units nb) \/
      exists b, r = b.1 + HSIZE /\ nb <= HSIZE * (b.2 - 1) /\ forall c, c ∈ al -> apart b c)) /\
  (forall b, b ∈ al -> exists s', does (free (u32 (b.1 + HSIZE))) s tt s').
Proof.
  intros Hf Hr Hnb. pose proof (client_reach base s0 s al Hf Hr) as Hc. split.
  - destruct (malloc_client base _ s al nb Hc Hnb) as (r & s' & D & Hcase).
    exists r, s'. split; [done|]. destruct Hcase as [(? & _ & ?)|(b & -> & Hb & Hc')]; [by left|].
    right. exists b. split; [done|]. rewrite Hb. split; [by apply units_spec|].
    destruct Hc' as [(_ & ? & _)|(fl & Hok & _)]; [done|]. intros c Hin.
    apply (ho_sep_live _ _ _ _ Hok); [by left|by right|]. intros ->.
    pose proof (ho_nodup _ _ _ _ Hok) as Hnd. by apply NoDup_cons in Hnd as [? _].
  - intros b Hb. apply list_elem_of_split in Hb as (l1 & l2 & ->).
    destruct (free_client base _ s _ b (l1 ++ l2) Hc) as (s' & D & _); [|by exists s'].
    symmetry. apply Permutation_middle.
Qed.

(** A heap that starts at address 2000. *)
Definition ex_heap : um := Um (fun _ => Header 0 0) 0 2000 100000.

Lemma ex_fresh : fresh 1000 ex_heap.
Proof. unfold fresh, HSIZE, two31. simpl. lia. Qed.

(** One block of 16 bytes *)
Lemma ex_step : exists s b, ustep 1000 (ex_heap, []) (s, [b]).
Proof.
  destruct (malloc_client 1000 2000 ex_heap [] 16) as (r & s & D & Hr);
    [left; split_and!; [apply ex_fresh|done..]|unfold two31; lia|].
  destruct Hr as [(_ & _ & Hlim)|(b & -> & Hb & Hc)]; [by vm_compute in Hlim|].
  exists s, b. pose proof (us_malloc 1000 ex_heap [] 16 _ s ltac:(unfold two31; lia) D) as Hstep.
  destruct Hc as [(_ & ? & _)|(fl & Hok & _)]; [done|].
  pose proof (ho_low _ _ _ _ Hok b ltac:(set_solver)) as Hlow. unfold HSIZE in Hlow.
  rewrite (proj2 (Z.eqb_neq (b.1 + HSIZE) 0)), Z.add_simpl_r, <- Hb in Hstep
    by (unfold HSIZE; lia).
  by destruct b.
Qed.

Lemma malloc_separates_witness : exists s b, rtc (ustep 1000) (ex_heap, []) (s, [b]) /\
  (forall c, c ∈ [b] -> 1000 + HSIZE <= c.1 /\ 0 < c.2 /\ blk_end c <= brk s).
Proof.
  destruct ex_step as (s & b & Hs). exists s, b. assert (rtc (ustep 1000) (ex_heap, []) (s, [b])) as Hr.
  { by apply rtc_once. }
  split; [exact Hr|]. apply (malloc_separates 1000 ex_heap s [b] ex_fresh Hr).
Defined.

Lemma malloc_returns_witness : exists s b, rtc (ustep 1000) (ex_heap, []) (s, [b]) /\
  (exists r s', does (malloc 1000 100) s r s') /\
  exists s', does (free (u32 (b.1 + HSIZE))) s tt s'.
Proof.
  destruct ex_step as (s & b & Hs). exists s, b. assert (rtc (ustep 1000) (ex_heap, []) (s, [b])) as Hr.
  { by apply rtc_once. }
  split; [exact Hr|].
  destruct (malloc_returns 1000 ex_heap s [b] 100 ex_fresh Hr) as [(r & s' & D & _) Hfree];
    [unfold two31; lia|]. split; [by exists r, s'|]. apply Hfree. by left.
Defined.

Lemma units_wraps nb : two32 - HSIZE < nb < two32 -> units nb = 1.
Proof.
  intros H. unfold units, two32, HSIZE in *.
  assert (u32 (nb + 8) = nb + 8 - 4294967296) as ->.
  { unfold u32, two32. rewrite <- (Z.mod_add (nb + 8) (-1)), Z.mod_small by lia. lia. }
  rewrite (u32_small (nb + 8 - 4294967296 - 1)) by (unfold two32; lia).
  rewrite Z.div_small by lia. reflexivity.
Qed.

(** C40: The size computation of [malloc] wraps around: a request for nearly all
    of memory is served like a request for no bytes at all, and the caller
    gets a block without any room. *)
Theorem malloc_wraps base nb : two32 - HSIZE < nb < two32 -> malloc base nb = malloc base 0.
Proof. intros H. unfold malloc. rewrite (units_wraps nb H). reflexivity. Qed.

Lemma malloc_wraps_witness : malloc 1000 0xffffffff = malloc 1000 0.
Proof. apply (malloc_wraps 1000 0xffffffff). unfold two32, HSIZE. lia. Defined.

(** Why requests have a bound: for 2^32 - 8 bytes [morecore] multiplies the
    number of headers to 0 bytes, [sbrk(0)] succeeds, and the block handed out
    has its memory, all of it, beyond the end of the heap. *)
Lemma malloc_beyond :
  let w := malloc 1000 0xfffffff8 (World ex_heap [] []) in
  fst w = Ret 2008 /\ brk (now (snd w)) = brk ex_heap /\ brk ex_heap = 2000 /\
  s_size (heap (now (snd w)) 2000) = 0x20000000.
Proof. vm_compute. split_and!; reflexivity. Qed.
