(* ===== verification/Uproc.v ===== *)
(** * User programs as trees of system calls

    A user program is a tree: at each node it makes a system call and goes on
    with the reply, a number and the bytes that the call delivered to the
    program's memory.  [fork] replies twice.  The programs are finite trees;
    loops whose end is up to the kernel take their number of rounds as fuel.

    [pexec] runs a tree of processes with the descriptor tables that the
    system calls keep: [open], [dup] and [pipe] take the lowest free
    descriptors, [fork] copies the table, [exec] keeps it. *)

From S2P Require Import Prelude Params CString Printk Ulib.

Inductive call : Set :=
| CFork | CWait | CPipe
| CClose (fd : Z) | CDup (fd : Z)
| COpen (path : list Z) (mode : Z)
| CExec (path : list Z) (argv : list (list Z))
| CRead (fd n : Z) | CWrite (fd : Z) (bs : list Z)
| CFstat (fd : Z)
| CChdir (path : list Z) | CMkdir (path : list Z) | CMknod (path : list Z) (major minor : Z)
| CLink (old new : list Z) | CUnlink (path : list Z)
| CKill (pid : Z) | CSleep (n : Z).

Definition reply : Set := Z * list Z.

Inductive prog (A : Type) : Type :=
| Done (a : A)
| Halt
| Call (c : call) (k : reply -> prog A).
Arguments Done {A} a.
Arguments Halt {A}.
Arguments Call {A} c k.

Fixpoint pbind {A B} (p : prog A) (f : A -> prog B) : prog B :=
  match p with
  | Done a => f a
  | Halt => Halt
  | Call c k => Call c (fun r => pbind (k r) f)
  end.

Declare Scope prog_scope.
Delimit Scope prog_scope with prog.
Notation "x <- p ;; q" := (pbind p (fun x => q))
  (at level 100, p at next level, right associativity) : prog_scope.
Notation "p ;; q" := (pbind p (fun _ => q)) (at level 100, right associativity) : prog_scope.
Open Scope prog_scope.

(** A call whose number is the reply, and one whose bytes matter *)
Definition sys (c : call) : prog Z := Call c (fun r => Done r.1).
Definition sys2 (c : call) : prog (Z * list Z) := Call c Done.

Definition pwhen (b : bool) (p : prog unit) : prog unit := if b then p else Done tt.
Fixpoint pfor {X} (l : list X) (f : X -> prog unit) : prog unit :=
  match l with
  | [] => Done tt
  | x :: l => f x;; pfor l f
  end.

(** A loop with a bound on its rounds; without rounds left the tree ends. *)
Fixpoint ploop {X B} (fuel : nat) (body : X -> prog (X + B)) (x : X) : prog B :=
  match fuel with
  | O => Halt
  | S n => r <- body x;; match r with inl x' => ploop n body x' | inr b => Done b end
  end.

(** [printf(fd, ...)]: one [write] per character *)
Definition put_chars (fd : Z) (cs : list Z) : prog unit := pfor cs (fun c => sys (CWrite fd [c]);; Done tt).
Definition uprintf (fd : Z) (fmt : list Z) (args : list parg) : prog unit :=
  match printf false (fmt ++ [0]) args with
  | Some cs => put_chars fd cs
  | None => Halt
  end.

(** ** Trees that never return *)

Inductive never {A} : prog A -> Prop :=
| never_halt : never Halt
| never_call c k : (forall r, never (k r)) -> never (Call c k).

Lemma never_bind {A B} (p : prog A) (f : A -> prog B) : never p -> never (pbind p f).
Proof. induction 1; simpl; by constructor. Qed.
Lemma never_then {A B} (p : prog A) (f : A -> prog B) : (forall a, never (f a)) -> never (pbind p f).
Proof. intros Hf. induction p; simpl; [done|constructor|by constructor]. Qed.

(** ** Processes and their descriptors *)

Inductive obj : Set := OFile (path : list Z) (mode : Z) | OPipeR (id : nat) | OPipeW (id : nat).
Abbreviation fdt := (list (option obj)).
#[global] Instance obj_eq_dec : EqDecision obj.
Proof. solve_decision. Defined.

Definition fd_alloc (t : fdt) (o : obj) : option (nat * fdt) :=
  match list_find (fun x => x = None) t with
  | Some (i, _) => Some (i, <[i := Some o]> t)
  | None => None
  end.
Definition fd_obj (t : fdt) (fd : Z) : option obj := if fd <? 0 then None else mjoin (t !! Z.to_nat fd).
Definition fd_close (t : fdt) (fd : Z) : fdt := if fd <? 0 then t else <[Z.to_nat fd := None]> t.

Section Run.
(** Which files can be opened and which programs are there *)
Context (can_open : list Z -> Z -> bool) (can_exec : list Z -> bool).

(** The effect of a call on the table of its process; [n] names pipes. *)
Definition fd_call (c : call) (t : fdt) (n : nat) : reply * fdt * nat :=
  match c with
  | CClose fd => match fd_obj t fd with Some _ => (0, [], fd_close t fd, n) | None => (-1, [], t, n) end
  | CDup fd =>
      match fd_obj t fd with
      | None => (-1, [], t, n)
      | Some o => match fd_alloc t o with Some (i, t) => (Z.of_nat i, [], t, n) | None => (-1, [], t, n) end
      end
  | COpen path mode =>
      if can_open path mode then
        match fd_alloc t (OFile path mode) with Some (i, t) => (Z.of_nat i, [], t, n) | None => (-1, [], t, n) end
      else (-1, [], t, n)
  | CPipe =>
      match fd_alloc t (OPipeR n) with
      | None => (-1, [], t, n)
      | Some (a, t1) =>
          match fd_alloc t1 (OPipeW n) with
          | None => (-1, [], t, n)
          | Some (b, t2) => (0, [Z.of_nat a; Z.of_nat b], t2, S n)
          end
      end
  | CWrite _ bs => (Z.of_nat (length bs), [], t, n)
  | _ => (0, [], t, n)
  end.

(** The programs that the processes of a tree end up running, with their
    descriptors, the child of a [fork] before its parent.  [fork] succeeds. *)
Abbreviation image := (list Z * list (list Z) * fdt)%type.
Fixpoint pexec {A} (p : prog A) (t : fdt) (n : nat) : list image * nat :=
  match p with
  | Done _ | Halt => ([], n)
  | Call CFork k =>
      let ' (l1, n1) := pexec (k (0, [])) t n in
      let ' (l2, n2) := pexec (k (1, [])) t n1 in
      (l1 ++ l2, n2)
  | Call (CExec path argv) k =>
      if can_exec path then ([(path, argv, t)], n) else pexec (k (-1, [])) t n
  | Call c k => let ' (r, t', n') := fd_call c t n in pexec (k r) t' n'
  end.

Lemma pexec_never {A B} (p : prog A) (f : A -> prog B) : never p -> forall t n, pexec (pbind p f) t n = pexec p t n.
Proof.
  induction 1 as [|c k Hk IH]; intros t n; [done|].
  destruct c; simpl; try (by rewrite IH); try (repeat case_match; by rewrite IH).
  - rewrite IH. destruct (pexec (k (0, [])) t n) as [l1 n1]. by rewrite IH.
Qed.

Lemma pexec_assoc {A B C} (p : prog A) (f : A -> prog B) (g : B -> prog C) : forall t n,
  pexec (pbind (pbind p f) g) t n = pexec (pbind p (fun x => pbind (f x) g)) t n.
Proof.
  induction p as [a| |c k IH]; intros t n; [done|done|].
  destruct c; simpl; try (by rewrite IH); try (repeat case_match; by rewrite IH).
  rewrite IH. destruct (pexec (pbind (k (0, [])) _) t n) as [l1 n1]. by rewrite IH.
Qed.

(** Output leaves tables and names as they are. *)
Lemma pexec_put_chars {B} fd cs (f : unit -> prog B) t n :
  pexec (pbind (put_chars fd cs) f) t n = pexec (f tt) t n.
Proof. induction cs as [|c cs IH]; [done|]. simpl. exact IH. Qed.
End Run.
