(* ===== verification/Progs.v ===== *)
(** * Small user programs (cat.c, echo.c, init.c, kill.c, ln.c, ls.c, mkdir.c, rm.c, wc.c, zombie.c)

    The programs are trees of system calls.  [argv] are the arguments as
    strings, the name of the program first.  [iorun] runs a program that does
    not fork on streams of input and a table of files. *)

From S2P Require Import Prelude Params CString Printk Fs Ulib Uproc.

Open Scope prog_scope.

Definition line (s : string) : list Z := lit s ++ [NEWLINE].

(** ** cat.c *)

Definition cat_round (fd : Z) (_ : unit) : prog (unit + unit) :=
  r <- sys2 (CRead fd 512);;
  if 0 <? r.1 then
    w <- sys (CWrite 1 r.2);;
    pwhen (negb (w =? r.1)) (uprintf 1 (line "cat: write error") [];; Halt);;
    Done (inl tt)
  else
    pwhen (r.1 <? 0) (uprintf 1 (line "cat: read error") [];; Halt);;
    Done (inr tt).
Definition cat (fuel : nat) (fd : Z) : prog unit := ploop fuel (cat_round fd) tt.

(** [f] on each argument, opened *)
Definition each_file (msg : string) (args : list (list Z)) (f : Z -> list Z -> prog unit) : prog unit :=
  pfor args (fun a =>
    fd <- sys (COpen a 0);;
    pwhen (fd <? 0) (uprintf 1 (line msg) [AStr (Some a)];; Halt);;
    f fd a;;
    sys (CClose fd);;
    Done tt).

Definition cat_main (fuel : nat) (argv : list (list Z)) : prog unit :=
  if bool_decide (length argv <= 1)%nat then cat fuel 0;; Halt
  else each_file "cat: cannot open %s" (tail argv) (fun fd _ => cat fuel fd);; Halt.

(** ** wc.c *)

Record wcs := Wc { wl : Z; ww : Z; wch : Z; inword : bool }.

Definition blanks : list Z := [32; 13; 9; 10; 11].

(** The body of the loop over the buffer *)
Definition wc_byte (s : wcs) (b : Z) : wcs :=
  let c := i32 (wch s + 1) in
  let l := if b =? NEWLINE then i32 (wl s + 1) else wl s in
  match strchr (blanks ++ [0]) b with
  | Some (Some _) => Wc l (ww s) c false
  | _ => if inword s then Wc l (ww s) c true else Wc l (i32 (ww s + 1)) c true
  end.

Definition wc_round (fd : Z) (s : wcs) : prog (wcs + wcs) :=
  r <- sys2 (CRead fd 512);;
  if 0 <? r.1 then Done (inl (foldl wc_byte s r.2))
  else
    pwhen (r.1 <? 0) (uprintf 1 (line "wc: read error") [];; Halt);;
    Done (inr s).

Definition wc (fuel : nat) (fd : Z) (name : list Z) : prog unit :=
  s <- ploop fuel (wc_round fd) (Wc 0 0 0 false);;
  uprintf 1 (line "%d %d %d %s") [AInt (wl s); AInt (ww s); AInt (wch s); AStr (Some name)].

Definition wc_main (fuel : nat) (argv : list (list Z)) : prog unit :=
  if bool_decide (length argv <= 1)%nat then wc fuel 0 [];; Halt
  else each_file "wc: cannot open %s" (tail argv) (wc fuel);; Halt.

(** ** echo.c *)

Fixpoint echo_args (args : list (list Z)) : prog unit :=
  match args with
  | [] => Done tt
  | a :: rest =>
      uprintf 1 (lit "%s%s") [AStr (Some a); AStr (Some (match rest with [] => [NEWLINE] | _ => [32] end))];;
      echo_args rest
  end.
Definition echo_main (argv : list (list Z)) : prog unit := echo_args (tail argv);; Halt.

(** ** ls.c *)

(** What follows the last slash *)
Fixpoint after_slash (path : list Z) : list Z :=
  match path with
  | [] => []
  | c :: p => if bool_decide (SLASH ∈ path) then after_slash p else path
  end.

Definition fmtname (path : list Z) : list Z :=
  let p := after_slash path in
  if DIRSIZ <=? Z.of_nat (length p) then p
  else p ++ replicate (Z.to_nat DIRSIZ - length p) 32.

(** The fields of [struct stat] that [fstat] fills in: type, device, inode,
    links, size *)
Definition st_type (st : list Z) : Z := st !!! 0%nat.
Definition st_ino (st : list Z) : Z := st !!! 2%nat.
Definition st_size (st : list Z) : Z := st !!! 4%nat.

Definition ustat (n : list Z) : prog (Z * list Z) :=
  fd <- sys (COpen n O_RDONLY);;
  if fd <? 0 then Done (-1, [])
  else
    r <- sys2 (CFstat fd);;
    sys (CClose fd);;
    Done r.

Definition ls_line (path st : list Z) : prog unit :=
  uprintf 1 (line "%s %d %d %d") [AStr (Some (fmtname path)); AInt (st_type st); AInt (st_ino st); AInt (st_size st)].

Definition ls_entry (fd : Z) (path : list Z) (_ : unit) : prog (unit + unit) :=
  r <- sys2 (CRead fd DIRENTSIZE);;
  if negb (r.1 =? DIRENTSIZE) then Done (inr tt)
  else if de_inum r.2 =? 0 then Done (inl tt)
  else
    let buf := path ++ [SLASH] ++ until0 (de_name r.2 ++ [0]) in
    st <- ustat buf;;
    (if st.1 <? 0 then uprintf 1 (line "ls: cannot stat %s") [AStr (Some buf)] else ls_line buf st.2);;
    Done (inl tt).

Definition ls (fuel : nat) (path : list Z) : prog unit :=
  fd <- sys (COpen path 0);;
  if fd <? 0 then uprintf 2 (line "ls: cannot open %s") [AStr (Some path)] else
  st <- sys2 (CFstat fd);;
  if st.1 <? 0 then uprintf 2 (line "ls: cannot stat %s") [AStr (Some path)];; sys (CClose fd);; Done tt else
  (if st_type st.2 =? T_FILE then ls_line path st.2
   else if st_type st.2 =? T_DIR then
     if 512 <? Z.of_nat (length path) + 1 + DIRSIZ + 1 then uprintf 1 (line "ls: path too long") []
     else ploop fuel (ls_entry fd path) tt
   else Done tt);;
  sys (CClose fd);;
  Done tt.

Definition ls_main (fuel : nat) (argv : list (list Z)) : prog unit :=
  if bool_decide (length argv < 2)%nat then ls fuel (lit ".");; Halt
  else pfor (tail argv) (ls fuel);; Halt.

(** ** init.c *)

Definition init_wait (pid : Z) (_ : unit) : prog (unit + unit) :=
  wpid <- sys CWait;;
  if (0 <=? wpid) && negb (wpid =? pid) then uprintf 1 (line "zombie!") [];; Done (inl tt)
  else Done (inr tt).

Definition init_round (fuel : nat) (_ : unit) : prog (unit + unit) :=
  uprintf 1 (line "init: starting sh") [];;
  pid <- sys CFork;;
  pwhen (pid <? 0) (uprintf 1 (line "init: fork failed") [];; Halt);;
  pwhen (pid =? 0) (sys (CExec (lit "sh") [lit "sh"]);; uprintf 1 (line "init: exec sh failed") [];; Halt);;
  ploop fuel (init_wait pid) tt;;
  Done (inl tt).

Definition init_main (fuel : nat) : prog unit :=
  fd <- sys (COpen (lit "console") O_RDWR);;
  pwhen (fd <? 0) (sys (CMknod (lit "console") 1 1);; sys (COpen (lit "console") O_RDWR);; Done tt);;
  sys (CDup 0);;
  sys (CDup 0);;
  ploop fuel (init_round fuel) tt.

(** ** kill.c, ln.c, mkdir.c, rm.c, zombie.c *)

Definition usage (s : string) : prog unit := uprintf 2 (line s) [];; Halt.

Definition kill_main (argv : list (list Z)) : prog unit :=
  pwhen (bool_decide (length argv < 2)%nat) (usage "usage: kill pid...");;
  pfor (tail argv) (fun a => match atoi (a ++ [0]) with Some n => sys (CKill n);; Done tt | None => Halt end);;
  Halt.

Definition ln_main (argv : list (list Z)) : prog unit :=
  match argv with
  | [_; old; new] =>
      r <- sys (CLink old new);;
      pwhen (r <? 0) (uprintf 2 (line "link %s %s: failed") [AStr (Some old); AStr (Some new)]);;
      Halt
  | _ => usage "Usage: ln old new"
  end.

(** The first failure ends the loop. *)
Fixpoint each_until (f : list Z -> call) (msg : string) (args : list (list Z)) : prog unit :=
  match args with
  | [] => Done tt
  | a :: args =>
      r <- sys (f a);;
      if r <? 0 then uprintf 2 (line msg) [AStr (Some a)] else each_until f msg args
  end.

Definition mkdir_main (argv : list (list Z)) : prog unit :=
  pwhen (bool_decide (length argv < 2)%nat) (usage "Usage: mkdir files...");;
  each_until CMkdir "mkdir: %s failed to create" (tail argv);;
  Halt.

Definition rm_main (argv : list (list Z)) : prog unit :=
  pwhen (bool_decide (length argv < 2)%nat) (usage "Usage: rm files...");;
  each_until CUnlink "rm: %s failed to delete" (tail argv);;
  Halt.

Definition zombie_main : prog unit :=
  pid <- sys CFork;;
  pwhen (0 <? pid) (sys (CSleep 5);; Done tt);;
  Halt.

(** ** Running a program on files

    Descriptor [fd] has the rest of a stream; what is written to descriptor 1
    is collected.  [open] gives descriptor 3, for one file at a time. *)

Record io := Io { ins : Z -> stream; outp : list Z }.

Section Files.
Context (files : list Z -> option stream).

Definition io_call (c : call) (w : io) : reply * io :=
  match c with
  | CRead fd n =>
      let ' (l, s) := read (Z.to_nat n) (ins w fd) in
      (Z.of_nat (length l), l, Io (fun x => if x =? fd then s else ins w x) (outp w))
  | CWrite fd bs => (Z.of_nat (length bs), [], if fd =? 1 then Io (ins w) (outp w ++ bs) else w)
  | COpen path _ =>
      match files path with
      | Some s => (3, [], Io (fun x => if x =? 3 then s else ins w x) (outp w))
      | None => (-1, [], w)
      end
  | _ => (0, [], w)
  end.

Fixpoint iorun {A} (p : prog A) (w : io) : option A * io :=
  match p with
  | Done a => (Some a, w)
  | Halt => (None, w)
  | Call c k => let ' (r, w) := io_call c w in iorun (k r) w
  end.

Lemma iorun_bind {A B} (p : prog A) (f : A -> prog B) : forall w,
  iorun (pbind p f) w = match iorun p w with (Some a, w) => iorun (f a) w | (None, w) => (None, w) end.
Proof. induction p as [a| |c k IH]; intros w; [done|done|]. simpl. destruct (io_call c w) as [r w1]. apply IH. Qed.

Definition say (cs : list Z) (w : io) : io := Io (ins w) (outp w ++ cs).

Lemma iorun_put_chars cs : forall w, iorun (put_chars 1 cs) w = (Some tt, say cs w).
Proof.
  induction cs as [|c cs IH]; intros [i o]; simpl.
  - unfold say. simpl. by rewrite app_nil_r.
  - change (pfor cs _) with (put_chars 1 cs). rewrite IH. unfold say. simpl. by rewrite <- app_assoc.
Qed.

Lemma iorun_printf fmt args cs w : printf false (fmt ++ [0]) args = Some cs ->
  iorun (uprintf 1 fmt args) w = (Some tt, say cs w).
Proof. intros E. unfold uprintf. rewrite E. apply iorun_put_chars. Qed.

(** A stream without empty pieces: a read delivers something until the end. *)
Definition pieces (s : stream) : Prop := Forall (fun p => p <> []) s.

Lemma read_pieces n s : (0 < n)%nat -> pieces s ->
  let ' (l, s') := read n s in
  concat s = l ++ concat s' /\ pieces s' /\ (l = [] -> s = []) /\ (length l <= n)%nat.
Proof.
  intros Hn Hs. destruct s as [|p s]; [simpl; split_and!; [done|done|done|lia]|]. inversion Hs as [|? ? Hp Hs']; subst. simpl.
  assert (take n p = [] -> False) as Ht.
  { intros E. apply (f_equal length) in E. rewrite length_take in E. destruct p; [done|]. simpl in E. lia. }
  case_bool_decide as Hl.
  - split_and!; [by rewrite take_ge|done|by intros ?%Ht|rewrite length_take; lia].
  - split_and!; [simpl; by rewrite app_assoc, take_drop| |by intros ?%Ht|rewrite length_take; lia].
    constructor; [|done]. intros E. apply (f_equal length) in E. rewrite length_drop in E. simpl in E. lia.
Qed.

(** A loop that folds over what a descriptor delivers *)
Lemma iorun_reads {X B} (round : X -> prog (X + B)) (step : X -> list Z -> X) (out : list Z -> list Z) (fin : X -> B) fd :
  (forall x w, iorun (round x) w =
     let ' (l, s) := read 512 (ins w fd) in
     let w := Io (fun y => if y =? fd then s else ins w y) (outp w) in
     match l with
     | [] => (Some (inr (fin x)), w)
     | _ => (Some (inl (step x l)), say (out l) w)
     end) ->
  (forall x, step x [] = x) -> (forall x l l', step (step x l) l' = step x (l ++ l')) ->
  out [] = [] -> (forall l l', out (l ++ l') = out l ++ out l') ->
  forall fuel x w, pieces (ins w fd) -> (length (concat (ins w fd)) < fuel)%nat ->
  exists w', iorun (ploop fuel round x) w = (Some (fin (step x (concat (ins w fd)))), w') /\
    outp w' = outp w ++ out (concat (ins w fd)).
Proof.
  intros Hr Hs0 Hs Ho0 Ho. induction fuel as [|fuel IH]; intros x w Hp Hf; [lia|].
  cbn [ploop]. rewrite iorun_bind, Hr. pose proof (read_pieces 512 (ins w fd) ltac:(lia) Hp) as Hread.
  destruct (read 512 (ins w fd)) as [l s]. destruct Hread as (E & Hs' & Hz & _). destruct l as [|c l].
  - rewrite Hz by done. eexists. split; [simpl; by rewrite Hs0|]. simpl. by rewrite Ho0, app_nil_r.
  - set (w1 := say (out (c :: l)) (Io (fun y => if y =? fd then s else ins w y) (outp w))).
    assert (ins w1 fd = s) as E1 by (simpl; by rewrite Z.eqb_refl).
    destruct (IH (step x (c :: l)) w1) as (w' & R & O).
    + by rewrite E1.
    + rewrite E1. rewrite E, length_app in Hf. simpl in Hf. lia.
    + exists w'. split.
      * transitivity (iorun (ploop fuel round (step x (c :: l))) w1); [done|]. by rewrite R, E1, E, Hs.
      * rewrite O, E1, E, Ho. simpl. by rewrite <- app_assoc.
Qed.

(** ** cat *)

Lemma cat_round_io fd x w : iorun (cat_round fd x) w =
  let ' (l, s) := read 512 (ins w fd) in
  let w := Io (fun y => if y =? fd then s else ins w y) (outp w) in
  match l with
  | [] => (Some (inr tt), w)
  | _ => (Some (inl x), say l w)
  end.
Proof.
  destruct x. unfold cat_round. cbn [sys2 pbind iorun io_call]. change (Z.to_nat 512) with 512%nat.
  destruct (read 512 (ins w fd)) as [[|c l] s]; [done|]. cbn [fst snd].
  rewrite (proj2 (Z.ltb_lt _ _)) by (simpl; lia). cbn [sys pbind iorun io_call fst]. by rewrite Z.eqb_refl.
Qed.

Lemma cat_copies fuel fd w : pieces (ins w fd) -> (length (concat (ins w fd)) < fuel)%nat ->
  exists w', iorun (cat fuel fd) w = (Some tt, w') /\ outp w' = outp w ++ concat (ins w fd).
Proof.
  apply (iorun_reads (cat_round fd) (fun x _ => x) id (fun _ => tt) fd); try done. apply cat_round_io.
Qed.

(** [each_file] applies [f] to the files in order. *)
Lemma each_file_io msg f out args fuel :
  (forall a s fd w, a ∈ args -> files a = Some s -> ins w fd = s -> (length (concat s) < fuel)%nat ->
     exists w', iorun (f fd a) w = (Some tt, w') /\ outp w' = outp w ++ out a (concat s)) ->
  Forall (fun a => exists s, files a = Some s /\ (length (concat s) < fuel)%nat) args ->
  forall w, exists w', iorun (each_file msg args f) w = (Some tt, w') /\
    outp w' = outp w ++ concat ((fun a => out a (concat (default [] (files a)))) <$> args).
Proof.
  intros Hf Hargs. induction Hargs as [|a args (s & Ha & Hl) _ IH]; intros w.
  - exists w. split; [done|]. simpl. by rewrite app_nil_r.
  - unfold each_file. cbn [pfor]. rewrite iorun_bind. cbn [sys pbind iorun io_call]. rewrite Ha.
    cbn [iorun fst pbind]. change (3 <? 0) with false. cbn [pwhen pbind]. rewrite iorun_bind.
    set (w1 := Io (fun x => if x =? 3 then s else ins w x) (outp w)). destruct (Hf a s 3 w1) as (w2 & R & O); [left|done|done|done|]. rewrite R. cbn [sys pbind iorun io_call].
    destruct (IH) with (w := w2) as (w3 & R3 & O3); [intros; apply Hf; [by right|done..]|].
    exists w3. split; [exact R3|]. rewrite O3, O. cbn [fmap list_fmap concat]. rewrite Ha. simpl. by rewrite <- app_assoc.
Qed.

(** The arguments are files, read in at most [fuel] rounds. *)
Definition readable_files (fuel : nat) (args : list (list Z)) : Prop :=
  Forall (fun a => exists s, files a = Some s /\ pieces s /\ (length (concat s) < fuel)%nat) args.
Abbreviation content a := (concat (default [] (files a))).

Lemma readable_in fuel args a s : readable_files fuel args -> a ∈ args -> files a = Some s ->
  pieces s /\ (length (concat s) < fuel)%nat.
Proof. intros H Ha E. destruct (proj1 (Forall_forall _ _) H a Ha) as (s' & E' & Hs). by simplify_eq. Qed.
Lemma readable_fuel fuel args : readable_files fuel args ->
  Forall (fun a => exists s, files a = Some s /\ (length (concat s) < fuel)%nat) args.
Proof. intros H. eapply Forall_impl; [exact H|]. intros a (s & E & _ & Hl). by exists s. Qed.

(** cat writes the contents of its arguments, one after the other. *)
Theorem cat_main_copies fuel name args w : args <> [] -> readable_files fuel args ->
  exists w', iorun (cat_main fuel (name :: args)) w = (None, w') /\
    outp w' = outp w ++ concat ((fun a => content a) <$> args).
Proof.
  intros Hne Hr. unfold cat_main. rewrite bool_decide_false by (destruct args; [done|simpl; lia]). cbn [tail].
  destruct (each_file_io "cat: cannot open %s" (fun fd _ => cat fuel fd) (fun _ l => l) args fuel) with (w := w)
    as (w' & R & O).
  - intros a s fd w1 Ha E Ei Hl. destruct (readable_in _ _ _ _ Hr Ha E) as [Hp _].
    rewrite <- Ei in Hl, Hp. destruct (cat_copies fuel fd w1 Hp Hl) as (w2 & R & O).
    exists w2. by rewrite <- Ei.
  - by apply readable_fuel.
  - exists w'. rewrite iorun_bind, R. split; [done|exact O].
Qed.

(** ** wc *)

Definition blank (c : Z) : bool := bool_decide (c ∈ blanks).

(** Words begin where a character that is no blank follows a blank, or the
    beginning. *)
Definition count (f : Z -> bool) (l : list Z) : Z := Z.of_nat (length (filter (fun c => f c) l)).
Definition words (l : list Z) : Z :=
  Z.of_nat (length (filter (fun p : Z * Z => blank p.1 && negb (blank p.2)) (zip (32 :: l) l))).

Lemma strchr_notin l c : Forall (fun x => x <> 0) l -> c ∉ l -> strchr (l ++ [0]) c = Some None.
Proof.
  induction 1 as [|x l Hx _ IH]; intros Hn; [done|]. apply not_elem_of_cons in Hn as [Hc Hn]. cbn [app strchr].
  rewrite (proj2 (Z.eqb_neq x 0)), (proj2 (Z.eqb_neq x c)) by done. by rewrite IH.
Qed.
Lemma strchr_blank c : match strchr (blanks ++ [0]) c with Some (Some _) => true | _ => false end = blank c.
Proof.
  unfold blank. case_bool_decide as Hin.
  - unfold blanks in Hin. rewrite !elem_of_cons in Hin. destruct Hin as [->|[->|[->|[->|[->|?%not_elem_of_nil]]]]]; done.
  - rewrite strchr_notin; [done| |done]. repeat constructor; lia.
Qed.

Lemma wc_bytes l : forall s prev, inword s = negb (blank prev) ->
  Z.max (wl s) (Z.max (ww s) (wch s)) + Z.of_nat (length l) < two31 -> 0 <= wl s -> 0 <= ww s -> 0 <= wch s ->
  foldl wc_byte s l = Wc (wl s + count (fun c => c =? NEWLINE) l)
    (ww s + Z.of_nat (length (filter (fun p : Z * Z => blank p.1 && negb (blank p.2)) (zip (prev :: l) l))))
    (wch s + Z.of_nat (length l)) (negb (blank (default prev (last l)))).
Proof.
  induction l as [|c l IH]; intros s prev Hi Hb Hl Hw Hc.
  - destruct s as [a b e i]. simpl in *. by rewrite !Z.add_0_r, Hi.
  - simpl length in Hb. cbn [foldl zip zip_with].
    assert (wc_byte s c = Wc (wl s + (if c =? NEWLINE then 1 else 0))
      (ww s + (if blank prev && negb (blank c) then 1 else 0)) (wch s + 1) (negb (blank c))) as ->.
    { unfold wc_byte. rewrite !i32_small by (unfold two31 in *; lia). pose proof (strchr_blank c) as Hc'.
      rewrite Hi, <- Hc'. destruct (c =? NEWLINE), (strchr (blanks ++ [0]) c) as [[?|]|], (blank prev); simpl;
        by rewrite ?Z.add_0_r. }
    set (b1 := if c =? NEWLINE then 1 else 0). set (b2 := if blank prev && negb (blank c) then 1 else 0).
    assert (0 <= b1 <= 1 /\ 0 <= b2 <= 1) as [H1 H2] by (unfold b1, b2; split; case_match; lia).
    rewrite (IH _ c); cbn [wl ww wch inword]; [|done|lia|lia|lia|lia].
    f_equal.
    + unfold count. rewrite filter_cons. unfold b1. case_decide as E; destruct (c =? NEWLINE); try done; simpl; lia.
    + rewrite filter_cons. cbn [fst snd]. unfold b2. case_decide as E; destruct (blank prev && negb (blank c)); try done; simpl; lia.
    + simpl. lia.
    + rewrite last_cons. by destruct (last l).
Qed.

Lemma wc_round_io fd x w : iorun (wc_round fd x) w =
  let ' (l, s) := read 512 (ins w fd) in
  let w := Io (fun y => if y =? fd then s else ins w y) (outp w) in
  match l with
  | [] => (Some (inr x), w)
  | _ => (Some (inl (foldl wc_byte x l)), say [] w)
  end.
Proof.
  unfold wc_round. cbn [sys2 pbind iorun io_call]. change (Z.to_nat 512) with 512%nat.
  destruct (read 512 (ins w fd)) as [[|c l] s]; [done|]. cbn [fst snd].
  rewrite (proj2 (Z.ltb_lt _ _)) by (simpl; lia). unfold say. cbn [ins outp]. by rewrite app_nil_r.
Qed.

(** The line that wc prints for a file *)
Definition wc_line (name l : list Z) : list Z :=
  printint (count (fun c => c =? NEWLINE) l) 10 1 ++ [32] ++ printint (words l) 10 1 ++ [32] ++
  printint (Z.of_nat (length l)) 10 1 ++ [32] ++ name ++ [NEWLINE].

Lemma count_le f l : count f l <= Z.of_nat (length l).
Proof. unfold count. pose proof (length_filter (fun c => f c) l). lia. Qed.
Lemma words_le l : words l <= Z.of_nat (length l).
Proof.
  unfold words. pose proof (length_filter (fun p : Z * Z => blank p.1 && negb (blank p.2)) (zip (32 :: l) l)) as H.
  rewrite length_zip_with in H. cbn [length] in H. lia.
Qed.

(** wc counts lines, words and characters. *)
Theorem wc_counts fuel fd name w :
  pieces (ins w fd) -> (length (concat (ins w fd)) < fuel)%nat -> Z.of_nat (length (concat (ins w fd))) < two31 ->
  exists w', iorun (wc fuel fd name) w = (Some tt, w') /\ outp w' = outp w ++ wc_line name (concat (ins w fd)).
Proof.
  intros Hp Hf Hl. set (l := concat (ins w fd)) in *.
  destruct (iorun_reads (wc_round fd) (fun x l => foldl wc_byte x l) (fun _ => []) id fd) with (fuel := fuel)
    (x := Wc 0 0 0 false) (w := w) as (w1 & R & O); try done.
  { apply wc_round_io. }
  { intros x l1 l2. by rewrite foldl_app. }
  unfold wc. rewrite iorun_bind, R. fold l. rewrite (wc_bytes l _ 32); [|done|simpl; lia|done|done|done].
  cbn [id wl ww wch]. rewrite !Z.add_0_l. fold (words l).
  pose proof (count_le (fun c => c =? NEWLINE) l). pose proof (words_le l).
  rewrite (iorun_printf _ _ (wc_line name l)).
  - eexists. split; [done|]. simpl. by rewrite O, app_nil_r.
  - unfold line, wc_line. simpl. rewrite !i32_small; [done|..]; unfold two31, count, words in *; lia.
Qed.

Theorem wc_main_counts fuel name args w : args <> [] -> readable_files fuel args ->
  Forall (fun a => Z.of_nat (length (content a)) < two31) args ->
  exists w', iorun (wc_main fuel (name :: args)) w = (None, w') /\
    outp w' = outp w ++ concat ((fun a => wc_line a (content a)) <$> args).
Proof.
  intros Hne Hr Hsz. unfold wc_main. rewrite bool_decide_false by (destruct args; [done|simpl; lia]). cbn [tail].
  destruct (each_file_io "wc: cannot open %s" (wc fuel) wc_line args fuel) with (w := w) as (w' & R & O).
  - intros a s fd w1 Ha E Ei Hl. destruct (readable_in _ _ _ _ Hr Ha E) as [Hp _].
    pose proof (proj1 (Forall_forall _ _) Hsz a Ha) as Hs. cbn beta in Hs. rewrite E in Hs. simpl in Hs.
    rewrite <- Ei in Hl, Hp, Hs. destruct (wc_counts fuel fd a w1 Hp Hl Hs) as (w2 & R & O).
    exists w2. by rewrite <- Ei.
  - by apply readable_fuel.
  - exists w'. rewrite iorun_bind, R. split; [done|exact O].
Qed.

(** ** echo *)

Fixpoint unwords (args : list (list Z)) : list Z :=
  match args with
  | [] => []
  | [a] => a ++ [NEWLINE]
  | a :: args => a ++ 32 :: unwords args
  end.

(** echo prints its arguments with blanks between them and a newline at the end. *)
Theorem echo_prints name args w : iorun (echo_main (name :: args)) w = (None, say (unwords args) w).
Proof.
  unfold echo_main. cbn [tail].
  assert (forall w, iorun (echo_args args) w = (Some tt, say (unwords args) w)) as He;
    [|by rewrite iorun_bind, He].
  clear w. induction args as [|a args IH]; intros w.
  - destruct w. unfold say. simpl. by rewrite app_nil_r.
  - cbn [echo_args]. rewrite iorun_bind.
    rewrite (iorun_printf _ _ (a ++ match args with [] => [NEWLINE] | _ => [32] end)) by (simpl; by rewrite app_nil_r).
    rewrite IH. unfold say. cbn [ins outp]. rewrite <- !app_assoc. do 3 f_equal. by destruct args.
Qed.
End Files.
