(* ===== verification/Grep.v ===== *)
(** * grep (grep.c)

    The matcher of Kernighan and Pike over the characters of a pattern and of
    a text, both without their terminator, and the loop that reads a file into
    a buffer and matches it line by line.  The second part is the program as a
    tree of system calls, with a [write] for each line and the loop over the
    arguments. *)

From S2P Require Import Prelude Params CString Printk Ulib Uproc Progs.

(** ** The matcher *)

Definition CARET : Z := 94.
Definition DOT : Z := 46.
Definition STAR : Z := 42.
Definition DOLLAR : Z := 36.

(** [(re[0]=='.' || re[0]==*text)] *)
Definition eats (c x : Z) : bool := (c =? DOT) || (c =? x).

(** The loop of [matchstar]: [here] is [matchhere(re, .)]. *)
Fixpoint star_loop (here : list Z -> bool) (c : Z) (text : list Z) : bool :=
  here text ||
  match text with
  | [] => false
  | x :: text => if (x =? c) || (c =? DOT) then star_loop here c text else false
  end.

(** Every call is on a shorter pattern: [matchstar] on [re+2], the last line on
    [re+1]. *)
Fixpoint matchhere (fuel : nat) (re text : list Z) : bool :=
  match fuel with
  | O => false
  | S fuel =>
      match re with
      | [] => true
      | c :: re =>
          match re with
          | s :: re' =>
              if s =? STAR then star_loop (matchhere fuel re') c text
              else match text with
                   | x :: text => eats c x && matchhere fuel re text
                   | [] => false
                   end
          | [] =>
              if c =? DOLLAR then match text with [] => true | _ => false end
              else match text with
                   | x :: text => eats c x && matchhere fuel re text
                   | [] => false
                   end
          end
      end
  end.

Definition here (re text : list Z) : bool := matchhere (S (length re)) re text.

(** The [do]-[while] loop of [match], which looks at the empty rest too. *)
Fixpoint match_loop (re text : list Z) : bool :=
  here re text || match text with [] => false | _ :: text => match_loop re text end.

Definition gmatch (re text : list Z) : bool :=
  match re with
  | c :: re' => if c =? CARET then here re' text else match_loop re text
  | [] => match_loop re text
  end.

(** ** The loop over the input *)

Definition BUFSIZE : nat := 1024.

(** The lines in the array [p], which holds [p] and then a terminator: what is
    written for them, and the incomplete rest. *)
Fixpoint scan_lines (fuel : nat) (pattern p out : list Z) : list Z * list Z :=
  match fuel with
  | O => (out, p)
  | S fuel =>
      match strchr (p ++ [0]) NEWLINE with
      | Some (Some q) =>
          let line := take q p in
          let out := if gmatch pattern line then out ++ take (S q) p else out in
          scan_lines fuel pattern (drop (S q) p) out
      | _ => (out, p)
      end
  end.

(** One round: [buf] is the [m] bytes kept from the round before.  A buffer in
    which no line ended is thrown away ([if(p == buf) m = 0]). *)
Definition grep_round (pattern buf new : list Z) : list Z * list Z :=
  let buf := buf ++ new in
  let ' (out, p) := scan_lines (S (length buf)) pattern buf [] in
  (out, if bool_decide (length p = length buf) then [] else p).

Fixpoint grep (fuel : nat) (pattern buf : list Z) (s : stream) : option (list Z) :=
  match fuel with
  | O => None
  | S fuel =>
      match read (BUFSIZE - length buf - 1) s with
      | ([], _) => Some []
      | (new, s) =>
          let ' (out, buf) := grep_round pattern buf new in
          app out <$> grep fuel pattern buf s
      end
  end.

(** ** What a pattern means

    A pattern is a list of items, each a character (or any) once or many
    times, perhaps anchored at the end of the text. *)

Inductive item := One (c : Z) | Many (c : Z).

Fixpoint parse (re : list Z) : list item * bool :=
  match re with
  | [] => ([], false)
  | c :: re =>
      match re with
      | s :: re' =>
          if s =? STAR then let ' (l, e) := parse re' in (Many c :: l, e)
          else let ' (l, e) := parse re in (One c :: l, e)
      | [] => if c =? DOLLAR then ([], true) else ([One c], false)
      end
  end.

Inductive seg : item -> list Z -> Prop :=
| seg_one c x : eats c x = true -> seg (One c) [x]
| seg_many c l : Forall (fun x => eats c x = true) l -> seg (Many c) l.

(** A prefix of [text], all of it for an anchored pattern, is made of one
    segment per item. *)
Definition matches_at (p : list item * bool) (text : list Z) : Prop :=
  exists segs rest, text = mjoin segs ++ rest /\ Forall2 seg p.1 segs /\ (p.2 = true -> rest = []).

Definition matches (re text : list Z) : Prop :=
  match re with
  | c :: re' =>
      if c =? CARET then matches_at (parse re') text
      else exists before after, text = before ++ after /\ matches_at (parse re) after
  | [] => exists before after, text = before ++ after /\ matches_at (parse []) after
  end.

Lemma matches_at_nil e text : matches_at ([], e) text <-> (e = true -> text = []).
Proof.
  split.
  - intros (segs & rest & -> & Hs & He) ->. apply Forall2_nil_inv_l in Hs as ->.
    simpl. by rewrite He.
  - intros H. exists [], text. by repeat split; [constructor|].
Qed.

Lemma matches_at_cons i l e text :
  matches_at (i :: l, e) text <->
  exists s t, text = s ++ t /\ seg i s /\ matches_at (l, e) t.
Proof.
  split.
  - intros (segs & rest & -> & Hs & He). apply Forall2_cons_inv_l in Hs as (s & segs' & Hi & Hs & ->).
    exists s, (mjoin segs' ++ rest). simpl. split; [by rewrite app_assoc|]. split; [done|].
    by exists segs', rest.
  - intros (s & t & -> & Hi & segs & rest & -> & Hs & He).
    exists (s :: segs), rest. simpl. split; [by rewrite app_assoc|]. split; [by constructor|done].
Qed.

Lemma matches_at_one c l e text :
  matches_at (One c :: l, e) text <->
  exists x t, text = x :: t /\ eats c x = true /\ matches_at (l, e) t.
Proof.
  rewrite matches_at_cons. split.
  - intros (s & t & -> & Hi & H). inversion Hi; subst. by exists x, t.
  - intros (x & t & -> & Hi & H). exists [x], t. by repeat split; [constructor|].
Qed.

Lemma matches_at_many c l e text :
  matches_at (Many c :: l, e) text <->
  matches_at (l, e) text \/
  exists x t, text = x :: t /\ eats c x = true /\ matches_at (Many c :: l, e) t.
Proof.
  rewrite matches_at_cons. split.
  - intros (s & t & -> & Hi & H). inversion Hi as [|? ? Hall]; subst.
    destruct Hall as [|x s Hx Hall]; [by left|]. right.
    exists x, (s ++ t). split; [done|]. split; [done|]. rewrite matches_at_cons.
    exists s, t. by repeat split; [constructor|].
  - intros [H|(x & t & -> & Hx & H)].
    + exists [], text. by repeat split; [constructor; constructor|].
    + rewrite matches_at_cons in H. destruct H as (s & t' & -> & Hi & H).
      inversion Hi; subst. exists (x :: s), t'. repeat split; [|done]. constructor. by constructor.
Qed.

Lemma star_loop_spec f c p text :
  (forall t, f t = true <-> matches_at p t) ->
  star_loop f c text = true <-> matches_at (Many c :: p.1, p.2) text.
Proof.
  destruct p as [l e]. simpl. intros Hf.
  induction text as [|x text IH]; simpl; rewrite orb_true_iff, Hf, matches_at_many.
  - split; [intros [?|?]; [by left|done]|]. intros [?|(? & ? & ? & _)]; [by left|done].
  - split.
    + intros [?|H]; [by left|]. right. exists x, text.
      destruct ((x =? c) || (c =? DOT)) eqn:E; [|done]. split; [done|]. split; [|by apply IH].
      unfold eats. by rewrite orb_comm, (Z.eqb_sym c x).
    + intros [?|(y & t & Ht & Hy & H)]; [by left|]. right. injection Ht as <- <-.
      unfold eats in Hy. rewrite orb_comm, (Z.eqb_sym c x) in Hy. rewrite Hy. by apply IH.
Qed.

Lemma matchhere_spec fuel : forall re text, (length re < fuel)%nat ->
  matchhere fuel re text = true <-> matches_at (parse re) text.
Proof.
  induction fuel as [|fuel IH]; intros re text Hlt; [lia|].
  assert (forall c l e, (forall t, matchhere fuel l t = true <-> matches_at e t) ->
    match text with x :: t => eats c x && matchhere fuel l t | [] => false end = true
    <-> matches_at (One c :: e.1, e.2) text) as Hone.
  { intros c l e Hl. rewrite matches_at_one. destruct text as [|x t].
    - split; [done|]. by intros (? & ? & ? & _).
    - rewrite andb_true_iff, Hl, <- surjective_pairing. split; [by exists x, t|].
      intros (y & t' & Ht & ?). by injection Ht as <- <-. }
  destruct re as [|c re]; [simpl; rewrite matches_at_nil; done|]. cbn [matchhere parse].
  destruct re as [|s re].
  - destruct (Z.eqb_spec c DOLLAR).
    + rewrite matches_at_nil. by destruct text; naive_solver.
    + apply (Hone c [] ([], false)). intros t. apply (IH []). simpl in *. lia.
  - simpl in Hlt. destruct (Z.eqb_spec s STAR).
    + rewrite (star_loop_spec _ _ (parse re)) by (intros t; apply IH; lia).
      by destruct (parse re).
    + rewrite (Hone c (s :: re) (parse (s :: re))) by (intros t; apply IH; simpl; lia).
      by destruct (parse (s :: re)).
Qed.

Lemma here_spec re text : here re text = true <-> matches_at (parse re) text.
Proof. apply matchhere_spec. lia. Qed.

Lemma match_loop_spec re text :
  match_loop re text = true <->
  exists before after, text = before ++ after /\ matches_at (parse re) after.
Proof.
  induction text as [|x text IH]; simpl; rewrite orb_true_iff, here_spec.
  - split; [intros [?|?]; [by exists [], []|done]|].
    intros (b & a & E & H). symmetry in E. apply app_nil in E as [-> ->]. by left.
  - rewrite IH. split.
    + intros [H|(b & a & -> & H)]; [by exists [], (x :: text)|by exists (x :: b), a].
    + intros ([|y b] & a & E & H); simpl in E; [subst; by left|].
      injection E as -> ->. right. by exists b, a.
Qed.

(** C16: [match] decides the meaning of patterns: it answers 1 exactly when the
    text has a part, at the start for a pattern with a caret, that is made of
    one segment for each item of the pattern and reaches the end of the text
    when the pattern ends in a dollar sign. *)
Theorem gmatch_correct re text : gmatch re text = true <-> matches re text.
Proof.
  unfold gmatch, matches. destruct re as [|c re]; [apply match_loop_spec|].
  destruct (c =? CARET); [apply here_spec|apply match_loop_spec].
Qed.

(** ** What grep prints *)

(** The complete lines of a text, without their newlines, and what follows the
    last newline. *)
Fixpoint lines (f : list Z) : list (list Z) * list Z :=
  match f with
  | [] => ([], [])
  | c :: f =>
      let ' (ls, r) := lines f in
      if c =? NEWLINE then ([] :: ls, r)
      else match ls with
           | [] => ([], c :: r)
           | l :: ls => ((c :: l) :: ls, r)
           end
  end.

Definition unlines (ls : list (list Z)) : list Z := mjoin ((fun l => l ++ [NEWLINE]) <$> ls).
Definition selected (pattern : list Z) (ls : list (list Z)) : list Z :=
  unlines (filter (fun l => gmatch pattern l = true) ls).

Definition no_newline (l : list Z) : Prop := Forall (fun c => c <> NEWLINE) l.

Lemma lines_none l : no_newline l -> lines l = ([], l).
Proof.
  induction 1 as [|c l Hc _ IH]; [done|]. simpl. rewrite IH.
  by destruct (Z.eqb_spec c NEWLINE).
Qed.

Lemma lines_line l f : no_newline l ->
  lines (l ++ NEWLINE :: f) = (l :: (lines f).1, (lines f).2).
Proof.
  intros Hl. induction Hl as [|c l Hc _ IH]; simpl; [by destruct (lines f)|].
  rewrite IH. by destruct (Z.eqb_spec c NEWLINE).
Qed.

Lemma newline_split f : no_newline f \/ exists l r, f = l ++ NEWLINE :: r /\ no_newline l.
Proof.
  induction f as [|c f [IH|(l & r & -> & IH)]]; [by left; constructor| |];
    destruct (decide (c = NEWLINE)) as [->|Hc].
  - right. by exists [], f; repeat constructor.
  - left. by constructor.
  - right. by eexists [], _; repeat constructor.
  - right. exists (c :: l), r. split; [done|]. by constructor.
Qed.

Lemma lines_app a b :
  lines (a ++ b) = ((lines a).1 ++ (lines ((lines a).2 ++ b)).1, (lines ((lines a).2 ++ b)).2)
  /\ no_newline (lines a).2.
Proof.
  remember (length a) as n eqn:Hn. revert a Hn.
  induction (lt_wf n) as [n _ IH]. intros a ->.
  destruct (newline_split a) as [Ha|(l & r & -> & Hl)].
  - rewrite (lines_none a) by done. simpl. by destruct (lines (a ++ b)).
  - rewrite <- app_assoc, <- app_comm_cons, !lines_line by done. simpl.
    destruct (IH (length r)) with (a := r) as [-> ?]; [|done|done].
    rewrite length_app. simpl. lia.
Qed.

Lemma list_find_newline l r : no_newline l ->
  list_find (eq NEWLINE) (l ++ NEWLINE :: r) = Some (length l, NEWLINE).
Proof.
  induction 1 as [|c l Hc _ IH]; [done|]. simpl.
  destruct (decide (NEWLINE = c)); [congruence|]. by rewrite IH.
Qed.

Lemma list_find_no_newline l : no_newline l -> list_find (eq NEWLINE) l = None.
Proof. intros H. apply list_find_None. eapply Forall_impl; [done|]. naive_solver. Qed.

Lemma scan_lines_spec pattern : forall fuel p out, (length p < fuel)%nat -> cstring p ->
  scan_lines fuel pattern p out = (out ++ selected pattern (lines p).1, (lines p).2).
Proof.
  induction fuel as [|fuel IH]; intros p out Hlt Hp; [lia|]. cbn [scan_lines].
  rewrite strchr_app by done.
  destruct (newline_split p) as [Hn|(l & r & -> & Hl)].
  - rewrite list_find_no_newline, lines_none by done. simpl. by rewrite app_nil_r.
  - rewrite list_find_newline, lines_line by done. simpl.
    rewrite take_app_length, length_app in *. simpl in Hlt.
    rewrite (cons_middle NEWLINE l r), app_assoc.
    rewrite drop_app_length', take_app_length' by (rewrite length_app; simpl; lia).
    rewrite IH; [|lia|by apply Forall_app in Hp as [_ Hp]; inversion Hp]. f_equal.
    unfold selected. destruct (gmatch pattern l) eqn:E.
    + rewrite filter_cons_True by done. unfold unlines. simpl. by rewrite <- !app_assoc.
    + rewrite filter_cons_False by (by rewrite E). done.
Qed.

(** A round never keeps a full buffer. *)
Lemma grep_round_spec pattern buf new : cstring (buf ++ new) ->
  grep_round pattern buf new =
    (selected pattern (lines (buf ++ new)).1,
     if bool_decide (length (lines (buf ++ new)).2 = length (buf ++ new)) then []
     else (lines (buf ++ new)).2).
Proof. intros H. unfold grep_round. rewrite scan_lines_spec by (done || lia). done. Qed.

Lemma lines_rest_length f : (length (lines f).2 <= length f)%nat.
Proof.
  induction f as [|c f IH]; [done|]. simpl. destruct (lines f) as [[|l ls] r]; simpl in *;
    destruct (c =? NEWLINE); simpl; lia.
Qed.

Lemma lines_rest_all f : length (lines f).2 = length f -> lines f = ([], f).
Proof.
  destruct (newline_split f) as [H|(l & r & -> & Hl)]; [by rewrite lines_none|].
  rewrite lines_line by done. simpl. pose proof (lines_rest_length r).
  rewrite length_app. simpl. lia.
Qed.

Lemma lines_unlines f : f = unlines (lines f).1 ++ (lines f).2.
Proof.
  induction f as [|c f IH]; [done|]. simpl. destruct (lines f) as [[|l ls] r]; simpl in *;
    destruct (Z.eqb_spec c NEWLINE) as [->|]; unfold unlines in *; simpl in *; by rewrite IH at 1.
Qed.

Definition one_piece (f : list Z) : stream := if bool_decide (f = []) then [] else [f].

Lemma read_piece n f : read n (one_piece f) = (take n f, one_piece (drop n f)).
Proof.
  unfold one_piece. case_bool_decide as E; [subst; by rewrite take_nil, drop_nil|]. simpl.
  repeat case_bool_decide; try done.
  - by rewrite drop_ge in *.
  - apply (f_equal length) in H0. rewrite length_drop in H0. simpl in H0. lia.
Qed.

(** Lines that fit in the buffer together with their newline *)
Definition short_lines (f : list Z) : Prop :=
  Forall (fun l => (length l < BUFSIZE - 1)%nat) (lines f).1.

(** A full buffer without a newline is the beginning of an incomplete last
    line. *)
Lemma short_lines_full r f :
  no_newline r -> length r = (BUFSIZE - 1)%nat -> short_lines (r ++ f) -> (lines (r ++ f)).1 = []
  /\ (lines f).1 = [].
Proof.
  intros Hr Hlen Hs. destruct (newline_split f) as [Hf|(l & q & -> & Hl)].
  - rewrite !lines_none by (done || by apply Forall_app). done.
  - unfold short_lines in Hs. rewrite app_assoc, lines_line in Hs by by apply Forall_app.
    apply Forall_cons in Hs as [Hs _]. rewrite length_app in Hs. lia.
Qed.

Lemma grep_loop pattern : forall fuel buf f, (length f < fuel)%nat ->
  (length buf < BUFSIZE - 1)%nat -> no_newline buf -> cstring (buf ++ f) -> short_lines (buf ++ f) ->
  grep fuel pattern buf (one_piece f) = Some (selected pattern (lines (buf ++ f)).1).
Proof.
  induction fuel as [|fuel IH]; intros buf f Hlt Hb Hn Hc Hs; [lia|]. cbn [grep].
  rewrite read_piece. set (k := (BUFSIZE - length buf - 1)%nat).
  destruct (take k f) as [|x new] eqn:Et.
  { destruct f as [|y f]; [|by destruct k eqn:Ek; [unfold BUFSIZE in *; lia|]].
    by rewrite app_nil_r, lines_none. }
  rewrite <- Et. assert (buf ++ f = (buf ++ take k f) ++ drop k f) as Ef.
  { by rewrite <- app_assoc, take_drop. }
  assert (length (drop k f) < fuel)%nat.
  { rewrite length_drop. apply (f_equal length) in Et. rewrite length_take in Et. simpl in Et. lia. }
  assert (length (buf ++ take k f) <= BUFSIZE - 1)%nat as Hfull.
  { rewrite length_app, length_take. lia. }
  rewrite Ef in Hc, Hs |- *. apply Forall_app in Hc as Hc'. destruct Hc' as [Hc1 Hc2].
  rewrite grep_round_spec by done. set (a := buf ++ take k f) in *.
  destruct (lines_app a (drop k f)) as [El Hr]. unfold short_lines in Hs. rewrite El in Hs |- *.
  simpl in Hs |- *. apply Forall_app in Hs as [_ Hs].
  case_bool_decide as Eq.
  - apply lines_rest_all in Eq. rewrite Eq in Hs, Hr |- *. simpl in *.
    assert ((lines (a ++ drop k f)).1 = [] /\ (lines (drop k f)).1 = []) as [E1 E2].
    { destruct (decide (drop k f = [])) as [->|Hd]; [by rewrite app_nil_r, Eq|].
      apply short_lines_full; [done| |done]. unfold a. rewrite length_app, length_take.
      assert (length (drop k f) <> 0%nat) by by destruct (drop k f).
      rewrite length_drop in *. unfold k, BUFSIZE in *. lia. }
    rewrite (IH [] (drop k f)); simpl;
      [by rewrite E1, E2|lia|unfold BUFSIZE; lia|constructor|done|].
    unfold short_lines. by rewrite E2.
  - rewrite IH; [|lia| |done| |done].
    + simpl. f_equal. unfold selected, unlines. by rewrite filter_app, fmap_app, join_app.
    + pose proof (lines_rest_length a). lia.
    + apply Forall_app. split; [|done]. rewrite (lines_unlines a) in Hc1.
      by apply Forall_app in Hc1 as [_ ?].
Qed.

(** A file that is read in one piece per round *)
Lemma grep_whole pattern f fuel : cstring f -> short_lines f -> (length f < fuel)%nat ->
  grep fuel pattern [] [f] = Some (selected pattern (lines f).1).
Proof.
  intros Hc Hs Hf. destruct (decide (f = [])) as [->|Hne].
  - destruct fuel; [simpl in Hf; lia|]. reflexivity.
  - pose proof (grep_loop pattern fuel [] f Hf ltac:(unfold BUFSIZE; simpl; lia)
      (Forall_nil_2 _) Hc Hs) as E.
    unfold one_piece in E. by rewrite bool_decide_false in E.
Qed.

(** C17: On a file whose lines fit in the buffer, [grep] prints exactly the
    lines that [match] accepts, complete and in order; what follows the last
    newline is not a line.  The loop ends: one round per byte of the file is
    enough. *)
Theorem grep_file pattern f fuel :
  cstring f -> short_lines f -> (length f < fuel)%nat ->
  grep fuel pattern [] [f] = Some (selected pattern (lines f).1).
Proof. apply grep_whole. Qed.

Definition ex_text : list Z := lit "ab" ++ [NEWLINE] ++ lit "b" ++ [NEWLINE] ++ lit "a".

Lemma grep_file_witness : grep 7 (lit "a") [] [ex_text] = Some (lit "ab" ++ [NEWLINE]).
Proof.
  apply (grep_file (lit "a") ex_text 7);
    unfold cstring, short_lines; apply (bool_decide_unpack _); vm_compute; exact I.
Defined.

(** A read that brings no newline is forgotten by [grep], although the line
    it begins may go on in the next one: input from a pipe or from the console
    can lose the beginning of a line. *)
Theorem grep_forgets pattern c s fuel :
  c <> [] -> cstring c -> no_newline c -> (length c < BUFSIZE)%nat ->
  grep (S fuel) pattern [] (c :: s) = grep fuel pattern [] s.
Proof.
  intros Hne Hc Hn Hlt. cbn [grep]. unfold read. rewrite bool_decide_true, take_ge
    by (unfold BUFSIZE in *; simpl; lia).
  destruct c as [|x c]; [done|]. rewrite grep_round_spec, !app_nil_l, lines_none by done.
  rewrite bool_decide_true by done. simpl. by destruct (grep fuel pattern [] s).
Qed.

Lemma grep_forgets_witness :
  gmatch (lit "a") (lit "abc") = true /\
  grep 5 (lit "a") [] [lit "ab"; lit "c" ++ [NEWLINE]] = Some [].
Proof.
  split; [reflexivity|].
  rewrite (grep_forgets (lit "a") (lit "ab") [lit "c" ++ [NEWLINE]] 4);
    [reflexivity|..]; unfold cstring, no_newline; apply (bool_decide_unpack _); vm_compute; exact I.
Defined.

(** ** The program *)

Open Scope prog_scope.

(** The lines in the buffer, each written when it matches; the incomplete rest *)
Fixpoint scan_prog (fuel : nat) (pattern p : list Z) : prog (list Z) :=
  match fuel with
  | O => Done p
  | S fuel =>
      match strchr (p ++ [0]) NEWLINE with
      | Some (Some q) =>
          pwhen (gmatch pattern (take q p)) (sys (CWrite 1 (take (S q) p));; Done tt);;
          scan_prog fuel pattern (drop (S q) p)
      | _ => Done p
      end
  end.

Definition grep_prog_round (pattern : list Z) (fd : Z) (buf : list Z) : prog (list Z + unit) :=
  r <- sys2 (CRead fd (Z.of_nat (BUFSIZE - length buf - 1)));;
  if 0 <? r.1 then
    let buf := buf ++ r.2 in
    p <- scan_prog (S (length buf)) pattern buf;;
    Done (inl (if bool_decide (length p = length buf) then [] else p))
  else Done (inr tt).
Definition grep_prog (fuel : nat) (pattern : list Z) (fd : Z) : prog unit :=
  ploop fuel (grep_prog_round pattern fd) [].

Definition grep_main (fuel : nat) (argv : list (list Z)) : prog unit :=
  match argv with
  | _ :: pattern :: files =>
      match files with
      | [] => grep_prog fuel pattern 0;; Halt
      | _ => each_file "grep: cannot open %s" files (fun fd _ => grep_prog fuel pattern fd);; Halt
      end
  | _ => uprintf 2 (line "usage: grep pattern [file ...]") [];; Halt
  end.

Section GrepIo.
Context (files : list Z -> option stream).

Lemma scan_prog_io pattern n : forall p out w, outp w = out ->
  exists w', iorun files (scan_prog n pattern p) w = (Some (scan_lines n pattern p out).2, w') /\
    outp w' = (scan_lines n pattern p out).1 /\ ins w' = ins w.
Proof.
  induction n as [|n IH]; intros p out w Hw; [by exists w|]. cbn [scan_prog scan_lines].
  destruct (strchr (p ++ [0]) NEWLINE) as [[q|]|]; [|by exists w..].
  rewrite iorun_bind. destruct (gmatch pattern (take q p)).
  - cbn [pwhen sys pbind iorun io_call]. change (1 =? 1) with true. cbv iota.
    destruct (IH (drop (S q) p) (out ++ take (S q) p) (Io (ins w) (outp w ++ take (S q) p))) as (w' & R & O & I); [by rewrite <- Hw|].
    by exists w'.
  - cbn [pwhen iorun]. by apply IH.
Qed.

Lemma scan_lines_out pattern n : forall p out,
  scan_lines n pattern p out = (out ++ (scan_lines n pattern p []).1, (scan_lines n pattern p []).2).
Proof.
  induction n as [|n IH]; intros p out; cbn [scan_lines]; [by rewrite app_nil_r|].
  destruct (strchr (p ++ [0]) NEWLINE) as [[q|]|]; [|cbn [fst snd]; by rewrite app_nil_r..].
  cbv zeta. destruct (gmatch pattern (take q p)); [|apply IH].
  rewrite (IH _ (out ++ _)), (IH _ ([] ++ _)). cbn [fst snd]. by rewrite app_assoc.
Qed.

(** The program writes what [grep] computes. *)
Lemma grep_prog_io pattern fd fuel : forall buf w out,
  grep fuel pattern buf (ins w fd) = Some out ->
  exists w', iorun files (ploop fuel (grep_prog_round pattern fd) buf) w = (Some tt, w') /\ outp w' = outp w ++ out.
Proof.
  induction fuel as [|fuel IH]; intros buf w out E; [done|]. cbn [grep] in E. cbn [ploop].
  unfold grep_prog_round at 1. cbn [sys2 pbind iorun io_call]. rewrite Nat2Z.id.
  destruct (read _ (ins w fd)) as [[|c l] s]; cbn [iorun fst snd pbind].
  - injection E as <-. change (0 <? Z.of_nat (length [])) with false. cbn [iorun pbind]. eexists. split; [done|]. simpl. by rewrite app_nil_r.
  - rewrite (proj2 (Z.ltb_lt 0 _)) by (simpl; lia). cbn [pbind]. unfold grep_round in E. set (b := buf ++ c :: l) in *.
    set (w1 := Io (fun x => if x =? fd then s else ins w x) (outp w)).
    destruct (scan_prog_io pattern (S (length b)) b (outp w) w1 eq_refl) as (w2 & R & O & I).
    rewrite scan_lines_out in R, O. destruct (scan_lines _ pattern b []) as [o p]. cbn [fst snd] in *.
    destruct (grep fuel pattern _ s) as [out'|] eqn:Eg; [|done]. injection E as <-.
    destruct (IH (if bool_decide (length p = length b) then [] else p) w2 out') as (w' & R' & O').
    { rewrite I. simpl. by rewrite Z.eqb_refl. }
    exists w'. rewrite !iorun_bind, R. cbn [iorun]. split; [exact R'|]. by rewrite O', O, app_assoc.
Qed.

(** [grep pattern file ...] prints the matching lines of the files, in order. *)
Theorem grep_main_selects fuel name pattern args w : args <> [] ->
  Forall (fun a => exists f, files a = Some [f] /\ cstring f /\ short_lines f /\ (length f < fuel)%nat) args ->
  exists w', iorun files (grep_main fuel (name :: pattern :: args)) w = (None, w') /\
    outp w' = outp w ++ concat ((fun a => selected pattern (lines (concat (default [] (files a)))).1) <$> args).
Proof.
  intros Hne Hargs. unfold grep_main. destruct args as [|a0 args0] eqn:Ea; [done|]. rewrite <- Ea in *. clear Ea Hne.
  destruct (each_file_io files "grep: cannot open %s" (fun fd _ => grep_prog fuel pattern fd)
    (fun _ l => selected pattern (lines l).1) args fuel) with (w := w) as (w' & R & O).
  - intros a s fd w1 Ha E Ei Hl. destruct (proj1 (Forall_forall _ _) Hargs a Ha) as (f & Ef & Hc & Hs & Hf).
    rewrite E in Ef. injection Ef as ->. simpl concat. rewrite app_nil_r.
    apply grep_prog_io. rewrite Ei. by apply grep_whole.
  - eapply Forall_impl; [exact Hargs|]. intros a (f & Ef & _ & _ & Hf). exists [f]. simpl. by rewrite app_nil_r.
  - exists w'. rewrite iorun_bind, R. split; [done|exact O].
Qed.
End GrepIo.
