(* ===== verification/Sh.v ===== *)
(** * The shell's parser (sh.c)

    A command line is an array [s ++ [0]]; a pointer into it is the rest of
    [s] from there, so that [es] is [[]] and reading at [es] gives the
    terminator.  The parser leaves pointers to the two ends of each word in
    the command it builds; [nulterminate] then writes a terminator at every
    right end.  [panic] prints a message and ends the process.  Running a
    command is the subject of Shrun.v. *)

From S2P Require Import Prelude Params CString Printk.

#[local] Arguments lit : simpl never.

Abbreviation ptr := (list Z).

(** [struct cmd] and its variants.  A word is a pair of pointers. *)
Inductive cmd :=
| EXEC (argv : list (ptr * ptr))
| REDIR (c : cmd) (file efile : ptr) (mode fd : Z)
| PIPE (left right : cmd)
| LIST (left right : cmd)
| BACK (c : cmd).

Definition MAXARGS : nat := 10.

(** Sequencing of calls that may end the process *)
Definition obind {A B} (m : outcome A) (f : A -> outcome B) : outcome B :=
  match m with
  | Ret a => f a
  | Panic s => Panic s
  | Fault => Fault
  | Blocked => Blocked
  | Exited => Exited
  | NoFuel => NoFuel
  end.
Declare Scope parser_scope.
Delimit Scope parser_scope with parser.
Notation "' p <- m ;; k" := (obind m (fun x => match x with p => k end))
  (at level 100, p pattern, m at next level, right associativity) : parser_scope.
Open Scope parser_scope.

(** ** Tokens *)

Definition whitespace : list Z := [32; 9; 13; 10; 11].
Definition symbols : list Z := lit "<|>&;()".

(** [strchr(set, c)] as a condition *)
Definition isin (set : list Z) (c : Z) : bool := bool_decide (c ∈ set).

(** [while(s < es && strchr(whitespace, *s)) s++;] *)
Fixpoint skip (s : ptr) : ptr :=
  match s with
  | c :: s' => if isin whitespace c then skip s' else s
  | [] => []
  end.

(** [while(s < es && !strchr(whitespace, *s) && !strchr(symbols, *s)) s++;] *)
Fixpoint skip_word (s : ptr) : ptr :=
  match s with
  | c :: s' => if negb (isin whitespace c) && negb (isin symbols c) then skip_word s' else s
  | [] => []
  end.

Definition TOK_WORD : Z := 97.
Definition TOK_APPEND : Z := 43.
Definition GT : Z := 62.

(** The token's kind, its two ends and the new position. *)
Definition gettoken (s : ptr) : Z * ptr * ptr * ptr :=
  let s := skip s in
  match s with
  | [] => (0, s, s, s)
  | c :: t =>
      if isin (lit "|();&<") c then (c, s, t, skip t)
      else if c =? GT then
        match t with
        | x :: t' => if x =? GT then (TOK_APPEND, s, t', skip t') else (GT, s, t, skip t)
        | [] => (GT, s, t, skip t)
        end
      else let e := skip_word s in (TOK_WORD, s, e, skip e)
  end.

Definition peek (s : ptr) (toks : list Z) : bool * ptr :=
  let s := skip s in
  (match s with c :: _ => isin toks c | [] => false end, s).

(** ** The parser

    [peek] comes before each [gettoken] whose result is ignored, so these take
    the one character that was seen. *)

Definition next (s : ptr) : ptr := (gettoken s).2.

Fixpoint parse_backs (fuel : nat) (c : cmd) (s : ptr) : outcome (cmd * ptr) :=
  match fuel with
  | O => NoFuel
  | S fuel =>
      let ' (b, s) := peek s (lit "&") in
      if b then parse_backs fuel (BACK c) (next s) else Ret (c, s)
  end.

Definition O_OUT : Z := Z.lor O_WRONLY O_CREATE.

(** [cmd] is the command to wrap. *)
Definition redir : Type := cmd -> cmd.

(** The redirections, the first one innermost: what they do to a command. *)
Fixpoint parseredirs (fuel : nat) (w : redir) (s : ptr) : outcome (redir * ptr) :=
  match fuel with
  | O => NoFuel
  | S fuel =>
      let ' (b, s) := peek s (lit "<>") in
      if b then
        let ' (tok, _, _, s) := gettoken s in
        let ' (t, q, eq, s) := gettoken s in
        if negb (t =? TOK_WORD) then Panic "missing file for redirection"
        else if tok =? 60 then parseredirs fuel (fun c => REDIR (w c) q eq O_RDONLY 0) s
        else parseredirs fuel (fun c => REDIR (w c) q eq O_OUT 1) s
      else Ret (w, s)
  end.

(** The loop of [parseexec]: [argv] so far and the redirections around it. *)
Fixpoint parse_args (fuel : nat) (argv : list (ptr * ptr)) (w : redir) (s : ptr)
    : outcome (cmd * ptr) :=
  match fuel with
  | O => NoFuel
  | S fuel =>
      let ' (b, s) := peek s (lit "|)&;") in
      if b then Ret (w (EXEC argv), s) else
      let ' (tok, q, eq, s) := gettoken s in
      if tok =? 0 then Ret (w (EXEC argv), s) else
      if negb (tok =? TOK_WORD) then Panic "syntax" else
      let argv := argv ++ [(q, eq)] in
      if bool_decide (MAXARGS <= length argv)%nat then Panic "too many args" else
      ' (w, s) <- parseredirs (S (length s)) w s;;
      parse_args fuel argv w s
  end.

Fixpoint parseline (fuel : nat) (s : ptr) : outcome (cmd * ptr) :=
  match fuel with
  | O => NoFuel
  | S fuel =>
      ' (c, s) <- parsepipe fuel s;;
      ' (c, s) <- parse_backs (S (length s)) c s;;
      let ' (b, s) := peek s (lit ";") in
      if b then
        ' (r, s) <- parseline fuel (next s);;
        Ret (LIST c r, s)
      else Ret (c, s)
  end
with parsepipe (fuel : nat) (s : ptr) : outcome (cmd * ptr) :=
  match fuel with
  | O => NoFuel
  | S fuel =>
      ' (c, s) <- parseexec fuel s;;
      let ' (b, s) := peek s (lit "|") in
      if b then
        ' (r, s) <- parsepipe fuel (next s);;
        Ret (PIPE c r, s)
      else Ret (c, s)
  end
with parseexec (fuel : nat) (s : ptr) : outcome (cmd * ptr) :=
  match fuel with
  | O => NoFuel
  | S fuel =>
      let ' (b, s) := peek s (lit "(") in
      if b then (* parseblock *)
        ' (c, s) <- parseline fuel (next s);;
        let ' (b, s) := peek s (lit ")") in
        if negb b then Panic "syntax - missing )" else
        let s := next s in
        ' (w, s) <- parseredirs (S (length s)) id s;;
        Ret (w c, s)
      else
        ' (w, s) <- parseredirs (S (length s)) id s;;
        parse_args (S (length s)) [] w s
  end.

(** ** nulterminate *)

(** [*eq = 0], in the array [buf], whose last byte is at [es]. *)
Definition nul (eq : ptr) (buf : list Z) : list Z := <[(length buf - 1 - length eq)%nat := 0]> buf.

Fixpoint nulterminate (c : cmd) (buf : list Z) : list Z :=
  match c with
  | EXEC argv => foldl (fun buf a => nul a.2 buf) buf argv
  | REDIR c _ efile _ _ => nul efile (nulterminate c buf)
  | PIPE l r => nulterminate r (nulterminate l buf)
  | LIST l r => nulterminate r (nulterminate l buf)
  | BACK c => nulterminate c buf
  end.

Definition parse_fuel (s : list Z) : nat := 3 * length s + 3.

(** The command and the array with the words terminated. *)
Definition parsecmd (s : list Z) : outcome (cmd * list Z) :=
  ' (c, r) <- parseline (parse_fuel s) s;;
  let ' (_, r) := peek r [] in
  match r with
  | [] => Ret (c, nulterminate c (s ++ [0]))
  | _ => Panic "syntax"
  end.

(** ** The parser ends *)

#[local] Arguments peek : simpl never.

Lemma skip_length s : (length (skip s) <= length s)%nat.
Proof. induction s as [|c s IH]; [done|]. simpl. destruct (isin whitespace c); simpl; lia. Qed.

Lemma skip_skip s : skip (skip s) = skip s.
Proof.
  induction s as [|c s IH]; [done|]. simpl.
  destruct (isin whitespace c) eqn:E; [done|]. simpl. by rewrite E.
Qed.

Lemma skip_word_length s : (length (skip_word s) <= length s)%nat.
Proof. induction s as [|c s IH]; [done|]. simpl. destruct (_ && _); simpl; lia. Qed.

Lemma isin_symbols c : isin (lit "|();&<") c = false -> (c =? GT) = false -> isin symbols c = false.
Proof.
  unfold isin. rewrite !bool_decide_eq_false. intros H H' Hin. apply H.
  repeat (apply elem_of_cons in Hin as [->|Hin]; [try done; set_solver|]). set_solver.
Qed.

Lemma skip_head s c t : skip s = c :: t -> isin whitespace c = false.
Proof.
  induction s as [|x s IH]; [done|]. simpl. destruct (isin whitespace x) eqn:E; [done|].
  congruence.
Qed.

(** A token is not empty, except at the end. *)
Lemma gettoken_shorter s : skip s <> [] -> (length (gettoken s).2 < length s)%nat.
Proof.
  intros Hne. pose proof (skip_length s). pose proof (skip_head s) as Hh. unfold gettoken.
  destruct (skip s) as [|c t]; [done|]. specialize (Hh c t eq_refl). simpl in *.
  destruct (isin (lit "|();&<") c) eqn:E1; [pose proof (skip_length t); simpl in *; lia|].
  destruct (c =? GT) eqn:E2.
  - destruct t as [|x t]; [simpl in *; lia|]. pose proof (skip_length t).
    pose proof (skip_length (x :: t)). destruct (x =? GT); simpl in *; lia.
  - rewrite Hh, (isin_symbols _ E1 E2). simpl. pose proof (skip_length (skip_word t)).
    pose proof (skip_word_length t). lia.
Qed.

Lemma peek_next s toks : (peek s toks).1 = true -> (length (next (peek s toks).2) < length s)%nat.
Proof.
  unfold peek, next. simpl. intros H. pose proof (gettoken_shorter (skip s)) as G.
  rewrite skip_skip in G. pose proof (skip_length s).
  destruct (skip s) as [|c t] eqn:E; [done|]. specialize (G ltac:(done)). lia.
Qed.

Lemma peek_le s toks : (length (peek s toks).2 <= length s)%nat.
Proof. apply skip_length. Qed.

(** A result, if any, is at a later position, and there was enough fuel. *)
Definition ends {A} (m : outcome (A * ptr)) (s : ptr) : Prop :=
  match m with
  | Ret (_, s') => (length s' <= length s)%nat
  | NoFuel => False
  | _ => True
  end.

Lemma ends_bind {A B} (m : outcome (A * ptr)) (f : A * ptr -> outcome (B * ptr)) s s0 :
  ends m s -> (length s <= length s0)%nat ->
  (forall a s', (length s' <= length s)%nat -> ends (f (a, s')) s0) -> ends (obind m f) s0.
Proof. intros Hm Hs Hf. destruct m as [[a s']| | | | |]; try done. by apply Hf. Qed.

Lemma ends_le {A} (m : outcome (A * ptr)) s s0 :
  ends m s -> (length s <= length s0)%nat -> ends m s0.
Proof. destruct m as [[a s']| | | | |]; simpl; try done. lia. Qed.

Lemma parse_backs_ends fuel : forall c s, (length s < fuel)%nat -> ends (parse_backs fuel c s) s.
Proof.
  induction fuel as [|fuel IH]; intros c s Hlt; [lia|]. cbn [parse_backs].
  pose proof (peek_next s (lit "&")). pose proof (peek_le s (lit "&")).
  destruct (peek s (lit "&")) as [[] s'] eqn:E; simpl in *; [|done].
  eapply ends_le; [apply IH|]; lia.
Qed.

Lemma parseredirs_ends fuel : forall w s, (length s < fuel)%nat -> ends (parseredirs fuel w s) s.
Proof.
  induction fuel as [|fuel IH]; intros w s Hlt; [lia|]. cbn [parseredirs].
  pose proof (peek_next s (lit "<>")). pose proof (peek_le s (lit "<>")).
  destruct (peek s (lit "<>")) as [[] s'] eqn:E; simpl in *; [|done].
  unfold next in *. destruct (gettoken s') as [[[tok ?] ?] s1]. simpl in *.
  pose proof (gettoken_shorter s1) as G. unfold gettoken in *.
  destruct (skip s1) as [|c t] eqn:E1; [done|]. specialize (G ltac:(done)).
  destruct (if isin _ c then _ else _) as [[[t1 q] eq] s2]. simpl in *.
  destruct (negb (t1 =? TOK_WORD)); [done|].
  destruct (tok =? 60); (eapply ends_le; [apply IH|]; lia).
Qed.

#[local] Arguments parseredirs : simpl never.

Lemma parse_args_ends fuel : forall argv w s, (length s < fuel)%nat ->
  ends (parse_args fuel argv w s) s.
Proof.
  induction fuel as [|fuel IH]; intros argv w s Hlt; [lia|]. cbn [parse_args].
  pose proof (skip_length s). unfold peek.
  destruct (match skip s with c :: _ => isin (lit "|)&;") c | [] => false end); [simpl; lia|].
  pose proof (gettoken_shorter (skip s)) as G. rewrite skip_skip in G. unfold gettoken in *.
  rewrite skip_skip in *.
  destruct (skip s) as [|c t] eqn:E1; [simpl; lia|]. specialize (G ltac:(done)).
  destruct (if isin _ c then _ else _) as [[[t1 q] eq] s2]. simpl in G, H.
  destruct (t1 =? 0); [simpl; lia|]. destruct (negb _); [done|].
  case_bool_decide; [done|]. eapply ends_bind; [apply parseredirs_ends; lia|lia|].
  intros w' s' Hs'. eapply ends_le; [apply IH|]; lia.
Qed.

Lemma parse_ends fuel :
  (forall s, (3 * length s + 3 <= fuel)%nat -> ends (parseline fuel s) s) /\
  (forall s, (3 * length s + 2 <= fuel)%nat -> ends (parsepipe fuel s) s) /\
  (forall s, (3 * length s + 1 <= fuel)%nat -> ends (parseexec fuel s) s).
Proof.
  induction fuel as [|fuel (IH1 & IH2 & IH3)]; [split_and!; intros; lia|]. split_and!; intros s Hs.
  - cbn [parseline]. eapply ends_bind; [apply IH2; lia|done|]. intros c s1 H1.
    eapply ends_bind; [apply parse_backs_ends; lia|done|]. intros c' s2 H2.
    pose proof (peek_next s2 (lit ";")). pose proof (peek_le s2 (lit ";")).
    destruct (peek s2 (lit ";")) as [[] s3] eqn:E; simpl in *; [|lia].
    eapply ends_bind; [apply IH1; lia|lia|]. intros r s4 H4. simpl. lia.
  - cbn [parsepipe]. eapply ends_bind; [apply IH3; lia|done|]. intros c s1 H1.
    pose proof (peek_next s1 (lit "|")). pose proof (peek_le s1 (lit "|")).
    destruct (peek s1 (lit "|")) as [[] s3] eqn:E; simpl in *; [|lia].
    eapply ends_bind; [apply IH2; lia|lia|]. intros r s4 H4. simpl. lia.
  - cbn [parseexec]. pose proof (peek_next s (lit "(")). pose proof (peek_le s (lit "(")).
    destruct (peek s (lit "(")) as [[] s3] eqn:E; cbn [fst snd] in *.
    + eapply ends_bind; [apply IH1; lia|lia|]. intros c s4 H4.
      pose proof (peek_next s4 (lit ")")). pose proof (peek_le s4 (lit ")")).
      destruct (peek s4 (lit ")")) as [[] s5] eqn:E5; cbn [fst snd negb] in *; [|done].
      eapply ends_bind; [apply parseredirs_ends; lia|lia|]. intros w s6 H6. simpl. lia.
    + eapply ends_bind; [apply parseredirs_ends; lia|lia|].
      intros w s6 H6. eapply ends_le; [apply parse_args_ends|]; lia.
Qed.

(** C15: The shell's parser always ends: on every line it returns a command or
    reports an error, and recursion three times as deep as the line is long is
    enough. *)
Theorem parsecmd_ends s : parsecmd s <> NoFuel.
Proof.
  unfold parsecmd. pose proof (proj1 (parse_ends (parse_fuel s)) s ltac:(unfold parse_fuel; lia)) as H.
  destruct (parseline (parse_fuel s) s) as [[c r]| | | | |]; try done.
  simpl. by destruct (skip r).
Qed.

(** ** Words and their terminators *)

Definition word_char (c : Z) : Prop := isin whitespace c = false /\ isin symbols c = false.

(** [(q, eq)] are the ends of a word of the line [s]. *)
Definition token (s : list Z) (a : ptr * ptr) : Prop :=
  a.1 `suffix_of` s /\ a.2 = skip_word a.1 /\ a.1 <> a.2.

Fixpoint tokens (c : cmd) : list (ptr * ptr) :=
  match c with
  | EXEC argv => argv
  | REDIR c q eq _ _ => tokens c ++ [(q, eq)]
  | PIPE l r => tokens l ++ tokens r
  | LIST l r => tokens l ++ tokens r
  | BACK c => tokens c
  end.

Lemma skip_suffix s : skip s `suffix_of` s.
Proof.
  induction s as [|c s IH]; [done|]. simpl.
  destruct (isin whitespace c); [by apply suffix_cons_r|done].
Qed.

Lemma skip_word_spec s : exists w, s = w ++ skip_word s /\ Forall word_char w /\
  (forall c t, skip_word s = c :: t -> ~ word_char c).
Proof.
  induction s as [|c s (w & E & Hw & Ht)]; [by exists []|]. simpl.
  destruct (isin whitespace c) eqn:E1; [|destruct (isin symbols c) eqn:E2]; simpl.
  - exists []. split; [done|]. split; [constructor|]. intros x t Hx. injection Hx as <- <-.
    unfold word_char. naive_solver congruence.
  - exists []. split; [done|]. split; [constructor|]. intros x t Hx. injection Hx as <- <-.
    unfold word_char. naive_solver congruence.
  - exists (c :: w). split; [by rewrite E at 1|]. split; [by constructor|done].
Qed.

Lemma skip_word_suffix s : skip_word s `suffix_of` s.
Proof. destruct (skip_word_spec s) as (w & E & _). by exists w. Qed.

Lemma gettoken_suffix s : (gettoken s).2 `suffix_of` s.
Proof.
  pose proof (skip_suffix s) as Hs. unfold gettoken.
  destruct (skip s) as [|c t] eqn:E; [done|]. etrans; [|exact Hs].
  destruct (isin _ c); simpl; [etrans; [apply skip_suffix|by apply suffix_cons_r]|].
  destruct (c =? GT); simpl.
  - destruct t as [|x t]; [by apply suffix_cons_r|]. destruct (x =? GT).
    + etrans; [apply skip_suffix|]. by do 2 apply suffix_cons_r.
    + etrans; [apply skip_suffix|]. by apply suffix_cons_r.
  - etrans; [apply skip_suffix|]. apply (skip_word_suffix (c :: t)).
Qed.

Lemma gettoken_word s0 s q eq s' : s `suffix_of` s0 ->
  gettoken s = (TOK_WORD, q, eq, s') -> token s0 (q, eq).
Proof.
  intros Hs0. pose proof (skip_suffix s) as Hs. pose proof (skip_head s) as Hh. unfold gettoken.
  destruct (skip s) as [|c t] eqn:E; [done|].
  destruct (isin (lit "|();&<") c) eqn:E1.
  { intros H. injection H as -> _ _ _. done. }
  destruct (c =? GT) eqn:E2.
  { destruct t as [|x t]; [done|]. by destruct (x =? GT). }
  intros H. injection H as <- <- _. specialize (Hh c t eq_refl).
  split; [by etrans|]. split; [done|]. simpl. rewrite Hh, (isin_symbols _ E1 E2). simpl.
  intros H. apply (f_equal length) in H. pose proof (skip_word_length t). simpl in H. lia.
Qed.

(** ** The words of a parsed command are tokens *)

Definition sound {A} (s0 : list Z) (words : A -> list (ptr * ptr)) (m : outcome (A * ptr)) : Prop :=
  match m with
  | Ret (a, s) => Forall (token s0) (words a) /\ s `suffix_of` s0
  | _ => True
  end.

Lemma sound_bind {A B} s0 f g (m : outcome (A * ptr)) (k : A * ptr -> outcome (B * ptr)) :
  sound s0 f m ->
  (forall a s, Forall (token s0) (f a) -> s `suffix_of` s0 -> sound s0 g (k (a, s))) ->
  sound s0 g (obind m k).
Proof. intros Hm Hk. destruct m as [[a s]| | | | |]; try done. destruct Hm. by apply Hk. Qed.

Lemma peek_suffix s toks s0 : s `suffix_of` s0 -> (peek s toks).2 `suffix_of` s0.
Proof. intros H. etrans; [apply skip_suffix|done]. Qed.

Lemma next_suffix s s0 : s `suffix_of` s0 -> next s `suffix_of` s0.
Proof. intros H. etrans; [apply gettoken_suffix|done]. Qed.

Create HintDb shell.
#[export] Hint Resolve peek_suffix next_suffix : shell.

(** What redirections add to the words of a command *)
Definition adds_tokens (s0 : list Z) (w : redir) : Prop :=
  forall c, Forall (token s0) (tokens c) -> Forall (token s0) (tokens (w c)).

Definition sound_redirs (s0 : list Z) (m : outcome (redir * ptr)) : Prop :=
  match m with Ret (w, s) => adds_tokens s0 w /\ s `suffix_of` s0 | _ => True end.

Lemma parseredirs_sound s0 fuel : forall w s, adds_tokens s0 w -> s `suffix_of` s0 ->
  sound_redirs s0 (parseredirs fuel w s).
Proof.
  induction fuel as [|fuel IH]; intros w s Hw Hs; [done|]. unfold parseredirs. fold parseredirs.
  pose proof (peek_suffix s (lit "<>") s0 Hs) as Hp.
  destruct (peek s (lit "<>")) as [[] s1]; [|done]. simpl in Hp.
  pose proof (gettoken_suffix s1) as H1. destruct (gettoken s1) as [[[tok ?] ?] s2].
  assert (s2 `suffix_of` s0) as H2 by by etrans.
  pose proof (gettoken_suffix s2) as H3. pose proof (gettoken_word s0 s2) as Hword.
  destruct (gettoken s2) as [[[t q] eq] s3]. simpl in *.
  assert (s3 `suffix_of` s0) as H4 by by etrans.
  destruct (Z.eqb_spec t TOK_WORD) as [->|]; [|done]. simpl.
  specialize (Hword q eq s3 H2 eq_refl).
  assert (forall m fd, adds_tokens s0 (fun c => REDIR (w c) q eq m fd)) as Hadd.
  { intros m fd c Hc. simpl. apply Forall_app. split; [by apply Hw|by constructor]. }
  destruct (tok =? 60); by apply IH.
Qed.

Lemma redirs_bind {B} s0 w s g fuel (k : redir * ptr -> outcome (B * ptr)) :
  adds_tokens s0 w -> s `suffix_of` s0 ->
  (forall w s, adds_tokens s0 w -> s `suffix_of` s0 -> sound s0 g (k (w, s))) ->
  sound s0 g (obind (parseredirs fuel w s) k).
Proof.
  intros Hw Hs Hk. pose proof (parseredirs_sound s0 fuel w s Hw Hs) as H.
  destruct (parseredirs fuel w s) as [[w' s']| | | | |]; try done. destruct H. by apply Hk.
Qed.

Lemma parse_args_sound s0 fuel : forall argv w s, Forall (token s0) argv -> adds_tokens s0 w ->
  s `suffix_of` s0 -> sound s0 tokens (parse_args fuel argv w s).
Proof.
  induction fuel as [|fuel IH]; intros argv w s Ha Hw Hs; [done|]. cbn [parse_args].
  pose proof (peek_suffix s (lit "|)&;") s0 Hs) as Hp.
  destruct (peek s (lit "|)&;")) as [[] s1]; simpl in Hp; [split; [by apply Hw|done]|].
  pose proof (gettoken_suffix s1) as H1. pose proof (gettoken_word s0 s1) as Hword.
  destruct (gettoken s1) as [[[t q] eq] s2]. simpl in *.
  assert (s2 `suffix_of` s0) as H2 by by etrans.
  destruct (t =? 0); [split; [by apply Hw|done]|].
  destruct (Z.eqb_spec t TOK_WORD) as [->|]; [|done]. simpl. case_bool_decide; [done|].
  apply redirs_bind; [done|done|]. intros w' s3 Hw' H3. apply IH; [|done|done].
  apply Forall_app. split; [done|]. constructor; [by eapply Hword|done].
Qed.

Lemma parse_backs_sound s0 fuel : forall c s, Forall (token s0) (tokens c) -> s `suffix_of` s0 ->
  sound s0 tokens (parse_backs fuel c s).
Proof.
  induction fuel as [|fuel IH]; intros c s Hc Hs; [done|]. cbn [parse_backs].
  pose proof (peek_suffix s (lit "&") s0 Hs) as Hp.
  destruct (peek s (lit "&")) as [[] s1]; simpl in Hp; [|done]. apply IH; auto with shell.
Qed.

Lemma parse_sound s0 fuel :
  (forall s, s `suffix_of` s0 -> sound s0 tokens (parseline fuel s)) /\
  (forall s, s `suffix_of` s0 -> sound s0 tokens (parsepipe fuel s)) /\
  (forall s, s `suffix_of` s0 -> sound s0 tokens (parseexec fuel s)).
Proof.
  induction fuel as [|fuel (IH1 & IH2 & IH3)]; [done|]. split_and!; intros s Hs.
  - cbn [parseline]. eapply sound_bind; [by apply IH2|]. intros c s1 Hc H1.
    eapply sound_bind; [by apply parse_backs_sound|]. intros c' s2 Hc' H2.
    pose proof (peek_suffix s2 (lit ";") s0 H2) as Hp.
    destruct (peek s2 (lit ";")) as [[] s3]; simpl in Hp; [|done].
    eapply sound_bind; [apply IH1; auto with shell|]. intros r s4 Hr H4.
    split; [|done]. by apply Forall_app.
  - cbn [parsepipe]. eapply sound_bind; [by apply IH3|]. intros c s1 Hc H1.
    pose proof (peek_suffix s1 (lit "|") s0 H1) as Hp.
    destruct (peek s1 (lit "|")) as [[] s3]; simpl in Hp; [|done].
    eapply sound_bind; [apply IH2; auto with shell|]. intros r s4 Hr H4.
    split; [|done]. by apply Forall_app.
  - cbn [parseexec]. pose proof (peek_suffix s (lit "(") s0 Hs) as Hp.
    destruct (peek s (lit "(")) as [[] s1]; cbn [snd] in Hp.
    + eapply sound_bind; [apply IH1; auto with shell|]. intros c s2 Hc H2.
      pose proof (peek_suffix s2 (lit ")") s0 H2) as Hp2.
      destruct (peek s2 (lit ")")) as [[] s3]; cbn [snd negb] in *; [|done].
      apply redirs_bind; [by intros ?|auto with shell|]. intros w s4 Hw H4.
      split; [by apply Hw|done].
    + apply redirs_bind; [by intros ?|done|]. intros w s4 Hw H4. by apply parse_args_sound.
Qed.

(** ** What nulterminate writes *)

(** The C string at pointer [q] in the array [buf] *)
Definition string_at (buf : list Z) (q : ptr) : list Z :=
  until0 (drop (length buf - 1 - length q) buf).

(** The characters between the two ends of a word *)
Definition text (a : ptr * ptr) : list Z := take (length a.1 - length a.2) a.1.

Definition nuls (as_ : list (ptr * ptr)) (buf : list Z) : list Z :=
  foldl (fun buf a => nul a.2 buf) buf as_.

Lemma nulterminate_nuls c : forall buf, nulterminate c buf = nuls (tokens c) buf.
Proof.
  induction c; intros buf; simpl; unfold nuls in *; rewrite ?foldl_app; simpl; congruence.
Qed.

Lemma nuls_length l : forall buf, length (nuls l buf) = length buf.
Proof.
  induction l as [|a l IH]; intros buf; [done|].
  change (nuls (a :: l) buf) with (nuls l (nul a.2 buf)). rewrite IH. apply length_insert.
Qed.

(** A position is 0 when a pointer of [l] points there, and else untouched. *)
Lemma nuls_other l : forall buf i,
  (forall a, a ∈ l -> i <> (length buf - 1 - length a.2)%nat) -> nuls l buf !! i = buf !! i.
Proof.
  induction l as [|a l IH]; intros buf i Hi; [done|].
  change (nuls (a :: l) buf) with (nuls l (nul a.2 buf)). rewrite IH.
  - unfold nul. rewrite list_lookup_insert_ne; [done|]. intros E. apply (Hi a); [by left|done].
  - intros b Hb. unfold nul. rewrite length_insert. apply Hi. by right.
Qed.

Lemma nuls_zero l : forall buf i, buf !! i = Some 0 -> nuls l buf !! i = Some 0.
Proof.
  induction l as [|a l IH]; intros buf i Hi; [done|].
  change (nuls (a :: l) buf) with (nuls l (nul a.2 buf)). apply IH. unfold nul.
  destruct (decide (i = (length buf - 1 - length a.2)%nat)) as [->|Hne].
  - apply list_lookup_insert_eq. by eapply lookup_lt_Some.
  - by rewrite list_lookup_insert_ne.
Qed.

Lemma nuls_at l : forall buf a, a ∈ l -> (length a.2 < length buf)%nat ->
  nuls l buf !! (length buf - 1 - length a.2)%nat = Some 0.
Proof.
  induction l as [|b l IH]; intros buf a Ha Hlt; [by apply not_elem_of_nil in Ha|].
  change (nuls (b :: l) buf) with (nuls l (nul b.2 buf)).
  apply elem_of_cons in Ha as [->|Ha].
  - apply nuls_zero. unfold nul. apply list_lookup_insert_eq. lia.
  - specialize (IH (nul b.2 buf) a Ha). unfold nul in IH |- *. rewrite length_insert in IH.
    by apply IH.
Qed.

Lemma until0_word w r : Forall (fun c => c <> 0) w -> until0 (w ++ 0 :: r) = w.
Proof.
  induction 1 as [|c w Hc _ IH]; [done|]. simpl. rewrite IH. by destruct (Z.eqb_spec c 0).
Qed.

(** The array at the pointer [r ++ [0]] *)
Lemma lookup_suffix (s p r : list Z) i : s = p ++ r ->
  (s ++ [0]) !! (length s - length r + i)%nat = (r ++ [0]) !! i.
Proof.
  intros ->. rewrite <- app_assoc, lookup_app_r; rewrite length_app; [f_equal|]; lia.
Qed.

Lemma text_spec s a : token s a -> exists w, text a = w /\ a.1 = w ++ a.2 /\ Forall word_char w /\ w <> [].
Proof.
  intros (_ & Hsk & Hne). destruct (skip_word_spec a.1) as (w & Ew & Hw & _).
  rewrite <- Hsk in Ew. exists w. split_and!; [|done|done|].
  - unfold text. rewrite Ew at 2. rewrite take_app_length'; [done|]. rewrite Ew, length_app. lia.
  - intros ->. by destruct a.
Qed.

(** No pointer to an end of a word points into a word. *)
Lemma token_disjoint s a b i : token s a -> token s b -> (i < length (text a))%nat ->
  (length s - length a.1 + i)%nat <> (length s - length b.2)%nat.
Proof.
  intros Ha ([p' Eb] & Hb & _) Hi E.
  destruct (text_spec s a Ha) as (w & Et & Ew & Hw & _). destruct Ha as ([p Ea] & _).
  destruct (skip_word_spec b.1) as (w' & Ew' & _ & Hend). rewrite <- Hb in Ew', Hend.
  rewrite Et in Hi. destruct (lookup_lt_is_Some_2 w i Hi) as [c Hc].
  pose proof (lookup_suffix s p a.1 i Ea) as L1.
  rewrite E, Ew, <- (app_assoc w), (lookup_app_l w), Hc in L1 by done.
  pose proof (lookup_suffix s (p' ++ w') b.2 0) as L2. rewrite Nat.add_0_r in L2.
  rewrite L1 in L2. rewrite Forall_lookup in Hw. specialize (Hw i c Hc).
  destruct b.2 as [|x t] eqn:Eb2; simpl in L2.
  - specialize (L2 ltac:(by rewrite Eb, Ew', <- app_assoc)). injection L2 as ->.
    rewrite Ea, !length_app, Ew, length_app in E. simpl in E. lia.
  - specialize (L2 ltac:(by rewrite Eb, Ew', <- app_assoc)). injection L2 as ->.
    by eapply Hend.
Qed.

Lemma terminated s l a : Forall (fun c => c <> 0) s -> Forall (token s) l -> a ∈ l ->
  string_at (nuls l (s ++ [0])) a.1 = text a.
Proof.
  intros Hs Hl Ha. rewrite Forall_forall in Hl.
  assert (token s a) as Hta by by apply Hl.
  destruct (text_spec s a Hta) as (w & Et & Ew & Hw & _). destruct Hta as ([p Ea] & _).
  unfold string_at. rewrite nuls_length, length_app, Nat.add_sub. set (n := (length s - length a.1)%nat).
  set (buf := nuls l (s ++ [0])).
  assert (drop n buf = w ++ 0 :: drop (n + S (length w)) buf) as ->; [|rewrite Et].
  - apply list_eq. intros i. rewrite lookup_drop.
    destruct (Nat.lt_trichotomy i (length w)) as [Hi|[->|Hi]].
    + rewrite lookup_app_l by done. unfold buf, n. rewrite nuls_other.
      * rewrite (lookup_suffix s p a.1 i Ea), Ew, <- app_assoc. by apply lookup_app_l.
      * intros b Hb. rewrite length_app, Nat.add_sub. apply token_disjoint; [by apply Hl|by apply Hl|by rewrite Et].
    + rewrite lookup_app_r, Nat.sub_diag by done. simpl. unfold buf, n.
      replace (length s - length a.1 + length w)%nat
        with (length s - length a.2)%nat.
      * rewrite <- (Nat.add_sub (length s) 1) at 1. change 1%nat with (length [0]) at 1.
        rewrite <- length_app. apply nuls_at; [done|].
        rewrite length_app, Ea, length_app, Ew, length_app. simpl. lia.
      * rewrite Ea, length_app, Ew, length_app. lia.
    + rewrite lookup_app_r, lookup_cons_ne_0 by lia. rewrite lookup_drop. f_equal. lia.
  - apply until0_word. rewrite Ea, Ew in Hs. by apply Forall_app in Hs as [_ [? _]%Forall_app].
Qed.

(** C13: The strings that the shell passes to [exec] and [open] are the words of
    the line: every word of a parsed command has its terminator, and no
    terminator was written into a word. *)
Theorem words_terminated s c buf : Forall (fun x => x <> 0) s ->
  parsecmd s = Ret (c, buf) ->
  Forall (fun a => string_at buf a.1 = text a /\ text a <> [] /\ Forall word_char (text a)) (tokens c).
Proof.
  intros Hs Hp. unfold parsecmd in Hp.
  pose proof (proj1 (parse_sound s (parse_fuel s)) s ltac:(done)) as Hok.
  destruct (parseline (parse_fuel s) s) as [[c' r]| | | | |]; try done. simpl in *.
  destruct (skip r); [|done]. injection Hp as -> <-. destruct Hok as [Htok _].
  rewrite nulterminate_nuls. apply Forall_forall. intros a Ha.
  split; [by apply terminated|]. rewrite Forall_forall in Htok.
  destruct (text_spec s a (Htok a Ha)) as (w & -> & _ & ? & ?). done.
Qed.

Lemma words_terminated_witness :
  exists c buf, parsecmd (lit "ls -l>out") = Ret (c, buf) /\ length (tokens c) = 3%nat /\
    Forall (fun a => string_at buf a.1 = text a /\ text a <> [] /\ Forall word_char (text a))
      (tokens c).
Proof.
  eexists _, _. split; [vm_compute; reflexivity|]. split; [reflexivity|].
  eapply (words_terminated (lit "ls -l>out"));
    [apply (bool_decide_unpack _); vm_compute; exact I|vm_compute; reflexivity].
Defined.

(** ** Printing and parsing

    Commands as the user means them, and how to write them, with parentheses
    around every subcommand. *)

Inductive tree :=
| TExec (args : list (list Z))
| TRedir (t : tree) (out : bool) (file : list Z)
| TPipe (l r : tree)
| TList (l r : tree)
| TBack (t : tree).

Definition paren (s r : list Z) : list Z := 40 :: s ++ 41 :: r.

(** The text of [t], followed by [rest]. *)
Fixpoint print (t : tree) (rest : list Z) : list Z :=
  match t with
  | TExec args => foldr (fun w s => w ++ 32 :: s) rest args
  | TRedir t out f => 40 :: print t (41 :: (if out then 62 else 60) :: f ++ rest)
  | TPipe l r => 40 :: print l (41 :: 124 :: 40 :: print r (41 :: rest))
  | TList l r => 40 :: print l (41 :: 59 :: 40 :: print r (41 :: rest))
  | TBack t => 40 :: print t (41 :: 38 :: rest)
  end.

Definition good_word (w : list Z) : Prop := w <> [] /\ Forall (fun c => word_char c /\ c <> 0) w.

Fixpoint good (t : tree) : Prop :=
  match t with
  | TExec args => Forall good_word args /\ (length args < MAXARGS)%nat
  | TRedir t _ f => good t /\ good_word f
  | TPipe l r => good l /\ good r
  | TList l r => good l /\ good r
  | TBack t => good t
  end.

(** The command with its words read by [rd]. *)
Fixpoint read_back (rd : ptr * ptr -> list Z) (c : cmd) : tree :=
  match c with
  | EXEC argv => TExec (rd <$> argv)
  | REDIR c q eq _ fd => TRedir (read_back rd c) (fd =? 1) (rd (q, eq))
  | PIPE l r => TPipe (read_back rd l) (read_back rd r)
  | LIST l r => TList (read_back rd l) (read_back rd r)
  | BACK c => TBack (read_back rd c)
  end.

(** What may follow a command: nothing, or a closing parenthesis. *)
Definition closed (rest : list Z) : Prop := rest = [] \/ exists r, rest = 41 :: r.

Definition starts (s toks : list Z) : bool :=
  match s with c :: _ => isin toks c | [] => false end.

Lemma peek_eq s toks : skip s = s -> peek s toks = (starts s toks, s).
Proof. intros E. unfold peek. by rewrite E. Qed.

Lemma word_not_in c toks : word_char c -> forallb (isin symbols) toks = true -> isin toks c = false.
Proof.
  intros [_ H] Hsub. unfold isin at 1. apply bool_decide_eq_false. intros Hin.
  rewrite forallb_forall in Hsub. rewrite list_elem_of_In in Hin. apply Hsub in Hin. congruence.
Qed.

Lemma skip_good w r : good_word w -> skip (w ++ r) = w ++ r.
Proof.
  intros [Hne Hw]. destruct w as [|c w]; [done|]. apply Forall_cons in Hw as [[[H _] _] _].
  simpl. by rewrite H.
Qed.

Lemma starts_good w r toks : good_word w -> forallb (isin symbols) toks = true -> starts (w ++ r) toks = false.
Proof.
  intros [Hne Hw] Hsub. destruct w as [|c w]; [done|]. apply Forall_cons in Hw as [[H _] _].
  by apply word_not_in.
Qed.

(** [r] does not go on with a word. *)
Definition breaks (r : list Z) : Prop := match r with c :: _ => ~ word_char c | [] => True end.

Lemma skip_word_app w r : Forall (fun c => word_char c /\ c <> 0) w -> breaks r ->
  skip_word (w ++ r) = r.
Proof.
  intros Hw Hr. induction Hw as [|c w [[H1 H2] _] _ IH]; simpl; [|by rewrite H1, H2].
  destruct r as [|c r]; [done|]. simpl in *. unfold word_char in Hr.
  destruct (isin whitespace c), (isin symbols c); naive_solver.
Qed.

Lemma gettoken_good w r : good_word w -> breaks r ->
  gettoken (w ++ r) = (TOK_WORD, w ++ r, r, skip r).
Proof.
  intros Hg Hr. unfold gettoken. rewrite skip_good by done. destruct Hg as [Hne Hw].
  pose proof (skip_word_app w r Hw Hr) as E. destruct w as [|c w]; [done|].
  apply Forall_cons in Hw as [[Hc _] _]. cbn [app] in *.
  rewrite (word_not_in c (lit "|();&<")) by done.
  destruct (Z.eqb_spec c GT) as [->|]; [by destruct Hc|]. by rewrite E.
Qed.

Lemma closed_facts rest : closed rest ->
  skip rest = rest /\ breaks rest /\ forall toks, isin toks 41 = false -> starts rest toks = false.
Proof. intros [->|[r ->]]; [done|]. split; [done|]. split; [by intros [_ ?]|done]. Qed.

Lemma text_app w r : text (w ++ r, r) = w.
Proof. unfold text. simpl. rewrite take_app_length'; [done|]. rewrite length_app. lia. Qed.

Lemma parseredirs_none fuel w s : skip s = s -> starts s (lit "<>") = false ->
  parseredirs (S fuel) w s = Ret (w, s).
Proof. intros E H. unfold parseredirs. by rewrite peek_eq, H. Qed.

Lemma parse_args_print rest : closed rest -> forall args fuel argv w,
  Forall good_word args -> (length argv + length args < MAXARGS)%nat ->
  (length args < fuel)%nat ->
  exists toks, parse_args fuel argv w (print (TExec args) rest) = Ret (w (EXEC (argv ++ toks)), rest)
    /\ text <$> toks = args.
Proof.
  intros Hc. destruct (closed_facts rest Hc) as (Hskip & Hbr & Hst).
  induction args as [|a args IH]; intros [|fuel] argv w Hg Hn Hlt; simpl in Hlt; try lia.
  - exists []. split; [|done]. cbn [print foldr parse_args]. rewrite peek_eq, app_nil_r by done.
    destruct Hc as [->|[r ->]]; [reflexivity|]. reflexivity.
  - apply Forall_cons in Hg as [Ha Hg].
    set (s := print (TExec args) rest).
    assert (skip s = s /\ starts s (lit "<>") = false) as [Hs1 Hs2].
    { unfold s. simpl. destruct args as [|b args]; simpl; [split; [done|by apply Hst]|].
      apply Forall_cons in Hg as [Hb _]. split; [by apply skip_good|].
      by apply starts_good. }
    change (print (TExec (a :: args)) rest) with (a ++ 32 :: s). cbn [parse_args].
    rewrite peek_eq, starts_good
      by (by apply skip_good || done).
    rewrite gettoken_good by (done || by intros [? _]).
    change (TOK_WORD =? 0) with false. change (negb (TOK_WORD =? TOK_WORD)) with false. cbv iota.
    simpl in Hn. rewrite bool_decide_false by (rewrite length_app; simpl; lia).
    change (skip (32 :: s)) with (skip s). rewrite Hs1, parseredirs_none by done. cbn [obind].
    destruct (IH fuel (argv ++ [(a ++ 32 :: s, 32 :: s)]) w) as (toks & E & Et);
      [done|rewrite length_app; simpl; lia|lia|].
    exists ((a ++ 32 :: s, 32 :: s) :: toks). split.
    + fold s in E. rewrite E. by rewrite <- app_assoc.
    + rewrite fmap_cons, text_app, Et. done.
Qed.

(** ** Parsing what was printed *)


Lemma skip_print t rest : good t -> closed rest -> skip (print t rest) = print t rest.
Proof.
  intros Hg Hc. destruct t; try done. simpl in *. destruct args as [|a args]; simpl.
  - by apply closed_facts.
  - destruct Hg as [Hg _]. apply Forall_cons in Hg as [Ha _]. by apply skip_good.
Qed.

(** What [parseline] does with the text of [t] and a rest, given enough fuel. *)
Definition parses (t : tree) : Prop := forall rest fuel, closed rest ->
  (3 * length (print t rest) + 3 <= fuel)%nat ->
  exists c, parseline fuel (print t rest) = Ret (c, rest) /\ read_back text c = t.

(** A subcommand in parentheses *)
Lemma parse_block t rest fuel : good t -> parses t ->
  (3 * length (print t (41%Z :: rest)) + 3 <= fuel)%nat ->
  exists c, read_back text c = t /\
    parseexec (S fuel) (40 :: print t (41 :: rest)) =
      obind (parseredirs (S (length (skip rest))) id (skip rest)) (fun ' (w, s) => Ret (w c, s)).
Proof.
  intros Hg Ht Hf. destruct (Ht (41 :: rest) fuel) as (c & E & Ec); [right; by eexists|done|].
  exists c. split; [done|]. cbn [parseexec]. rewrite peek_eq by done.
  change (starts (40 :: print t (41 :: rest)) (lit "(")) with true. cbv iota.
  change (next (40 :: print t (41 :: rest))) with (skip (print t (41 :: rest))).
  rewrite skip_print by (done || (right; by eexists)). rewrite E. cbn [obind].
  rewrite peek_eq by done. reflexivity.
Qed.

Lemma parsepipe_stop fuel s c r : parseexec fuel s = Ret (c, r) -> skip r = r ->
  starts r (lit "|") = false -> parsepipe (S fuel) s = Ret (c, r).
Proof. intros E Hs Hr. cbn [parsepipe]. rewrite E. cbn [obind]. by rewrite peek_eq, Hr. Qed.

Lemma parseline_stop fuel s c r : parsepipe fuel s = Ret (c, r) -> skip r = r ->
  starts r (lit "&") = false -> starts r (lit ";") = false -> parseline (S fuel) s = Ret (c, r).
Proof.
  intros E Hs H1 H2. cbn [parseline]. rewrite E. cbn [obind]. cbn [parse_backs].
  rewrite peek_eq, H1 by done. cbn [obind]. by rewrite peek_eq, H2.
Qed.

Lemma parsepipe_more fuel s c r c' r' : parseexec fuel s = Ret (c, 124 :: r) -> skip r = r ->
  parsepipe fuel r = Ret (c', r') -> parsepipe (S fuel) s = Ret (PIPE c c', r').
Proof.
  intros E Hs Hr. cbn [parsepipe]. rewrite E. cbn [obind]. rewrite peek_eq by done.
  change (starts (124 :: r) (lit "|")) with true. cbv iota.
  change (next (124 :: r)) with (skip r). by rewrite Hs, Hr.
Qed.

Lemma parseline_more fuel s c r c' r' : parsepipe fuel s = Ret (c, 59 :: r) -> skip r = r ->
  parseline fuel r = Ret (c', r') -> parseline (S fuel) s = Ret (LIST c c', r').
Proof.
  intros E Hs Hr. cbn [parseline]. rewrite E. cbn [obind parse_backs].
  rewrite peek_eq by done. change (starts (59 :: r) (lit "&")) with false. cbn [obind].
  rewrite peek_eq by done. change (starts (59 :: r) (lit ";")) with true. cbv iota.
  change (next (59 :: r)) with (skip r). by rewrite Hs, Hr.
Qed.

Lemma parseline_back fuel s c r : parsepipe fuel s = Ret (c, 38 :: r) -> skip r = r ->
  starts r (lit "&") = false -> starts r (lit ";") = false ->
  parseline (S fuel) s = Ret (BACK c, r).
Proof.
  intros E Hs H1 H2. cbn [parseline]. rewrite E. cbn [obind length parse_backs].
  rewrite peek_eq by done. change (starts (38 :: r) (lit "&")) with true. cbv iota.
  change (next (38 :: r)) with (skip r). rewrite Hs, peek_eq, H1 by done. cbn [obind].
  by rewrite peek_eq, H2.
Qed.

Lemma length_print_le t r : (length r <= length (print t r))%nat.
Proof.
  revert r. induction t; intros r; simpl.
  - induction args as [|a args IH]; simpl; [lia|]. rewrite length_app. simpl. lia.
  - etrans; [|apply le_S, IHt]. destruct out; simpl; rewrite length_app; lia.
  - etrans; [|apply le_S, IHt1]. simpl. pose proof (IHt2 (41 :: r)). simpl in *. lia.
  - etrans; [|apply le_S, IHt1]. simpl. pose proof (IHt2 (41 :: r)). simpl in *. lia.
  - etrans; [|apply le_S, IHt]. simpl. lia.
Qed.

Lemma parse_block_plain t rest fuel : good t -> parses t ->
  (3 * length (print t (41%Z :: rest)) + 3 <= fuel)%nat ->
  skip rest = rest -> starts rest (lit "<>") = false ->
  exists c, read_back text c = t /\
    parseexec (S fuel) (40 :: print t (41 :: rest)) = Ret (c, rest).
Proof.
  intros Hg Ht Hf Hs Hr. destruct (parse_block t rest fuel Hg Ht Hf) as (c & Ec & E).
  exists c. split; [done|]. by rewrite E, Hs, parseredirs_none.
Qed.

Lemma parses_exec args : good (TExec args) -> parses (TExec args).
Proof.
  intros [Hg Hn] rest [|[|[|fuel]]] Hc Hf; try lia.
  destruct (closed_facts rest Hc) as (Hskip & _ & Hst).
  assert (forall toks, forallb (isin symbols) toks = true -> isin toks 41 = false ->
    starts (print (TExec args) rest) toks = false) as Hstart.
  { intros toks H1 H2. destruct args as [|a args]; [by apply Hst|].
    apply Forall_cons in Hg as [Ha _]. by apply starts_good. }
  assert (skip (print (TExec args) rest) = print (TExec args) rest) as Hs by by apply skip_print.
  destruct (parse_args_print rest Hc args (S (length (print (TExec args) rest))) [] id)
    as (toks & E & Et); [done|done| |].
  { clear. simpl. induction args as [|a args IH]; simpl; [lia|]. rewrite length_app. simpl in *. lia. }
  exists (EXEC toks). split; [|simpl; by rewrite Et].
  eapply parseline_stop; [|done|by apply Hst..]. eapply parsepipe_stop; [|done|by apply Hst].
  cbn [parseexec]. rewrite peek_eq, Hstart by done. rewrite parseredirs_none by (done || by apply Hstart).
  cbn [obind]. exact E.
Qed.

Lemma parses_redir t out f : good (TRedir t out f) -> parses t -> parses (TRedir t out f).
Proof.
  intros [Hg Hw] Ht rest [|[|[|fuel]]] Hc Hf; try lia.
  destruct (closed_facts rest Hc) as (Hskip & Hbr & Hst).
  set (r := (if out then 62 else 60) :: f ++ rest).
  change (print (TRedir t out f) rest) with (40 :: print t (41 :: r)) in *.
  destruct (parse_block t r fuel Hg Ht) as (c & Ec & E); [simpl in Hf; lia|].
  assert (exists m fd, (fd =? 1) = out /\
    parseredirs (S (length (skip r))) id (skip r) = Ret (fun c => REDIR c (f ++ rest) rest m fd, rest))
    as (m & fd & Hfd & Er).
  { assert (skip r = r) as -> by by destruct out. unfold parseredirs. fold parseredirs.
    rewrite peek_eq by by destruct out.
    assert (starts r (lit "<>") = true) as -> by by destruct out. cbv iota.
    assert (exists t', gettoken r = (if out then 62 else 60, r, t', f ++ rest)) as [t' ->].
    { unfold r. destruct out; simpl; unfold gettoken; simpl.
      - destruct f as [|x f'] eqn:Ef; [by destruct Hw|]. rewrite <- Ef in *. simpl.
        assert ((x =? GT) = false) as Hx.
        { destruct Hw as [_ Hw]. rewrite Ef in Hw. apply Forall_cons in Hw as [[[_ Hx] _] _].
          by destruct (Z.eqb_spec x GT) as [->|]. }
        eexists. rewrite Ef. cbn [app]. rewrite Hx. rewrite <- Ef.
        change (x :: f' ++ rest) with ((x :: f') ++ rest). rewrite <- Ef. by rewrite skip_good.
      - eexists. by rewrite skip_good. }
    rewrite gettoken_good by done. change (negb (TOK_WORD =? TOK_WORD)) with false. cbv iota.
    unfold r. cbn [length]. rewrite Hskip.
    destruct out; [exists O_OUT, 1|exists O_RDONLY, 0]; (split; [done|]);
      simpl; by rewrite parseredirs_none by (done || by apply Hst). }
  exists (REDIR c (f ++ rest) rest m fd). split; [|simpl; by rewrite Ec, Hfd, text_app].
  eapply parseline_stop; [|done|by apply Hst..]. eapply parsepipe_stop; [|done|by apply Hst].
  by rewrite E, Er.
Qed.

Lemma parse_good t : good t -> parses t.
Proof.
  induction t as [args|t IH out f|l IHl r IHr|l IHl r IHr|t IH]; intros Hg.
  - by apply parses_exec.
  - apply parses_redir; [done|]. by apply IH, Hg.
  - destruct Hg as [Hl Hr]. intros rest fuel Hc Hf. cbn [print length] in Hf.
    pose proof (length_print_le l (41 :: 124 :: 40 :: print r (41 :: rest))) as Hlen.
    cbn [length] in Hlen. destruct fuel as [|[|[|[|fuel]]]]; try lia.
    destruct (closed_facts rest Hc) as (Hskip & _ & Hst).
    destruct (parse_block_plain l (124 :: 40 :: print r (41 :: rest)) (S fuel)) as (cl & El & Pl);
      [done|by apply IHl|lia|done|done|].
    destruct (parse_block_plain r rest fuel) as (cr & Er & Pr);
      [done|by apply IHr|lia|done|by apply Hst|].
    exists (PIPE cl cr). split; [|simpl; by rewrite El, Er].
    eapply parseline_stop; [|done|by apply Hst..]. cbn [print].
    eapply parsepipe_more; [exact Pl|done|].
    by eapply parsepipe_stop; [exact Pr|done|apply Hst].
  - destruct Hg as [Hl Hr]. intros rest fuel Hc Hf. cbn [print length] in Hf.
    pose proof (length_print_le l (41 :: 59 :: 40 :: print r (41 :: rest))) as Hlen.
    cbn [length] in Hlen. destruct fuel as [|[|[|[|fuel]]]]; try lia.
    destruct (closed_facts rest Hc) as (Hskip & _ & Hst).
    destruct (parse_block_plain l (59 :: 40 :: print r (41 :: rest)) (S fuel)) as (cl & El & Pl);
      [done|by apply IHl|lia|done|done|].
    destruct (parse_block_plain r rest fuel) as (cr & Er & Pr);
      [done|by apply IHr|lia|done|by apply Hst|].
    exists (LIST cl cr). split; [|simpl; by rewrite El, Er]. cbn [print].
    eapply parseline_more; [by eapply parsepipe_stop; [exact Pl|..]|done|].
    eapply parseline_stop; [|done|by apply Hst..].
    by eapply parsepipe_stop; [exact Pr|done|apply Hst].
  - intros rest fuel Hc Hf. cbn [print length] in Hf.
    pose proof (length_print_le t (41 :: 38 :: rest)) as Hlen.
    cbn [length] in Hlen. destruct fuel as [|[|[|fuel]]]; try lia.
    destruct (closed_facts rest Hc) as (Hskip & _ & Hst).
    destruct (parse_block_plain t (38 :: rest) fuel) as (c & Ec & P);
      [done|by apply IH|lia|done|done|].
    exists (BACK c). split; [|simpl; by rewrite Ec]. cbn [print].
    eapply parseline_back; [by eapply parsepipe_stop; [exact P|..]|done|by apply Hst..].
Qed.

Lemma print_nonzero t : forall rest, good t -> Forall (fun c => c <> 0) rest ->
  Forall (fun c => c <> 0) (print t rest).
Proof.
  assert (forall w r, good_word w -> Forall (fun c => c <> 0) r -> Forall (fun c => c <> 0) (w ++ r))
    as Hword.
  { intros w r [_ Hw] Hr. apply Forall_app. split; [|done]. eapply Forall_impl; [done|]. by intros c []. }
  induction t as [args|t IH out f|l IHl r IHr|l IHl r IHr|t IH]; intros rest Hg Hr; simpl in *.
  - destruct Hg as [Hg _]. induction Hg as [|a args Ha _ IH]; [done|]. simpl.
    apply Hword; [done|]. by constructor.
  - destruct Hg. constructor; [done|]. apply IH; [done|].
    do 2 (constructor; [by destruct out|]). by apply Hword.
  - destruct Hg. constructor; [done|]. apply IHl; [done|]. do 3 (constructor; [done|]).
    apply IHr; [done|]. by constructor.
  - destruct Hg. constructor; [done|]. apply IHl; [done|]. do 3 (constructor; [done|]).
    apply IHr; [done|]. by constructor.
  - constructor; [done|]. apply IH; [done|]. by do 2 (constructor; [done|]).
Qed.

Lemma read_back_ext f g c : Forall (fun a => f a = g a) (tokens c) -> read_back f c = read_back g c.
Proof.
  induction c; simpl; intros H.
  - f_equal. by apply Forall_fmap_ext.
  - apply Forall_app in H as [H1 H2]. apply Forall_cons in H2 as [H2 _]. by rewrite IHc, H2.
  - apply Forall_app in H as [H1 H2]. by rewrite IHc1, IHc2.
  - apply Forall_app in H as [H1 H2]. by rewrite IHc1, IHc2.
  - by rewrite IHc.
Qed.

(** C12: The shell understands what it is told: a command written with
    parentheses around its parts, with words free of blanks and symbols and
    less than ten of them per program, is parsed to that same command, and the
    strings found in the line afterwards are its words. *)
Theorem parse_print t : good t ->
  exists c buf, parsecmd (print t []) = Ret (c, buf)
    /\ read_back (fun a => string_at buf a.1) c = t.
Proof.
  intros Hg. destruct (parse_good t Hg [] (parse_fuel (print t []))) as (c & E & Ec);
    [by left|unfold parse_fuel; lia|].
  pose proof (print_nonzero t [] Hg (Forall_nil_2 _)) as Hz.
  pose proof (proj1 (parse_sound (print t []) (parse_fuel (print t []))) (print t []) ltac:(done)) as Hok.
  rewrite E in Hok. destruct Hok as [Htok _].
  exists c, (nulterminate c (print t [] ++ [0])). split; [unfold parsecmd; by rewrite E|].
  transitivity (read_back text c); [|exact Ec]. apply read_back_ext. apply Forall_forall. intros a Ha.
  rewrite nulterminate_nuls. by apply terminated.
Qed.

Definition ex_cmd : tree :=
  TPipe (TRedir (TExec [lit "cat"; lit "-n"]) false (lit "in")) (TBack (TExec [lit "wc"])).

Lemma parse_print_witness :
  exists c buf, parsecmd (lit "((cat -n )<in)|((wc )&)") = Ret (c, buf)
    /\ read_back (fun a => string_at buf a.1) c = ex_cmd.
Proof.
  apply (parse_print ex_cmd). unfold ex_cmd, good, good_word, word_char, isin.
  repeat split; apply (bool_decide_unpack _); vm_compute; exact I.
Defined.
