(* ===== verification/Shrun.v ===== *)
(** * Running commands (sh.c: runcmd, getcmd, main)

    The shell runs a parsed command in a process of its own, which forks
    further ones and connects them by their descriptors.  The programs are
    trees of system calls; [rd] reads the words that the parser left in the
    line. *)

From S2P Require Import Prelude Params CString Printk Ulib Sh Uproc.

Open Scope prog_scope.

(** [panic(s)] of the shell *)
Definition sh_panic (s : string) : prog unit :=
  uprintf 2 (lit "%s" ++ [NEWLINE]) [AStr (Some (lit s))];; Halt.

Definition fork1 : prog Z :=
  pid <- sys CFork;;
  pwhen (pid =? -1) (sh_panic "fork");;
  Done pid.

(** The redirections are those of standard descriptors. *)
Fixpoint std_redirs (c : cmd) : Prop :=
  match c with
  | EXEC _ => True
  | REDIR c _ _ _ fd => 0 <= fd < 3 /\ std_redirs c
  | PIPE l r | LIST l r => std_redirs l /\ std_redirs r
  | BACK c => std_redirs c
  end.

Section Runcmd.
Context (rd : ptr * ptr -> list Z).

(** Never returns. *)
Fixpoint runcmd (c : cmd) : prog unit :=
  match c with
  | EXEC argv =>
      match argv with
      | [] => Halt
      | a :: _ =>
          sys (CExec (rd a) (rd <$> argv));;
          uprintf 2 (lit "exec %s failed" ++ [NEWLINE]) [AStr (Some (rd a))]
      end
  | REDIR c q eq mode fd =>
      sys (CClose fd);;
      r <- sys (COpen (rd (q, eq)) mode);;
      pwhen (r <? 0) (uprintf 2 (lit "open %s failed" ++ [NEWLINE]) [AStr (Some (rd (q, eq)))];; Halt);;
      runcmd c
  | LIST l r =>
      pid <- fork1;;
      pwhen (pid =? 0) (runcmd l);;
      sys CWait;;
      runcmd r
  | PIPE l r =>
      p <- sys2 CPipe;;
      pwhen (p.1 <? 0) (sh_panic "pipe");;
      let p0 := p.2 !!! 0%nat in
      let p1 := p.2 !!! 1%nat in
      pid <- fork1;;
      pwhen (pid =? 0) (sys (CClose 1);; sys (CDup p1);; sys (CClose p0);; sys (CClose p1);; runcmd l);;
      pid <- fork1;;
      pwhen (pid =? 0) (sys (CClose 0);; sys (CDup p0);; sys (CClose p0);; sys (CClose p1);; runcmd r);;
      sys (CClose p0);; sys (CClose p1);;
      sys CWait;; sys CWait;; Done tt
  | BACK c =>
      pid <- fork1;;
      pwhen (pid =? 0) (runcmd c)
  end;;
  Halt.

(** ** What a command means: the programs with their descriptors *)

Section Meaning.
Context (can_open : list Z -> Z -> bool) (can_exec : list Z -> bool).

Fixpoint images (c : cmd) (t : fdt) (n : nat) : list (list Z * list (list Z) * fdt) * nat :=
  match c with
  | EXEC argv =>
      match argv with
      | [] => ([], n)
      | a :: _ => (if can_exec (rd a) then [(rd a, rd <$> argv, t)] else [], n)
      end
  | REDIR c q eq mode fd =>
      if can_open (rd (q, eq)) mode then images c (<[Z.to_nat fd := Some (OFile (rd (q, eq)) mode)]> t) n else ([], n)
  | LIST l r =>
      let ' (a, n) := images l t n in
      let ' (b, n) := images r t n in (a ++ b, n)
  | PIPE l r =>
      let ' (a, n') := images l (<[1%nat := Some (OPipeW n)]> t) (S n) in
      let ' (b, n') := images r (<[0%nat := Some (OPipeR n)]> t) n' in (a ++ b, n')
  | BACK c => images c t n
  end.

(** ** The descriptors of a shell process *)

(** Standard input, output and error are open, and there is room for a pipe. *)
Record ready (t : fdt) (a b : nat) : Prop := {
  ry_std : forall i, (i < 3)%nat -> exists o, t !! i = Some (Some o);
  ry_a : list_find (fun x => x = None) t = Some (a, None);
  ry_b : list_find (fun x => x = None) (drop (S a) t) = Some (b - S a, None)%nat;
  ry_lt : (a < b)%nat
}.

Lemma ready_range t a b : ready t a b -> (3 <= a < b)%nat /\ t !! a = Some None /\ t !! b = Some None /\
  forall i, (i < b)%nat -> i <> a -> exists o, t !! i = Some (Some o).
Proof.
  intros [R1 R2 R3 R4]. apply list_find_Some in R2 as (A1 & _ & A2). apply list_find_Some in R3 as (B1 & _ & B2).
  rewrite lookup_drop in B1. replace (S a + (b - S a))%nat with b in B1 by lia. split_and!; try done.
  - destruct (decide (3 <= a)%nat); [done|]. destruct (R1 a) as [o E]; [lia|]. congruence.
  - intros i Hi Hne. destruct (lookup_lt_is_Some_2 t i) as [[o|] E]; [apply lookup_lt_Some in B1; lia|by exists o|].
    destruct (decide (i < a)%nat); [by destruct (A2 i None E)|].
    assert (drop (S a) t !! (i - S a)%nat = Some None) as E'.
    { rewrite lookup_drop. by replace (S a + (i - S a))%nat with i by lia. }
    by destruct (B2 _ _ E' ltac:(lia)).
Qed.

Lemma ready_intro t a b : (3 <= a < b)%nat -> t !! a = Some None -> t !! b = Some None ->
  (forall i, (i < b)%nat -> i <> a -> exists o, t !! i = Some (Some o)) -> ready t a b.
Proof.
  intros Hab Ha Hb Hi. split; [intros i H3; apply Hi; lia|..|lia].
  - apply list_find_Some. split_and!; [done|done|]. intros j y Hj Hlt ->. destruct (Hi j) as [o E]; [lia|lia|]. congruence.
  - apply list_find_Some. rewrite lookup_drop. replace (S a + (b - S a))%nat with b by lia.
    split_and!; [done|done|]. intros j y Hj Hlt ->. rewrite lookup_drop in Hj.
    destruct (Hi (S a + j)%nat) as [o E]; [lia|lia|]. congruence.
Qed.

(** A standard descriptor may get another object. *)
Lemma ready_insert t a b i o : ready t a b -> (i < 3)%nat -> ready (<[i := Some o]> t) a b.
Proof.
  intros R Hi. destruct (ready_range _ _ _ R) as (Hab & Ha & Hb & Ho).
  apply ready_intro; [done|by rewrite list_lookup_insert_ne by lia|by rewrite list_lookup_insert_ne by lia|].
  intros j Hj Hne. destruct (decide (j = i)) as [->|Hn].
  - exists o. apply list_lookup_insert_eq. apply lookup_lt_Some in Hb. lia.
  - rewrite list_lookup_insert_ne by done. by apply Ho.
Qed.

(** [close(i)] and the next allocation give descriptor [i]. *)
Lemma alloc_closed t (i : nat) o : (i < length t)%nat -> (forall j, (j < i)%nat -> exists o, t !! j = Some (Some o)) ->
  fd_alloc (<[i := None]> t) o = Some (i, <[i := Some o]> t).
Proof.
  intros Hl Hi. unfold fd_alloc.
  assert (list_find (fun x => x = None) (<[i := None]> t) = Some (i, None)) as ->.
  { apply list_find_Some. rewrite list_lookup_insert_eq by done. split_and!; [done|done|].
    intros j y Hj Hlt ->. rewrite list_lookup_insert_ne in Hj by lia. destruct (Hi j Hlt). congruence. }
  by rewrite list_insert_insert_eq.
Qed.

Lemma close_call (i : nat) (t : fdt) o n : t !! i = Some (Some o) ->
  fd_call can_open (CClose (Z.of_nat i)) t n = (0, [], <[i := None]> t, n).
Proof.
  intros Hi. cbn [fd_call]. unfold fd_obj, fd_close. rewrite (proj2 (Z.ltb_ge _ _)) by lia. by rewrite Nat2Z.id, Hi.
Qed.

Section Pipe.
Context (t : fdt) (a b n : nat).
Hypothesis R : ready t a b.
Local Abbreviation t2 := (<[b := Some (OPipeW n)]> (<[a := Some (OPipeR n)]> t)).

Lemma pipe_call : fd_call can_open CPipe t n = (0, [Z.of_nat a; Z.of_nat b], t2, S n).
Proof.
  destruct (ready_range _ _ _ R) as (Hab & Ha & Hb & Ho). cbn [fd_call]. unfold fd_alloc at 1. rewrite (ry_a _ _ _ R).
  unfold fd_alloc.
  assert (list_find (fun x => x = None) (<[a := Some (OPipeR n)]> t) = Some (b, None)) as ->; [|done].
  apply list_find_Some. rewrite list_lookup_insert_ne by lia. split_and!; [done|done|]. intros j y Hj Hlt ->.
  destruct (decide (j = a)) as [->|Hne].
  - rewrite list_lookup_insert_eq in Hj by (by eapply lookup_lt_Some). done.
  - rewrite list_lookup_insert_ne in Hj by done. destruct (Ho j Hlt Hne). congruence.
Qed.

Lemma pipe_ends : t2 !! b = Some (Some (OPipeW n)) /\ t2 !! a = Some (Some (OPipeR n)).
Proof.
  destruct (ready_range _ _ _ R) as (Hab & Ha & Hb & _). apply lookup_lt_Some in Ha, Hb.
  rewrite list_lookup_insert_eq by (by rewrite length_insert). rewrite list_lookup_insert_ne by lia.
  by rewrite list_lookup_insert_eq.
Qed.

(** [close(i); dup(p[x]); close(p[0]); close(p[1])] with [o] the object at [x] *)
Lemma pipe_child (i x : nat) o {B} (f : Z -> prog B) m : (i < 3)%nat -> t2 !! x = Some (Some o) -> x = a \/ x = b ->
  pexec can_open can_exec (sys (CClose (Z.of_nat i));; sys (CDup (Z.of_nat x));;
    sys (CClose (Z.of_nat a));; v <- sys (CClose (Z.of_nat b));; f v) t2 m =
  pexec can_open can_exec (f 0) (<[i := Some o]> t) m.
Proof.
  intros Hi Hx Hab'. destruct (ready_range _ _ _ R) as (Hab & Ha & Hb & Ho).
  assert (length t2 = length t) as Hlen by by rewrite !length_insert.
  assert (i < length t)%nat as Hil by (apply lookup_lt_Some in Hb; lia).
  assert (forall j, (j < 3)%nat -> exists z, t2 !! j = Some (Some z)) as H3.
  { intros j Hj. rewrite !list_lookup_insert_ne by lia. apply Ho; lia. }
  destruct (H3 i Hi) as [zi Hzi].
  set (u := <[i := Some o]> t2).
  assert (fd_call can_open (CDup (Z.of_nat x)) (<[i := None]> t2) m = (Z.of_nat i, [], u, m)) as Hdup.
  { cbn [fd_call]. unfold fd_obj. rewrite (proj2 (Z.ltb_ge _ _)) by lia.
    rewrite Nat2Z.id, list_lookup_insert_ne by lia. rewrite Hx. cbn [mjoin option_join].
    rewrite alloc_closed; [done|lia|]. intros j Hj. apply H3. lia. }
  assert (u !! a = Some (Some (OPipeR n))) as Hua.
  { unfold u. rewrite !list_lookup_insert_ne by lia. apply list_lookup_insert_eq. by eapply lookup_lt_Some. }
  assert (<[a := None]> u !! b = Some (Some (OPipeW n))) as Hub.
  { unfold u. rewrite !list_lookup_insert_ne by lia. apply list_lookup_insert_eq. rewrite length_insert. by eapply lookup_lt_Some. }
  cbn [pbind sys pexec]. rewrite (close_call i t2 _ m Hzi). cbn [pexec fst]. rewrite Hdup. cbn [pexec fst].
  rewrite (close_call a u _ m Hua). cbn [pexec fst]. rewrite (close_call b _ _ m Hub). cbn [fst pbind]. f_equal.
  apply list_eq. intros j. unfold u. rewrite !list_lookup_insert. rewrite !length_insert.
  repeat case_decide; naive_solver lia.
Qed.

Lemma pipe_parent {B} (f : Z -> prog B) m :
  pexec can_open can_exec (sys (CClose (Z.of_nat a));; v <- sys (CClose (Z.of_nat b));; f v) t2 m =
  pexec can_open can_exec (f 0) t m.
Proof.
  destruct (ready_range _ _ _ R) as (Hab & Ha & Hb & Ho).
  assert (t2 !! a = Some (Some (OPipeR n))) as Hua.
  { rewrite list_lookup_insert_ne by lia. apply list_lookup_insert_eq. by eapply lookup_lt_Some. }
  assert (<[a := None]> t2 !! b = Some (Some (OPipeW n))) as Hub.
  { rewrite list_lookup_insert_ne by lia. apply list_lookup_insert_eq. rewrite length_insert. by eapply lookup_lt_Some. }
  cbn [pbind sys pexec]. rewrite (close_call a t2 _ m Hua). cbn [pexec fst]. rewrite (close_call b _ _ m Hub).
  cbn [fst pbind]. f_equal. apply list_eq. intros j. rewrite !list_lookup_insert. rewrite !length_insert.
  repeat case_decide; naive_solver lia.
Qed.
End Pipe.

Lemma runcmd_never c : never (runcmd c).
Proof. destruct c; apply never_then; intros; constructor. Qed.

Lemma never_twice {A B C} (p : prog C) (f : C -> prog A) (g : A -> prog B) t n : never p ->
  pexec can_open can_exec (pbind (pbind p f) g) t n = pexec can_open can_exec p t n.
Proof. intros Hp. by rewrite !pexec_never by (try apply never_bind; done). Qed.

Lemma side_never i x y z c :
  never (sys (CClose i);; sys (CDup x);; sys (CClose y);; sys (CClose z);; runcmd c).
Proof. do 4 (apply never_then; intros _). apply runcmd_never. Qed.

(** A process that forks: the child first *)
Lemma pexec_fork1 {B} (f : Z -> prog B) t n :
  pexec can_open can_exec (pbind fork1 f) t n =
    let ' (l1, n1) := pexec can_open can_exec (f 0) t n in
    let ' (l2, n2) := pexec can_open can_exec (f 1) t n1 in (l1 ++ l2, n2).
Proof. done. Qed.

(** A message and the end *)
Lemma pexec_message {B} fd fmt args (f : unit -> prog B) t n : (forall u, f u = Halt) ->
  pexec can_open can_exec (pbind (uprintf fd fmt args) f) t n = ([], n).
Proof.
  intros Hf. unfold uprintf. destruct (printf false (fmt ++ [0]) args); [|done].
  by rewrite pexec_put_chars, Hf.
Qed.

Lemma runcmd_images c a b : forall t n, ready t a b -> std_redirs c ->
  pexec can_open can_exec (runcmd c) t n = images c t n.
Proof.
  induction c as [argv|c IH q eq mode fd|l IHl r IHr|l IHl r IHr|c IH]; intros t n R Hs.
  - destruct argv as [|w argv]; [done|]. cbn [runcmd images sys pbind pexec].
    destruct (can_exec (rd w)); [done|]. by apply pexec_message.
  - destruct Hs as [Hfd Hs]. destruct (ready_range _ _ _ R) as (Hab & Ha & Hb & Ho).
    destruct (ry_std _ _ _ R (Z.to_nat fd)) as [o Hfo]; [lia|].
    pose proof (close_call _ _ _ n Hfo) as Hc. rewrite Z2Nat.id in Hc by lia.
    cbn [runcmd images sys pbind pexec]. rewrite Hc. cbn [fst pexec pbind fd_call].
    destruct (can_open (rd (q, eq)) mode).
    + rewrite alloc_closed; [|by eapply lookup_lt_Some|intros j Hj; apply Ho; lia]. cbn [fst].
      rewrite (proj2 (Z.ltb_ge _ _)) by lia. cbn [pwhen pbind].
      rewrite pexec_never by apply runcmd_never. apply IH; [|done]. apply ready_insert; [done|lia].
    + cbn [fst]. change (-1 <? 0) with true. cbn [pwhen]. rewrite !pexec_assoc. by apply pexec_message.
  - destruct Hs as [Hl Hr]. cbn [runcmd images]. rewrite pexec_assoc. cbn [sys2 pbind pexec]. rewrite (pipe_call _ _ _ _ R).
    cbn [fst snd]. change (0 <? 0) with false. cbn [pwhen pbind]. rewrite pexec_assoc, pexec_fork1.
    change (0 =? 0) with true. change (1 =? 0) with false. cbn [pwhen].
    change ([Z.of_nat a; Z.of_nat b] !!! 0%nat) with (Z.of_nat a). change ([Z.of_nat a; Z.of_nat b] !!! 1%nat) with (Z.of_nat b).
    rewrite (never_twice _ _ _ _ _ (side_never _ _ _ _ l)). rewrite (pipe_child t a b n R 1 b (OPipeW n)); [|lia|apply (pipe_ends _ _ _ n R)|by right].
    rewrite (IHl _ _ (ready_insert _ _ _ 1 _ R ltac:(lia)) Hl). destruct (images l _ (S n)) as [l1 n1].
    cbn [pbind]. rewrite pexec_assoc, pexec_fork1. change (0 =? 0) with true. change (1 =? 0) with false. cbn [pwhen].
    rewrite (never_twice _ _ _ _ _ (side_never _ _ _ _ r)). rewrite (pipe_child t a b n R 0 a (OPipeR n)); [|lia|apply (pipe_ends _ _ _ n R)|by left].
    rewrite (IHr _ _ (ready_insert _ _ _ 0 _ R ltac:(lia)) Hr). destruct (images r _ n1) as [l2 n2].
    pose proof (pipe_parent t a b n R (fun _ => sys CWait;; sys CWait;; @Halt unit) n2) as Hp.
    cbn [pbind sys] in Hp |- *. rewrite Hp. cbn. by rewrite app_nil_r.
  - destruct Hs as [Hl Hr]. cbn [runcmd images]. rewrite pexec_assoc, pexec_fork1.
    change (0 =? 0) with true. change (1 =? 0) with false. cbn [pwhen].
    rewrite never_twice by apply runcmd_never. rewrite (IHl t n R Hl). destruct (images l t n) as [l1 n1].
    cbn [pbind sys pexec fd_call fst]. rewrite pexec_never by apply runcmd_never. by rewrite (IHr t n1 R Hr).
  - cbn [runcmd images]. rewrite pexec_assoc, pexec_fork1.
    change (0 =? 0) with true. change (1 =? 0) with false. cbn [pwhen].
    rewrite pexec_never by apply runcmd_never. rewrite (IH t n R Hs). destruct (images c t n) as [l1 n1].
    cbn. by rewrite app_nil_r.
Qed.
End Meaning.
End Runcmd.

(** ** The parser redirects standard descriptors only *)

Definition std_result {A} (P : A -> Prop) (m : outcome (A * ptr)) : Prop :=
  match m with Ret (a, _) => P a | _ => True end.
Definition std_wrap (w : redir) : Prop := forall c, std_redirs c -> std_redirs (w c).

Lemma std_bind {A B} P Q (m : outcome (A * ptr)) (k : A * ptr -> outcome (B * ptr)) :
  std_result P m -> (forall a s, P a -> std_result Q (k (a, s))) -> std_result Q (obind m k).
Proof. intros Hm Hk. destruct m as [[a s]| | | | |]; try done. by apply Hk. Qed.

Lemma parseredirs_std fuel : forall w s, std_wrap w -> std_result std_wrap (parseredirs fuel w s).
Proof.
  induction fuel as [|fuel IH]; intros w s Hw; [done|]. cbn [parseredirs].
  destruct (peek s (lit "<>")) as [[] s1]; [|done]. destruct (gettoken s1) as [[[tok ?] ?] s2].
  destruct (gettoken s2) as [[[t q] eq] s3]. destruct (negb _); [done|].
  destruct (tok =? 60); apply IH; intros c Hc; (split; [lia|by apply Hw]).
Qed.

Lemma parse_args_std fuel : forall argv w s, std_wrap w -> std_result std_redirs (parse_args fuel argv w s).
Proof.
  induction fuel as [|fuel IH]; intros argv w s Hw; [done|]. cbn [parse_args].
  destruct (peek s (lit "|)&;")) as [[] s1]; [by apply Hw|]. destruct (gettoken s1) as [[[t q] eq] s2].
  destruct (t =? 0); [by apply Hw|]. destruct (negb _); [done|]. case_bool_decide; [done|].
  eapply std_bind; [by apply parseredirs_std|]. intros w' s3 Hw'. by apply IH.
Qed.

Lemma parse_backs_std fuel : forall c s, std_redirs c -> std_result std_redirs (parse_backs fuel c s).
Proof.
  induction fuel as [|fuel IH]; intros c s Hc; [done|]. cbn [parse_backs].
  destruct (peek s (lit "&")) as [[] s1]; [by apply IH|done].
Qed.

Lemma parse_std fuel :
  (forall s, std_result std_redirs (parseline fuel s)) /\ (forall s, std_result std_redirs (parsepipe fuel s)) /\
  (forall s, std_result std_redirs (parseexec fuel s)).
Proof.
  induction fuel as [|fuel (IH1 & IH2 & IH3)]; [done|]. split_and!; intros s.
  - cbn [parseline]. eapply std_bind; [apply IH2|]. intros c s1 Hc.
    eapply std_bind; [by apply parse_backs_std|]. intros c' s2 Hc'.
    destruct (peek s2 (lit ";")) as [[] s3]; [|done]. by eapply std_bind; [apply IH1|].
  - cbn [parsepipe]. eapply std_bind; [apply IH3|]. intros c s1 Hc.
    destruct (peek s1 (lit "|")) as [[] s3]; [|done]. by eapply std_bind; [apply IH2|].
  - cbn [parseexec]. destruct (peek s (lit "(")) as [[] s1].
    + eapply std_bind; [apply IH1|]. intros c s2 Hc. destruct (peek s2 (lit ")")) as [[] s3]; [|done].
      eapply std_bind; [apply parseredirs_std; by intros ?|]. intros w s4 Hw. by apply Hw.
    + eapply std_bind; [apply parseredirs_std; by intros ?|]. intros w s4 Hw. by apply parse_args_std.
Qed.

Lemma parsecmd_std s c buf : parsecmd s = Ret (c, buf) -> std_redirs c.
Proof.
  unfold parsecmd. pose proof (proj1 (parse_std (parse_fuel s)) s) as H.
  destruct (parseline (parse_fuel s) s) as [[c' r]| | | | |]; cbn [obind]; try done.
  destruct (peek r []) as [? [|]]; [|discriminate]. by intros [= -> _].
Qed.

(** The strings of a line whose words are terminated *)
Definition words_of (buf : list Z) (a : ptr * ptr) : list Z := string_at buf a.1.

(** C14: [runcmd] connects the programs of a parsed line as its command says: every
    program that is executed has the descriptors of the shell process, but
    with the file of each redirection around it at the descriptor that was
    redirected, and in a pipeline the left side writes to, and the right side
    reads from, one new pipe, while no process keeps another descriptor of that
    pipe, so that its reader sees the end.  A file that cannot be opened ends
    its part of the command.  Every [fork] succeeds in [pexec], and the files
    that can be opened stay the same. *)
Theorem runcmd_plumbs can_open can_exec s c buf t a b n :
  parsecmd s = Ret (c, buf) -> ready t a b ->
  pexec can_open can_exec (runcmd (words_of buf) c) t n = images (words_of buf) can_open can_exec c t n.
Proof. intros Hp Hr. eapply runcmd_images; [exact Hr|by eapply parsecmd_std]. Qed.

Definition ex_fds : fdt :=
  replicate 3 (Some (OFile (lit "console") O_RDWR)) ++ replicate 13 None.
Lemma ex_fds_ready : ready ex_fds 3 4.
Proof.
  apply ready_intro; [lia|done|done|]. intros i Hi Hne. exists (OFile (lit "console") O_RDWR).
  do 3 (destruct i as [|i]; [done|]). lia.
Qed.

Lemma runcmd_plumbs_witness :
  exists c buf, parsecmd (lit "ls|wc>out") = Ret (c, buf) /\
    pexec (fun _ _ => true) (fun _ => true) (runcmd (words_of buf) c) ex_fds 0 =
      ([(lit "ls", [lit "ls"], <[1%nat := Some (OPipeW 0)]> ex_fds);
        (lit "wc", [lit "wc"], <[1%nat := Some (OFile (lit "out") O_OUT)]> (<[0%nat := Some (OPipeR 0)]> ex_fds))], 1%nat).
Proof.
  destruct (parsecmd (lit "ls|wc>out")) as [[c buf]| | | | |] eqn:E; try (by vm_compute in E).
  exists c, buf. split; [done|]. rewrite (runcmd_plumbs _ _ _ _ _ _ _ _ 0 E ex_fds_ready).
  vm_compute in E. injection E as <- <-. by vm_compute.
Defined.

(** ** The shell itself *)

(** [gets(buf, nbuf)] on descriptor 0, one byte at a time: the line without its
    terminator *)
Fixpoint gets_prog (fuel : nat) : prog (list Z) :=
  match fuel with
  | O => Done []
  | S fuel =>
      r <- sys2 (CRead 0 1);;
      match r.1 <? 1, r.2 with
      | true, _ | _, [] => Done []
      | false, c :: _ =>
          if (c =? 10) || (c =? 13) then Done [c]
          else l <- gets_prog fuel;; Done (c :: l)
      end
  end.

(** The line, or none at the end of the input; the rest of [buf] is zero. *)
Definition getcmd (nbuf : nat) : prog (option (list Z)) :=
  uprintf 2 (lit "$ ") [];;
  l <- gets_prog (nbuf - 1);;
  Done (match l with [] => None | c :: _ => if c =? 0 then None else Some (until0 (l ++ [0])) end).

(** [parsecmd] with its messages *)
Definition parse_prog (s : list Z) : prog (cmd * list Z) :=
  match parseline (parse_fuel s) s with
  | Ret (c, r) =>
      match (peek r []).2 with
      | [] => Done (c, nulterminate c (s ++ [0]))
      | r => uprintf 2 (lit "leftovers: %s" ++ [NEWLINE]) [AStr (Some r)];; sh_panic "syntax";; Halt
      end
  | Panic m => sh_panic m;; Halt
  | _ => Halt
  end.

Definition CD : list Z := lit "cd ".

(** One round of the main loop *)
Definition sh_round (_ : unit) : prog (unit + unit) :=
  l <- getcmd 100;;
  match l with
  | None => Done (inr tt)
  | Some l =>
      if bool_decide (take 3 l = CD) then
        let dir := drop 3 (take (length l - 1) l) in
        r <- sys (CChdir dir);;
        pwhen (r <? 0) (uprintf 2 (lit "cannot cd %s" ++ [NEWLINE]) [AStr (Some dir)]);;
        Done (inl tt)
      else
        pid <- fork1;;
        pwhen (pid =? 0)
          (x <- parse_prog l;; runcmd (words_of x.2) x.1);;
        sys CWait;;
        Done (inl tt)
  end.

Definition open_console (_ : unit) : prog (unit + unit) :=
  fd <- sys (COpen (lit "console") O_RDWR);;
  if fd <? 0 then Done (inr tt)
  else if 3 <=? fd then sys (CClose fd);; Done (inr tt)
  else Done (inl tt).

Definition sh_main (fuel : nat) : prog unit :=
  ploop 4 open_console tt;;
  ploop fuel sh_round tt;;
  Halt.
