(* ===== verification/Cthreads.v ===== *)
(** * Creating and joining threads (ucthreads.c: cthread_create to cthread_join)

    The functions of the thread library that allocate and release stacks, on
    the heap of [Umalloc].  What [clone], [join] and [kill] answer is a
    parameter: they are system calls.  A [cthread_t] is passed and given back
    as a value. *)

From S2P Require Import Prelude Params Umalloc.

Record cthread_t := CThread { ct_pid : Z; ct_stack : Z }.
#[export] Instance eta_cthread_t : Eta cthread_t := fun t => CThread (ct_pid t) (ct_stack t).

Definition STACKSIZE : Z := 4096.

Section Cthreads.
Context (base : Z).
Context (clone : Z -> Z -> Z -> Z -> Z -> Z) (join kill : Z -> Z).

Definition cthread_create (thread : cthread_t) (fn arg1 arg2 : Z) : M um (Z * cthread_t) :=
  p <- malloc base STACKSIZE;;
  let thread := thread <|ct_stack := p|> in
  if ct_stack thread =? 0 then ret (-1, thread) else
  let thread := thread <|ct_pid := clone fn arg1 arg2 (u32 (ct_stack thread + STACKSIZE)) 0|> in
  if ct_pid thread =? -1 then ret (-1, thread) else
  ret (ct_pid thread, thread).

Definition cthread_cut (thread : cthread_t) : M um Z := ret (kill (ct_pid thread)).

Definition cthread_join (thread : cthread_t) : M um Z :=
  if negb (join (ct_pid thread) =? ct_pid thread) then
    free (ct_stack thread);;
    ret (-1)
  else
    free (ct_stack thread);;
    ret (ct_pid thread).

(** A created thread has a stack of its own: a block of the heap, apart from
    all that are held, with room for the page that [clone] is given the top
    of.  When [clone] fails the block stays allocated. *)
Theorem cthread_create_stack k s al t fn arg1 arg2 : client base k s al ->
  exists r t' s', does (cthread_create t fn arg1 arg2) s (r, t') s' /\
    (r = -1 /\ ct_stack t' = 0 /\ client base k s' al \/
     exists b, ct_stack t' = b.1 + HSIZE /\ STACKSIZE <= HSIZE * (b.2 - 1) /\ client base k s' (b :: al) /\
       ct_pid t' = clone fn arg1 arg2 (u32 (ct_stack t' + STACKSIZE)) 0 /\ r = ct_pid t').
Proof.
  intros Hc. destruct (malloc_client base k s al STACKSIZE Hc) as (p & s' & D & Hp); [unfold STACKSIZE, two31; lia|].
  unfold cthread_create. destruct Hp as [(-> & Hc' & _)|(b & -> & Hb & Hc')].
  - eexists (-1), _, s'. split; [eapply does_bind; [exact D|]; apply does_ret|]. by left.
  - destruct (units_spec STACKSIZE) as (_ & Hroom & _); [unfold STACKSIZE, two31; lia|].
    assert (b.1 + HSIZE <> 0) as Hne.
    { destruct Hc' as [(_ & ? & _)|(fl & Hok & _)]; [done|].
      pose proof (ho_low _ _ _ _ Hok b ltac:(set_solver)) as Hlow. pose proof (ho_base _ _ _ _ Hok).
      unfold HSIZE in *. lia. }
    set (t' := CThread (clone fn arg1 arg2 (u32 (b.1 + HSIZE + STACKSIZE)) 0) (b.1 + HSIZE)).
    exists (ct_pid t'), t', s'. split.
    + eapply does_bind; [exact D|]. cbv zeta. getset. rewrite (proj2 (Z.eqb_neq _ _) Hne).
      destruct (_ =? -1) eqn:E; [|apply does_ret]. apply Z.eqb_eq in E.
      replace (-1, _) with (ct_pid t', t') by (unfold t'; cbn [ct_pid]; by rewrite E). apply does_ret.
    + right. exists b. rewrite Hb. done.
Qed.

(** Joining releases the stack; the answer is the thread's identifier when
    [join] gives it. *)
Theorem cthread_join_releases k s al t b al' : client base k s al -> al ≡ₚ b :: al' ->
  ct_stack t = u32 (b.1 + HSIZE) ->
  exists s', does (cthread_join t) s (if join (ct_pid t) =? ct_pid t then ct_pid t else -1) s' /\ client base k s' al'.
Proof.
  intros Hc Hal Ht. destruct (free_client base k s al b al' Hc Hal) as (s' & D & Hc').
  exists s'. split; [|done]. unfold cthread_join. rewrite Ht.
  destruct (_ =? _); cbn [negb]; (eapply does_bind; [exact D|apply does_ret]).
Qed.
End Cthreads.

(** A join that fails, as the second join of a thread does, releases the stack
    as well: the block is on the free list while it may be in use, and after
    two joins of one thread two others get the same stack. *)
Definition ex_threads : M um (Z * Z * (Z * Z)) :=
  let clone := fun _ _ _ top _ => top in
  ' (_, t) <- cthread_create 1000 clone (CThread 0 0) 1 2 3;;
  r1 <- cthread_join (fun pid => pid) t;;
  r2 <- cthread_join (fun _ => -1) t;;
  ' (_, u) <- cthread_create 1000 clone (CThread 0 0) 1 2 3;;
  ' (_, v) <- cthread_create 1000 clone (CThread 0 0) 1 2 3;;
  ret (r1, r2, (ct_stack u, ct_stack v)).

Theorem cthread_join_twice : exists pid stack, fst (ex_threads (World ex_heap [] [])) = Ret (pid, -1, (stack, stack)).
Proof. exists 34768, 30672. vm_compute. reflexivity. Qed.
