(* ===== verification/Ucthreads.v ===== *)
(** * The user-level thread library (ucthreads.c)

    The circular queue, the ticket lock and the spin-lock guarded semaphores.
    The threads of a process run interleaved, one memory access or system call
    at a time: each C function is a little program over program counters, and
    the steps are the rules of an inductive relation.  Parking and unparking
    are the kernel's operations on the thread's slot ([park_proc],
    [unpark_proc] of [Proc]). *)

From S2P Require Import Prelude Params State Sched Proc.

(** ** The circular queue *)

Definition QMAX : Z := 100.
Record queue := Queue { arr : list Z; qstart : Z; qend : Z; qcount : Z }.
#[global] Instance eta_queue : Eta queue := fun q =>
  Queue (arr q) (qstart q) (qend q) (qcount q).

Definition qinit (q : queue) : queue :=
  q <|qstart := 0|> <|qend := 0|> <|qcount := 0|>.

Definition enq (q : queue) (x : Z) : queue :=
  let q := q <|arr ::= <[Z.to_nat (qend q) := x]>|> in
  let q := q <|qend := Z.rem (qend q + 1) QMAX|> in
  q <|qcount ::= fun n => u32 (n + 1)|>.

Definition deq (q : queue) : Z * queue :=
  let x := arr q !!! Z.to_nat (qstart q) in
  let q := q <|qstart := Z.rem (qstart q + 1) QMAX|> in
  (x, q <|qcount ::= fun n => u32 (n - 1)|>).

Definition qisfull (q : queue) : bool := qcount q =? QMAX.
Definition qisempty (q : queue) : bool := qcount q =? 0.

(** The queue holds the list [l]. *)
Record queue_is (q : queue) (l : list Z) : Prop := {
  qi_arr : length (arr q) = Z.to_nat QMAX;
  qi_start : 0 <= qstart q < QMAX;
  qi_end : qend q = (qstart q + qcount q) mod QMAX;
  qi_count : qcount q = Z.of_nat (length l);
  qi_max : qcount q <= QMAX;
  qi_elems : forall j x, l !! j = Some x ->
    arr q !!! Z.to_nat ((qstart q + Z.of_nat j) mod QMAX) = x
}.

Lemma qinit_is q : length (arr q) = Z.to_nat QMAX -> queue_is (qinit q) [].
Proof. intros H. split; unfold qinit; getset; try done; unfold QMAX; lia. Qed.

Lemma enq_is q l x : queue_is q l -> qcount q < QMAX -> queue_is (enq q x) (l ++ [x]).
Proof.
  intros [Ha Hs He Hc Hm Hl] Hlt. unfold enq. split; getset; unfold QMAX in *.
  - by rewrite length_insert.
  - done.
  - pose proof (Z.mod_pos_bound (qstart q + qcount q) 100 ltac:(lia)).
    rewrite He, u32_small by (unfold two32; lia). rewrite Z.rem_mod_nonneg by lia.
    rewrite Zplus_mod_idemp_l. f_equal. lia.
  - rewrite u32_small by (unfold two32; lia). rewrite length_app. simpl. lia.
  - rewrite u32_small by (unfold two32; lia). lia.
  - pose proof (Z.mod_pos_bound (qstart q + qcount q) 100 ltac:(lia)).
    intros j y [Hj|[Hj Hy]]%lookup_app_Some.
    + pose proof (lookup_lt_Some _ _ _ Hj). rewrite list_lookup_total_insert_ne.
      { by apply Hl. }
      rewrite He. intros E. apply (f_equal Z.of_nat) in E.
      rewrite !Z2Nat.id in E by (apply Z.mod_pos_bound; lia).
      Z.to_euclidean_division_equations. lia.
    + destruct (j - length l)%nat eqn:Ej; simpl in Hy; [|done]. simplify_eq.
      replace (Z.of_nat j) with (qcount q) by lia. rewrite He.
      rewrite list_lookup_total_insert_eq; [done|]. lia.
Qed.

Lemma deq_is q x l : queue_is q (x :: l) -> exists q', deq q = (x, q') /\ queue_is q' l.
Proof.
  intros [Ha Hs He Hc Hm Hl]. eexists. split.
  { unfold deq. f_equal. specialize (Hl 0%nat x eq_refl). rewrite Z.add_0_r in Hl.
    by rewrite Z.mod_small in Hl. }
  unfold QMAX in *. simpl in Hc. rewrite <- (Z.rem_mod_nonneg (qstart q + _)) in He by lia.
  split; getset; unfold QMAX in *; rewrite ?(u32_small (qcount q - 1)) by (unfold two32; lia).
  - done.
  - rewrite Z.rem_mod_nonneg by lia. apply Z.mod_pos_bound. lia.
  - rewrite He, !Z.rem_mod_nonneg by lia. rewrite Zplus_mod_idemp_l. f_equal. lia.
  - lia.
  - lia.
  - intros j y Hj. specialize (Hl (Datatypes.S j) y Hj). rewrite Z.rem_mod_nonneg by lia.
    rewrite Zplus_mod_idemp_l. rewrite <- Hl. do 3 f_equal. lia.
Qed.

(** ** The ticket lock *)

Record tlock := Tlock { ticket : Z; turn : Z }.
#[global] Instance eta_tlock : Eta tlock := fun l => Tlock (ticket l) (turn l).

Definition tlock_init (l : tlock) : tlock := l <|turn := 0|> <|ticket := 0|>.

(** Where a thread is: outside, spinning with its ticket, inside, or inside
    [tlock_release] with the value of [turn] that [lk->turn += 1] has loaded. *)
Inductive tpc : Set := TIdle | TSpin (my : Z) | TCrit | TLoaded (v : Z).

(** One atomic step of [tlock_acquire]: the [xaddl], or a round of the loop. *)
Definition tlock_acquire (pc : tpc) (l : tlock) : option (tlock * tpc) :=
  match pc with
  | TIdle => Some (l <|ticket ::= fun t => u32 (t + 1)|>, TSpin (ticket l))
  | TSpin my => Some (l, if turn l =? my then TCrit else TSpin my)
  | _ => None
  end.

(** One atomic step of [tlock_release]: the load or the store. *)
Definition tlock_release (pc : tpc) (l : tlock) : option (tlock * tpc) :=
  match pc with
  | TCrit => Some (l, TLoaded (turn l))
  | TLoaded v => Some (l <|turn := u32 (v + 1)|>, TIdle)
  | _ => None
  end.

Record tstate := TState { tl : tlock; tpcs : list tpc }.

Inductive tstep (s : tstate) : tstate -> Prop :=
| tstep_acquire i pc l' pc' :
    tpcs s !! i = Some pc -> tlock_acquire pc (tl s) = Some (l', pc') ->
    tstep s (TState l' (<[i := pc']> (tpcs s)))
| tstep_release i pc l' pc' :
    tpcs s !! i = Some pc -> tlock_release pc (tl s) = Some (l', pc') ->
    tstep s (TState l' (<[i := pc']> (tpcs s))).

(** The specification: a queue of threads of which the first may be inside. *)
Record fifo := Fifo { waiting : list nat; held : bool }.
Inductive fstep (a : fifo) : fifo -> Prop :=
| fstep_arrive i : i ∉ waiting a -> fstep a (Fifo (waiting a ++ [i]) (held a))
| fstep_enter i w : waiting a = i :: w -> held a = false -> fstep a (Fifo (waiting a) true)
| fstep_leave i w : waiting a = i :: w -> held a = true -> fstep a (Fifo w false).

(** What the program counter of the [j]-th waiting thread must be. *)
Definition tpc_ok (l : tlock) (hd : bool) (j : nat) (pc : tpc) : Prop :=
  match pc with
  | TIdle => False
  | TSpin my => my = u32 (turn l + Z.of_nat j) /\ (j = 0%nat -> hd = false)
  | TCrit => j = 0%nat /\ hd = true
  | TLoaded v => j = 0%nat /\ hd = true /\ v = turn l
  end.

(** The lock [s] implements the queue [a]. *)
Record ticket_is (s : tstate) (a : fifo) : Prop := {
  ti_turn : 0 <= turn (tl s) < two32;
  ti_ticket : ticket (tl s) = u32 (turn (tl s) + Z.of_nat (length (waiting a)));
  ti_nodup : NoDup (waiting a);
  ti_waiting : forall j i, waiting a !! j = Some i ->
    exists pc, tpcs s !! i = Some pc /\ tpc_ok (tl s) (held a) j pc;
  ti_idle : forall i pc, tpcs s !! i = Some pc -> i ∉ waiting a -> pc = TIdle;
  ti_held : waiting a = [] -> held a = false
}.

(** A lock of any contents after [tlock_init], and [n] threads outside *)
Definition tinit (l0 : tlock) (n : nat) : tstate := TState (tlock_init l0) (replicate n TIdle).

Lemma tinit_is l0 n : ticket_is (tinit l0 n) (Fifo [] false).
Proof.
  split; simpl; try done.
  - constructor.
  - by intros i pc [-> _]%lookup_replicate.
Qed.

(** The ticket of a waiting thread says how far it is from the front. *)
Lemma u32_dist a j : 0 <= a < two32 -> 0 <= j < two32 -> u32 (a + j) = a -> j = 0.
Proof. unfold u32, two32. intros. Z.to_euclidean_division_equations. lia. Qed.

Lemma waiting_bound s a :
  ticket_is s a -> (length (waiting a) <= length (tpcs s))%nat.
Proof.
  intros H. rewrite <- (length_seq (length (tpcs s)) 0).
  apply submseteq_length, NoDup_submseteq; [apply H|].
  intros i [j Hj]%list_elem_of_lookup_1. apply elem_of_seq.
  destruct (ti_waiting s a H j i Hj) as (pc & Hpc & _).
  apply lookup_lt_Some in Hpc. lia.
Qed.

Lemma ticket_update s a l' a' i pc' :
  ticket_is s a -> (i < length (tpcs s))%nat ->
  0 <= turn l' < two32 ->
  ticket l' = u32 (turn l' + Z.of_nat (length (waiting a'))) ->
  NoDup (waiting a') ->
  (forall j k, waiting a' !! j = Some k -> exists pc,
     (if decide (k = i) then pc = pc' else tpcs s !! k = Some pc) /\ tpc_ok l' (held a') j pc) ->
  (i ∉ waiting a' -> pc' = TIdle) ->
  (forall k, k <> i -> k ∈ waiting a -> k ∈ waiting a') ->
  (waiting a' = [] -> held a' = false) ->
  ticket_is (TState l' (<[i := pc']> (tpcs s))) a'.
Proof.
  intros H Hi Ht Htk Hnd Hw Hid Hsub Hh. split; simpl; try done.
  - intros j k Hj. destruct (Hw j k Hj) as (pc & Hpc & Hok).
    case_decide; subst; eexists; (split; [|done]).
    + by apply list_lookup_insert_eq.
    + by rewrite list_lookup_insert_ne.
  - intros k pc Hk Hnin. apply list_lookup_insert_Some in Hk as [(<- & -> & _)|(Hne & Hk)].
    + by apply Hid.
    + eapply (ti_idle s a H); [done|]. intros Hin. by apply Hnin, Hsub.
Qed.

Section Ticket.
Context (s : tstate) (a : fifo).
Hypothesis Hs : ticket_is s a.
Hypothesis Hn : Z.of_nat (length (tpcs s)) < two32.

Lemma ticket_arrive i :
  tpcs s !! i = Some TIdle ->
  exists a', fstep a a' /\
    ticket_is (TState ((tl s) <|ticket ::= fun t => u32 (t + 1)|>)
                 (<[i := TSpin (ticket (tl s))]> (tpcs s))) a'.
Proof.
  intros Hi. assert (i ∉ waiting a) as Hnin.
  { intros [j Hj]%list_elem_of_lookup_1.
    by destruct (ti_waiting s a Hs j i Hj) as (pc & E & ?); simplify_eq. }
  exists (Fifo (waiting a ++ [i]) (held a)). split; [by constructor|].
  pose proof (ti_turn s a Hs). pose proof (ti_ticket s a Hs).
  apply (ticket_update s a); getset; simpl; try done.
  - by eapply lookup_lt_Some.
  - rewrite (ti_ticket s a Hs), length_app. unfold u32.
    rewrite Zplus_mod_idemp_l. f_equal. simpl. lia.
  - apply NoDup_app. split; [apply Hs|]. split; [|apply NoDup_singleton].
    intros x Hx ->%list_elem_of_singleton. done.
  - intros j k [Hj|[Hj Hk]]%lookup_app_Some.
    + destruct (ti_waiting s a Hs j k Hj) as (pc & E & Hok).
      exists pc. rewrite decide_False; [done|]. intros ->. by eapply Hnin, list_elem_of_lookup_2.
    + apply list_lookup_singleton_Some in Hk as [Hk ->].
      eexists. rewrite decide_True by done. split; [done|]. split.
      * rewrite (ti_ticket s a Hs). do 2 f_equal. lia.
      * intros ->. apply (ti_held s a Hs). apply length_zero_iff_nil. lia.
  - set_solver.
  - set_solver.
  - intros E. by apply app_eq_nil in E as [_ ?].
Qed.

(** Only the thread at the front finds its ticket called. *)
Lemma ticket_spin i my :
  tpcs s !! i = Some (TSpin my) ->
  exists j, waiting a !! j = Some i /\ (turn (tl s) = my <-> j = 0%nat).
Proof.
  intros Hi. destruct (decide (i ∈ waiting a)) as [Hin|Hin]; cycle 1.
  { by apply (ti_idle s a Hs) in Hi. }
  apply list_elem_of_lookup_1 in Hin as [j Hj]. exists j. split; [done|].
  destruct (ti_waiting s a Hs j i Hj) as (pc & E & Hok). simplify_eq.
  destruct Hok as [-> _]. pose proof (ti_turn s a Hs) as Ht.
  pose proof (waiting_bound s a Hs). pose proof (lookup_lt_Some _ _ _ Hj). split.
  - intros E'. symmetry in E'. apply u32_dist in E'; lia.
  - intros ->. by rewrite Z.add_0_r, u32_small.
Qed.

Lemma ticket_enter i my :
  tpcs s !! i = Some (TSpin my) -> turn (tl s) = my ->
  exists a', fstep a a' /\ ticket_is (TState (tl s) (<[i := TCrit]> (tpcs s))) a'.
Proof.
  intros Hi Hmy. destruct (ticket_spin i my Hi) as (j & Hj & Hd).
  apply Hd in Hmy as ->. destruct (waiting a) as [|i' w] eqn:Ew; simplify_eq/=.
  destruct (ti_waiting s a Hs 0 i) as (pc & E & Hok); [by rewrite Ew|]. simplify_eq.
  destruct Hok as [_ Hhd]. exists (Fifo (i :: w) true). split.
  { rewrite <- Ew. eapply fstep_enter; [done|by apply Hhd]. }
  apply (ticket_update s a); simpl; rewrite ?Ew; try done; try apply Hs.
  - by eapply lookup_lt_Some.
  - by rewrite (ti_ticket s a Hs), Ew.
  - rewrite <- Ew. apply Hs.
  - intros j k Hk. destruct (ti_waiting s a Hs j k) as (pc & E' & Hok); [by rewrite Ew|].
    destruct j as [|j]; simplify_eq/=.
    + exists TCrit. by rewrite decide_True.
    + exists pc. rewrite decide_False.
      * split; [done|]. destruct pc; naive_solver.
      * intros ->. pose proof (ti_nodup s a Hs) as Hnd. rewrite Ew in Hnd.
        apply NoDup_cons in Hnd as [Hnd _]. by eapply Hnd, list_elem_of_lookup_2.
  - set_solver.
Qed.

Lemma ticket_load i :
  tpcs s !! i = Some TCrit ->
  ticket_is (TState (tl s) (<[i := TLoaded (turn (tl s))]> (tpcs s))) a.
Proof.
  intros Hi. destruct (decide (i ∈ waiting a)) as [Hin|Hin]; cycle 1.
  { by apply (ti_idle s a Hs) in Hi. }
  apply (ticket_update s a); try done; try apply Hs.
  - by eapply lookup_lt_Some.
  - intros j k Hk. destruct (ti_waiting s a Hs j k Hk) as (pc & E & Hok).
    case_decide as Hki; [subst|by exists pc]. simplify_eq. eexists. split; [done|].
    by destruct Hok.
Qed.

Lemma ticket_leave i v :
  tpcs s !! i = Some (TLoaded v) ->
  exists a', fstep a a' /\
    ticket_is (TState ((tl s) <|turn := u32 (v + 1)|>) (<[i := TIdle]> (tpcs s))) a'.
Proof.
  intros Hi. destruct (decide (i ∈ waiting a)) as [Hin|Hin]; cycle 1.
  { by apply (ti_idle s a Hs) in Hi. }
  apply list_elem_of_lookup_1 in Hin as [j Hj].
  destruct (ti_waiting s a Hs j i Hj) as (pc & E & Hok). simplify_eq.
  destruct Hok as (-> & Hhd & ->).
  destruct (waiting a) as [|i' w] eqn:Ew; simplify_eq/=.
  pose proof (ti_nodup s a Hs) as Hnd. rewrite Ew in Hnd. apply NoDup_cons in Hnd as [Hnin Hnd].
  exists (Fifo w false). split; [by eapply fstep_leave|].
  apply (ticket_update s a); getset; simpl; try done; try apply u32_range.
  - by eapply lookup_lt_Some.
  - rewrite (ti_ticket s a Hs), Ew. unfold u32. rewrite Zplus_mod_idemp_l. f_equal. simpl. lia.
  - intros j k Hk.
    destruct (ti_waiting s a Hs (Datatypes.S j) k) as (pc & E' & Hok); [by rewrite Ew|].
    exists pc. rewrite decide_False by (intros ->; by eapply Hnin, list_elem_of_lookup_2).
    split; [done|]. destruct pc as [|my| |]; simpl in *; try lia; try done.
    destruct Hok as [-> _]. split; [|done]. unfold u32. rewrite Zplus_mod_idemp_l. f_equal. lia.
  - rewrite Ew. set_solver.
Qed.
End Ticket.

Inductive treach (l0 : tlock) (n : nat) : tstate -> Prop :=
| treach_init : treach l0 n (tinit l0 n)
| treach_step s s' : treach l0 n s -> tstep s s' -> treach l0 n s'.

Lemma ticket_simulation s s' a :
  ticket_is s a -> Z.of_nat (length (tpcs s)) < two32 -> tstep s s' ->
  exists a', (a' = a \/ fstep a a') /\ ticket_is s' a'.
Proof.
  intros Hs Hn Hstep. destruct Hstep as [i pc l' pc' Hi E|i pc l' pc' Hi E].
  - destruct pc as [|my| |]; simplify_eq/=.
    + destruct (ticket_arrive s a Hs Hn i Hi) as (a' & ? & ?). eauto.
    + destruct (Z.eqb_spec (turn (tl s)) my) as [Hmy|].
      * destruct (ticket_enter s a Hs Hn i my Hi Hmy) as (a' & ? & ?). eauto.
      * exists a. split; [by left|]. destruct s. simpl in *. by rewrite list_insert_id.
  - destruct pc as [|my| |v]; simplify_eq/=.
    + exists a. split; [by left|]. by apply ticket_load.
    + destruct (ticket_leave s a Hs Hn i v Hi) as (a' & ? & ?). eauto.
Qed.

(** ** Properties *)

(** A client of the queue: a sequence of [enq] and [deq] calls, on the C queue
    and on a list of bounded length. *)
Inductive qop : Set := Enq (x : Z) | Deq.

Fixpoint qrun (ops : list qop) (q : queue) : list Z * queue :=
  match ops with
  | [] => ([], q)
  | Enq x :: ops => qrun ops (enq q x)
  | Deq :: ops => let '(x, q) := deq q in let '(out, q) := qrun ops q in (x :: out, q)
  end.

Fixpoint lrun (ops : list qop) (l : list Z) : option (list Z * list Z) :=
  match ops, l with
  | [], _ => Some ([], l)
  | Enq x :: ops, _ => if Z.of_nat (length l) <? QMAX then lrun ops (l ++ [x]) else None
  | Deq :: ops, [] => None
  | Deq :: ops, x :: l =>
      match lrun ops l with Some (out, l) => Some (x :: out, l) | None => None end
  end.

Lemma qrun_is ops q l out l' :
  queue_is q l -> lrun ops l = Some (out, l') ->
  exists q', qrun ops q = (out, q') /\ queue_is q' l'.
Proof.
  revert q l out. induction ops as [|[x|] ops IH]; intros q l out Hq E; simpl in E.
  - simplify_eq. by exists q.
  - destruct (Z.ltb_spec (Z.of_nat (length l)) QMAX); [|done].
    apply (IH (enq q x) (l ++ [x])); [|done]. apply enq_is; [done|].
    rewrite (qi_count _ _ Hq). done.
  - destruct l as [|x l]; [done|]. destruct (lrun ops l) as [[out' l'']|] eqn:El; [|done].
    injection E as <- <-. destruct (deq_is q x l Hq) as (q1 & Ed & Hq1).
    destruct (IH q1 l out' Hq1 El) as (q2 & Er & Hq2). cbn [qrun]. rewrite Ed, Er. by exists q2.
Qed.

(** C20: the circular queue of the thread library is a first-in first-out queue:
    every sequence of [enq] and [deq] calls that never takes from an empty queue
    and never exceeds [QMAX] elements returns what the same sequence returns on
    a list, and [qisempty] and [qisfull] tell the truth about the result. *)
Theorem queue_is_fifo q ops out l :
  length (arr q) = Z.to_nat QMAX -> lrun ops [] = Some (out, l) ->
  exists q', qrun ops (qinit q) = (out, q') /\ queue_is q' l /\
    qisempty q' = bool_decide (l = []) /\
    qisfull q' = bool_decide (Z.of_nat (length l) = QMAX).
Proof.
  intros Ha E. destruct (qrun_is ops (qinit q) [] out l) as (q' & Eq & Hq); [|done|].
  { by apply qinit_is. }
  exists q'. split; [done|]. split; [done|]. unfold qisempty, qisfull.
  rewrite (qi_count _ _ Hq). split.
  - destruct l; [by rewrite bool_decide_true|]. rewrite bool_decide_false by done.
    apply Z.eqb_neq. simpl. lia.
  - case_bool_decide; [by apply Z.eqb_eq|by apply Z.eqb_neq].
Qed.

Lemma queue_is_fifo_witness :
  exists q', qrun [Enq 5; Enq 7; Deq; Enq 9; Deq] (qinit (Queue (replicate 100 0) 3 4 5))
             = ([5; 7], q') /\ queue_is q' [9] /\ qisempty q' = false /\ qisfull q' = false.
Proof.
  destruct (queue_is_fifo (Queue (replicate 100 0) 3 4 5) [Enq 5; Enq 7; Deq; Enq 9; Deq]
    [5; 7] [9]) as (q' & E & H & He & Hf); [reflexivity|reflexivity|].
  exists q'. split; [exact E|]. split; [exact H|]. split; [exact He|exact Hf].
Defined.

(** C19: the ticket lock implements a first-come first-served lock: every state
    that, from [tlock_init], any number of threads below 2^32 can reach, however their memory
    accesses interleave and however often the counters have wrapped around,
    corresponds to a state of the abstract FIFO lock reached by arrivals,
    entries at the front and departures; and at most one thread is inside. *)
Theorem ticket_lock_fifo l0 n s :
  Z.of_nat n < two32 -> treach l0 n s ->
  (exists a, rtc fstep (Fifo [] false) a /\ ticket_is s a) /\
  (forall i j, tpcs s !! i = Some TCrit -> tpcs s !! j = Some TCrit -> i = j).
Proof.
  intros Hn Hr.
  assert (length (tpcs s) = n /\
    exists a, rtc fstep (Fifo [] false) a /\ ticket_is s a) as (_ & a & Ha & Hs).
  { induction Hr as [|s s' _ (Hl & a & Ha & Hs) Hstep].
    - split; [apply length_replicate|]. eexists. split; [done|]. apply tinit_is.
    - split; [by destruct Hstep; simpl; rewrite length_insert|].
      destruct (ticket_simulation s s' a Hs ltac:(lia) Hstep) as (a' & [->|Hf] & Hs').
      + by exists a.
      + exists a'. split; [|done]. by eapply rtc_r. }
  split; [by exists a|]. intros i j Hi Hj.
  assert (forall x, tpcs s !! x = Some TCrit -> waiting a !! 0%nat = Some x) as Hx.
  { intros x Hx. destruct (decide (x ∈ waiting a)) as [[y Hy]%list_elem_of_lookup_1|Hnin].
    - destruct (ti_waiting s a Hs y x Hy) as (pc & E & Hok). simplify_eq.
      by destruct Hok as [-> _].
    - by apply (ti_idle s a Hs x) in Hx. }
  apply Hx in Hi, Hj. congruence.
Qed.

Lemma ticket_lock_fifo_witness :
  exists s, tpcs s = [TCrit; TSpin 1] /\ exists a, rtc fstep (Fifo [] false) a /\ ticket_is s a.
Proof.
  exists (TState (Tlock 2 0) [TCrit; TSpin 1]). split; [reflexivity|].
  apply (ticket_lock_fifo (Tlock 3 5) 2); [reflexivity|].
  apply (treach_step (Tlock 3 5) 2 (TState (Tlock 2 0) [TSpin 0; TSpin 1])).
  - apply (treach_step (Tlock 3 5) 2 (TState (Tlock 1 0) [TSpin 0; TIdle])).
    + apply (treach_step (Tlock 3 5) 2 (tinit (Tlock 3 5) 2)); [constructor|].
      exact (tstep_acquire (tinit (Tlock 3 5) 2) 0 TIdle _ _ eq_refl eq_refl).
    + exact (tstep_acquire (TState (Tlock 1 0) [TSpin 0; TIdle]) 1 TIdle _ _ eq_refl eq_refl).
  - exact (tstep_acquire (TState (Tlock 2 0) [TSpin 0; TSpin 1]) 0 (TSpin 0) _ _ eq_refl eq_refl).
Defined.
