(* ===== verification/Semaphore.v ===== *)
(** * Semaphores of the thread library (ucthreads.c: slock_t, semaphore_t)

    A semaphore is a count and a queue of thread ids under a spin-lock; a
    thread that has to wait enters the queue, gives up the spin-lock and parks,
    and [sem_up] unparks the first of the queue.  The park may come before or
    after the unpark.  The spin-lock is also modelled by itself, for threads that
    use any number of them ([lstep]).  The theorems about semaphores are for
    threads that nobody kills inside ([ustep]); [kstep] adds [kill]. *)

From S2P Require Import Prelude Params State Sched Proc Ucthreads.

Record semaphore := Sem { guard : Z; waitq : queue; scount : Z }.
#[global] Instance eta_semaphore : Eta semaphore := fun s =>
  Sem (guard s) (waitq s) (scount s).
#[global] Instance semaphore_inhabited : Inhabited semaphore :=
  populate (Sem 0 (Queue [] 0 0 0) 0).

(** ** The spin-lock *)

Definition slock_init (_ : Z) : Z := 0.
(** One round of [while(xchg(lk, 1) != 0)]: the new word, and is the lock ours? *)
Definition slock_acquire (lk : Z) : Z * bool := (1, lk =? 0).
Definition slock_release (_ : Z) : Z := 0.

(** Threads that use spin-locks of the library as they like: the locks each
    thread holds, and the lock it spins on *)
Record lthread := Lth { lheld : list nat; lspin : option nat }.
Record lstate := Lst { lwords : list Z; lthreads : list lthread }.

(** A thread calls [slock_acquire] of any lock, also of one while it holds
    others; makes a round of the loop; or calls [slock_release] of a lock it
    holds, in any order. *)
Inductive lstep (st : lstate) : lstate -> Prop :=
| lstep_call i t k :
    lthreads st !! i = Some t -> lspin t = None -> (k < length (lwords st))%nat ->
    lstep st (Lst (lwords st) (<[i := Lth (lheld t) (Some k)]> (lthreads st)))
| lstep_spin i t k w w' mine :
    lthreads st !! i = Some t -> lspin t = Some k -> lwords st !! k = Some w ->
    slock_acquire w = (w', mine) ->
    lstep st (Lst (<[k := w']> (lwords st))
                (<[i := if mine then Lth (k :: lheld t) None else t]> (lthreads st)))
| lstep_release i t k w :
    lthreads st !! i = Some t -> lspin t = None -> k ∈ lheld t -> lwords st !! k = Some w ->
    lstep st (Lst (<[k := slock_release w]> (lwords st))
                (<[i := Lth (filter (fun j => j <> k) (lheld t)) None]> (lthreads st))).

(** Words of any contents after [slock_init], and [m] threads outside *)
Inductive lreach (ws : list Z) (m : nat) : lstate -> Prop :=
| lreach_init : lreach ws m (Lst (slock_init <$> ws) (replicate m (Lth [] None)))
| lreach_step st st' : lreach ws m st -> lstep st st' -> lreach ws m st'.

(** Who holds lock [k] *)
Definition holds (st : lstate) (i k : nat) : Prop :=
  exists t, lthreads st !! i = Some t /\ k ∈ lheld t.
Definition lock_ok (st : lstate) (k : nat) (w : Z) : Prop :=
  w = 0 /\ (forall i, ~ holds st i k) \/
  w = 1 /\ exists i, holds st i k /\ forall j, holds st j k -> j = i.
Definition linv (st : lstate) : Prop :=
  (forall k w, lwords st !! k = Some w -> lock_ok st k w) /\
  forall i t, lthreads st !! i = Some t -> NoDup (lheld t).

Lemma holds_insert st ws i t t' j k :
  lthreads st !! i = Some t ->
  holds (Lst ws (<[i := t']> (lthreads st))) j k <-> if decide (j = i) then k ∈ lheld t' else holds st j k.
Proof.
  intros Hi. unfold holds. simpl. case_decide; [subst|by rewrite list_lookup_insert_ne].
  rewrite list_lookup_insert_eq by (by eapply lookup_lt_Some). naive_solver.
Qed.

(** Locks whose holders a step does not change *)
Lemma lock_ok_same st st' k w :
  (forall j, holds st' j k <-> holds st j k) -> lock_ok st k w -> lock_ok st' k w.
Proof. intros H [[-> Hn]|(-> & i & Hi & Hu)]; [left|right]; naive_solver. Qed.

Lemma linv_call st i t k :
  linv st -> lthreads st !! i = Some t -> linv (Lst (lwords st) (<[i := Lth (lheld t) k]> (lthreads st))).
Proof.
  intros [Hl Hd] Hi. split.
  - intros k' w Hw. eapply lock_ok_same; [|by apply Hl]. intros j. rewrite holds_insert by done.
    case_decide; [subst|done]. unfold holds. naive_solver.
  - intros j u [(-> & <- & _)|[_ Hu]]%list_lookup_insert_Some; [exact (Hd _ t Hi)|by eapply Hd].
Qed.

Lemma linv_spin st i t k w w' mine :
  linv st -> lthreads st !! i = Some t -> lwords st !! k = Some w -> slock_acquire w = (w', mine) ->
  linv (Lst (<[k := w']> (lwords st)) (<[i := if mine then Lth (k :: lheld t) None else t]> (lthreads st))).
Proof.
  intros [Hl Hd] Hi Hw [= <- <-]. pose proof (Hl k w Hw) as Hk.
  assert (forall k' j, k' <> k -> holds (Lst (<[k := 1]> (lwords st))
    (<[i := if w =? 0 then Lth (k :: lheld t) None else t]> (lthreads st))) j k' <-> holds st j k') as Hne.
  { intros k' j Hk'. rewrite holds_insert by done. case_decide; [subst|done]. unfold holds.
    destruct (_ =? _); simpl; rewrite ?elem_of_cons; naive_solver. }
  split; simpl.
  - intros k' w' [(-> & <- & _)|[Hk' Hw']]%list_lookup_insert_Some;
      [|eapply lock_ok_same; [intros j; by apply Hne|by apply Hl]].
    right. split; [done|]. destruct Hk as [[-> Hn]|(-> & h & Hh & Hu)]; simpl.
    + exists i. split; [rewrite holds_insert, decide_True by done; by left|].
      intros j. rewrite holds_insert by done. case_decide; [done|]. by intros ?%Hn.
    + rewrite (list_insert_id (lthreads st)) by done. exists h. done.
  - intros j u [(-> & <- & _)|[_ Hu]]%list_lookup_insert_Some; [|by eapply Hd].
    destruct (Z.eqb_spec w 0); [|by eapply Hd]. simpl. constructor; [|by eapply Hd].
    destruct Hk as [[_ Hn]|[-> _]]; [|done]. intros Hx. eapply Hn. by exists t.
Qed.

Lemma linv_release st i t k w :
  linv st -> lthreads st !! i = Some t -> k ∈ lheld t -> lwords st !! k = Some w ->
  linv (Lst (<[k := slock_release w]> (lwords st))
          (<[i := Lth (filter (fun j => j <> k) (lheld t)) None]> (lthreads st))).
Proof.
  intros [Hl Hd] Hi Hin Hw. split; simpl.
  - intros k' w' [(-> & <- & _)|[Hk' Hw']]%list_lookup_insert_Some.
    + left. split; [done|]. intros j. rewrite holds_insert by done. simpl.
      case_decide as Hj; [rewrite list_elem_of_filter; naive_solver|]. intros Hh.
      destruct (Hl _ w Hw) as [[_ Hn]|(_ & h & _ & Hu)]; [by eapply Hn|].
      apply Hj. rewrite (Hu j Hh). symmetry. apply Hu. by exists t.
    + eapply lock_ok_same; [|by apply Hl]. intros j. rewrite holds_insert by done.
      case_decide; [subst; simpl|done]. rewrite list_elem_of_filter. unfold holds. naive_solver.
  - intros j u [(-> & <- & _)|[_ Hu]]%list_lookup_insert_Some; [|by eapply Hd].
    by eapply NoDup_filter, Hd.
Qed.

Lemma lreach_linv ws m st : lreach ws m st -> linv st.
Proof.
  induction 1 as [|st st' _ IH Hstep].
  - split; simpl.
    + intros k w Hw. rewrite list_lookup_fmap in Hw. destruct (ws !! k); simplify_eq/=. left.
      split; [done|]. intros i (t & [-> _]%lookup_replicate & Hx). by apply not_elem_of_nil in Hx.
    + intros i t [-> _]%lookup_replicate. constructor.
  - destruct Hstep; [by apply linv_call|by eapply linv_spin|by apply linv_release].
Qed.

Definition sem_init (s : semaphore) (n : Z) : semaphore :=
  let s := s <|guard ::= slock_init|> in
  let s := s <|scount := n|> in
  s <|waitq ::= qinit|>.

(** ** Program counters: in [sem_down] or [sem_up] of semaphore [k], before the
    access that the name tells *)
Inductive spc : Set :=
| SIdle
| DSpin (k : nat) | DDec (k : nat) | DTest (k : nat) | DEnq (k : nat) | DRelPark (k : nat)
| DPark (k : nat) | DParked (k : nat) | DRel (k : nat)
| USpin (k : nat) | UInc (k : nat) | UTest (k : nat) | UDeq (k : nat)
| UUnpark (k : nat) (id : Z) | URel (k : nat).

(** One atomic step of [sem_down(s)] by the thread in slot [p]; [ch] is the
    address of [s->count]. *)
Definition sem_down (ch : chan) (pc : spc) (s : semaphore) (p : proc)
    : option (semaphore * proc * spc) :=
  match pc with
  | DSpin k =>
      let '(g, mine) := slock_acquire (guard s) in
      Some (s <|guard := g|>, p, if mine then DDec k else DSpin k)
  | DDec k => Some (s <|scount ::= fun c => i32 (c - 1)|>, p, DTest k)
  | DTest k => Some (s, p, if scount s <? 0 then DEnq k else DRel k)
  | DEnq k => Some (s <|waitq ::= fun q => enq q (pid p)|>, p, DRelPark k)
  | DRelPark k => Some (s <|guard ::= slock_release|>, p, DPark k)
  | DPark k => Some (s, park_proc ch p, if bool_decide (lostwakeup p = ch) then SIdle else DParked k)
  | DParked k => Some (s, p <|pchan := null|>, SIdle)
  | DRel k => Some (s <|guard ::= slock_release|>, p, SIdle)
  | _ => None
  end.

(** One atomic step of [sem_up(s)], the system call [unpark] apart. *)
Definition sem_up (pc : spc) (s : semaphore) : option (semaphore * spc) :=
  match pc with
  | USpin k =>
      let '(g, mine) := slock_acquire (guard s) in
      Some (s <|guard := g|>, if mine then UInc k else USpin k)
  | UInc k => Some (s <|scount ::= fun c => i32 (c + 1)|>, UTest k)
  | UTest k => Some (s, if scount s <=? 0 then UDeq k else URel k)
  | UDeq k => let '(id, q) := deq (waitq s) in Some (s <|waitq := q|>, UUnpark k id)
  | URel k => Some (s <|guard ::= slock_release|>, SIdle)
  | _ => None
  end.

(** The semaphore a program counter belongs to *)
Definition pc_sem (pc : spc) : nat :=
  match pc with
  | SIdle => 0
  | DSpin k | DDec k | DTest k | DEnq k | DRelPark k | DPark k | DParked k | DRel k
  | USpin k | UInc k | UTest k | UDeq k | UUnpark k _ | URel k => k
  end.

Record uthread := Uth { upc : spc; slot : proc }.

(** History: how often [sem_up] incremented the count, [sem_down] decremented
    it, and [sem_down] returned. *)
Record hist := Hist { ups : Z; downs : Z; returned : Z }.

Record ustate := Ust { sems : list semaphore; uths : list uthread; past : nat -> hist }.

(** [unpark(id, ch)] finds the first slot with that pid. *)
Fixpoint unpark_first (id : Z) (ch : chan) (l : list uthread) : list uthread :=
  match l with
  | [] => []
  | t :: l =>
      if pid (slot t) =? id then Uth (upc t) (unpark_proc ch (slot t)) :: l
      else t :: unpark_first id ch l
  end.

Definition note_down (pc pc' : spc) (h : hist) : hist :=
  Hist (ups h) (match pc with DDec _ => downs h + 1 | _ => downs h end)
    (match pc' with SIdle => returned h + 1 | _ => returned h end).
Definition note_up (pc : spc) (h : hist) : hist :=
  Hist (match pc with UInc _ => ups h + 1 | _ => ups h end) (downs h) (returned h).

Definition fset {A} (f : nat -> A) (k : nat) (a : A) : nat -> A :=
  fun j => if decide (j = k) then a else f j.

Section Machine.
(** [addr k] is the address of the count of semaphore [k]. *)
Context (addr : nat -> Z).
Definition sem_chan (k : nat) : chan := CAddr (addr k).

(** A thread takes a step when it is RUNNING; the scheduler turns RUNNABLE
    threads into RUNNING ones and back, and the rest of the kernel calls
    [wakeup] on its own channels.  A thread may exit while it is outside
    [sem_down] and [sem_up]; what becomes of the semaphores when one is killed
    inside is the subject of [kstep] below. *)
Inductive ustep (st : ustate) : ustate -> Prop :=
| ustep_call i t pc :
    uths st !! i = Some t -> state (slot t) = RUNNING -> upc t = SIdle ->
    (exists k, (k < length (sems st))%nat /\ (pc = DSpin k \/ pc = USpin k)) ->
    ustep st (Ust (sems st) (<[i := Uth pc (slot t)]> (uths st)) (past st))
| ustep_down i t s s' p' pc' :
    uths st !! i = Some t -> state (slot t) = RUNNING ->
    sems st !! pc_sem (upc t) = Some s ->
    sem_down (sem_chan (pc_sem (upc t))) (upc t) s (slot t) = Some (s', p', pc') ->
    ustep st (Ust (<[pc_sem (upc t) := s']> (sems st)) (<[i := Uth pc' p']> (uths st))
                (fset (past st) (pc_sem (upc t))
                   (note_down (upc t) pc' (past st (pc_sem (upc t))))))
| ustep_up i t s s' pc' :
    uths st !! i = Some t -> state (slot t) = RUNNING ->
    sems st !! pc_sem (upc t) = Some s -> sem_up (upc t) s = Some (s', pc') ->
    ustep st (Ust (<[pc_sem (upc t) := s']> (sems st)) (<[i := Uth pc' (slot t)]> (uths st))
                (fset (past st) (pc_sem (upc t)) (note_up (upc t) (past st (pc_sem (upc t))))))
| ustep_unpark i t k id :
    uths st !! i = Some t -> state (slot t) = RUNNING -> upc t = UUnpark k id ->
    (k < length (sems st))%nat ->
    ustep st (Ust (sems st)
                (unpark_first id (sem_chan k) (<[i := Uth (URel k) (slot t)]> (uths st)))
                (past st))
| ustep_sched i t x :
    uths st !! i = Some t ->
    (state (slot t) = RUNNABLE /\ x = RUNNING \/ state (slot t) = RUNNING /\ x = RUNNABLE) ->
    ustep st (Ust (sems st) (<[i := Uth (upc t) ((slot t) <|state := x|>)]> (uths st)) (past st))
| ustep_exit i t :
    uths st !! i = Some t -> state (slot t) = RUNNING -> upc t = SIdle ->
    ustep st (Ust (sems st) (<[i := Uth SIdle ((slot t) <|state := ZOMBIE|>)]> (uths st)) (past st))
| ustep_wakeup ch :
    (forall k, ch <> sem_chan k) ->
    ustep st (Ust (sems st) ((fun t => Uth (upc t) (wake_proc ch (slot t))) <$> uths st)
                (past st)).

(** [n k] is the initial count of semaphore [k]. *)
Context (n : nat -> Z) (st0 : ustate).

Inductive ureach : ustate -> Prop :=
| ureach_init : ureach st0
| ureach_step st st' : ureach st -> ustep st st' -> ureach st'.

(** Threads that have not used a semaphore yet, semaphores after [sem_init] *)
Record start_ok : Prop := {
  so_pids : NoDup ((fun t => pid (slot t)) <$> uths st0);
  so_len : Z.of_nat (length (uths st0)) <= QMAX;
  so_th : forall i t, uths st0 !! i = Some t ->
    upc t = SIdle /\ lostwakeup (slot t) = null /\ state (slot t) <> SLEEPING;
  so_sem : forall k s, sems st0 !! k = Some s ->
    0 <= n k /\ exists s0, length (arr (waitq s0)) = Z.to_nat QMAX /\ s = sem_init s0 (n k);
  so_past : forall k, past st0 k = Hist 0 0 0
}.
End Machine.

(** ** The invariant *)

(** The semaphore whose spin-lock the thread holds, and the one in whose queue
    it has been *)
Definition crit (pc : spc) : option nat :=
  match pc with
  | DDec k | DTest k | DEnq k | DRelPark k | DRel k
  | UInc k | UTest k | UDeq k | UUnpark k _ | URel k => Some k
  | _ => None
  end.
Definition reg (pc : spc) : option nat :=
  match pc with DRelPark k | DPark k | DParked k => Some k | _ => None end.
(** Has it decremented the count of [k] without having returned yet? *)
Definition pending (k : nat) (pc : spc) : Z :=
  match pc with
  | DTest j | DEnq j | DRelPark j | DPark j | DParked j | DRel j =>
      if decide (j = k) then 1 else 0
  | _ => 0
  end.
Definition sum_pending (k : nat) (l : list uthread) : Z :=
  foldr (fun t s => pending k (upc t) + s) 0 l.

(** What the invariant knows of a semaphore: the queue as a list, and the
    holder of the spin-lock. *)
Record sabs := SAbs { sq : list Z; sph : option (nat * spc) }.
Definition unparking (a : sabs) : option Z :=
  match sph a with Some (_, UUnpark _ id) => Some id | _ => None end.
(** Thread [id] is waiting for an [unpark] that has not come. *)
Definition wants (a : sabs) (id : Z) : Prop := id ∈ sq a \/ unparking a = Some id.

(** The length of the queue against the count *)
Definition len_ok (ph : option (nat * spc)) (len c : Z) : Prop :=
  match ph with
  | Some (_, DTest _) => len = Z.max 0 (- (c + 1))
  | Some (_, DEnq _) => c < 0 /\ len = - c - 1
  | Some (_, UTest _) => len = Z.max 0 (- (c - 1))
  | Some (_, UDeq _) => c <= 0 /\ len = - c + 1
  | _ => len = Z.max 0 (- c)
  end.

Record sem_ok (s : semaphore) (a : sabs) : Prop := {
  sk_guard : guard s = if sph a then 1 else 0;
  sk_queue : queue_is (waitq s) (sq a);
  sk_nodup : NoDup (sq a);
  sk_unparking : forall id, unparking a = Some id -> id ∉ sq a;
  sk_len : len_ok (sph a) (Z.of_nat (length (sq a))) (scount s)
}.

Definition pids (l : list uthread) : list Z := (fun t => pid (slot t)) <$> l.

Section Invariant.
Context (addr : nat -> Z).
Hypothesis addr_inj : forall j k, addr j = addr k -> j = k.
Hypothesis addr_nz : forall k, addr k <> 0.
Context (n : nat -> Z).

Definition th_ok (A : nat -> sabs) (t : uthread) : Prop :=
  let p := slot t in
  (forall k, wants (A k) (pid p) -> reg (upc t) = Some k) /\
  match upc t with
  | DRelPark k | DPark k =>
      state p <> SLEEPING /\ (wants (A k) (pid p) -> lostwakeup p = null) /\
      (~ wants (A k) (pid p) -> lostwakeup p = sem_chan addr k)
  | DParked k =>
      lostwakeup p = null /\ (wants (A k) (pid p) <-> state p = SLEEPING) /\
      (state p = SLEEPING -> pchan p = sem_chan addr k)
  | _ => state p <> SLEEPING /\ lostwakeup p = null
  end.

Record uinv (st : ustate) (A : nat -> sabs) : Prop := {
  iv_pids : NoDup (pids (uths st));
  iv_len : Z.of_nat (length (uths st)) <= QMAX;
  iv_sem : forall k s, sems st !! k = Some s -> sem_ok s (A k);
  iv_th : forall i t, uths st !! i = Some t -> th_ok A t;
  iv_crit : forall i t k, uths st !! i = Some t -> crit (upc t) = Some k ->
    sph (A k) = Some (i, upc t);
  iv_hold : forall k i pc, sph (A k) = Some (i, pc) ->
    crit pc = Some k /\ exists t, uths st !! i = Some t /\ upc t = pc;
  iv_wants : forall k id, wants (A k) id -> id ∈ pids (uths st);
  iv_count : forall k s, sems st !! k = Some s ->
    scount s = n k + ups (past st k) - downs (past st k);
  iv_downs : forall k, downs (past st k) = returned (past st k) + sum_pending k (uths st);
  iv_ret : forall k, 0 <= returned (past st k)
}.

Lemma sum_insert k l i t t' :
  l !! i = Some t ->
  sum_pending k (<[i := t']> l) = sum_pending k l - pending k (upc t) + pending k (upc t').
Proof.
  revert i. induction l as [|x l IH]; intros [|i] H; simplify_eq/=.
  - lia.
  - rewrite (IH i H). lia.
Qed.

Lemma pids_insert l i t t' :
  l !! i = Some t -> pid (slot t') = pid (slot t) -> pids (<[i := t']> l) = pids l.
Proof.
  intros Hi Hp. unfold pids. rewrite list_fmap_insert. apply list_insert_id.
  rewrite list_lookup_fmap, Hi. simpl. by rewrite Hp.
Qed.

Lemma pids_inj st A i j t u :
  uinv st A -> uths st !! i = Some t -> uths st !! j = Some u ->
  pid (slot t) = pid (slot u) -> i = j.
Proof.
  intros H Hi Hj E. apply (NoDup_lookup (pids (uths st)) i j (pid (slot t))).
  - apply H.
  - unfold pids. by rewrite list_lookup_fmap, Hi.
  - unfold pids. rewrite list_lookup_fmap, Hj. simpl. by rewrite E.
Qed.

(** What the waiting of a thread depends on *)
Lemma th_ok_frame A A' t :
  (forall k, wants (A' k) (pid (slot t)) <-> wants (A k) (pid (slot t))) ->
  th_ok A t -> th_ok A' t.
Proof.
  intros H [H1 H2]. split.
  - intros k Hk. by apply H1, H.
  - destruct (upc t) as [| | | | |k|k|k| | | | | | |]; rewrite ?H; done.
Qed.

(** How the holder of the spin-lock of [k] changes when thread [i] goes from
    [pc] to [pc']: not at all, or thread [i] is or becomes the holder. *)
Definition hold_step (k i : nat) (pc pc' : spc) (ph ph' : option (nat * spc)) : Prop :=
  (crit pc = None /\ crit pc' = None /\ ph' = ph) \/
  ((crit pc = Some k \/ crit pc = None /\ ph = None) /\
   (crit pc' = Some k \/ crit pc' = None) /\
   ph' = if crit pc' then Some (i, pc') else None).

(** A step of thread [i] at semaphore [k] that touches no other thread *)
Lemma uinv_step st A i t pc' p' k s s' a' h' :
  uinv st A -> uths st !! i = Some t -> sems st !! k = Some s ->
  pid p' = pid (slot t) ->
  (forall id, id <> pid (slot t) -> wants a' id <-> wants (A k) id) ->
  sem_ok s' a' -> th_ok (fset A k a') (Uth pc' p') ->
  hold_step k i (upc t) pc' (sph (A k)) (sph a') ->
  scount s' = n k + ups h' - downs h' -> 0 <= returned h' ->
  (forall j, pending j pc' - pending j (upc t) =
     if decide (j = k) then downs h' - downs (past st k) - (returned h' - returned (past st k))
     else 0) ->
  uinv (Ust (<[k := s']> (sems st)) (<[i := Uth pc' p']> (uths st)) (fset (past st) k h'))
       (fset A k a').
Proof.
  intros H Hi Hk Hp Hw Hs Ht Hh Hc Hr Hd.
  assert (pids (<[i := Uth pc' p']> (uths st)) = pids (uths st)) as Ep.
  { by eapply pids_insert. }
  split; simpl; rewrite ?Ep, ?length_insert; try apply H.
  - intros j sj Hj. unfold fset. apply list_lookup_insert_Some in Hj as [(-> & -> & _)|[Hne Hj]].
    + by rewrite decide_True.
    + rewrite decide_False by done. by apply H.
  - intros j u Hj. apply list_lookup_insert_Some in Hj as [(-> & <- & _)|[Hne Hj]]; [done|].
    eapply th_ok_frame; [|by eapply iv_th]. intros k'. unfold fset. case_decide; [subst|done].
    apply Hw. intros E. eapply Hne, (pids_inj st A); eauto.
  - intros j u k' Hj Hcr. unfold fset.
    apply list_lookup_insert_Some in Hj as [(-> & <- & _)|[Hne Hj]]; simpl in *.
    + destruct Hh as [(_ & E & _)|(_ & [E|E] & Hy)]; simplify_eq.
      rewrite decide_True by done. by rewrite Hy, E.
    + pose proof (iv_crit st A H j u k' Hj Hcr) as E. case_decide; [subst k'|done].
      destruct Hh as [(_ & _ & Hy)|([Hx|[_ Hx]] & _ & _)]; [by rewrite Hy| |congruence].
      pose proof (iv_crit st A H i t k Hi Hx). congruence.
  - intros k' j pc E. unfold fset in E. case_decide; [subst k'|].
    + destruct Hh as [(Hx & _ & Hy)|(_ & [Hx|Hx] & Hy)].
      * rewrite Hy in E. destruct (iv_hold st A H k j pc E) as (? & u & Hj & <-).
        split; [done|]. exists u. rewrite list_lookup_insert_ne; [done|]. intros ->. congruence.
      * rewrite Hx in Hy. rewrite Hy in E. simplify_eq. split; [done|]. eexists.
        split; [apply list_lookup_insert_eq; by eapply lookup_lt_Some|done].
      * rewrite Hx in Hy. congruence.
    + destruct (iv_hold st A H k' j pc E) as (? & u & Hj & <-). split; [done|].
      destruct (decide (j = i)) as [->|Hne]; [|exists u; by rewrite list_lookup_insert_ne].
      simplify_eq. destruct Hh as [(? & _)|([?|[? _]] & _)]; congruence.
  - intros k' id Hx. unfold fset in Hx. case_decide; [subst|by eapply H].
    destruct (decide (id = pid (slot t))) as [->|Hne]; [|eapply H; by apply Hw].
    unfold pids. apply list_elem_of_fmap. exists t. split; [done|]. by eapply list_elem_of_lookup_2.
  - intros j sj Hj. unfold fset. apply list_lookup_insert_Some in Hj as [(-> & -> & _)|[Hne Hj]].
    + by rewrite decide_True.
    + rewrite decide_False by done. by apply H.
  - intros j. rewrite (sum_insert _ _ _ _ _ Hi). specialize (Hd j). simpl.
    pose proof (iv_downs st A H j). unfold fset. case_decide; subst; lia.
  - intros j. unfold fset. case_decide; [done|apply H].
Qed.

Lemma sum_pending_nonneg k l : 0 <= sum_pending k l.
Proof.
  induction l as [|t l IH]; simpl; [lia|].
  assert (0 <= pending k (upc t)); [|lia].
  unfold pending. destruct (upc t); try case_decide; lia.
Qed.

(** The count stays within an [int]. *)
Lemma count_range st A k s :
  uinv st A -> sems st !! k = Some s ->
  - QMAX - 1 <= scount s <= n k + ups (past st k).
Proof.
  intros H Hk. pose proof (iv_count st A H k s Hk). pose proof (iv_downs st A H k).
  pose proof (iv_ret st A H k). pose proof (sum_pending_nonneg k (uths st)).
  destruct (iv_sem st A H k s Hk) as [_ Hq _ _ Hl].
  pose proof (qi_count _ _ Hq). pose proof (qi_max _ _ Hq). split; [|lia].
  unfold len_ok, QMAX in *. destruct (sph (A k)) as [[? []]|]; lia.
Qed.

Lemma queue_room st A i t k s :
  uinv st A -> uths st !! i = Some t -> sems st !! k = Some s ->
  ~ wants (A k) (pid (slot t)) -> qcount (waitq s) < QMAX.
Proof.
  intros H Hi Hk Hw. destruct (iv_sem st A H k s Hk) as [_ Hq Hnd _ _].
  rewrite (qi_count _ _ Hq). pose proof (iv_len st A H).
  assert (length (pid (slot t) :: sq (A k)) <= length (pids (uths st)))%nat as Hl.
  { apply submseteq_length, NoDup_submseteq.
    - constructor; [|done]. intros ?. apply Hw. by left.
    - intros x [->|Hx]%elem_of_cons.
      + unfold pids. apply list_elem_of_fmap. exists t. split; [done|].
        by eapply list_elem_of_lookup_2.
      + apply (iv_wants st A H k). by left. }
  unfold pids in Hl. rewrite length_fmap in Hl. simpl in Hl. lia.
Qed.

Lemma fset_eq {B} (f : nat -> B) k b : fset f k b k = b.
Proof. unfold fset. by rewrite decide_True. Qed.
Lemma fset_id {B} (f : nat -> B) k j : fset f k (f k) j = f j.
Proof. unfold fset. case_decide; by subst. Qed.

(** A thread that waits for nothing, before and after *)
Lemma th_ok_idle A A' t pc' p' :
  th_ok A t -> reg (upc t) = None ->
  (forall k, wants (A' k) (pid (slot t)) -> wants (A k) (pid (slot t))) ->
  reg pc' = None -> p' = slot t -> th_ok A' (Uth pc' p').
Proof.
  intros [H1 H2] Hr Hw Hr' ->. split; simpl.
  - intros k Hk. apply Hw, H1 in Hk. congruence.
  - destruct (upc t); try done; destruct pc'; done.
Qed.

Section Step.
Context (st : ustate) (A : nat -> sabs) (i : nat) (t : uthread) (k : nat) (s : semaphore).
Hypothesis Hinv : uinv st A.
Hypothesis Hi : uths st !! i = Some t.
Hypothesis Hrun : state (slot t) = RUNNING.
Hypothesis Hk : sems st !! k = Some s.
Hypothesis Hmax : n k + ups (past st k) < two31.

Let st' (s' : semaphore) (pc' : spc) (p' : proc) (h' : hist) : ustate :=
  Ust (<[k := s']> (sems st)) (<[i := Uth pc' p']> (uths st)) (fset (past st) k h').
Let ok (s' : semaphore) (pc' : spc) (p' : proc) (h' : hist) : Prop :=
  exists A', uinv (st' s' pc' p' h') A'.

Ltac pend := intros j; simpl; unfold pending; repeat case_decide; subst; simpl; try done; lia.
Ltac facts :=
  pose proof (iv_count st A Hinv k s Hk); pose proof (iv_ret st A Hinv k);
  pose proof (iv_th st A Hinv i t Hi) as Hth;
  pose proof (count_range st A k s Hinv Hk) as Hrange.

(** Moves of the holder that leave the queue alone *)
Lemma holder_move s' pc' h' :
  reg (upc t) = None -> reg pc' = None -> (forall id, upc t <> UUnpark k id) ->
  (forall id, pc' <> UUnpark k id) ->
  (crit (upc t) = Some k \/ crit (upc t) = None /\ sph (A k) = None) ->
  (crit pc' = Some k \/ crit pc' = None) ->
  guard s' = (if crit pc' then 1 else 0) -> waitq s' = waitq s ->
  (len_ok (sph (A k)) (Z.of_nat (length (sq (A k)))) (scount s) ->
   len_ok (if crit pc' then Some (i, pc') else None) (Z.of_nat (length (sq (A k)))) (scount s')) ->
  scount s' = n k + ups h' - downs h' -> 0 <= returned h' ->
  (forall j, pending j pc' - pending j (upc t) =
     if decide (j = k) then downs h' - downs (past st k) - (returned h' - returned (past st k))
     else 0) ->
  ok s' pc' (slot t) h'.
Proof.
  intros Hr Hr' Hu Hu' Hc Hc' Hg Hq Hl Hcnt Hret Hp. facts.
  assert (unparking (A k) = None) as Eu.
  { unfold unparking. destruct (sph (A k)) as [[j pc]|] eqn:E; [|done].
    destruct Hc as [Hc|[_ Hc]]; [|done].
    pose proof (iv_crit st A Hinv i t k Hi Hc) as E'. rewrite E in E'. simplify_eq.
    destruct (upc t) eqn:Et; try done. simpl in Hc. simplify_eq. by destruct (Hu id). }
  exists (fset A k (SAbs (sq (A k)) (if crit pc' then Some (i, pc') else None))).
  assert (unparking (SAbs (sq (A k)) (if crit pc' then Some (i, pc') else None)) = None) as Eu'.
  { unfold unparking. simpl. destruct (crit pc') eqn:Ec; [|done].
    destruct pc'; try done. simpl in *. destruct Hc' as [Hc'|]; simplify_eq. by destruct (Hu' id). }
  assert (forall id, wants (SAbs (sq (A k)) (if crit pc' then Some (i, pc') else None)) id
            <-> wants (A k) id) as Hw.
  { intros id. unfold wants. rewrite Eu, Eu'. done. }
  destruct (iv_sem st A Hinv k s Hk) as [Hsg Hsq Hnd Hun Hlen].
  eapply (uinv_step st A i t pc' (slot t) k s); try done.
  - split; simpl; try done.
    + rewrite Hg. by destruct (crit pc').
    + by rewrite Hq.
    + by rewrite Eu'.
    + by apply Hl.
  - eapply th_ok_idle; try done. intros k'. unfold fset. case_decide; [subst|done]. apply Hw.
  - right. split; [done|]. split; [done|]. done.
Qed.

(** Moves of a thread without the spin-lock *)
Lemma outside_move s' pc' p' h' :
  pid p' = pid (slot t) -> crit (upc t) = None -> crit pc' = None ->
  sem_ok s' (A k) -> th_ok A (Uth pc' p') ->
  scount s' = n k + ups h' - downs h' -> 0 <= returned h' ->
  (forall j, pending j pc' - pending j (upc t) =
     if decide (j = k) then downs h' - downs (past st k) - (returned h' - returned (past st k))
     else 0) ->
  ok s' pc' p' h'.
Proof.
  intros Hp Hc Hc' Hs Ht Hcnt Hret Hpd. exists (fset A k (A k)).
  eapply (uinv_step st A i t pc' p' k s); try done.
  - eapply th_ok_frame; [|exact Ht]. intros j. by rewrite fset_id.
  - by left.
Qed.

(** The waiting thread enters the queue. *)
Lemma enq_move :
  upc t = DEnq k ->
  ok (s <|waitq ::= fun q => enq q (pid (slot t))|>) (DRelPark k) (slot t)
    (note_down (DEnq k) (DRelPark k) (past st k)).
Proof.
  intros Et. facts. destruct (iv_sem st A Hinv k s Hk) as [Hsg Hsq Hnd Hun Hlen].
  pose proof (iv_crit st A Hinv i t k Hi) as Eph. rewrite Et in Eph. specialize (Eph eq_refl).
  unfold th_ok in Hth. rewrite Et in Hth. simpl in Hth. destruct Hth as (Hw & Hns & Hlost).
  assert (~ wants (A k) (pid (slot t))) as Hnw by (intros Hx; by apply Hw in Hx).
  pose proof (queue_room st A i t k s Hinv Hi Hk Hnw) as Hroom.
  rewrite Eph in Hlen. destruct Hlen as [Hneg Hlen].
  set (a' := SAbs (sq (A k) ++ [pid (slot t)]) (Some (i, DRelPark k))).
  assert (forall id, wants a' id <-> wants (A k) id \/ id = pid (slot t)) as Hw'.
  { intros id. unfold wants, unparking. rewrite Eph. simpl. rewrite elem_of_app.
    rewrite list_elem_of_singleton. naive_solver. }
  exists (fset A k a'). eapply (uinv_step st A i t (DRelPark k) (slot t) k s); try done.
  - intros id Hid. rewrite Hw'. naive_solver.
  - split; getset; simpl; try done.
    + rewrite Hsg. by rewrite Eph.
    + by apply enq_is.
    + apply NoDup_app. split; [done|]. split; [|apply NoDup_singleton].
      intros x Hx ->%list_elem_of_singleton. apply Hnw. by left.
    + rewrite length_app. simpl. lia.
  - split; simpl.
    + intros j. unfold fset. case_decide; [by subst|]. intros Hx%Hw. done.
    + rewrite fset_eq, Hw'. naive_solver.
  - right. rewrite Et. simpl. auto.
  - rewrite Et. pend.
Qed.

(** It gives up the spin-lock. *)
Lemma relpark_move :
  upc t = DRelPark k -> 
  ok (s <|guard ::= slock_release|>) (DPark k) (slot t)
    (note_down (DRelPark k) (DPark k) (past st k)).
Proof.
  intros Et. facts. destruct (iv_sem st A Hinv k s Hk) as [Hsg Hsq Hnd Hun Hlen].
  pose proof (iv_crit st A Hinv i t k Hi) as Eph. rewrite Et in Eph. specialize (Eph eq_refl).
  set (a' := SAbs (sq (A k)) None).
  assert (forall id, wants a' id <-> wants (A k) id) as Hw'.
  { intros id. unfold wants, unparking. rewrite Eph. simpl. done. }
  exists (fset A k a'). eapply (uinv_step st A i t (DPark k) (slot t) k s); try done.
  - split; getset; simpl; try done. by rewrite Eph in Hlen.
  - apply (th_ok_frame A). { intros j. unfold fset. case_decide; [subst; apply Hw'|done]. }
    unfold th_ok in *. rewrite Et in Hth. done.
  - right. rewrite Et. simpl. auto.
  - rewrite Et. pend.
Qed.

(** [sem_up] takes the first waiter from the queue. *)
Lemma deq_move id q :
  upc t = UDeq k -> deq (waitq s) = (id, q) ->
  ok (s <|waitq := q|>) (UUnpark k id) (slot t) (note_up (UDeq k) (past st k)).
Proof.
  intros Et Ed. facts. destruct (iv_sem st A Hinv k s Hk) as [Hsg Hsq Hnd Hun Hlen].
  pose proof (iv_crit st A Hinv i t k Hi) as Eph. rewrite Et in Eph. specialize (Eph eq_refl).
  rewrite Eph in Hlen. destruct Hlen as [Hneg Hlen].
  destruct (sq (A k)) as [|x l] eqn:El; [simpl in Hlen; lia|].
  destruct (deq_is _ _ _ Hsq) as (q' & Ed' & Hq'). rewrite Ed in Ed'. simplify_eq.
  apply NoDup_cons in Hnd as [Hx Hnd].
  set (a' := SAbs l (Some (i, UUnpark k x))).
  assert (forall id, wants a' id <-> wants (A k) id) as Hw'.
  { intros id. unfold wants, unparking. rewrite Eph, El. simpl. rewrite elem_of_cons.
    naive_solver. }
  exists (fset A k a'). eapply (uinv_step st A i t (UUnpark k x) (slot t) k s); try done.
  - split; getset; simpl; try done.
    + by rewrite Hsg, Eph.
    + by intros id [= ->].
    + simpl in Hlen. lia.
  - eapply th_ok_idle; [exact Hth|by rewrite Et| |done|done].
    intros j. unfold fset. case_decide; [subst; apply Hw'|done].
  - right. rewrite Et. simpl. auto.
  - rewrite Et. pend.
Qed.

(** [park] returns at once or goes to sleep. *)
Lemma park_move :
  upc t = DPark k ->
  th_ok A (Uth (if bool_decide (lostwakeup (slot t) = sem_chan addr k) then SIdle else DParked k)
             (park_proc (sem_chan addr k) (slot t))).
Proof.
  intros Et. pose proof (iv_th st A Hinv i t Hi) as Hth. unfold th_ok in *.
  rewrite Et in Hth. simpl in *. destruct Hth as (Hw & Hns & Hl1 & Hl2).
  assert (sem_chan addr k <> null) as Hnull by (intros [= E]; by eapply addr_nz).
  unfold park_proc. case_bool_decide as El; simpl; getset.
  - assert (~ wants (A k) (pid (slot t))) as Hnw.
    { intros Hx%Hl1. congruence. }
    split; [|done]. intros j Hj. specialize (Hw j Hj). by simplify_eq.
  - assert (wants (A k) (pid (slot t))) as Hwk.
    { destruct (decide (lostwakeup (slot t) = sem_chan addr k)); [done|].
      unfold wants. destruct (decide (pid (slot t) ∈ sq (A k))); [by left|].
      destruct (decide (unparking (A k) = Some (pid (slot t)))); [by right|].
      destruct El. apply Hl2. intros [?|?]; done. }
    split; [done|]. split; [done|]. split; [|done]. naive_solver.
Qed.

(** A parked thread that runs again has been unparked. *)
Lemma parked_move :
  upc t = DParked k -> th_ok A (Uth SIdle ((slot t) <|pchan := null|>)).
Proof.
  intros Et. pose proof (iv_th st A Hinv i t Hi) as Hth. unfold th_ok in *.
  rewrite Et in Hth. simpl in *. destruct Hth as (Hw & Hl & Hs & _). getset.
  split; [|by rewrite Hrun]. intros j Hj. specialize (Hw j Hj). simplify_eq.
  apply Hs in Hj. congruence.
Qed.

Lemma guard_held s' :
  guard s <> 0 -> s' = s <|guard := 1|> -> sem_ok s' (A k).
Proof.
  intros Hg ->. destruct (iv_sem st A Hinv k s Hk) as [Hsg Hsq Hnd Hun Hlen].
  split; getset; try done. destruct (sph (A k)); [done|congruence].
Qed.

Lemma guard_free : guard s = 0 -> sph (A k) = None.
Proof.
  intros Hg. destruct (iv_sem st A Hinv k s Hk) as [Hsg _ _ _ _].
  destruct (sph (A k)); [congruence|done].
Qed.

Lemma holder_phase : crit (upc t) = Some k -> sph (A k) = Some (i, upc t).
Proof. by apply (iv_crit st A Hinv). Qed.

Lemma uinv_down s' p' pc' :
  pc_sem (upc t) = k -> sem_down (sem_chan addr k) (upc t) s (slot t) = Some (s', p', pc') ->
  ok s' pc' p' (note_down (upc t) pc' (past st k)).
Proof.
  intros Hpc E. facts. pose proof (iv_sem st A Hinv k s Hk) as Hsk.
  pose proof holder_phase as Hph. unfold QMAX, two31 in *.
  destruct (upc t) as [|k0|k0|k0|k0|k0|k0|k0|k0| | | | | |] eqn:Et; simpl in *;
    try discriminate E; subst k0; injection E as <- <- <-.
  - destruct (Z.eqb_spec (guard s) 0) as [E0|E0].
    + pose proof (guard_free E0) as Eph.
      apply holder_move; rewrite ?Et, ?Eph; simpl; try done; auto; pend.
    + apply outside_move; rewrite ?Et; simpl; try done; [by apply guard_held| |pend].
      unfold th_ok in *. by rewrite Et in Hth.
  - apply holder_move; rewrite ?Et, ?Hph; simpl; getset; try done; auto.
    + rewrite (sk_guard _ _ Hsk), Hph by done. done.
    + rewrite i32_small by (unfold two31; lia). intros ->. f_equal. lia.
    + rewrite i32_small by (unfold two31; lia). lia.
    + pend.
  - pose proof (sk_len _ _ Hsk) as Hlen. rewrite Hph in Hlen by done. simpl in Hlen.
    destruct (Z.ltb_spec (scount s) 0);
      (apply holder_move; rewrite ?Et, ?Hph; simpl; getset; try done; auto;
       [by rewrite (sk_guard _ _ Hsk), Hph|lia|pend]).
  - apply enq_move. done.
  - apply relpark_move. done.
  - pose proof (park_move Et) as Hp.
    case_bool_decide; apply outside_move; rewrite ?Et; simpl; try done; try lia; try pend;
      unfold park_proc; by case_bool_decide.
  - apply outside_move; rewrite ?Et; simpl; try done; [by apply parked_move|lia|pend].
  - apply holder_move; rewrite ?Et, ?Hph; simpl; getset; try done; auto; [lia|pend].
Qed.

Lemma uinv_up s' pc' :
  pc_sem (upc t) = k -> sem_up (upc t) s = Some (s', pc') ->
  n k + ups (note_up (upc t) (past st k)) < two31 ->
  ok s' pc' (slot t) (note_up (upc t) (past st k)).
Proof.
  intros Hpc E Hup. facts. pose proof (iv_sem st A Hinv k s Hk) as Hsk.
  pose proof holder_phase as Hph. unfold QMAX, two31 in *.
  destruct (upc t) as [| | | | | | | | |k0|k0|k0|k0|k0 id|k0] eqn:Et; simpl in *;
    try discriminate E; subst k0; try injection E as <- <-.
  - destruct (Z.eqb_spec (guard s) 0) as [E0|E0].
    + pose proof (guard_free E0) as Eph.
      apply holder_move; rewrite ?Et, ?Eph; simpl; try done; auto; pend.
    + apply outside_move; rewrite ?Et; simpl; try done; [by apply guard_held| |pend].
      unfold th_ok in *. by rewrite Et in Hth.
  - apply holder_move; rewrite ?Et, ?Hph; simpl; getset; try done; auto.
    + rewrite (sk_guard _ _ Hsk), Hph by done. done.
    + rewrite i32_small by (unfold two31; lia). intros ->. f_equal. lia.
    + rewrite i32_small by (unfold two31; lia). lia.
    + pend.
  - pose proof (sk_len _ _ Hsk) as Hlen. rewrite Hph in Hlen by done. simpl in Hlen.
    destruct (Z.leb_spec (scount s) 0);
      (apply holder_move; rewrite ?Et, ?Hph; simpl; getset; try done; auto;
       [by rewrite (sk_guard _ _ Hsk), Hph|lia|pend]).
  - by apply deq_move.
  - apply holder_move; rewrite ?Et, ?Hph; simpl; getset; try done; auto; pend.
Qed.
End Step.

(** Steps that change no semaphore *)
Definition same_place (A : nat -> sabs) (t t' : uthread) : Prop :=
  pid (slot t') = pid (slot t) /\ crit (upc t') = crit (upc t) /\
  (crit (upc t) = None \/ upc t' = upc t) /\
  (forall k, pending k (upc t') = pending k (upc t)) /\ (th_ok A t -> th_ok A t').

Lemma same_place_refl A t : same_place A t t.
Proof. by split_and!; try done; right. Qed.

Lemma Forall2_insert_r {B} (R : B -> B -> Prop) l i x y :
  (forall z, R z z) -> l !! i = Some x -> R x y -> Forall2 R l (<[i := y]> l).
Proof.
  intros Hr. revert i. induction l as [|z l IH]; intros [|i] Hi Hxy; simplify_eq/=.
  - constructor; [done|]. clear IH. induction l; by constructor.
  - constructor; [done|]. by apply IH.
Qed.

Lemma uinv_threads st A ths' :
  uinv st A -> Forall2 (same_place A) (uths st) ths' -> uinv (Ust (sems st) ths' (past st)) A.
Proof.
  intros H HF.
  assert (pids ths' = pids (uths st)) as Ep.
  { unfold pids. induction HF as [|t t' l l' Ht _ IH]; [done|]. csimpl. f_equal; [apply Ht|done]. }
  assert (forall k, sum_pending k ths' = sum_pending k (uths st)) as Es.
  { intros k. unfold sum_pending. clear H Ep. induction HF as [|t t' l l' Ht _ IH]; [done|].
    simpl. rewrite IH. destruct Ht as (_ & _ & _ & -> & _). done. }
  split; simpl; rewrite ?Ep, ?Es; try apply H.
  - rewrite <- (Forall2_length _ _ _ HF). apply H.
  - intros i t' Hi. destruct (Forall2_lookup_r _ _ _ _ _ HF Hi) as (t & Ht & Hs).
    apply Hs. by eapply iv_th.
  - intros i t' k Hi Hc. destruct (Forall2_lookup_r _ _ _ _ _ HF Hi) as (t & Ht & Hs).
    destruct Hs as (_ & Ec & [Hn|Eu] & _); [congruence|]. rewrite Eu. rewrite Ec in Hc.
    by apply (iv_crit st A H).
  - intros k i pc E. destruct (iv_hold st A H k i pc E) as (Hc & t & Ht & <-). split; [done|].
    destruct (Forall2_lookup_l _ _ _ _ _ HF Ht) as (t' & Ht' & Hs). exists t'. split; [done|].
    destruct Hs as (_ & _ & [Hn|Eu] & _); congruence.
  - intros k. rewrite Es. apply H.
Qed.

Lemma uinv_call st A i t pc k :
  uinv st A -> uths st !! i = Some t -> upc t = SIdle -> pc = DSpin k \/ pc = USpin k ->
  uinv (Ust (sems st) (<[i := Uth pc (slot t)]> (uths st)) (past st)) A.
Proof.
  intros H Hi Et Hpc. apply uinv_threads; [done|].
  eapply Forall2_insert_r; [apply same_place_refl|done|].
  unfold same_place, th_ok. rewrite Et. by destruct Hpc as [-> | ->]; split_and!; auto.
Qed.

Lemma uinv_sched st A i t x :
  uinv st A -> uths st !! i = Some t -> state (slot t) <> SLEEPING -> x <> SLEEPING ->
  uinv (Ust (sems st) (<[i := Uth (upc t) ((slot t) <|state := x|>)]> (uths st)) (past st)) A.
Proof.
  intros H Hi Hs Hx. apply uinv_threads; [done|].
  eapply Forall2_insert_r; [apply same_place_refl|done|].
  unfold same_place, th_ok. simpl. getset. split_and!; auto.
  destruct (upc t); naive_solver.
Qed.

Lemma uinv_wakeup st A ch :
  uinv st A -> (forall k, ch <> sem_chan addr k) ->
  uinv (Ust (sems st) ((fun t => Uth (upc t) (wake_proc ch (slot t))) <$> uths st) (past st)) A.
Proof.
  intros H Hch. apply uinv_threads; [done|]. apply Forall2_fmap_r, Forall_Forall2_diag.
  apply Forall_forall. intros t Ht. unfold same_place. simpl.
  apply list_elem_of_lookup_1 in Ht as [i Hi].
  destruct (iv_th st A H i t Hi) as [_ Hth]. unfold wake_proc, wakes.
  case_bool_decide as Hs; [|by split_and!; auto; destruct t].
  destruct Hs as [Hs Hc]. exfalso.
  destruct (upc t) as [| | | | | | |k| | | | | | |]; try naive_solver.
Qed.

(** [unpark] finds the one thread with that pid. *)
Lemma unpark_first_insert id ch l j u :
  NoDup (pids l) -> l !! j = Some u -> pid (slot u) = id ->
  unpark_first id ch l = <[j := Uth (upc u) (unpark_proc ch (slot u))]> l.
Proof.
  revert j. induction l as [|t l IH]; intros [|j] Hnd Hj Hid; simplify_eq/=.
  - by rewrite Z.eqb_refl.
  - apply NoDup_cons in Hnd as [Hnin Hnd]. destruct (Z.eqb_spec (pid (slot t)) (pid (slot u))).
    + destruct Hnin. rewrite e. unfold pids. apply list_elem_of_fmap. exists u.
      split; [done|]. by eapply list_elem_of_lookup_2.
    + f_equal. by apply IH.
Qed.

(** The unparked thread has its wake-up, asleep or not. *)
Lemma th_ok_unpark A A' k u :
  (forall j, wants (A' j) (pid (slot u)) <-> wants (A j) (pid (slot u)) /\ j <> k) ->
  wants (A k) (pid (slot u)) -> th_ok A u ->
  th_ok A' (Uth (upc u) (unpark_proc (sem_chan addr k) (slot u))).
Proof.
  intros Hw Hk [H1 H2]. pose proof (H1 k Hk) as Hr.
  assert (pid (unpark_proc (sem_chan addr k) (slot u)) = pid (slot u)) as Ep.
  { unfold unpark_proc. by case_bool_decide. }
  assert (~ wants (A' k) (pid (slot u))) as Hnk by (rewrite Hw; tauto).
  split; simpl; rewrite Ep.
  - intros j Hj. apply H1. by apply Hw in Hj as [? _].
  - unfold unpark_proc. destruct (upc u) as [| | | | |k0|k0|k0| | | | | | |]; simplify_eq/=.
    1,2: destruct H2 as (Hs & _); rewrite bool_decide_false by naive_solver; getset;
      naive_solver.
    destruct H2 as (Hl & Hs & Hc). pose proof (proj1 Hs Hk) as Hsl.
    rewrite bool_decide_true by auto. getset. naive_solver.
Qed.

Section Unpark.
Context (st : ustate) (A : nat -> sabs) (i j : nat) (t u : uthread) (k : nat) (s : semaphore).
Let id := pid (slot u).
Hypothesis Hinv : uinv st A.
Hypothesis Hk : sems st !! k = Some s.
Hypothesis Hi : uths st !! i = Some t.
Hypothesis Hj : uths st !! j = Some u.
Hypothesis Hne : j <> i.
Hypothesis Et : upc t = UUnpark k id.

Let a' : sabs := SAbs (sq (A k)) (Some (i, URel k)).
Let t' : uthread := Uth (URel k) (slot t).
Let u' : uthread := Uth (upc u) (unpark_proc (sem_chan addr k) (slot u)).
Let ths' : list uthread := <[j := u']> (<[i := t']> (uths st)).

Lemma unpark_phase : sph (A k) = Some (i, UUnpark k id).
Proof. rewrite <- Et. apply (iv_crit st A Hinv i t k Hi). by rewrite Et. Qed.

Lemma unpark_wants x y : wants (fset A k a' x) y <-> wants (A x) y /\ ~ (x = k /\ y = id).
Proof.
  unfold fset. case_decide; [subst x|naive_solver].
  pose proof (sk_unparking _ _ (iv_sem st A Hinv k s Hk) id) as Hun.
  unfold wants, unparking in *. rewrite unpark_phase in *. simpl.
  specialize (Hun eq_refl). naive_solver.
Qed.

Lemma unpark_lookup x v :
  ths' !! x = Some v ->
  (x = j /\ v = u') \/ (x = i /\ v = t') \/ (x <> i /\ x <> j /\ uths st !! x = Some v).
Proof.
  unfold ths'. intros [(-> & <- & _)|[? Hx]]%list_lookup_insert_Some; [by left|right].
  apply list_lookup_insert_Some in Hx as [(-> & <- & _)|[? Hx]]; [by left|by right].
Qed.

Lemma unpark_pids : pids ths' = pids (uths st).
Proof.
  unfold ths'. rewrite (pids_insert _ j u); cycle 1.
  { by rewrite list_lookup_insert_ne. }
  { subst u'. simpl. unfold unpark_proc. by case_bool_decide. }
  by apply (pids_insert _ i t).
Qed.

Lemma unpark_th x v : ths' !! x = Some v -> th_ok (fset A k a') v.
Proof.
  intros [[-> ->]|[[-> ->]|(Hxi & Hxj & Hx)]]%unpark_lookup.
  - eapply th_ok_unpark; [|right; unfold unparking; by rewrite unpark_phase|by eapply iv_th].
    intros z. rewrite unpark_wants. subst id. naive_solver.
  - eapply (th_ok_idle A _ t); [by eapply iv_th|by rewrite Et| |done|done].
    intros z. rewrite unpark_wants. tauto.
  - eapply th_ok_frame; [|by eapply iv_th]. intros z. rewrite unpark_wants. split; [tauto|].
    intros Hz. split; [done|]. intros [_ E]. eapply Hxj, (pids_inj st A); eauto.
Qed.

Lemma uinv_unparked : uinv (Ust (sems st) ths' (past st)) (fset A k a').
Proof.
  destruct (iv_sem st A Hinv k s Hk) as [Hsg Hsq Hnd Hun Hlen].
  split; simpl; rewrite ?unpark_pids; try apply Hinv.
  - unfold ths'. rewrite !length_insert. apply Hinv.
  - intros x sx Hx. unfold fset. case_decide; [subst x|by apply Hinv]. simplify_eq.
    rewrite unpark_phase in Hsg, Hlen. split; try done.
  - apply unpark_th.
  - intros x v kx Hx Hc. unfold fset.
    apply unpark_lookup in Hx as [[-> ->]|[[-> ->]|(Hxi & _ & Hx)]]; simpl in *.
    + pose proof (iv_crit st A Hinv j u kx Hj Hc). case_decide; [|done].
      subst. rewrite unpark_phase in *. congruence.
    + injection Hc as ->. by rewrite decide_True.
    + pose proof (iv_crit st A Hinv x v kx Hx Hc). case_decide; [|done].
      subst. rewrite unpark_phase in *. congruence.
  - intros kx x pc E. unfold fset in E. case_decide as Hkx.
    + subst. injection E as <- <-. split; [done|]. exists t'. split; [|done].
      unfold ths'. rewrite list_lookup_insert_ne by done.
      apply list_lookup_insert_eq. by eapply lookup_lt_Some.
    + destruct (iv_hold st A Hinv kx x pc E) as (Hc & v & Hv & Epc). split; [done|].
      assert (x <> i). { intros ->. simplify_eq. rewrite Et in Hc. by simplify_eq/=. }
      unfold ths'. destruct (decide (x = j)) as [->|].
      * exists u'. simplify_eq. split; [|done]. apply list_lookup_insert_eq.
        rewrite length_insert. by eapply lookup_lt_Some.
      * exists v. by rewrite !list_lookup_insert_ne.
  - intros kx x Hx. apply unpark_wants in Hx as [Hx _]. by eapply Hinv.
  - intros kx. unfold ths'. rewrite (sum_insert _ _ j u) by (by rewrite list_lookup_insert_ne).
    rewrite (sum_insert _ _ i t) by done. rewrite Et, (iv_downs st A Hinv kx). simpl. lia.
Qed.
End Unpark.

Lemma uinv_unpark st A i t k id :
  uinv st A -> uths st !! i = Some t -> upc t = UUnpark k id ->
  (k < length (sems st))%nat ->
  exists A', uinv (Ust (sems st)
    (unpark_first id (sem_chan addr k) (<[i := Uth (URel k) (slot t)]> (uths st))) (past st)) A'.
Proof.
  intros H Hi Et Hlt. destruct (lookup_lt_is_Some_2 _ _ Hlt) as [s Hk].
  assert (wants (A k) id) as Hw.
  { right. unfold unparking. rewrite (iv_crit st A H i t k Hi) by (by rewrite Et). by rewrite Et. }
  pose proof (iv_wants st A H k id Hw) as Hin. unfold pids in Hin.
  apply list_elem_of_fmap in Hin as (u & -> & [j Hj]%list_elem_of_lookup_1).
  assert (j <> i) as Hne.
  { intros ->. simplify_eq. destruct (iv_th st A H i t Hi) as [Hx _].
    apply Hx in Hw. by rewrite Et in Hw. }
  rewrite (unpark_first_insert _ _ _ j u); [|..|done].
  - eexists. by eapply uinv_unparked.
  - erewrite pids_insert; [apply H|done|done].
  - by rewrite list_lookup_insert_ne.
Qed.

(** ** Reachable states *)

Lemma uinv_start st0 : start_ok n st0 -> uinv st0 (fun _ => SAbs [] None).
Proof.
  intros [Hp Hl Ht Hs Hh]. split; try done.
  - intros k s Hk. destruct (Hs k s Hk) as (Hn & s0 & Ha & ->). split; simpl.
    + done.
    + by apply qinit_is.
    + constructor.
    + done.
    + unfold sem_init. getset. lia.
  - intros i t Hi. destruct (Ht i t Hi) as (Ep & Hlw & Hst). split; [|by rewrite Ep].
    intros k [Hx|Hx]; [by apply not_elem_of_nil in Hx|done].
  - intros i t k Hi. destruct (Ht i t Hi) as (-> & _). done.
  - intros k id [Hx|Hx]; [by apply not_elem_of_nil in Hx|done].
  - intros k s Hk. destruct (Hs k s Hk) as (Hn & s0 & Ha & ->). rewrite Hh.
    unfold sem_init. getset. simpl. lia.
  - intros k. rewrite Hh. simpl. clear -Ht. induction (uths st0) as [|t l IH]; simpl; [done|].
    destruct (Ht 0%nat t eq_refl) as (-> & _). simpl. apply IH. intros i. apply (Ht (S i)).
  - intros k. by rewrite Hh.
Qed.

Lemma ups_mono st st' k : ustep addr st st' -> ups (past st k) <= ups (past st' k).
Proof.
  intros H. destruct H; simpl; try done; unfold fset; case_decide; subst; simpl; try done.
  destruct (upc t); lia.
Qed.

Lemma uinv_ustep st st' A :
  uinv st A -> (forall k, n k + ups (past st' k) < two31) -> ustep addr st st' ->
  exists A', uinv st' A'.
Proof.
  intros H Hb Hstep. assert (forall k, n k + ups (past st k) < two31) as Hb0.
  { intros k. specialize (Hb k). pose proof (ups_mono st st' k Hstep). lia. }
  destruct Hstep as [i t pc Hi Hr Et (k & _ & Hpc)|i t s s' p' pc' Hi Hr Hk E
    |i t s s' pc' Hi Hr Hk E|i t k id Hi Hr Et Hk|i t x Hi Hx|i t Hi Hr Et|ch Hch].
  - exists A. by eapply uinv_call.
  - by eapply uinv_down.
  - eapply uinv_up; try done. specialize (Hb (pc_sem (upc t))). simpl in Hb.
    by rewrite fset_eq in Hb.
  - by eapply uinv_unpark.
  - exists A. destruct Hx as [[E ->]|[E ->]]; apply uinv_sched; try done; by rewrite E.
  - exists A. rewrite <- Et. apply uinv_sched; try done. by rewrite Hr.
  - exists A. by apply uinv_wakeup.
Qed.

Lemma ureach_inv st0 st :
  start_ok n st0 -> ureach addr st0 st -> (forall k, n k + ups (past st k) < two31) ->
  exists A, uinv st A.
Proof.
  intros H0 Hr. induction Hr as [|st st' _ IH Hstep]; intros Hb.
  - eexists. by apply uinv_start.
  - destruct IH as [A HA].
    { intros k. specialize (Hb k). pose proof (ups_mono st st' k Hstep). lia. }
    by eapply uinv_ustep.
Qed.

(** ** Counting the waiting threads *)

Lemma pending_cases k pc : pending k pc = 0 \/ pending k pc = 1.
Proof. unfold pending. destruct pc; try case_decide; auto. Qed.

Lemma sum_pending_filter k l :
  sum_pending k l = Z.of_nat (length (filter (fun t => pending k (upc t) = 1) l)).
Proof.
  induction l as [|t l IH]; [done|]. simpl. rewrite filter_cons, IH.
  destruct (pending_cases k (upc t)) as [E|E]; rewrite E; case_decide; simpl; try done; lia.
Qed.

Lemma sum_pending_ge k (ths : list uthread) (l : list Z) :
  NoDup l ->
  (forall id, id ∈ l -> exists t, t ∈ ths /\ pid (slot t) = id /\ pending k (upc t) = 1) ->
  Z.of_nat (length l) <= sum_pending k ths.
Proof.
  intros Hnd Hl. rewrite sum_pending_filter.
  rewrite <- (length_fmap (fun t => pid (slot t)) (filter _ ths)).
  apply Nat2Z.inj_le, submseteq_length, NoDup_submseteq; [done|].
  intros id Hid. destruct (Hl id Hid) as (t & Ht & <- & Hp).
  apply list_elem_of_fmap. exists t. split; [done|]. by apply list_elem_of_filter.
Qed.

Lemma sum_pending_le k (ths : list uthread) (l : list Z) :
  NoDup (pids ths) ->
  (forall t, t ∈ ths -> pending k (upc t) = 1 -> pid (slot t) ∈ l) ->
  sum_pending k ths <= Z.of_nat (length l).
Proof.
  intros Hnd Hl. rewrite sum_pending_filter.
  rewrite <- (length_fmap (fun t => pid (slot t)) (filter _ ths)).
  apply Nat2Z.inj_le, submseteq_length, NoDup_submseteq.
  - eapply sublist_NoDup; [exact Hnd|]. apply fmap_sublist, sublist_filter.
  - intros id (t & -> & [Hp Ht]%list_elem_of_filter)%list_elem_of_fmap. by apply Hl.
Qed.

(** A thread in the queue of [k] is in [sem_down] of [k]. *)
Lemma wants_pending st A k id :
  uinv st A -> wants (A k) id ->
  exists t, t ∈ uths st /\ pid (slot t) = id /\ reg (upc t) = Some k /\ pending k (upc t) = 1.
Proof.
  intros H Hw. pose proof (iv_wants st A H k id Hw) as Hin. unfold pids in Hin.
  apply list_elem_of_fmap in Hin as (t & -> & Ht). exists t. split; [done|]. split; [done|].
  pose proof Ht as [i Hi]%list_elem_of_lookup_1.
  destruct (iv_th st A H i t Hi) as [Hx _]. specialize (Hx k Hw). split; [done|].
  unfold pending. destruct (upc t); simplify_eq/=; by rewrite decide_True.
Qed.

(** More threads are inside than the count is below zero. *)
Lemma pending_count st A k s :
  uinv st A -> sems st !! k = Some s -> - scount s <= sum_pending k (uths st).
Proof.
  intros H Hk. destruct (iv_sem st A H k s Hk) as [Hsg Hsq Hnd Hun Hlen].
  assert (Z.of_nat (length (sq (A k))) <= sum_pending k (uths st)) as Hq.
  { apply sum_pending_ge; [done|]. intros id Hid.
    destruct (wants_pending st A k id H) as (t & ? & ? & _ & ?); [by left|]. eauto. }
  assert (forall i pc, sph (A k) = Some (i, pc) -> reg pc = None -> pending k pc = 1 ->
    Z.of_nat (length (sq (A k))) + 1 <= sum_pending k (uths st)) as Hq1.
  { intros i pc E Hr Hp. destruct (iv_hold st A H k i pc E) as (_ & t & Hi & <-).
    enough (Z.of_nat (length (pid (slot t) :: sq (A k))) <= sum_pending k (uths st))
      by (simpl length in *; lia).
    apply sum_pending_ge.
    - constructor; [|done]. intros Hx. destruct (iv_th st A H i t Hi) as [Hy _].
      specialize (Hy k (or_introl Hx)). congruence.
    - intros id [->|Hid]%elem_of_cons.
      + exists t. split; [by eapply list_elem_of_lookup_2|done].
      + destruct (wants_pending st A k id H) as (u & ? & ? & _ & ?); [by left|]. eauto. }
  pose proof (sum_pending_nonneg k (uths st)).
  destruct (sph (A k)) as [[i pc]|] eqn:E; [|simpl in Hlen; lia].
  destruct (iv_hold st A H k i pc E) as [Hc _].
  destruct pc; simplify_eq/=; try lia; specialize (Hq1 _ _ eq_refl eq_refl);
    unfold pending in Hq1; rewrite decide_True in Hq1 by done; specialize (Hq1 eq_refl); lia.
Qed.

(** In a state in which every thread is outside or asleep, the sleepers are
    the queue. *)
Definition at_rest (st : ustate) : Prop :=
  forall t, t ∈ uths st ->
    upc t = SIdle \/ exists k, upc t = DParked k /\ state (slot t) = SLEEPING.

Lemma rest_count st A k s :
  uinv st A -> sems st !! k = Some s -> at_rest st ->
  sum_pending k (uths st) = Z.max 0 (- scount s).
Proof.
  intros H Hk Hrest. destruct (iv_sem st A H k s Hk) as [Hsg Hsq Hnd Hun Hlen].
  assert (sph (A k) = None) as Eph.
  { destruct (sph (A k)) as [[i pc]|] eqn:E; [|done].
    destruct (iv_hold st A H k i pc E) as (Hc & t & Hi & <-).
    destruct (Hrest t) as [Et|(j & Et & _)]; [by eapply list_elem_of_lookup_2|..];
      by rewrite Et in Hc. }
  rewrite Eph in Hlen. simpl in Hlen. rewrite <- Hlen. apply Z.le_antisymm.
  - apply sum_pending_le; [apply H|]. intros t Ht Hp.
    destruct (Hrest t Ht) as [Et|(j & Et & Hs)]; rewrite Et in Hp; simpl in Hp; [done|].
    case_decide; [subst j|done]. apply list_elem_of_lookup_1 in Ht as [i Hi].
    destruct (iv_th st A H i t Hi) as [_ Hth]. rewrite Et in Hth.
    destruct Hth as (_ & Hw & _). apply Hw in Hs as [?|Hx]; [done|].
    unfold unparking in Hx. by rewrite Eph in Hx.
  - apply sum_pending_ge; [done|]. intros id Hid.
    destruct (wants_pending st A k id H) as (t & ? & ? & _ & ?); [by left|]. eauto.
Qed.
End Invariant.

(** Where the thread is that will unpark a sleeper: past its [deq], or before
    it with nobody else in the queue when the count is not negative *)
Lemma sleeper_served addr n st A k s i t :
  uinv addr n st A -> sems st !! k = Some s -> uths st !! i = Some t ->
  upc t = DParked k -> state (slot t) = SLEEPING ->
  pid (slot t) ∈ sq (A k) /\
    (0 <= scount s -> sq (A k) = [pid (slot t)] /\
       exists j u, uths st !! j = Some u /\ (upc u = UTest k \/ upc u = UDeq k)) \/
  exists j u, uths st !! j = Some u /\ upc u = UUnpark k (pid (slot t)).
Proof.
  intros H Hk Hi Et Hs. destruct (iv_th _ _ _ _ H i t Hi) as [_ Hth]. rewrite Et in Hth.
  destruct Hth as (_ & Hw & _). apply Hw in Hs as [Hq|Hu].
  - left. split; [done|]. intros Hc. pose proof (sk_len _ _ (iv_sem _ _ _ _ H k s Hk)) as Hl.
    destruct (sq (A k)) as [|x l] eqn:Eq; [by apply not_elem_of_nil in Hq|].
    destruct (sph (A k)) as [[j pc]|] eqn:E; [|simpl in Hl; lia].
    destruct (iv_hold _ _ _ _ H k j pc E) as (Hp & u & Hj & <-).
    assert (length l = 0%nat /\ (upc u = UTest k \/ upc u = UDeq k)) as [El Hu].
    { destruct (upc u); simplify_eq/=; first [lia|split; [lia|auto]]. }
    apply nil_length_inv in El. subst l. apply list_elem_of_singleton in Hq. subst x. eauto.
  - right. unfold unparking in Hu. destruct (sph (A k)) as [[j pc]|] eqn:E; [|done].
    destruct (iv_hold _ _ _ _ H k j pc E) as (Hp & u & Hj & <-). exists j, u. split; [done|].
    destruct (upc u); by simplify_eq/=.
Qed.

(** ** Properties *)

Section Properties.
Context (addr : nat -> Z) (n : nat -> Z) (st0 st : ustate).

(** C5: the counter of a semaphore accounts for its permits: in every state that
    the threads can reach, for every semaphore, the counter is the initial
    count plus the increments made by [sem_up] minus the decrements made by
    [sem_down]; the calls of [sem_down] that decremented it are those that have
    returned and those that are still inside; and those that have returned are
    at most the initial count plus the increments, so no more permits are
    handed out than there are -- for any interleaving, any number of
    semaphores, and any order of the park of a waiting thread and the unpark
    meant for it, as long as no thread is killed inside. *)
Theorem sem_permits k s :
  (forall j, addr j <> 0) -> start_ok n st0 -> ureach addr st0 st ->
  (forall j, n j + ups (past st j) < two31) -> sems st !! k = Some s ->
  scount s = n k + ups (past st k) - downs (past st k) /\
  downs (past st k) = returned (past st k) + sum_pending k (uths st) /\
  returned (past st k) <= n k + ups (past st k).
Proof.
  intros Hnz H0 Hr Hb Hk.
  destruct (ureach_inv addr Hnz n st0 st H0 Hr Hb) as [A HA].
  pose proof (pending_count addr n st A k s HA Hk). pose proof (iv_count _ _ _ _ HA k s Hk).
  pose proof (iv_downs _ _ _ _ HA k). lia.
Qed.

(** C4: no wake-up is lost, as long as no thread is killed inside.  In every
    reachable state, a thread that sleeps in the [park] of [sem_down] either has
    its pid in the queue of the semaphore, or another thread has taken it from
    there and is at the [unpark] of it; and if the semaphore has a count of 0
    or more, a thread in the queue is the only one in it and another thread is
    in [sem_up], about to take it from there.  In a state in which every thread
    is outside the semaphores or asleep in [park], exactly as many threads sleep
    on a semaphore as there were calls of [sem_down] beyond its permits. *)
Theorem sem_no_lost_wakeup k s :
  (forall j, addr j <> 0) -> start_ok n st0 -> ureach addr st0 st ->
  (forall j, n j + ups (past st j) < two31) -> sems st !! k = Some s ->
  (exists q, queue_is (waitq s) q /\
     forall i t, uths st !! i = Some t -> upc t = DParked k -> state (slot t) = SLEEPING ->
       pid (slot t) ∈ q /\
         (0 <= scount s -> q = [pid (slot t)] /\
            exists j u, uths st !! j = Some u /\ (upc u = UTest k \/ upc u = UDeq k)) \/
       exists j u, uths st !! j = Some u /\ upc u = UUnpark k (pid (slot t))) /\
  (at_rest st ->
   sum_pending k (uths st) = Z.max 0 (downs (past st k) - (n k + ups (past st k)))).
Proof.
  intros Hnz H0 Hr Hb Hk.
  destruct (ureach_inv addr Hnz n st0 st H0 Hr Hb) as [A HA]. split.
  - exists (sq (A k)). split; [apply (iv_sem _ _ _ _ HA k s Hk)|].
    intros i t. by apply (sleeper_served addr n).
  - intros Hrest. rewrite (rest_count addr n st A k s HA Hk Hrest).
    rewrite (iv_count _ _ _ _ HA k s Hk). f_equal. lia.
Qed.

(** The guard of a semaphore is one of these spin-locks: two threads between
    [slock_acquire] and [slock_release] of the same semaphore are the same
    thread, and the lock word is 0 when there is none. *)
Lemma guard_excludes k s :
  (forall j, addr j <> 0) -> start_ok n st0 -> ureach addr st0 st ->
  (forall j, n j + ups (past st j) < two31) -> sems st !! k = Some s ->
  (forall i j t u, uths st !! i = Some t -> uths st !! j = Some u ->
     crit (upc t) = Some k -> crit (upc u) = Some k -> i = j) /\
  (guard s = 0 <-> forall t, t ∈ uths st -> crit (upc t) <> Some k).
Proof.
  intros Hnz H0 Hr Hb Hk.
  destruct (ureach_inv addr Hnz n st0 st H0 Hr Hb) as [A HA]. split.
  - intros i j t u Hi Hj Ht Hu. apply (iv_crit _ _ _ _ HA i t k Hi) in Ht.
    apply (iv_crit _ _ _ _ HA j u k Hj) in Hu. congruence.
  - rewrite (sk_guard _ _ (iv_sem _ _ _ _ HA k s Hk)).
    destruct (sph (A k)) as [[i pc]|] eqn:E; split; try done.
    + destruct (iv_hold _ _ _ _ HA k i pc E) as (Hc & t & Hi & <-). intros Hx.
      by destruct (Hx t (list_elem_of_lookup_2 _ _ _ Hi)).
    + intros _ t [i Hi]%list_elem_of_lookup_1 Hc.
      by rewrite (iv_crit _ _ _ _ HA i t k Hi Hc) in E.
Qed.
End Properties.

(** C18: the spin-lock of the thread library excludes: any number of threads
    acquire and release any number of locks that [slock_init] has initialised,
    in any nesting and any interleaving of their memory accesses.  Then a lock
    is held by one thread at most, its word is 1 while it is held and 0
    otherwise, a round of [slock_acquire] gets the lock exactly when nobody
    holds it, and no thread holds a lock twice. *)
Theorem slock_excludes ws m st k w :
  lreach ws m st -> lwords st !! k = Some w ->
  (forall i j, holds st i k -> holds st j k -> i = j) /\
  (w = 1 <-> exists i, holds st i k) /\ (w = 0 <-> forall i, ~ holds st i k) /\
  ((slock_acquire w).2 = true <-> forall i, ~ holds st i k) /\
  (forall i t, lthreads st !! i = Some t -> NoDup (lheld t)).
Proof.
  intros [Hl Hd]%lreach_linv Hw. destruct (Hl k w Hw) as [[-> Hn]|(-> & h & Hh & Hu)]; simpl.
  - split_and!; try done; naive_solver.
  - split_and!; try done; try naive_solver. intros i j Hi Hj. by rewrite (Hu i Hi), (Hu j Hj).
Qed.

(** Thread 0 takes lock 1 and then lock 0, for which thread 1 spins. *)
Definition ex_locks (j : nat) : lstate :=
  let st (w0 w1 : Z) t0 t1 := Lst [w0; w1] [t0; t1] in
  match j with
  | 0 => st 0%Z 0%Z (Lth [] None) (Lth [] None)
  | 1 => st 0%Z 0%Z (Lth [] (Some 1)) (Lth [] None)
  | 2 => st 0%Z 1%Z (Lth [1] None) (Lth [] None)
  | 3 => st 0%Z 1%Z (Lth [1] (Some 0)) (Lth [] None)
  | 4 => st 1%Z 1%Z (Lth [0; 1] None) (Lth [] None)
  | _ => st 1%Z 1%Z (Lth [0; 1] None) (Lth [] (Some 0))
  end%nat.
Lemma slock_excludes_witness : (exists i, holds (ex_locks 5) i 0) /\ ~ holds (ex_locks 5) 1 0.
Proof.
  assert (forall j, lreach [5; 6] 2 (ex_locks j) -> lstep (ex_locks j) (ex_locks (S j)) ->
    lreach [5; 6] 2 (ex_locks (S j))) as Hs by (intros j; apply lreach_step).
  destruct (slock_excludes [5; 6] 2 (ex_locks 5) 0 1) as (Hx & Hw & _); [|reflexivity|]; cycle 1.
  { split; [by apply Hw|]. intros H1.
    assert (holds (ex_locks 5) 0 0) as H0 by (eexists; split; [reflexivity|by left]).
    discriminate (Hx _ _ H0 H1). }
  apply Hs; [apply Hs; [apply Hs; [apply Hs; [apply Hs; [apply lreach_init|]|]|]|]|].
  - exact (lstep_call (ex_locks 0) 0 (Lth [] None) 1 eq_refl eq_refl ltac:(simpl; lia)).
  - exact (lstep_spin (ex_locks 1) 0 (Lth [] (Some 1%nat)) 1 0 1 true eq_refl eq_refl eq_refl eq_refl).
  - exact (lstep_call (ex_locks 2) 0 (Lth [1%nat] None) 0 eq_refl eq_refl ltac:(simpl; lia)).
  - exact (lstep_spin (ex_locks 3) 0 (Lth [1%nat] (Some 0%nat)) 0 0 1 true eq_refl eq_refl eq_refl eq_refl).
  - exact (lstep_call (ex_locks 4) 1 (Lth [] None) 0 eq_refl eq_refl ltac:(simpl; lia)).
Defined.

(** Two threads, pids 11 and 12, and one semaphore of count 0: thread 11 calls
    [sem_down], enters the queue and sleeps. *)
Definition ex_slot (id : Z) : proc := proc0 <|pid := id|> <|state := RUNNING|>.
Definition ex_start : ustate :=
  Ust [sem_init (Sem 7 (Queue (replicate 100 0) 1 2 3) 4) 0]
    [Uth SIdle (ex_slot 11); Uth SIdle (ex_slot 12)] (fun _ => Hist 0 0 0).
Definition ex_addr (k : nat) : Z := 4096 + 420 * Z.of_nat k.

(** Runs of the machine that can be computed: what a thread does next, or what
    happens to it *)
Inductive uact : Set := ACall (pc : spc) | ARun | ASched | AKill | ADie.
Definition provided (P : Prop) `{Decision P} {A} (o : option A) : option A := if decide P then o else None.
Definition uexec (i : nat) (a : uact) (st : ustate) : option ustate :=
  t ← uths st !! i;
  let put t' := Ust (sems st) (<[i := t']> (uths st)) (past st) in
  let k := pc_sem (upc t) in
  match a with
  | ACall pc =>
      provided (state (slot t) = RUNNING /\ (pc_sem pc < length (sems st))%nat) $
      match upc t, pc with
      | SIdle, DSpin _ | SIdle, USpin _ => Some (put (Uth pc (slot t)))
      | _, _ => None
      end
  | ARun =>
      provided (state (slot t) = RUNNING) $
      s ← sems st !! k;
      match sem_down (sem_chan ex_addr k) (upc t) s (slot t) with
      | Some (s', p', pc') =>
          Some (Ust (<[k := s']> (sems st)) (<[i := Uth pc' p']> (uths st))
                  (fset (past st) k (note_down (upc t) pc' (past st k))))
      | None =>
          match sem_up (upc t) s, upc t with
          | Some (s', pc'), _ =>
              Some (Ust (<[k := s']> (sems st)) (<[i := Uth pc' (slot t)]> (uths st))
                      (fset (past st) k (note_up (upc t) (past st k))))
          | None, UUnpark j id =>
              Some (Ust (sems st) (unpark_first id (sem_chan ex_addr j) (uths (put (Uth (URel j) (slot t)))))
                      (past st))
          | None, _ => None
          end
      end
  | ASched => provided (state (slot t) = RUNNABLE) $ Some (put (Uth (upc t) ((slot t) <|state := RUNNING|>)))
  | AKill => Some (put (Uth (upc t) (kill_proc (slot t))))
  | ADie =>
      provided (killed (slot t) <> 0 /\ state (slot t) = RUNNING) $
      Some (put (Uth (upc t) ((slot t) <|state := ZOMBIE|>)))
  end.
Fixpoint uruns (l : list (nat * uact)) (st : ustate) : option ustate :=
  match l with [] => Some st | (i, a) :: l => st' ← uexec i a st; uruns l st' end.

Lemma uexec_ustep i a st st' :
  uexec i a st = Some st' -> a <> AKill -> a <> ADie -> ustep ex_addr st st'.
Proof.
  unfold uexec. intros E Hk Hd. apply bind_Some in E as (t & Hi & E).
  destruct a as [pc| | | |]; try done.
  - unfold provided in E; case_decide as Hg; [|done]. destruct Hg as [Hr Hl]. simpl in E.
    destruct (upc t) eqn:Et; try done.
    destruct pc as [|k| | | | | | | |k| | | | |]; try done; injection E as <-;
      (eapply ustep_call; [done..|]; exists k; auto).
  - unfold provided in E; case_decide as Hr; [|done]. simpl in E. apply bind_Some in E as (s & Hs & E).
    destruct (sem_down _ _ _ _) as [[[s' p'] pc']|] eqn:Ed; [injection E as <-; by eapply ustep_down|].
    destruct (sem_up _ _) as [[s' pc']|] eqn:Eu; [injection E as <-; by eapply ustep_up|].
    destruct (upc t) eqn:Et; try done. injection E as <-. eapply ustep_unpark; try done. by eapply lookup_lt_Some.
  - unfold provided in E; case_decide as Hr; [|done]. injection E as <-. eapply ustep_sched; [done|]. by left.
Qed.

Definition ex_downs (i m : nat) : list (nat * uact) := (i, ACall (DSpin 0)) :: replicate m (i, ARun).
Definition ex_ups (i m : nat) : list (nat * uact) := (i, ACall (USpin 0)) :: replicate m (i, ARun).
Definition ex_asleep : ustate := default ex_start (uruns (ex_downs 0 6) ex_start).

Lemma ex_start_ok : start_ok (fun _ => 0) ex_start.
Proof.
  split; simpl.
  - apply NoDup_cons. split; [|apply NoDup_singleton]. by intros ?%list_elem_of_singleton.
  - done.
  - intros [|[|i]] t Hi; simplify_eq/=; done.
  - intros [|k] s Hk; simplify_eq/=. split; [done|].
    exists (Sem 7 (Queue (replicate 100 0) 1 2 3) 4). done.
  - done.
Qed.

Lemma uruns_ureach l st st' :
  ureach ex_addr ex_start st -> Forall (fun x => x.2 <> AKill /\ x.2 <> ADie) l ->
  uruns l st = Some st' -> ureach ex_addr ex_start st'.
Proof.
  revert st. induction l as [|[i a] l IH]; intros st Hr Hl E; simpl in E; [by simplify_eq|].
  apply Forall_cons in Hl as [[Hk Hd] Hl]. apply bind_Some in E as (st1 & E1 & E).
  eapply IH; [|done|exact E]. eapply ureach_step; [exact Hr|]. by eapply uexec_ustep.
Qed.

Lemma ex_reach : ureach ex_addr ex_start ex_asleep.
Proof.
  eapply (uruns_ureach (ex_downs 0 6)); [constructor|by repeat constructor|by vm_compute].
Qed.

Lemma ex_bound k : 0 + ups (past ex_asleep k) < two31.
Proof. destruct k as [|k]; vm_compute; done. Qed.

Lemma sem_permits_witness :
  scount (sems ex_asleep !!! 0%nat) = 0 + ups (past ex_asleep 0) - downs (past ex_asleep 0) /\
  downs (past ex_asleep 0) = 1.
Proof.
  split; [|reflexivity].
  apply (sem_permits ex_addr (fun _ => 0) ex_start ex_asleep 0).
  - intros j. unfold ex_addr. lia.
  - exact ex_start_ok.
  - exact ex_reach.
  - exact ex_bound.
  - reflexivity.
Defined.

Lemma sem_no_lost_wakeup_witness : sum_pending 0 (uths ex_asleep) = 1.
Proof.
  destruct (sem_no_lost_wakeup ex_addr (fun _ => 0) ex_start ex_asleep 0 (sems ex_asleep !!! 0%nat))
    as [_ E].
  - intros j. unfold ex_addr. lia.
  - exact ex_start_ok.
  - exact ex_reach.
  - exact ex_bound.
  - reflexivity.
  - rewrite E; [reflexivity|].
    intros t [[|[|i]] Hi]%list_elem_of_lookup_1; vm_compute in Hi; simplify_eq.
    + right. exists 0%nat. done.
    + by left.
Defined.

(** ** Threads that are killed *)

(** The machine with [kill], which [cthread_cut] calls: the killed thread is
    woken up if it sleeps, and exits when it next returns to user mode or is
    interrupted there. *)
Inductive kstep (addr : nat -> Z) (st : ustate) : ustate -> Prop :=
| kstep_run st' : ustep addr st st' -> kstep addr st st'
| kstep_kill i t :
    uths st !! i = Some t ->
    kstep addr st (Ust (sems st) (<[i := Uth (upc t) (kill_proc (slot t))]> (uths st)) (past st))
| kstep_die i t :
    uths st !! i = Some t -> killed (slot t) <> 0 -> state (slot t) = RUNNING ->
    kstep addr st (Ust (sems st) (<[i := Uth (upc t) ((slot t) <|state := ZOMBIE|>)]> (uths st)) (past st)).

Lemma uexec_kstep i a st st' : uexec i a st = Some st' -> kstep ex_addr st st'.
Proof.
  intros E. assert ((a <> AKill /\ a <> ADie) \/ (a = AKill \/ a = ADie)) as [[Hk Hd]|Ha]
    by (destruct a; naive_solver).
  - apply kstep_run. by eapply uexec_ustep.
  - unfold uexec in E. apply bind_Some in E as (t & Hi & E). destruct Ha as [-> | ->].
    + injection E as <-. by apply kstep_kill.
    + unfold provided in E; case_decide as Hg; [|done]. injection E as <-. by apply kstep_die; naive_solver.
Qed.

Lemma uruns_kstep l st st' : uruns l st = Some st' -> rtc (kstep ex_addr) st st'.
Proof.
  revert st. induction l as [|[i a] l IH]; intros st E; simpl in E; [by simplify_eq|].
  apply bind_Some in E as (st1 & E1 & E). eapply rtc_l; [by eapply uexec_kstep|by apply IH].
Qed.

(** Cutting a thread that waits loses a wake-up: the pid of the dead thread stays
    in the queue, so the next [sem_up] spends its permit on it.  Thread 11 waits
    on a semaphore of count 0 and is killed; thread 12 calls [sem_up] and then
    [sem_down], and sleeps, although no call of [sem_down] has returned and one
    permit was given back. *)
Definition ex_cut : list (nat * uact) :=
  ex_downs 0 6 ++ [(0%nat, AKill); (0%nat, ASched); (0%nat, ADie)] ++ ex_ups 1 6 ++ ex_downs 1 6.
Lemma sem_kill_loses : exists st,
  rtc (kstep ex_addr) ex_start st /\ past st 0 = Hist 1 2 0 /\
  (fun t => (pid (slot t), upc t, state (slot t))) <$> uths st =
    [(11, DParked 0, ZOMBIE); (12, DParked 0, SLEEPING)].
Proof.
  destruct (uruns ex_cut ex_start) as [st|] eqn:E; [|by vm_compute in E].
  exists st. split; [by eapply uruns_kstep|]. vm_compute in E. injection E as <-. done.
Qed.
