(* ===== verification/Paging.v ===== *)
(** * Page tables (vm.c, continued)

    A page directory with its page tables is a map from virtual pages to
    entries.  [walkpgdir] does not change the map, [mappages] adds a range to
    it, and the hardware translates as the map says. *)

From S2P Require Import Prelude Params State CString Spinlock Printk Sched Kalloc Vm Usercopy.

(** ** Entries *)

Definition aligned (a : Z) : Prop := a mod PGSIZE = 0.

Lemma aligned_land a f : aligned a -> 0 <= f < PGSIZE -> Z.land a f = 0.
Proof.
  unfold aligned, PGSIZE. intros Ha Hf. apply Z.bits_inj'. intros n Hn. rewrite Z.land_spec, Z.bits_0.
  destruct (decide (n < 12)) as [Hlt|Hge].
  - rewrite <- (Z.mod_pow2_bits_low a 12 n Hlt). change (2 ^ 12) with 4096. rewrite Ha. by rewrite Z.bits_0.
  - assert (f = f mod 2 ^ 12) as -> by (symmetry; apply Z.mod_small; done).
    rewrite (Z.mod_pow2_bits_high f 12 n) by lia. by rewrite andb_false_r.
Qed.

Lemma aligned_lor a f : aligned a -> 0 <= f < PGSIZE -> Z.lor a f = a + f.
Proof.
  intros Ha Hf. pose proof (aligned_land a f Ha Hf) as E.
  by rewrite Z.add_nocarry_lxor, Z.lxor_lor.
Qed.

Lemma PTE_ADDR_add a f : aligned a -> 0 <= f < PGSIZE -> PTE_ADDR (a + f) = a.
Proof.
  unfold aligned. intros Ha Hf. rewrite PTE_ADDR_spec. unfold PGSIZE in *. Z.div_mod_to_equations. lia.
Qed.

(** A flag of an entry *)
Lemma land_add a f g : aligned a -> 0 <= f < PGSIZE -> 0 <= g < PGSIZE -> Z.land (a + f) g = Z.land f g.
Proof.
  intros Ha Hf Hg. rewrite <- (aligned_lor a f) by done.
  rewrite Z.land_lor_distr_l, aligned_land by done. apply Z.lor_0_l.
Qed.

Definition present (e : Z) : bool := negb (Z.land e PTE_P =? 0).

(** ** Page directories *)

(** The page tables, by directory index, of the directory at [pgdir]; [l] is
    the free list. *)
Record pagedir (d : data) (pgdir : Z) (t : gmap Z Z) (l : list Z) : Prop := {
  pd_free : free_list d l;
  pd_bytes : bytes (mem d);
  pd_dir : page_ok (kend d) pgdir;
  pd_tabs : forall i p, t !! i = Some p -> page_ok (kend d) p;
  pd_inj : forall i j p, t !! i = Some p -> t !! j = Some p -> i = j;
  pd_ne : forall i p, t !! i = Some p -> p <> pgdir /\ p ∉ l;
  pd_dirl : pgdir ∉ l;
  pd_entries : forall i, 0 <= i < 1024 ->
    let e := load32 (mem d) (V2P pgdir + 4 * i) in
    match t !! i with
    | Some p => e = V2P p + (PTE_P + PTE_W + PTE_U)
    | None => present e = false
    end
}.

(** The entry for an address *)
Definition entry (m : memory) (t : gmap Z Z) (va : Z) : Z :=
  match t !! PDX va with
  | Some p => load32 m (V2P p + 4 * PTX va)
  | None => 0
  end.

Lemma PDX_range va : 0 <= PDX va < 1024.
Proof. rewrite PDX_spec. by apply Z.mod_pos_bound. Qed.
Lemma PTX_range va : 0 <= PTX va < 1024.
Proof. rewrite PTX_spec. by apply Z.mod_pos_bound. Qed.

Lemma V2P_off e p o : page_ok e p -> 0 <= o < PGSIZE -> V2P (p + o) = V2P p + o.
Proof.
  intros (Ha & _ & Hr) Ho. rewrite (V2P_kernel p) by done.
  assert (p + PGSIZE <= KERNBASE + PHYSTOP).
  { unfold PGSIZE, KERNBASE, PHYSTOP in *. Z.div_mod_to_equations. lia. }
  unfold PGSIZE in *. rewrite V2P_kernel by lia. lia.
Qed.

Lemma V2P_aligned e p : page_ok e p -> aligned (V2P p) /\ 0 <= V2P p < two31.
Proof.
  intros (Ha & _ & Hr). rewrite V2P_kernel by done. unfold aligned, PGSIZE, KERNBASE, PHYSTOP, two31 in *.
  split; [Z.div_mod_to_equations; lia|lia].
Qed.

Lemma P2V_V2P e p : page_ok e p -> P2V (V2P p) = p.
Proof.
  intros (Ha & _ & Hr). rewrite V2P_kernel by done. unfold P2V, KERNBASE, PHYSTOP in *.
  rewrite u32_small; unfold two32; lia.
Qed.

(** Words of different pages *)
Lemma words_apart e p q i j : page_ok e p -> page_ok e q -> p <> q -> 0 <= i < 1024 -> 0 <= j < 1024 ->
  V2P p + 4 * i + 4 <= V2P q + 4 * j \/ V2P q + 4 * j + 4 <= V2P p + 4 * i.
Proof. intros Hp Hq Hne Hi Hj. pose proof (pages_disjoint e p q Hp Hq Hne). unfold PGSIZE in *. lia. Qed.

(** Memory of no concern to the directory *)
Definition elsewhere (pgdir : Z) (t : gmap Z Z) (l : list Z) (x : Z) : Prop :=
  ~ in_page pgdir x /\ (forall i p, t !! i = Some p -> ~ in_page p x) /\ (forall p, p ∈ l -> ~ in_page p x).

(** Everything but memory and the head of the free list *)
Definition same_but_mem (d d' : data) : Prop :=
  d' = d <|mem := mem d'|> <|freelist := freelist d'|>.

Lemma sbm_refl d : same_but_mem d d.
Proof. by destruct d. Qed.
Lemma sbm_trans d1 d2 d3 : same_but_mem d1 d2 -> same_but_mem d2 d3 -> same_but_mem d1 d3.
Proof. unfold same_but_mem. intros E1 E2. rewrite E2, E1. by destruct d1. Qed.

Lemma store_outside m a v x : ~ (a <= x < a + 4) -> store32 m a v x = m x.
Proof.
  intros H. unfold store32, put. repeat match goal with
  | |- context [?x =? ?y] => destruct (Z.eqb_spec x y); [lia|]
  end. done.
Qed.

Section Store.
Context (d : data) (pgdir : Z) (t : gmap Z Z) (l : list Z).
Hypothesis Hpd : pagedir d pgdir t l.

(** A word of a page table is written. *)
Definition stored_word (a v : Z) : data := d <|mem ::= fun m => store32 m a v|>.

Lemma free_list_mem d' l' :
  free_list d l' -> freelist d' = freelist d -> kend d' = kend d ->
  (forall p x, p ∈ l' -> in_page p x -> mem d' x = mem d x) -> free_list d' l'.
Proof.
  intros [F1 F2 F3] E1 E2 Hm. split; rewrite ?E1, ?E2; try done.
  apply (chain_ext (mem d) (mem d') (freelist d) l' (kend d)); try done.
  intros p x Hp Hx. symmetry. apply (Hm p x Hp). unfold in_page, PGSIZE. lia.
Qed.

Lemma pagedir_store i p j v :
  t !! i = Some p -> 0 <= i < 1024 -> 0 <= j < 1024 -> 0 <= v < two32 ->
  pagedir (stored_word (V2P p + 4 * j) v) pgdir t l /\
  forall va, entry (mem (stored_word (V2P p + 4 * j) v)) t va =
    if decide (PDX va = i /\ PTX va = j) then v else entry (mem d) t va.
Proof.
  intros Ht Hi Hj Hv. destruct Hpd as [P1 P2 P3 P4 P5 P6 P7 P8].
  destruct (P6 i p Ht) as [Hne Hnl]. pose proof (P4 i p Ht) as Hok. split.
  - split; try done; unfold stored_word; getset.
    + apply (free_list_mem (stored_word (V2P p + 4 * j) v)); [done|done|done|]. unfold stored_word. getset.
      intros q x Hq Hx. apply store_outside.
      destruct P1 as [_ F2 _]. rewrite Forall_forall in F2. specialize (F2 q Hq).
      pose proof (pages_disjoint _ p q Hok F2 ltac:(congruence)). unfold in_page, PGSIZE in *. lia.
    + by apply store32_bytes.
    + intros k Hk. rewrite load_store32_other; [by apply P8|].
      pose proof (words_apart _ p pgdir j k Hok P3 Hne Hj Hk). lia.
  - intros va. unfold entry, stored_word. getset. pose proof (PTX_range va) as Hr.
    destruct (t !! PDX va) as [q|] eqn:Eq.
    + destruct (decide (p = q)) as [<-|Hpq].
      * assert (PDX va = i) as Ei by (by eapply P5). destruct (decide (PTX va = j)) as [<-|Hne'].
        -- rewrite decide_True by done. by apply load_store32.
        -- rewrite decide_False by (by intros []). apply load_store32_other. lia.
      * rewrite decide_False by (intros [<- _]; congruence). apply load_store32_other.
        pose proof (words_apart _ p q j (PTX va) Hok (P4 _ _ Eq) Hpq Hj Hr). lia.
    + rewrite decide_False by (intros [<- _]; congruence). done.
Qed.
End Store.

(** ** walkpgdir *)

Section Walk.
Context (c : nat) (me : option nat) (L : list lockid).
Hypothesis HL : LKmem ∉ L.

Lemma runs_kload a d : runs c me L (kload a) d (load32 (mem d) (V2P a)) d L.
Proof. exact (runs_getd c me L (fun d => load32 (mem d) (V2P a)) d). Qed.
Lemma runs_kstore a v d : runs c me L (kstore a v) d tt (stored_word d (V2P a) v) L.
Proof. apply runs_setd. Qed.

Context (d : data) (pgdir : Z) (t : gmap Z Z) (l : list Z) (va : Z).
Hypothesis Hpd : pagedir d pgdir t l.

Lemma pde_addr : V2P (pgdir + 4 * PDX va) = V2P pgdir + 4 * PDX va.
Proof. pose proof (PDX_range va). eapply V2P_off; [apply Hpd|]. unfold PGSIZE. lia. Qed.

Lemma runs_walk_some alloc p : t !! PDX va = Some p ->
  runs c me L (walkpgdir pgdir va alloc) d (p + 4 * PTX va) d L.
Proof.
  intros Ht. pose proof (pd_entries _ _ _ _ Hpd (PDX va) (PDX_range va)) as He. cbv zeta in He.
  rewrite Ht in He. pose proof (pd_tabs _ _ _ _ Hpd _ _ Ht) as Hok.
  destruct (V2P_aligned _ _ Hok) as [Hal _].
  unfold walkpgdir. eapply runs_bind; [apply runs_kload|]. rewrite pde_addr, He.
  rewrite land_add by done. cbn [negb]. rewrite PTE_ADDR_add, (P2V_V2P _ _ Hok) by done. apply runs_ret.
Qed.

Lemma runs_walk_none : t !! PDX va = None -> runs c me L (walkpgdir pgdir va false) d 0 d L.
Proof.
  intros Ht. pose proof (pd_entries _ _ _ _ Hpd (PDX va) (PDX_range va)) as He. cbv zeta in He.
  rewrite Ht in He. unfold walkpgdir. eapply runs_bind; [apply runs_kload|]. rewrite pde_addr.
  fold (present (load32 (mem d) (V2P pgdir + 4 * PDX va))). rewrite He. apply runs_ret.
Qed.

Lemma runs_walk_full : t !! PDX va = None -> l = [] -> runs c me L (walkpgdir pgdir va true) d 0 d L.
Proof.
  intros Ht El. pose proof (pd_entries _ _ _ _ Hpd (PDX va) (PDX_range va)) as He. cbv zeta in He.
  rewrite Ht in He. unfold walkpgdir. eapply runs_bind; [apply runs_kload|]. rewrite pde_addr.
  fold (present (load32 (mem d) (V2P pgdir + 4 * PDX va))). rewrite He. cbn [negb].
  eapply runs_bind; [apply runs_kalloc_empty; [done|rewrite <- El; apply Hpd]|]. apply runs_ret.
Qed.

(** A new page table, taken from the free list *)
Section New.
Context (q : Z) (l' : list Z).
Hypothesis Hl : l = q :: l'.
Hypothesis Ht : t !! PDX va = None.
Local Abbreviation d1 := (d <|freelist := load32 (mem d) (V2P q)|>).
Local Abbreviation d2 := (d1 <|mem ::= fun m => memset m (V2P q) 0 PGSIZE|>).
Local Abbreviation v := (V2P q + (PTE_P + PTE_W + PTE_U)).
Local Abbreviation d3 := (stored_word d2 (V2P pgdir + 4 * PDX va) v).

Lemma new_ok : page_ok (kend d) q.
Proof.
  pose proof (fl_pages _ _ (pd_free _ _ _ _ Hpd)) as Hp. rewrite Hl in Hp. by apply Forall_cons in Hp as [? _].
Qed.
Lemma new_ne : q <> pgdir /\ q ∉ l' /\ forall i p, t !! i = Some p -> p <> q.
Proof.
  pose proof (fl_nodup _ _ (pd_free _ _ _ _ Hpd)) as Hn. pose proof (pd_dirl _ _ _ _ Hpd) as Hd.
  pose proof (pd_ne _ _ _ _ Hpd) as Hne. rewrite Hl in *. apply NoDup_cons in Hn as [Hq _].
  split; [intros ->; apply Hd; left|]. split; [done|]. intros i p Hp ->.
  destruct (Hne i q Hp) as [_ Hx]. apply Hx. left.
Qed.

Lemma zeroed_in x : in_page q x -> memset (mem d) (V2P q) 0 PGSIZE x = 0.
Proof.
  intros [H1 H2]. rewrite memset_spec by done.
  by rewrite (proj2 (Z.leb_le _ _)), (proj2 (Z.ltb_lt _ _)) by lia.
Qed.
Lemma zeroed_out x : ~ in_page q x -> memset (mem d) (V2P q) 0 PGSIZE x = mem d x.
Proof.
  intros H. rewrite memset_spec by done. unfold in_page in H.
  destruct (Z.leb_spec (V2P q) x), (Z.ltb_spec x (V2P q + PGSIZE)); try done. lia.
Qed.

(** Outside the new page and the word of the directory nothing changes. *)
Lemma new_mem x : ~ in_page q x -> ~ (V2P pgdir + 4 * PDX va <= x < V2P pgdir + 4 * PDX va + 4) ->
  mem d3 x = mem d x.
Proof.
  intros H1 H2. unfold stored_word. getset. rewrite store_outside by done. by apply zeroed_out.
Qed.

Lemma new_word p j : page_ok (kend d) p -> p <> q -> p <> pgdir -> 0 <= j < 1024 ->
  load32 (mem d3) (V2P p + 4 * j) = load32 (mem d) (V2P p + 4 * j).
Proof.
  intros Hp Hpq Hpd' Hj. pose proof new_ok as Hq. pose proof (PDX_range va) as Hr.
  apply load32_ext. intros x Hx. apply new_mem.
  - pose proof (pages_disjoint _ p q Hp Hq Hpq). unfold in_page, PGSIZE in *. lia.
  - pose proof (words_apart _ p pgdir j (PDX va) Hp (pd_dir _ _ _ _ Hpd) Hpd' Hj Hr). lia.
Qed.

Lemma new_zero j : 0 <= j < 1024 -> load32 (mem d3) (V2P q + 4 * j) = 0.
Proof.
  intros Hj. pose proof new_ok as Hq. destruct new_ne as (Hne & _). pose proof (PDX_range va) as Hr.
  pose proof (words_apart _ q pgdir j (PDX va) Hq (pd_dir _ _ _ _ Hpd) Hne Hj Hr) as Hw.
  unfold stored_word. getset. rewrite load_store32_other by lia. unfold load32.
  rewrite !zeroed_in by (unfold in_page, PGSIZE; lia). done.
Qed.

Lemma new_pde i : 0 <= i < 1024 ->
  load32 (mem d3) (V2P pgdir + 4 * i) =
  if decide (i = PDX va) then v else load32 (mem d) (V2P pgdir + 4 * i).
Proof.
  intros Hi. pose proof new_ok as Hq. destruct new_ne as (Hne & _). pose proof (PDX_range va) as Hr.
  destruct (V2P_aligned _ _ Hq) as [_ Hv]. unfold stored_word. getset. case_decide as E.
  - subst i. apply load_store32. unfold PTE_P, PTE_W, PTE_U, two31, two32 in *. lia.
  - rewrite load_store32_other by lia. apply load32_ext. intros x Hx. apply zeroed_out.
    pose proof (pages_disjoint _ pgdir q (pd_dir _ _ _ _ Hpd) Hq ltac:(done)).
    unfold in_page, PGSIZE in *. lia.
Qed.

Lemma new_pagedir : free_list d1 l' -> pagedir d3 pgdir (<[PDX va := q]> t) l'.
Proof.
  intros Hf. pose proof new_ok as Hq. destruct new_ne as (N1 & N2 & N3).
  destruct Hpd as [P1 P2 P3 P4 P5 P6 P7 P8].
  assert (forall p, p ∉ l -> p ∉ l') as Hsub by (intros p Hn Hin; apply Hn; rewrite Hl; by right).
  split.
  - apply (free_list_mem d1); try done. intros p x Hp Hx.
    destruct Hf as [_ F2 _]. rewrite Forall_forall in F2. specialize (F2 p Hp). change (kend d1) with (kend d) in F2.
    change (mem d1 x) with (mem d x). apply new_mem.
    + pose proof (pages_disjoint _ p q F2 Hq ltac:(congruence)). unfold in_page, PGSIZE in *. lia.
    + assert (p <> pgdir) as Hne by (intros ->; by apply (Hsub pgdir)).
      pose proof (pages_disjoint _ p pgdir F2 P3 Hne). pose proof (PDX_range va).
      unfold in_page, PGSIZE in *. lia.
  - unfold stored_word. getset. apply store32_bytes. intros x. rewrite memset_spec by done.
    destruct (_ && _); [by vm_compute|apply P2].
  - exact P3.
  - intros i p. rewrite lookup_insert. case_decide; [|apply P4]. intros. by simplify_eq.
  - intros i j p. rewrite !lookup_insert. repeat case_decide; intros; simplify_eq; try done; try (by eapply P5).
    + by destruct (N3 j p).
    + by destruct (N3 i p).
  - intros i p. rewrite lookup_insert. case_decide; [intros [= <-]; done|]. intros Hp.
    destruct (P6 i p Hp) as [? Hn]. auto.
  - auto.
  - intros i Hi. cbv zeta. rewrite new_pde by done. rewrite lookup_insert. case_decide as E.
    + subst i. by rewrite decide_True.
    + rewrite decide_False by done. by apply P8.
Qed.

Lemma new_entry va' : entry (mem d3) (<[PDX va := q]> t) va' = entry (mem d) t va'.
Proof.
  destruct new_ne as (N1 & N2 & N3). pose proof (PTX_range va'). unfold entry. rewrite lookup_insert.
  case_decide as E; [rewrite <- E, Ht; by apply new_zero|].
  destruct (t !! PDX va') as [p|] eqn:Ep; [|done].
  apply new_word; [by eapply Hpd|by eapply N3|by eapply (pd_ne _ _ _ _ Hpd)|done].
Qed.

Lemma runs_walk_new :
  runs c me L (walkpgdir pgdir va true) d (q + 4 * PTX va) d3 L /\
  pagedir d3 pgdir (<[PDX va := q]> t) l'.
Proof.
  pose proof (pd_entries _ _ _ _ Hpd (PDX va) (PDX_range va)) as He. cbv zeta in He. rewrite Ht in He.
  pose proof (pd_free _ _ _ _ Hpd) as Hf. pose proof pde_addr as Ea. pose proof new_ok as Hq.
  rewrite Hl in Hf. destruct (runs_kalloc c me L d q l' HL Hf) as [Hr Hf1].
  destruct (V2P_aligned _ _ Hq) as [Hal _].
  split; [|by apply new_pagedir]. unfold walkpgdir. eapply runs_bind; [apply runs_kload|]. rewrite Ea.
  fold (present (load32 (mem d) (V2P pgdir + 4 * PDX va))). rewrite He. cbn [negb].
  eapply runs_bind; [exact Hr|].
  rewrite (proj2 (Z.eqb_neq _ _)) by (destruct Hq as (_ & _ & Hq); unfold KERNBASE in Hq; lia).
  eapply runs_bind; [apply runs_setd|]. eapply runs_bind; [apply runs_kstore|].
  eapply runs_eq; [apply runs_ret|]. rewrite Ea. f_equal.
  rewrite (aligned_lor (V2P q) PTE_P) by done. rewrite <- !Z.lor_assoc.
  rewrite <- (aligned_lor (V2P q) PTE_P), <- Z.lor_assoc by done. by apply aligned_lor.
Qed.
End New.
End Walk.

Lemma stored_word_sbm d a v : same_but_mem d (stored_word d a v).
Proof. by destruct d. Qed.

(** [walkpgdir] with allocation: either the address of the entry, with the map
    as it was, or 0 and no free page left. *)
Lemma runs_walkpgdir c me L d pgdir t l va :
  LKmem ∉ L -> pagedir d pgdir t l ->
  (exists p d' t' l', runs c me L (walkpgdir pgdir va true) d (p + 4 * PTX va) d' L /\
     t' !! PDX va = Some p /\ pagedir d' pgdir t' l' /\ same_but_mem d d' /\ l' `suffix_of` l /\
     (forall i q, t !! i = Some q -> t' !! i = Some q) /\
     (forall i q, t' !! i = Some q -> t !! i = Some q \/ q ∈ l) /\
     (forall va', entry (mem d') t' va' = entry (mem d) t va') /\
     (forall x, elsewhere pgdir t l x -> mem d' x = mem d x)) \/
  (l = [] /\ runs c me L (walkpgdir pgdir va true) d 0 d L).
Proof.
  intros HL Hpd. destruct (t !! PDX va) as [p|] eqn:Ht.
  { left. exists p, d, t, l. split; [by eapply runs_walk_some|].
    split_and!; try done; [apply sbm_refl|by left]. }
  destruct l as [|q l'] eqn:El.
  { right. split; [done|]. by eapply runs_walk_full. }
  left. destruct (runs_walk_new c me L HL d pgdir t (q :: l') va Hpd q l' eq_refl Ht) as [Hr Hpd'].
  eexists q, _, (<[PDX va := q]> t), l'. split; [exact Hr|]. split; [by rewrite lookup_insert_eq|].
  split; [done|]. split; [by destruct d|]. split; [by exists [q]|]. split_and!.
  - intros i p Hp. rewrite lookup_insert. case_decide; [congruence|done].
  - intros i p. rewrite lookup_insert. case_decide; [intros [= <-]; right; left|by left].
  - intros va'. by eapply (new_entry d pgdir t (q :: l')).
  - intros x (H1 & _ & H3). eapply new_mem; try done; [by apply H3; left|].
    pose proof (PDX_range va). unfold in_page, PGSIZE in H1. lia.
Qed.

(** ** mappages *)

Definition mkpte (pa perm : Z) : Z := Z.lor (Z.lor pa perm) PTE_P.

(** Pages of 32-bit addresses *)
Lemma same_page a b : 0 <= a < two32 -> 0 <= b < two32 ->
  (PDX a = PDX b /\ PTX a = PTX b) <-> a / PGSIZE = b / PGSIZE.
Proof.
  intros Ha Hb. rewrite !PDX_spec, !PTX_spec. change (2 ^ 22) with 4194304. change (2 ^ 12) with 4096.
  unfold PGSIZE, two32 in *. Z.div_mod_to_equations. lia.
Qed.

Lemma mkpte_range pa perm : aligned pa -> 0 <= pa -> pa + PGSIZE <= two32 -> 0 <= perm < PGSIZE ->
  mkpte pa perm = pa + Z.lor perm PTE_P /\ 0 <= Z.lor perm PTE_P < PGSIZE /\ 0 <= mkpte pa perm < two32.
Proof.
  intros Ha H0 H1 Hp. assert (0 <= Z.lor perm PTE_P < PGSIZE) as Hl.
  { split; [apply Z.lor_nonneg; unfold PTE_P; lia|].
    unfold PGSIZE, PTE_P in *. destruct (decide (Z.lor perm 1 = 0)) as [->|Hne]; [done|].
    apply (Z.log2_lt_pow2 _ 12); [pose proof (Z.lor_nonneg perm 1); lia|].
    rewrite Z.log2_lor by lia. apply Z.max_lub_lt; [|done].
    destruct (decide (perm = 0)) as [->|]; [done|]. apply Z.log2_lt_pow2; lia. }
  assert (mkpte pa perm = pa + Z.lor perm PTE_P) as E.
  { unfold mkpte. rewrite <- Z.lor_assoc. by apply aligned_lor. }
  rewrite E. split_and!; try done; lia.
Qed.

Section Mappages.
Context (c : nat) (me : option nat) (L : list lockid) (pgdir perm : Z).
Hypothesis HL : LKmem ∉ L.
Hypothesis Hperm : 0 <= perm < PGSIZE.

(** [k] pages from [a] on have been mapped to the pages from [pa] on. *)
Record mapped (d : data) (t : gmap Z Z) (l : list Z) (a pa k : Z) (d' : data) (t' : gmap Z Z)
    (l' : list Z) : Prop := {
  mp_dir : pagedir d' pgdir t' l';
  mp_same : same_but_mem d d';
  mp_suffix : l' `suffix_of` l;
  mp_tabs : forall i q, t' !! i = Some q -> t !! i = Some q \/ q ∈ l;
  mp_entry : forall va, 0 <= va < two32 -> entry (mem d') t' va =
    if decide (a <= va < a + k * PGSIZE) then mkpte (pa + (va / PGSIZE * PGSIZE - a)) perm
    else entry (mem d) t va;
  mp_else : forall x, elsewhere pgdir t l x -> mem d' x = mem d x
}.

Lemma mapped_nil d t l a pa : pagedir d pgdir t l -> mapped d t l a pa 0 d t l.
Proof.
  intros H. split; try done; [apply sbm_refl|by left|]. intros va Hva. rewrite decide_False; [done|lia].
Qed.

Lemma elsewhere_later d t l a pa k d' t' l' x :
  mapped d t l a pa k d' t' l' -> elsewhere pgdir t l x -> elsewhere pgdir t' l' x.
Proof.
  intros [M1 M2 M3 M4 M5 M6] (E1 & E2 & E3). split_and!; [done| |].
  - intros i p Hp. destruct (M4 i p Hp) as [?|?]; [by eapply E2|by apply E3].
  - intros p Hp. apply E3. by eapply elem_of_suffix.
Qed.

(** One page *)
Lemma runs_map_page d t l a pa :
  pagedir d pgdir t l -> aligned a -> 0 <= a < two32 -> aligned pa -> 0 <= pa -> pa + PGSIZE <= two32 ->
  present (entry (mem d) t a) = false ->
  (exists p d1 d2 t' l', runs c me L (walkpgdir pgdir a true) d p d1 L /\ p <> 0 /\
     present (load32 (mem d1) (V2P p)) = false /\
     runs c me L (kstore p (mkpte pa perm)) d1 tt d2 L /\ mapped d t l a pa 1 d2 t' l') \/
  (l = [] /\ runs c me L (walkpgdir pgdir a true) d 0 d L).
Proof.
  intros Hpd Ha Hr Hpa H0 H1 He.
  destruct (runs_walkpgdir c me L d pgdir t l a HL Hpd)
    as [(p & d1 & t' & l' & Hw & Htp & Hpd1 & Hs & Hsuf & _ & Ht' & Hen & Hel)|?]; [left|by right].
  pose proof (pd_tabs _ _ _ _ Hpd1 _ _ Htp) as Hok. pose proof (PTX_range a) as Hx.
  assert (V2P (p + 4 * PTX a) = V2P p + 4 * PTX a) as Ev.
  { eapply V2P_off; [done|]. unfold PGSIZE. lia. }
  destruct (mkpte_range pa perm) as (Em & Hl & Hv); try done.
  destruct (pagedir_store d1 pgdir t' l' Hpd1 (PDX a) p (PTX a) (mkpte pa perm) Htp
    (PDX_range a) Hx Hv) as [Hpd2 Hen2].
  exists (p + 4 * PTX a), d1, (stored_word d1 (V2P p + 4 * PTX a) (mkpte pa perm)), t', l'.
  split; [done|]. split; [destruct Hok as (_ & _ & Hk); unfold KERNBASE in Hk; lia|]. split.
  { rewrite Ev. pose proof (Hen a) as E. unfold entry at 1 in E. rewrite Htp in E. by rewrite E. }
  split; [eapply runs_eq; [apply runs_kstore|by rewrite Ev]|].
  split; try done.
  - eapply sbm_trans; [done|apply stored_word_sbm].
  - intros va Hva. rewrite Hen2, Hen.
    assert ((PDX va = PDX a /\ PTX va = PTX a) <-> a <= va < a + 1 * PGSIZE) as Hiff.
    { rewrite same_page by done. unfold aligned, PGSIZE in *. Z.div_mod_to_equations. lia. }
    destruct (decide (a <= va < a + 1 * PGSIZE)) as [Hin|Hout].
    + rewrite decide_True by (by apply Hiff). f_equal.
      unfold aligned, PGSIZE in *. Z.div_mod_to_equations. lia.
    + rewrite decide_False; [done|]. by rewrite Hiff.
  - intros x Hx'. unfold stored_word. getset. rewrite store_outside; [by apply Hel|].
    destruct Hx' as (_ & E2 & E3). intros Hin.
    assert (~ in_page p x) as Hn by (destruct (Ht' _ _ Htp) as [?|?]; [by eapply E2|by apply E3]).
    apply Hn. unfold in_page, PGSIZE. lia.
Qed.

Lemma mapped_trans d0 t0 l0 a pa d1 t1 l1 k d2 t2 l2 : aligned a -> 0 <= a -> 0 <= k ->
  mapped d0 t0 l0 a pa 1 d1 t1 l1 -> mapped d1 t1 l1 (a + PGSIZE) (pa + PGSIZE) k d2 t2 l2 ->
  mapped d0 t0 l0 a pa (k + 1) d2 t2 l2.
Proof.
  intros Ha H0 Hk M N. split.
  - apply (mp_dir _ _ _ _ _ _ _ _ _ N).
  - eapply sbm_trans; [apply M|apply N].
  - etrans; [apply N|apply M].
  - intros i q Hq. destruct (mp_tabs _ _ _ _ _ _ _ _ _ N _ _ Hq) as [Hq'|Hq'].
    + by apply (mp_tabs _ _ _ _ _ _ _ _ _ M).
    + right. eapply elem_of_suffix; [done|apply M].
  - intros va Hva. rewrite (mp_entry _ _ _ _ _ _ _ _ _ N), (mp_entry _ _ _ _ _ _ _ _ _ M) by done.
    repeat case_decide; unfold PGSIZE in *; first [lia|done|f_equal; lia].
  - intros x Hx. rewrite (mp_else _ _ _ _ _ _ _ _ _ N) by (by eapply elsewhere_later).
    by apply (mp_else _ _ _ _ _ _ _ _ _ M).
Qed.

Lemma runs_page_round last d a pa p d1 d2 r :
  runs c me L (walkpgdir pgdir a true) d p d1 L -> p <> 0 -> present (load32 (mem d1) (V2P p)) = false ->
  runs c me L (kstore p (mkpte pa perm)) d1 tt d2 L ->
  r = (if a =? last then inr 0 else inl (u32 (a + PGSIZE), u32 (pa + PGSIZE))) ->
  runs c me L (mappages_round pgdir perm last (a, pa)) d r d2 L.
Proof.
  intros Hw Hp Hn Hs ->. unfold mappages_round. eapply runs_bind; [exact Hw|].
  rewrite (proj2 (Z.eqb_neq _ _)) by done. eapply runs_bind; [apply runs_kload|].
  unfold present in Hn. rewrite Hn. eapply runs_bind; [exact Hs|]. destruct (a =? last); apply runs_ret.
Qed.

Lemma runs_map_pages (n : nat) : forall d t l a pa,
  let last := a + Z.of_nat n * PGSIZE in
  pagedir d pgdir t l -> aligned a -> 0 <= a -> last + PGSIZE <= two32 ->
  aligned pa -> 0 <= pa -> pa + Z.of_nat (S n) * PGSIZE <= two32 ->
  (forall va, a <= va <= last -> present (entry (mem d) t va) = false) ->
  (exists d' t' l', runs c me L (loop (S n) (mappages_round pgdir perm last) (a, pa)) d 0 d' L /\
     mapped d t l a pa (Z.of_nat (S n)) d' t' l') \/
  (exists k d' t', 0 <= k <= Z.of_nat n /\
     runs c me L (loop (S n) (mappages_round pgdir perm last) (a, pa)) d (-1) d' L /\
     mapped d t l a pa k d' t' []).
Proof.
  induction n as [|n IH]; intros d t l a pa last Hpd Ha H0 Hl Hpa Hp0 Hp1 Hfree;
    (destruct (runs_map_page d t l a pa) as [(p & d1 & d2 & t' & l' & Hw & Hp & Hn & Hs & M)|(-> & Hw)];
      [done|done|unfold last, PGSIZE in *; lia|done|done|unfold PGSIZE in *; lia
      |apply Hfree; unfold last, PGSIZE; lia| |
       right; exists 0, d, t; split; [lia|]; split; [|by apply mapped_nil];
       apply runs_loop_stop; eapply runs_bind; [exact Hw|apply runs_ret]]).
  - left. exists d2, t', l'. split; [|done]. apply runs_loop_stop.
    eapply runs_page_round; try done. by rewrite (proj2 (Z.eqb_eq _ _)) by (unfold last; lia).
  - assert (runs c me L (mappages_round pgdir perm last (a, pa)) d (inl (a + PGSIZE, pa + PGSIZE)) d2 L) as Hm.
    { eapply runs_page_round; try done. rewrite (proj2 (Z.eqb_neq _ _)) by (unfold last, PGSIZE; lia).
      rewrite !u32_small; [done|..]; unfold last, PGSIZE in *; lia. }
    assert (last = a + PGSIZE + Z.of_nat n * PGSIZE) as El by (unfold last; lia).
    destruct (IH d2 t' l' (a + PGSIZE) (pa + PGSIZE)) as [(d3 & t3 & l3 & Hr & N)|(k & d3 & t3 & Hk & Hr & N)];
      try (rewrite <- El); try (by apply M); try (unfold aligned, PGSIZE in *; Z.div_mod_to_equations; lia).
    { intros va Hva. rewrite (mp_entry _ _ _ _ _ _ _ _ _ M) by (unfold PGSIZE in *; lia).
      rewrite decide_False by (unfold PGSIZE in *; lia). apply Hfree. unfold PGSIZE in *. lia. }
    + left. exists d3, t3, l3. rewrite <- El in Hr. split; [by eapply runs_loop_more|].
      replace (Z.of_nat (S (S n))) with (Z.of_nat (S n) + 1) by lia. eapply mapped_trans; try done; lia.
    + right. exists (k + 1), d3, t3. rewrite <- El in Hr. split; [lia|]. split; [by eapply runs_loop_more|].
      eapply mapped_trans; try done; lia.
Qed.

(** What the hardware makes of an entry *)
Lemma translate_entry d t l va q (write : bool) :
  pagedir d pgdir t l -> cr3 d = V2P pgdir -> entry (mem d) t va = mkpte q perm ->
  aligned q -> 0 <= q -> q + PGSIZE <= two32 -> (write = true -> Z.land perm PTE_W <> 0) ->
  translate d write va = Some (q + va mod PGSIZE).
Proof.
  intros Hpd Hcr He Hq H0 H1 Hw. destruct (mkpte_range q perm) as (Em & Hl & _); try done.
  pose proof (PDX_range va) as Hx.
  assert (Z.land (mkpte q perm) PTE_P <> 0) as HP.
  { rewrite Em, land_add by done. rewrite Z.land_lor_distr_l. intros E%Z.lor_eq_0_iff. by destruct E. }
  destruct (t !! PDX va) as [p|] eqn:Ht; unfold entry in He; rewrite Ht in He;
    [|rewrite <- He in HP; by destruct HP].
  pose proof (pd_entries _ _ _ _ Hpd (PDX va) Hx) as Hpde. cbv zeta in Hpde. rewrite Ht in Hpde.
  destruct (V2P_aligned _ _ (pd_tabs _ _ _ _ Hpd _ _ Ht)) as [Hpa _].
  unfold translate. rewrite Hcr, Hpde, PTE_ADDR_add by done.
  rewrite (land_add (V2P p) _ PTE_P), (land_add (V2P p) _ PTE_W) by done.
  replace (negb write || negb (Z.land (PTE_P + PTE_W + PTE_U) PTE_W =? 0)) with true by (by destruct write).
  rewrite He. rewrite (proj2 (Z.eqb_neq _ _) HP). cbn [negb andb].
  replace (negb write || negb (Z.land (mkpte q perm) PTE_W =? 0)) with true.
  - by rewrite Em, PTE_ADDR_add by done.
  - destruct write; [|done]. cbn. symmetry. rewrite Em, land_add by done. apply negb_true_iff, Z.eqb_neq.
    rewrite Z.land_lor_distr_l. intros [? _]%Z.lor_eq_0_iff. by apply Hw.
Qed.
End Mappages.

(** The pages of a range *)
Lemma range_pages va size : 0 <= va -> 0 < size -> va + size <= two32 ->
  let a := PGROUNDDOWN va in let e := PGROUNDDOWN (va + size - 1) in
  aligned a /\ 0 <= a <= va /\ va < a + PGSIZE /\ va + size <= e + PGSIZE <= two32 /\
  exists k, (e - a) / PGSIZE + 1 = Z.of_nat (S k) /\ e = a + Z.of_nat k * PGSIZE.
Proof.
  intros H0 Hs H1 a e. unfold a, e. rewrite !PGROUNDDOWN_spec.
  split_and!; [unfold aligned, PGSIZE, two32 in *; Z.div_mod_to_equations; lia..|].
  exists (Z.to_nat ((va + size - 1) / PGSIZE - va / PGSIZE)).
  unfold PGSIZE in *. Z.div_mod_to_equations. lia.
Qed.

Lemma mappages_loop pgdir perm va size pa k : 0 <= va -> 0 < size -> va + size <= two32 ->
  PGROUNDDOWN (va + size - 1) = PGROUNDDOWN va + Z.of_nat k * PGSIZE ->
  mappages pgdir va size pa perm =
    loop (S k) (mappages_round pgdir perm (PGROUNDDOWN va + Z.of_nat k * PGSIZE)) (PGROUNDDOWN va, pa).
Proof.
  intros H0 Hs H1 E. destruct (range_pages va size) as (_ & ? & _ & ? & _); try done.
  unfold mappages. rewrite (u32_small (va + size - 1)) by lia. rewrite E in *.
  rewrite u32_small by (unfold PGSIZE in *; lia).
  replace (PGROUNDDOWN va + Z.of_nat k * PGSIZE - PGROUNDDOWN va) with (Z.of_nat k * PGSIZE) by lia.
  rewrite Z.div_mul by done. by replace (Z.to_nat (Z.of_nat k) + 1)%nat with (S k) by lia.
Qed.

Lemma panics_remap c me L pgdir perm d t l a last pa n : pagedir d pgdir t l ->
  present (entry (mem d) t a) = true -> panics c me L (loop (S n) (mappages_round pgdir perm last) (a, pa)) d "remap".
Proof.
  intros Hpd Hpres. apply panics_bind. unfold mappages_round.
  unfold entry in Hpres. destruct (t !! PDX a) as [p|] eqn:Ht; [|done].
  pose proof (pd_tabs _ _ _ _ Hpd _ _ Ht) as Hok. pose proof (PTX_range a).
  eapply runs_panics; [by eapply runs_walk_some|].
  rewrite (proj2 (Z.eqb_neq _ _)) by (destruct Hok as (_ & _ & Hk); unfold KERNBASE in Hk; lia).
  eapply runs_panics; [apply runs_kload|]. rewrite (V2P_off _ _ _ Hok) by (unfold PGSIZE; lia).
  unfold present in Hpres. rewrite Hpres. apply panics_panic.
Qed.

(** An address that is mapped, when its page is not the one at [a], is above it. *)
Lemma next_page m t a x : aligned a -> 0 <= a -> a <= x < two32 ->
  present (entry m t a) = false -> present (entry m t x) = true -> a + PGSIZE <= x.
Proof.
  intros Ha H0 Hx Ea Ex. destruct (decide (a + PGSIZE <= x)) as [|Hn]; [done|].
  assert (PDX x = PDX a /\ PTX x = PTX a) as [E1 E2].
  { apply same_page; unfold aligned, PGSIZE, two32 in *; [lia..|]. Z.div_mod_to_equations. lia. }
  unfold entry in *. rewrite E1, E2 in Ex. congruence.
Qed.

(** A page of the range that is mapped already: the loop panics when it comes
    there, and only the lack of pages for tables can stop it before. *)
Lemma panics_map_pages c me L pgdir perm (n : nat) x : LKmem ∉ L -> 0 <= perm < PGSIZE -> forall d t l a pa,
  let last := a + Z.of_nat n * PGSIZE in
  pagedir d pgdir t l -> aligned a -> 0 <= a -> last + PGSIZE <= two32 ->
  aligned pa -> 0 <= pa -> pa + Z.of_nat (S n) * PGSIZE <= two32 ->
  a <= x < last + PGSIZE -> present (entry (mem d) t x) = true ->
  panics c me L (loop (S n) (mappages_round pgdir perm last) (a, pa)) d "remap" \/
  exists k d' t', 0 <= k /\ a + (k + 1) * PGSIZE <= x /\
    runs c me L (loop (S n) (mappages_round pgdir perm last) (a, pa)) d (-1) d' L /\
    mapped pgdir perm d t l a pa k d' t' [].
Proof.
  intros HL Hperm. induction n as [|n IH]; intros d t l a pa last Hpd Ha H0 Hl Hpa Hp0 Hp1 Hx Hpres;
    (destruct (present (entry (mem d) t a)) eqn:Ea; [left; by eapply panics_remap|]);
    (assert (a + PGSIZE <= x) as Hax by (eapply next_page; try done; unfold last, PGSIZE in *; lia));
    [unfold last, PGSIZE in *; lia|].
  destruct (runs_map_page c me L pgdir perm HL Hperm d t l a pa)
    as [(p & d1 & d2 & t' & l' & Hw & Hp & Hn & Hs & M)|(-> & Hw)]; try done; [unfold last, PGSIZE in *; lia..| |].
  - assert (runs c me L (mappages_round pgdir perm last (a, pa)) d (inl (a + PGSIZE, pa + PGSIZE)) d2 L) as Hm.
    { eapply runs_page_round; try done. rewrite (proj2 (Z.eqb_neq _ _)) by (unfold last, PGSIZE; lia).
      rewrite !u32_small; [done|..]; unfold last, PGSIZE in *; lia. }
    assert (last = a + PGSIZE + Z.of_nat n * PGSIZE) as El by (unfold last; lia).
    destruct (IH d2 t' l' (a + PGSIZE) (pa + PGSIZE)) as [Hpan|(k & d3 & t3 & Hk & Hkx & Hr & N)];
      try (rewrite <- El); try (by apply M); try (unfold aligned, PGSIZE in *; Z.div_mod_to_equations; lia).
    + rewrite (mp_entry _ _ _ _ _ _ _ _ _ _ _ M) by (unfold last, PGSIZE in *; lia).
      by rewrite decide_False by (unfold PGSIZE in *; lia).
    + left. rewrite <- El in Hpan. rewrite loop_unfold. eapply runs_panics; [exact Hm|exact Hpan].
    + right. exists (k + 1), d3, t3. rewrite <- El in Hr. split; [lia|]. split; [unfold PGSIZE in *; lia|].
      split; [by eapply runs_loop_more|]. eapply mapped_trans; try done; lia.
  - right. exists 0, d, t. split; [lia|]. split; [unfold PGSIZE in *; lia|]. split; [|by apply mapped_nil].
    apply runs_loop_stop. eapply runs_bind; [exact Hw|apply runs_ret].
Qed.

Lemma mapped_translate pgdir perm d t l a pa k d' t' l' x (write : bool) :
  mapped pgdir perm d t l a pa k d' t' l' -> 0 <= perm < PGSIZE -> cr3 d = V2P pgdir ->
  aligned a -> 0 <= a -> a + k * PGSIZE <= two32 -> aligned pa -> 0 <= pa -> pa + k * PGSIZE <= two32 ->
  a <= x < a + k * PGSIZE -> (write = true -> Z.land perm PTE_W <> 0) ->
  translate d' write x = Some (pa + (x - a)).
Proof.
  intros M Hperm Hcr Ha H0 H1 Hpa Hp0 Hp1 Hx Hw.
  assert (x / PGSIZE * PGSIZE + x mod PGSIZE = x) as Ex
    by (pose proof (Z.div_mod x PGSIZE); unfold PGSIZE in *; lia).
  rewrite (translate_entry pgdir perm Hperm d' t' l' x (pa + (x / PGSIZE * PGSIZE - a))); try done.
  - f_equal. lia.
  - apply M.
  - by rewrite (mp_same _ _ _ _ _ _ _ _ _ _ _ M).
  - rewrite (mp_entry _ _ _ _ _ _ _ _ _ _ _ M), decide_True by lia. done.
  - clear Ex. unfold aligned, PGSIZE in *. Z.div_mod_to_equations. lia.
  - clear Ex. unfold aligned, PGSIZE in *. Z.div_mod_to_equations. lia.
  - clear Ex. unfold aligned, PGSIZE in *. Z.div_mod_to_equations. lia.
Qed.

(** C21: [mappages] makes entries for all pages that the addresses from [va] to
    [va + size - 1] touch, and for no others.  The hardware then translates
    these addresses to the physical ones from [pa] on, writes included when
    [perm] has PTE_W; other addresses keep their translations and memory
    outside the page tables and the free pages is not touched.  The only
    failure is that pages for tables run out; the result is then -1 and an
    initial part of the range is mapped.  Any page of the range that is already
    mapped makes it panic, unless the pages for tables run out before it comes
    there. *)
Theorem mappages_maps c me L pgdir perm d t l va size pa :
  let a := PGROUNDDOWN va in
  let n := (PGROUNDDOWN (va + size - 1) - a) / PGSIZE + 1 in
  LKmem ∉ L -> 0 <= perm < PGSIZE -> pagedir d pgdir t l ->
  0 <= va -> 0 < size -> va + size <= two32 -> aligned pa -> 0 <= pa -> pa + n * PGSIZE <= two32 ->
  ((forall x, a <= x < a + n * PGSIZE -> present (entry (mem d) t x) = false) ->
   (exists d' t' l', runs c me L (mappages pgdir va size pa perm) d 0 d' L /\
      mapped pgdir perm d t l a pa n d' t' l' /\
      (cr3 d = V2P pgdir -> forall x write, va <= x < va + size ->
         (write = true -> Z.land perm PTE_W <> 0) -> translate d' write x = Some (pa + (x - a)))) \/
   (exists k d' t', 0 <= k < n /\ runs c me L (mappages pgdir va size pa perm) d (-1) d' L /\
      mapped pgdir perm d t l a pa k d' t' [])) /\
  (forall x, a <= x < a + n * PGSIZE -> present (entry (mem d) t x) = true ->
   panics c me L (mappages pgdir va size pa perm) d "remap" \/
   exists k d' t', 0 <= k /\ a + (k + 1) * PGSIZE <= x /\
     runs c me L (mappages pgdir va size pa perm) d (-1) d' L /\ mapped pgdir perm d t l a pa k d' t' []).
Proof.
  intros a n HL Hperm Hpd H0 Hs H1 Hpa Hp0 Hp1.
  destruct (range_pages va size H0 Hs H1) as (Ha & Hav & Hva & [Hev Het] & k & En & Ee).
  fold a in Ha, Hav, Hva, En, Ee. fold n in En. rewrite Ee in Hev, Het. rewrite En in Hp1 |- *.
  rewrite (mappages_loop pgdir perm va size pa k) by done. fold a. split.
  - intros Hfree.
    destruct (runs_map_pages c me L pgdir perm HL Hperm k d t l a pa) as [(d' & t' & l' & Hr & M)|H];
      [done|done|lia|lia|done|done|lia| | |].
    + intros x Hx. apply Hfree. unfold PGSIZE in *. lia.
    + left. exists d', t', l'. split; [done|]. split; [done|]. intros Hcr x w Hx Hw.
      eapply mapped_translate; try done; unfold PGSIZE in *; lia.
    + right. destruct H as (j & d' & t' & Hj & ?). exists j, d', t'. split; [lia|done].
  - intros x Hx Hpres. apply panics_map_pages; try done; unfold PGSIZE in *; lia.
Qed.

(** A directory of one page and one free page; a user page is mapped at 0x1800. *)
Definition ex_pgdir : Z := KERNBASE + 0x400000.
Definition ex_pages : data :=
  (data0 (KERNBASE + 0x300000) 0 0 ∅) <|freelist := KERNBASE + 0x401000|> <|cr3 := V2P ex_pgdir|>.

Lemma ex_pages_dir : pagedir ex_pages ex_pgdir ∅ [KERNBASE + 0x401000].
Proof.
  assert (page_ok (kend ex_pages) (KERNBASE + 0x401000)) as Hp by (vm_compute; by split_and!).
  split.
  - split; [done|by constructor|apply NoDup_singleton].
  - by intros x.
  - vm_compute. by split_and!.
  - intros i p. by rewrite lookup_empty.
  - intros i j p. by rewrite lookup_empty.
  - intros i p. by rewrite lookup_empty.
  - by intros ?%list_elem_of_singleton.
  - done.
Qed.

Lemma mappages_maps_witness :
  (exists d' t' l', runs 0 None [] (mappages ex_pgdir 0x1800 0x1000 0x402000 (PTE_W + PTE_U)) ex_pages 0 d' [] /\
     mapped ex_pgdir (PTE_W + PTE_U) ex_pages ∅ [KERNBASE + 0x401000] 0x1000 0x402000 2 d' t' l' /\
     translate d' true 0x1801 = Some 0x402801) \/
  (exists k d' t', 0 <= k < 2 /\
     runs 0 None [] (mappages ex_pgdir 0x1800 0x1000 0x402000 (PTE_W + PTE_U)) ex_pages (-1) d' [] /\
     mapped ex_pgdir (PTE_W + PTE_U) ex_pages ∅ [KERNBASE + 0x401000] 0x1000 0x402000 k d' t' []).
Proof.
  destruct (mappages_maps 0 None [] ex_pgdir (PTE_W + PTE_U) ex_pages ∅ [KERNBASE + 0x401000]
    0x1800 0x1000 0x402000) as [H _]; [set_solver|done|apply ex_pages_dir|done..|].
  destruct H as [(d' & t' & l' & Hr & M & Ht)|?]; [done| |by right].
  left. exists d', t', l'. split; [done|]. split; [done|]. by rewrite Ht.
Defined.
